(* ===== verification/_CoqProject ===== *)
-Q . S2P
Prelude.v
Memory.v
Cstring.v
Ipc.v
Heap.v
Paging.v
Vma.v
Sched.v
SchedQueue.v
SchedOps.v
SchedPriority.v
SchedSafety.v
Ports.v
Keyboard.v
Keycode.v
Console.v
Interrupts.v
Ramdisk.v
Kstring.v
Elf.v
Vfs.v
VfsProps.v
Proc.v
Shell.v
Boot.v
Virtio.v
VirtioBlk.v
VirtioNet.v
Mkramdisk.v
Syscall.v
Init.v
