(* ===== verification/Prelude.v ===== *)
(** * Aegis kernel: verification development

    A model of the Aegis microkernel and its servers, translated from the C
    sources under [src/], with the theorems that say what the code does.

    ** The program

    [kernel/src/main.c] starts the kernel: it sets up the serial console
    ([console.c]), the memory manager ([mm.c]), the endpoints ([ipc.c]), the
    interrupt tables, the timer and the keyboard ([idt.c], [timer.c],
    [keyboard.c]) and the scheduler ([sched.c]), creates two tasks, looks up
    server programs in a ramdisk image ([ramdisk.c]), loads them ([elf.c])
    and enters the scheduler.  Timer interrupts tick the scheduler and yield;
    keyboard interrupts fill a ring buffer.  The servers under [servers/]
    answer requests that arrive on endpoints: a file system in memory
    ([vfs.c]), a process table ([proc.c]) and a shell ([shell.c]); the init
    server ([init.c]) announces them.  Two virtio drivers ([virtio_blk.c],
    [virtio_net.c]) are part of the kernel but not called by it, and the host
    tool [scripts/mkramdisk.c] builds the ramdisk image.

    ** Conventions of the model

    - Machine integers are [Z] with the wrap-around written out ([u8], [u16],
      [u32], [u64], [x ⊞ y], [x ⊟ y]); array indices that the code keeps in
      small unsigned fields are [nat], and theorems bound them.
    - A component's static variables are a record; a function that changes
      them takes the record and returns the new one, next to its C result.
      A value stored through a pointer argument is an optional result.
    - Code that works through pointers (page tables, memory areas, ramdisk,
      program loader) reads and writes one byte-addressed memory, [Memory].
      The static variables of the kernel are kept outside of that memory.
      Only the program loader stores at addresses that it does not choose:
      where it runs next to the kernel ([Boot]), a store to the areas that the
      kernel occupies is a [Fault].
    - Code that can leave an array or read an uninitialised byte returns an
      [outcome], whose [Fault] marks undefined behaviour of the C code.
    - Ports are traces of events ([Ports]); what a device answers is an
      argument.  What a component prints for diagnosis is left out of its own
      file; [Boot] adds it for everything that [kmain] calls.
    - The device behind the virtio registers ([Virtio.Device]), the host of the
      image builder ([Mkramdisk.Host]) and the kernel behind the [syscall]
      instruction of the init server ([Init.SyscallEntry]) are type classes:
      the theorems hold for every instance, or for those that obey the laws
      they state, and concrete instances show that the laws can hold.  The
      drivers are computations in the monad [Virtio.hwM] on the allocator,
      the device and the trace of register accesses.
    - Loops over arrays are folds or structural recursion.  Fuel occurs where
      the C loop has no structural bound, and a theorem says that it is
      enough: [Paging.identity_map] (1024 pages and one test),
      [Elf.elf_segments] and [Boot.boot_segments] ([e_phnum] is below 65536;
      [Boot.elf_load_total]),
      [Vma] (the length of the list), [Console.serial_wait] (the bound on the
      device's delay), [Console.dec_loop] (at most 20 digits of a 64-bit
      value), [Shell.parse_loop] (every turn moves the pointer),
      [VirtioBlk.wait_used] (the bound on the device's polls) and the loops
      of [Kstring] (the length of the array).  The waiting loop of
      [VirtioNet.wait_tx] follows a schedule of interrupts.

    ** The files

    - [Prelude]: integers, [outcome], the scan idiom [first_from], the hint
      database [aegis].
    - [Memory]: bytes, little-endian words, [memcpy] and [memset]
      ([string.c]), with memories compared up to the bytes they hold.
    - [Ipc] ([ipc.c], [ipc.h]): the endpoint table.  Refinement to a finite
      map of one-place mailboxes; exactly-once delivery in order.
    - [Heap] ([mm.c]: [mm_alloc], [mm_phys_alloc]): the bump allocator, and
      the class [Allocator] with its laws [AllocatorLaws], against which
      [Paging], [Vma] and [Elf] are proved.  Blocks are disjoint, inside of the
      heap and aligned relative to its start; a request that wraps is the
      exception.
    - [Paging] ([mm.c]: page tables, [mm_init]): mapping, walking, protecting
      and unmapping agree with each other but not with the processor's walk
      [translate]; [mm_init] leaves one page mapped.
    - [Vma] ([mm.c]: memory areas): the linked list in memory refines a list
      of areas.
    - [Sched] ([sched.c], [sched.h]): the task table and the operations.
      [SchedQueue] relates the arrays to a list of slots per priority;
      [SchedOps] says what every operation does to these queues; and
      [SchedPriority] treats [task_set_priority].  [SchedSafety] is the
      transition system: indices in range in all reachable states, queues
      well formed in all disciplined runs, and the runs that break them.
    - [Ports], [Keyboard] ([keyboard.c]): the ring buffer refines a bounded
      queue; what the two translation tables hold.  [Keycode]
      ([keyboard.h]): the enumeration of the keys, and that the driver
      returns characters where it promises keys.
    - [Interrupts] ([idt.c], [timer.c], the tables and the frame of
      [isr.asm]): gates, divisor, dispatch; sleepers wake on time under
      sequences of interrupts, of which those count that find 0 in [r15];
      what an exception prints.
    - [Console] ([console.c]): what is sent, termination of the polling,
      round trips of the two number printers.
    - [Ramdisk] ([ramdisk.c]) and [Elf] ([elf.c]): lookup by name; placement
      of the segments of a program.
    - [Cstring]: the string functions of the servers on bounded arrays.
      [Kstring] ([string.c]): those of the kernel on memory, and that all
      versions agree.
    - [Vfs], [VfsProps] ([servers/vfs/vfs.c]): the file server; safety of
      the dispatcher under stated conditions, creation and removal as a
      finite map, write and read, and the two cases that leave the arrays or
      expose old contents.
    - [Proc] ([servers/proc/proc.c]): the process server.
    - [Shell] ([servers/shell/shell.c]): the shell refines a line editor in
      front of its commands; it receives its keys through [Ipc].
    - [Boot] ([main.c]): [kmain] over all kernel components, as a computation
      over the serial port with all that is printed; it ends with the tasks
      running, unless a loaded program overwrites the kernel.
    - [Virtio] ([virtio.h]): registers, queue layout and queue setup, shared by
      the drivers.  [VirtioBlk] ([virtio_blk.c]): what a request offers to
      the device, that a read ends with a device that obeys its chains, the
      bring-up, and why the initialisation refuses every real device before
      it.  [VirtioNet] ([virtio_net.c]): how a send waits and which frame it
      offers, what a receive delivers and offers again, and the frames that
      are lost, repeated or never end.
    - [Mkramdisk] ([scripts/mkramdisk.c]): the image of a directory, composed
      with [Ramdisk]: for more than eight bytes of files the tool leaves an
      array; otherwise names and sizes are found, and the contents lie
      further back than recorded.
    - [Syscall] ([syscall.c]) and [Init] ([servers/init/init.c]): the calls and
      the texts of the init server against any kernel, and that the
      dispatcher rejects them.

    ** What is not modelled

    - [console_server.c], which only halts; the boot and entry assembly; the
      tests.
    - What the drivers, the timer and the keyboard print for diagnosis outside
      of the start, and the code the tasks run between their calls to the
      scheduler.  A switch of tasks is the stack pointer
      that is saved and the one that is loaded.
    - The system call instruction of the servers other than the init server:
      a server's handlers map a request to a reply.  No code leads from the
      instruction to [syscall_dispatch].
    - The host library under [mkramdisk.c] (its commands and files are the
      class [Host]; writing succeeds), and its closing message, which asks
      for the position in a closed stream.
    - Interrupts between two statements of a driver, other than in the waiting
      loop of a send.

    Planned next: the receive and reply calls of the file and process servers
    over the interface of [Init], so that their loops are runs against a
    kernel, and sequences of requests to the block driver. *)

From Stdlib Require Export ZArith Lia.
From stdpp Require Export numbers gmap list.

#[global] Open Scope Z_scope.

(** ** Machine integers

    The unsigned C types are modelled by [Z] together with the wrap-around
    of their width: [u8], [u16], [u32] and [u64] are the conversions to
    [uint8_t], [uint16_t], [uint32_t] and [uint64_t]/[size_t]. *)

Definition u8 (z : Z) : Z := z mod 2 ^ 8.
Definition u16 (z : Z) : Z := z mod 2 ^ 16.
Definition u32 (z : Z) : Z := z mod 2 ^ 32.
Definition u64 (z : Z) : Z := z mod 2 ^ 64.

(** The 64-bit complement of the code, [~z] on a [uint64_t]. *)
Definition not64 (z : Z) : Z := u64 (Z.lnot z).

(** [~0xFFF] of the code: an [int] whose conversion to [uint64_t] is
    sign-extended. *)
Definition PAGE_MASK : Z := not64 4095.

Declare Scope aegis_scope.
Delimit Scope aegis_scope with aegis.
Notation "x ⊞ y" := (u64 (x + y)) (at level 50, left associativity) : aegis_scope.
Notation "x ⊟ y" := (u64 (x - y)) (at level 50, left associativity) : aegis_scope.
Notation "x .| y" := (Z.lor x y) (at level 51, left associativity) : aegis_scope.
Notation "x .& y" := (Z.land x y) (at level 48, left associativity) : aegis_scope.
#[global] Open Scope aegis_scope.

Create HintDb aegis.
Create Rewrite HintDb aegis.

Lemma u64_range z : 0 <= u64 z < 2 ^ 64.
Proof. apply Z.mod_pos_bound. lia. Qed.

Lemma u64_small z : 0 <= z < 2 ^ 64 → u64 z = z.
Proof. apply Z.mod_small. Qed.

Lemma u64_u64 z : u64 (u64 z) = u64 z.
Proof. apply u64_small, u64_range. Qed.

Lemma u16_range z : 0 <= u16 z < 2 ^ 16.
Proof. apply Z.mod_pos_bound. lia. Qed.

Lemma u16_small z : 0 <= z < 2 ^ 16 → u16 z = z.
Proof. apply Z.mod_small. Qed.

Lemma u8_range z : 0 <= u8 z < 2 ^ 8.
Proof. apply Z.mod_pos_bound. lia. Qed.

Lemma u8_small z : 0 <= z < 2 ^ 8 → u8 z = z.
Proof. apply Z.mod_small. Qed.

Lemma u32_small z : 0 <= z < 2 ^ 32 → u32 z = z.
Proof. apply Z.mod_small. Qed.

#[export] Hint Resolve u64_range u16_range u8_range : aegis.
#[export] Hint Rewrite u64_small u16_small u8_small u32_small using lia : aegis.

(** Masking the low [k] bits off is rounding down to a multiple of [2^k]. *)
Lemma land_not64_ones z k :
  0 <= k <= 64 → 0 <= z < 2 ^ 64 →
  Z.land z (not64 (Z.ones k)) = z - z mod 2 ^ k.
Proof.
  intros Hk Hz. unfold not64, u64.
  rewrite <-Z.land_ones by lia.
  assert (E : Z.land z (Z.land (Z.lnot (Z.ones k)) (Z.ones 64)) = Z.ldiff z (Z.ones k)).
  { rewrite Z.ldiff_land, Z.land_assoc, <-Z.land_assoc, (Z.land_comm _ (Z.ones 64)), Z.land_assoc.
    rewrite (Z.land_ones z) by lia. by rewrite Z.mod_small by lia. }
  rewrite E, Z.ldiff_ones_r by lia.
  rewrite Z.shiftr_div_pow2, Z.shiftl_mul_pow2 by lia.
  pose proof (Z.div_mod z (2 ^ k)). lia.
Qed.

(** ** Outcomes

    [Fault] marks a step whose C counterpart is undefined behaviour: an
    access outside of an object or through a null pointer, or a read of an
    uninitialised byte. *)

Inductive fault : Type :=
  | OutOfBounds
  | Uninitialised
  | NullPointer.

Inductive outcome (A : Type) : Type :=
  | Ok (a : A)
  | Fault (f : fault).
Arguments Ok {A} a.
Arguments Fault {A} f.

#[export] Instance outcome_ret : MRet outcome := @Ok.
#[export] Instance outcome_bind : MBind outcome := λ A B f m,
  match m with Ok a => f a | Fault e => Fault e end.
#[export] Instance outcome_fmap : FMap outcome := λ A B f m,
  match m with Ok a => Ok (f a) | Fault e => Fault e end.

#[export] Instance fault_eq_dec : EqDecision fault.
Proof. solve_decision. Defined.
#[export] Instance outcome_eq_dec `{EqDecision A} : EqDecision (outcome A).
Proof. solve_decision. Defined.

Definition is_ok {A} (o : outcome A) : bool :=
  match o with Ok _ => true | Fault _ => false end.

(** ** The C scan idiom

    [first_from p l i] is the loop
    [for (k = i; k < n; k++) if (p(a[k])) return k;]
    where [l] lists the elements of the array from index [i] on. *)

Fixpoint first_from {A} (p : A → bool) (l : list A) (i : nat) : option nat :=
  match l with
  | [] => None
  | x :: l' => if p x then Some i else first_from p l' (S i)
  end.

Section first_from.
Context {A : Type} (p : A → bool).
Implicit Types l : list A.

Lemma first_from_ge l i k : first_from p l i = Some k → (i ≤ k)%nat.
Proof.
  revert i; induction l as [|x l IH]; intros i; simpl; [done|].
  destruct (p x); intros H; simplify_eq; [done|]. apply IH in H. lia.
Qed.

Lemma first_from_Some l i k :
  first_from p l i = Some k ↔
  (i ≤ k)%nat ∧ (∃ x, l !! (k - i)%nat = Some x ∧ p x = true) ∧
  ∀ j x, (j < k - i)%nat → l !! j = Some x → p x = false.
Proof.
  revert i; induction l as [|x l IH]; intros i; simpl.
  { split; [done|]. intros (_ & (y & Hy & _) & _). done. }
  destruct (p x) eqn:Hx; split.
  - intros ?; simplify_eq. rewrite Nat.sub_diag. split_and!; [lia|by exists x|lia].
  - intros (Hle & (y & Hy & Hpy) & Hall). f_equal.
    destruct (decide (k = i)) as [->|Hne]; [done|].
    specialize (Hall 0%nat x ltac:(lia) eq_refl). congruence.
  - intros H. pose proof (first_from_ge _ _ _ H). apply IH in H as (? & (y & Hy & Hpy) & Hall).
    split_and!; [lia| |].
    + exists y. split; [|done]. by replace (k - i)%nat with (S (k - S i)) by lia.
    + intros [|j] z Hj Hz; simpl in Hz; [congruence|]. eapply (Hall j); [lia|done].
  - intros (Hle & (y & Hy & Hpy) & Hall).
    destruct (decide (k = i)) as [->|Hne].
    { rewrite Nat.sub_diag in Hy. simpl in Hy. congruence. }
    apply IH. split_and!; [lia| |].
    + exists y. split; [|done]. by replace (k - i)%nat with (S (k - S i)) in Hy by lia.
    + intros j z Hj Hz. eapply (Hall (S j)); [lia|done].
Qed.

Lemma first_from_None l i :
  first_from p l i = None ↔ Forall (λ x, p x = false) l.
Proof.
  revert i; induction l as [|x l IH]; intros i; simpl; [done|].
  rewrite Forall_cons_iff. destruct (p x); [split; [done|by intros [??]]|].
  rewrite IH. tauto.
Qed.

Lemma first_from_lt l i k : first_from p l i = Some k → (k < i + length l)%nat.
Proof.
  intros (Hle & (x & Hx & _) & _)%first_from_Some. apply lookup_lt_Some in Hx. lia.
Qed.
End first_from.

(** Two scans that agree element by element find the same index. *)
Lemma first_from_Forall2 {A B} (p : A → bool) (q : B → bool) l k i :
  Forall2 (λ x y, p x = q y) l k → first_from p l i = first_from q k i.
Proof.
  intros H. revert i. induction H as [|x y l k Hxy _ IH]; intros i; simpl; [done|].
  rewrite Hxy. by destruct (q y).
Qed.

#[global] Arguments first_from {A} p l i : simpl never.
