(* ===== verification/Memory.v ===== *)
(** * Byte-addressed memory

    The store the kernel works on.  [cells] holds the bytes written by the
    modelled code and [rest] what the memory contained before (the loaded
    image, the ramdisk, device-provided data), so every address has a byte.
    Multi-byte accesses are little-endian, as on x86-64.  The file also
    holds [memcpy] and [memset] of [kernel/src/string.c] (the same loops are
    repeated in [kernel/src/elf.c] and [servers/string.c]). *)

From S2P Require Import Prelude.

Record memory : Type := mk_memory {
  cells : gmap Z Z;
  rest : Z → Z
}.

Definition load8 (m : memory) (a : Z) : Z := u8 (default (m.(rest) a) (m.(cells) !! a)).

Definition store8 (a v : Z) (m : memory) : memory :=
  mk_memory (<[a := u8 v]> m.(cells)) m.(rest).

Fixpoint load_le (n : nat) (m : memory) (a : Z) : Z :=
  match n with
  | O => 0
  | S n' => load8 m a + 2 ^ 8 * load_le n' m (a + 1)
  end.

Fixpoint store_le (n : nat) (a v : Z) (m : memory) : memory :=
  match n with
  | O => m
  | S n' => store_le n' (a + 1) (v / 2 ^ 8) (store8 a v m)
  end.

Definition load16 := load_le 2.
Definition load32 := load_le 4.
Definition load64 := load_le 8.
Definition store16 := store_le 2.
Definition store32 := store_le 4.
Definition store64 := store_le 8.

(** [while (n--) *d++ = *s++;] *)
Fixpoint memcpy (n : nat) (d s : Z) (m : memory) : memory :=
  match n with
  | O => m
  | S n' => memcpy n' (d + 1) (s + 1) (store8 d (load8 m s) m)
  end.

(** [while (n--) *p++ = (uint8_t)c;] *)
Fixpoint memset (n : nat) (p c : Z) (m : memory) : memory :=
  match n with
  | O => m
  | S n' => memset n' (p + 1) c (store8 p (u8 c) m)
  end.

(** Memory is observed through [load8] only: two representations with the
    same bytes are equivalent, and the operations respect that. *)
Definition mem_equiv (m1 m2 : memory) : Prop := ∀ a, load8 m1 a = load8 m2 a.
#[export] Instance memory_equiv : Equiv memory := mem_equiv.

#[export] Instance memory_equivalence : Equivalence (≡@{memory}).
Proof.
  split.
  - intros m a. done.
  - intros m1 m2 H a. symmetry. apply H.
  - intros m1 m2 m3 H1 H2 a. etrans; [apply H1|apply H2].
Qed.

#[global] Arguments load_le : simpl never.
#[global] Arguments store_le : simpl never.

(** ** Single bytes *)

Lemma load8_range m a : 0 <= load8 m a < 2 ^ 8.
Proof. apply u8_range. Qed.

Lemma load8_store8 m a v b :
  load8 (store8 a v m) b = if decide (a = b) then u8 v else load8 m b.
Proof.
  unfold load8, store8; simpl. rewrite lookup_insert.
  case_decide; [|done]. simpl. apply u8_small, u8_range.
Qed.

#[export] Instance load8_proper : Proper ((≡) ==> (=) ==> (=)) load8.
Proof. intros m1 m2 H a ? <-. apply H. Qed.

#[export] Instance store8_proper a v : Proper ((≡) ==> (≡)) (store8 a v).
Proof.
  intros m1 m2 H b. rewrite !load8_store8. case_decide; [done|apply H].
Qed.

(** ** Little-endian words *)

Lemma load_le_0 m a : load_le 0 m a = 0.
Proof. done. Qed.

Lemma load_le_S n m a : load_le (S n) m a = load8 m a + 2 ^ 8 * load_le n m (a + 1).
Proof. done. Qed.

Lemma store_le_S n a v m :
  store_le (S n) a v m = store_le n (a + 1) (v / 2 ^ 8) (store8 a v m).
Proof. done. Qed.

Lemma load_le_range n m a : 0 <= load_le n m a < 2 ^ (8 * Z.of_nat n).
Proof.
  revert a; induction n as [|n IH]; intros a; [by rewrite load_le_0|].
  rewrite load_le_S. pose proof (load8_range m a). specialize (IH (a + 1)).
  replace (8 * Z.of_nat (S n)) with (8 + 8 * Z.of_nat n) by lia.
  rewrite Z.pow_add_r by lia. nia.
Qed.

Lemma load_le_ext n m1 m2 a :
  (∀ b, a <= b < a + Z.of_nat n → load8 m1 b = load8 m2 b) →
  load_le n m1 a = load_le n m2 a.
Proof.
  revert a; induction n as [|n IH]; intros a H; [done|].
  rewrite !load_le_S, (H a) by lia. rewrite (IH (a + 1)); [done|].
  intros b Hb. apply H. lia.
Qed.

#[export] Instance load_le_proper n : Proper ((≡) ==> (=) ==> (=)) (load_le n).
Proof. intros m1 m2 H a ? <-. apply load_le_ext. intros b _. apply H. Qed.

Lemma load8_store_le n a v m b :
  load8 (store_le n a v m) b =
  if decide (a <= b < a + Z.of_nat n) then u8 (v / 2 ^ (8 * (b - a))) else load8 m b.
Proof.
  revert a v m; induction n as [|n IH]; intros a v m.
  { rewrite decide_False by lia. done. }
  rewrite store_le_S, IH, load8_store8.
  destruct (decide (a = b)) as [->|Hne].
  - rewrite decide_False, decide_True by lia.
    by rewrite Z.sub_diag, Z.mul_0_r, Z.pow_0_r, Z.div_1_r.
  - destruct (decide (a <= b < a + Z.of_nat (S n))).
    + rewrite decide_True by lia.
      replace (8 * (b - a)) with (8 + 8 * (b - (a + 1))) by lia.
      rewrite Z.pow_add_r by lia. by rewrite Z.div_div by lia.
    + by rewrite decide_False by lia.
Qed.

#[export] Instance store_le_proper n a v : Proper ((≡) ==> (≡)) (store_le n a v).
Proof.
  intros m1 m2 H b. rewrite !load8_store_le. case_decide; [done|apply H].
Qed.

Lemma load_store_le_eq n a v m :
  load_le n (store_le n a v m) a = v mod 2 ^ (8 * Z.of_nat n).
Proof.
  revert a v m; induction n as [|n IH]; intros a v m.
  { rewrite load_le_0. by rewrite Z.mod_1_r. }
  rewrite load_le_S, store_le_S, IH, load8_store_le, load8_store8.
  rewrite decide_False, decide_True by lia. unfold u8.
  replace (8 * Z.of_nat (S n)) with (8 + 8 * Z.of_nat n) by lia.
  rewrite Z.pow_add_r, Z.rem_mul_r by lia. done.
Qed.

Lemma load_store_le_ne n k a b v m :
  a + Z.of_nat k <= b ∨ b + Z.of_nat n <= a →
  load_le n (store_le k a v m) b = load_le n m b.
Proof.
  intros H. apply load_le_ext. intros c Hc. rewrite load8_store_le.
  by rewrite decide_False by lia.
Qed.

Lemma load64_range m a : 0 <= load64 m a < 2 ^ 64.
Proof. apply (load_le_range 8). Qed.

Lemma load64_store64_eq a v m : load64 (store64 a v m) a = u64 v.
Proof. apply (load_store_le_eq 8). Qed.

Lemma load64_store64_ne a b v m :
  a + 8 <= b ∨ b + 8 <= a → load64 (store64 a v m) b = load64 m b.
Proof. intros. by apply (load_store_le_ne 8 8). Qed.

(** A word none of whose bytes is set. *)
Lemma load_le_zero n m a :
  (∀ b, a <= b < a + Z.of_nat n → load8 m b = 0) → load_le n m a = 0.
Proof.
  revert a; induction n as [|n IH]; intros a H; [done|].
  rewrite load_le_S, H by lia. rewrite IH; [lia|]. intros b Hb. apply H. lia.
Qed.

(** ** Block operations *)

Lemma load8_memset n p c m b :
  load8 (memset n p c m) b = if decide (p <= b < p + Z.of_nat n) then u8 c else load8 m b.
Proof.
  revert p m; induction n as [|n IH]; intros p m; simpl.
  { by rewrite decide_False by lia. }
  rewrite IH, load8_store8, (u8_small (u8 c)) by apply u8_range.
  repeat case_decide; done || lia.
Qed.

(** Forward byte copy: correct when the destination does not start inside
    the part of the source still to be read. *)
Lemma load8_memcpy n d s m b :
  d <= s ∨ s + Z.of_nat n <= d →
  load8 (memcpy n d s m) b =
  if decide (d <= b < d + Z.of_nat n) then load8 m (s + (b - d)) else load8 m b.
Proof.
  revert d s m; induction n as [|n IH]; intros d s m Hov; simpl.
  { by rewrite decide_False by lia. }
  rewrite IH by lia. destruct (decide (d = b)) as [->|Hne].
  - rewrite (decide_False (P := b + 1 <= b < b + 1 + Z.of_nat n)) by lia.
    rewrite decide_True, load8_store8, decide_True by lia.
    rewrite u8_small by apply load8_range. f_equal. lia.
  - case_decide as H1; case_decide as H2; try lia.
    + rewrite load8_store8, decide_False by lia. f_equal. lia.
    + by rewrite load8_store8, decide_False by lia.
Qed.

#[export] Instance memcpy_proper n d s : Proper ((≡) ==> (≡)) (memcpy n d s).
Proof.
  revert d s; induction n as [|n IH]; intros d s m1 m2 H; simpl; [done|].
  apply IH. rewrite (H s : load8 m1 s = load8 m2 s). by apply store8_proper.
Qed.

(** Decides a load from a memory that is a nest of stores, as far as [lia]
    can compare the addresses. *)
Ltac load_store :=
  unfold load16, load32, load64, store16, store32, store64;
  repeat first [rewrite load_store_le_eq | rewrite load_store_le_ne by lia].
Ltac load8_store :=
  unfold store16, store32, store64;
  repeat (rewrite load8_store_le; first [rewrite decide_False by lia | rewrite decide_True by lia]).

(** The bytes of an area. *)
Definition bytes_at (m : memory) (a : Z) (n : nat) : list Z :=
  (λ i, load8 m (a + Z.of_nat i)) <$> seq 0 n.

Lemma bytes_at_length m a n : length (bytes_at m a n) = n.
Proof. unfold bytes_at. by rewrite length_fmap, length_seq. Qed.

Lemma bytes_at_lookup m a n i :
  bytes_at m a n !! i = if decide (i < n)%nat then Some (load8 m (a + Z.of_nat i)) else None.
Proof.
  unfold bytes_at. rewrite list_lookup_fmap. case_decide.
  - by rewrite lookup_seq_lt by lia.
  - by rewrite lookup_seq_ge by lia.
Qed.

Lemma bytes_at_ext m1 m2 a1 a2 n :
  (∀ i, 0 <= i < Z.of_nat n → load8 m1 (a1 + i) = load8 m2 (a2 + i)) →
  bytes_at m1 a1 n = bytes_at m2 a2 n.
Proof.
  intros H. apply list_eq. intros i. rewrite !bytes_at_lookup.
  case_decide; [|done]. f_equal. apply H. lia.
Qed.

Lemma bytes_at_app m a n k : bytes_at m a (n + k) = bytes_at m a n ++ bytes_at m (a + Z.of_nat n) k.
Proof.
  apply list_eq. intros i. rewrite bytes_at_lookup. destruct (decide (i < n)%nat) as [Hi|Hi].
  - rewrite lookup_app_l by (rewrite bytes_at_length; lia). rewrite bytes_at_lookup.
    by rewrite !decide_True by lia.
  - rewrite lookup_app_r by (rewrite bytes_at_length; lia). rewrite bytes_at_lookup, bytes_at_length.
    repeat case_decide; try lia; [|done]. f_equal. f_equal. lia.
Qed.

(** The list [bs] lies in memory from address [a] on. *)
Definition loaded (m : memory) (a : Z) (bs : list Z) : Prop := bytes_at m a (length bs) = bs.

Lemma loaded_app m a x y : loaded m a (x ++ y) ↔ loaded m a x ∧ loaded m (a + Z.of_nat (length x)) y.
Proof.
  unfold loaded. rewrite length_app, bytes_at_app. split.
  - intros E. apply app_inj_1 in E; [done|]. by rewrite bytes_at_length.
  - intros [-> ->]. done.
Qed.

Lemma loaded_lookup m a bs i c : loaded m a bs → bs !! i = Some c → load8 m (a + Z.of_nat i) = c.
Proof.
  intros Hl Hi. rewrite <-Hl, bytes_at_lookup in Hi. by case_decide; simplify_eq.
Qed.

Lemma loaded_cons m a c bs : loaded m a (c :: bs) ↔ load8 m a = c ∧ loaded m (a + 1) bs.
Proof.
  rewrite (loaded_app m a [c] bs). apply and_iff_compat_r.
  unfold loaded, bytes_at. cbn. rewrite Z.add_0_r. naive_solver.
Qed.

#[export] Hint Resolve load8_range load_le_range load64_range : aegis.
