(* ===== verification/Cstring.v ===== *)
(** * Strings and byte arrays of the servers

    The inline [strcmp], [strlen], [strncpy], [memcpy] and [memset] of
    [servers/vfs/vfs.c] and [servers/proc/proc.c], on arrays of bytes.  An
    access outside of the array is a [Fault]. *)

From Stdlib Require Import Ascii String.
From S2P Require Import Prelude.

(** The bytes of a string literal, without its final zero. *)
Definition bytes (s : string) : list Z :=
  (λ c, Z.of_nat (nat_of_ascii c)) <$> list_ascii_of_string s.
#[global] Arguments bytes s%_string.

(** [while ( *s1 && ( *s1 == *s2)) { s1++; s2++; }] and the difference. *)
Fixpoint strcmp (s1 s2 : list Z) : outcome Z :=
  match s1, s2 with
  | c1 :: s1', c2 :: s2' =>
      if negb (c1 =? 0) && (c1 =? c2) then strcmp s1' s2' else Ok (c1 - c2)
  | _, _ => Fault OutOfBounds
  end.

Fixpoint strlen (s : list Z) : outcome nat :=
  match s with
  | [] => Fault OutOfBounds
  | c :: s' => if c =? 0 then Ok 0%nat else S <$> strlen s'
  end.

(** [bs] stored into the array [a] from index [off] on. *)
Definition store_bytes (a : list Z) (off : Z) (bs : list Z) : outcome (list Z) :=
  match bs with
  | [] => Ok a
  | _ =>
      if (0 <=? off) && (off + Z.of_nat (length bs) <=? Z.of_nat (length a))
      then Ok (take (Z.to_nat off) a ++ bs ++ drop (Z.to_nat off + length bs) a)
      else Fault OutOfBounds
  end.

(** The [n] bytes of the array [a] from index [off] on. *)
Definition fetch_bytes (a : list Z) (off n : Z) : outcome (list Z) :=
  if n =? 0 then Ok []
  else if (0 <=? off) && (off + n <=? Z.of_nat (length a))
  then Ok (take (Z.to_nat n) (drop (Z.to_nat off) a))
  else Fault OutOfBounds.

(** [memcpy(dst + doff, src + soff, n)] *)
Definition copy_bytes (dst : list Z) (doff : Z) (src : list Z) (soff n : Z) : outcome (list Z) :=
  bs ← fetch_bytes src soff n; store_bytes dst doff bs.

(** [memset(dst + off, c, n)] *)
Definition fill_bytes (dst : list Z) (off c n : Z) : outcome (list Z) :=
  if n =? 0 then Ok dst
  else if (0 <=? off) && (off + n <=? Z.of_nat (length dst))
  then Ok (take (Z.to_nat off) dst ++ replicate (Z.to_nat n) (u8 c) ++
           drop (Z.to_nat off + Z.to_nat n) dst)
  else Fault OutOfBounds.

(** The bytes that [strncpy(dest, src, n)] stores.  The zero that ends the
    first loop is not counted, so a shorter source gives [n + 1] bytes. *)
Fixpoint strncpy_bytes (n : nat) (src : list Z) : outcome (list Z) :=
  match n with
  | O => Ok []
  | S n' =>
      match src with
      | [] => Fault OutOfBounds
      | c :: src' => if c =? 0 then Ok (0 :: replicate n 0)
                     else cons c <$> strncpy_bytes n' src'
      end
  end.

Definition strncpy (dest src : list Z) (n : nat) : outcome (list Z) :=
  bs ← strncpy_bytes n src; store_bytes dest 0 bs.

(** ** The string in an array *)

(** The bytes before the first zero. *)
Fixpoint cstr (a : list Z) : list Z :=
  match a with
  | [] => []
  | c :: a' => if c =? 0 then [] else c :: cstr a'
  end.

(** The array holds a terminated string. *)
Definition terminated (a : list Z) : Prop := 0 ∈ a.

#[export] Instance terminated_dec a : Decision (terminated a).
Proof. unfold terminated. apply _. Defined.

Lemma terminated_cons c a : terminated (c :: a) → c = 0 ∨ terminated a.
Proof. unfold terminated. intros [->|?]%elem_of_cons; auto. Qed.

Lemma strcmp_total s1 s2 :
  terminated s1 → terminated s2 →
  ∃ r, strcmp s1 s2 = Ok r ∧ (r = 0 ↔ cstr s1 = cstr s2).
Proof.
  revert s2. induction s1 as [|c1 s1 IH]; intros s2 H1 H2; [by apply elem_of_nil in H1|].
  destruct s2 as [|c2 s2]; [by apply elem_of_nil in H2|]. simpl.
  destruct (Z.eqb_spec c1 0) as [->|Hc1]; simpl.
  - exists (0 - c2). split; [done|]. destruct (Z.eqb_spec c2 0) as [->|Hc2]; [done|].
    split; [lia|done].
  - destruct (Z.eqb_spec c1 c2) as [->|Hne].
    + rewrite (proj2 (Z.eqb_neq _ _)) by done.
      destruct (IH s2) as (r & -> & Hr).
      * by destruct (terminated_cons _ _ H1).
      * by destruct (terminated_cons _ _ H2).
      * exists r. split; [done|]. rewrite Hr. split; [by intros ->|by intros [= ->]].
    + exists (c1 - c2). split; [done|]. split; [lia|].
      destruct (Z.eqb_spec c2 0); [done|]. intros [= ? _]. done.
Qed.

Lemma strlen_total s : terminated s → strlen s = Ok (length (cstr s)) ∧ (length (cstr s) < length s)%nat.
Proof.
  induction s as [|c s IH]; intros H; [by apply elem_of_nil in H|]. simpl.
  destruct (Z.eqb_spec c 0) as [->|Hc]; [split; [done|simpl; lia]|].
  destruct (terminated_cons _ _ H) as [?|Ht]; [done|].
  destruct (IH Ht) as [-> ?]. split; [done|simpl; lia].
Qed.

Lemma cstr_app_zero a b : Forall (λ c, c ≠ 0) a → cstr (a ++ 0 :: b) = a.
Proof.
  induction 1 as [|c a Hc _ IH]; [done|]. simpl. rewrite (proj2 (Z.eqb_neq _ _)) by done.
  by rewrite IH.
Qed.

Lemma cstr_nonzero a : Forall (λ c, c ≠ 0) (cstr a).
Proof.
  induction a as [|c a IH]; simpl; [constructor|].
  destruct (Z.eqb_spec c 0); constructor; done.
Qed.

(** What [strncpy] stores, for a terminated source. *)
Lemma strncpy_bytes_total n src :
  terminated src →
  ∃ bs, strncpy_bytes n src = Ok bs ∧
    bs = if decide (length (cstr src) < n)%nat
         then cstr src ++ replicate (S n - length (cstr src)) 0 else take n (cstr src).
Proof.
  revert src. induction n as [|n IH]; intros src Ht.
  { exists []. split; [done|]. by rewrite decide_False by lia. }
  destruct src as [|c src]; [by apply elem_of_nil in Ht|]. cbn [strncpy_bytes cstr].
  destruct (Z.eqb_spec c 0) as [->|Hc]; cbn [length].
  - eexists. split; [done|]. rewrite decide_True by lia. done.
  - destruct (terminated_cons _ _ Ht) as [?|Ht']; [done|].
    destruct (IH src Ht') as (bs & -> & ->). eexists. split; [done|].
    destruct (decide (length (cstr src) < n)%nat).
    + by rewrite decide_True by lia.
    + by rewrite decide_False by lia.
Qed.

Lemma store_bytes_length a off bs a' : store_bytes a off bs = Ok a' → length a' = length a.
Proof.
  unfold store_bytes. destruct bs as [|b bs]; [by intros [= ->]|].
  destruct (_ && _) eqn:E; [|done]. intros [= <-].
  apply andb_true_iff in E as [H1%Z.leb_le H2%Z.leb_le].
  rewrite length_app. simpl in *. rewrite length_app, length_take, length_drop. lia.
Qed.

Lemma store_bytes_ok a off bs :
  0 <= off → off + Z.of_nat (length bs) <= Z.of_nat (length a) →
  store_bytes a off bs = Ok (take (Z.to_nat off) a ++ bs ++ drop (Z.to_nat off + length bs) a).
Proof.
  intros H1 H2. unfold store_bytes. destruct bs as [|b bs].
  { simpl. rewrite Nat.add_0_r. by rewrite take_drop. }
  rewrite (proj2 (Z.leb_le _ _)), (proj2 (Z.leb_le _ _)) by lia. done.
Qed.

Lemma fetch_bytes_ok a off n :
  0 <= off → 0 <= n → off + n <= Z.of_nat (length a) →
  fetch_bytes a off n = Ok (take (Z.to_nat n) (drop (Z.to_nat off) a)).
Proof.
  intros H1 H2 H3. unfold fetch_bytes. destruct (Z.eqb_spec n 0) as [->|]; [done|].
  rewrite (proj2 (Z.leb_le _ _)), (proj2 (Z.leb_le _ _)) by lia. done.
Qed.

(** Copying into a 64-byte name with a bound of 63, then ending it. *)
Lemma strncpy_name (k : nat) dest src :
  length dest = S k → terminated src →
  ∃ dest', strncpy dest src k = Ok dest' ∧ length dest' = S k ∧
    cstr (<[k := 0]> dest') = take k (cstr src) ∧ terminated (<[k := 0]> dest').
Proof.
  intros Hl Ht. destruct (strncpy_bytes_total k src Ht) as (bs & E & Hbs).
  assert (Hlen : (length bs <= S k)%nat).
  { rewrite Hbs. case_decide; [rewrite length_app, length_replicate; lia|rewrite length_take; lia]. }
  unfold strncpy. rewrite E. simpl. rewrite store_bytes_ok by lia.
  exists (bs ++ drop (length bs) dest). split; [done|].
  assert (Hl' : length (bs ++ drop (length bs) dest) = S k) by (rewrite length_app, length_drop; lia).
  split; [done|]. split.
  2:{ unfold terminated. apply (list_elem_of_lookup_2 _ k). apply list_lookup_insert_eq. lia. }
  rewrite Hbs. case_decide as Hk.
  - rewrite take_ge by lia.
    assert (Hr : S k = (S (k - length (cstr src)) + length (cstr src))%nat) by lia.
    rewrite insert_app_l by (rewrite length_app, length_replicate; lia).
    rewrite insert_app_r_alt by lia. rewrite <-app_assoc.
    replace (S k - length (cstr src))%nat with (S (k - length (cstr src))) by lia.
    destruct (k - length (cstr src))%nat as [|r] eqn:Er; [lia|].
    simpl. apply cstr_app_zero, cstr_nonzero.
  - assert (Ltk : length (take k (cstr src)) = k) by (rewrite length_take; lia).
    rewrite insert_app_r_alt by lia. rewrite Ltk, Nat.sub_diag.
    destruct (drop k dest) as [|x l] eqn:Ed.
    { apply (f_equal length) in Ed. rewrite length_drop in Ed. simpl in Ed. lia. }
    simpl. apply cstr_app_zero. apply Forall_take, cstr_nonzero.
Qed.
