(* ===== verification/Ipc.v ===== *)
(** * Endpoint IPC ([kernel/src/ipc.c], [kernel/include/ipc.h])

    The kernel keeps a static table of 64 endpoints, each a mailbox that
    holds at most one message.  [endpoints] below is that table, and the
    four operations of the file are state-passing functions over it.  The
    specification is a finite map from the created endpoint identifiers to
    an optional message; [ipc_refines_mailboxes] is the simulation and
    [ipc_exactly_once_in_order] the end-to-end delivery guarantee. *)

From S2P Require Import Prelude.

Definition AEGIS_MSG_PAYLOAD_SIZE : nat := 48.
Definition AEGIS_MAX_ENDPOINTS : nat := 64.

Definition MSG_PING : Z := 1.
Definition MSG_PONG : Z := 2.
Definition MSG_LOG : Z := 3.

(** ** Data *)

Record aegis_msg : Type := mk_msg {
  sender : Z;
  type : Z;
  arg0 : Z;
  arg1 : Z;
  arg2 : Z;
  payload : list Z
}.

(** [aegis_msg_t msg = {0};] *)
Definition zero_msg : aegis_msg :=
  mk_msg 0 0 0 0 0 (replicate AEGIS_MSG_PAYLOAD_SIZE 0).

Record endpoint_t : Type := mk_endpoint {
  used : bool;
  pending : aegis_msg;
  has_pending : bool
}.

#[export] Instance endpoint_inhabited : Inhabited endpoint_t :=
  populate (mk_endpoint false zero_msg false).

(** [static endpoint_t endpoints[AEGIS_MAX_ENDPOINTS]], zeroed at load. *)
Definition endpoints0 : list endpoint_t :=
  replicate AEGIS_MAX_ENDPOINTS (mk_endpoint false zero_msg false).

(** ** Operations *)

Definition ipc_init (eps : list endpoint_t) : list endpoint_t :=
  (λ e, mk_endpoint false e.(pending) false) <$> eps.

(** [int ipc_endpoint_create(endpoint_id_t *out_id)]: [out_id] tells whether
    the pointer is non-null; the second component of the result is the value
    stored through it, if any. *)
Definition ipc_endpoint_create (out_id : bool) (eps : list endpoint_t)
    : (Z * option Z) * list endpoint_t :=
  if negb out_id then ((-1, None), eps) else
  match first_from (λ e, negb e.(used)) eps 0 with
  | Some i =>
      ((0, Some (Z.of_nat i)),
       <[i := mk_endpoint true (eps !!! i).(pending) false]> eps)
  | None => ((-1, None), eps)
  end.

(** [int ipc_send(endpoint_id_t to, const aegis_msg_t *msg)]; [None] is the
    null pointer. *)
Definition ipc_send (to : Z) (msg : option aegis_msg) (eps : list endpoint_t)
    : Z * list endpoint_t :=
  match msg with
  | None => (-1, eps)
  | Some m =>
    if Z.of_nat AEGIS_MAX_ENDPOINTS <=? to then (-1, eps) else
    let e := eps !!! Z.to_nat to in
    if negb e.(used) then (-1, eps) else
    if e.(has_pending) then (-2, eps) else
    (0, <[Z.to_nat to := mk_endpoint e.(used) m true]> eps)
  end.

(** [int ipc_recv(endpoint_id_t on, aegis_msg_t *out_msg)]; the second
    component of the result is the message stored through [out_msg]. *)
Definition ipc_recv (on : Z) (out_msg : bool) (eps : list endpoint_t)
    : (Z * option aegis_msg) * list endpoint_t :=
  if negb out_msg then ((-1, None), eps) else
  if Z.of_nat AEGIS_MAX_ENDPOINTS <=? on then ((-1, None), eps) else
  let e := eps !!! Z.to_nat on in
  if negb e.(used) then ((-1, None), eps) else
  if negb e.(has_pending) then ((-2, None), eps) else
  ((0, Some e.(pending)),
   <[Z.to_nat on := mk_endpoint e.(used) e.(pending) false]> eps).

(** ** Abstract specification: a map of one-place mailboxes *)

Abbreviation mailboxes := (gmap Z (option aegis_msg)).

(** The identifiers in the order in which [create] tries them. *)
Definition endpoint_ids : list Z := Z.of_nat <$> seq 0 AEGIS_MAX_ENDPOINTS.
#[global] Arguments endpoint_ids : simpl never.

Definition id_free (mb : mailboxes) (i : Z) : bool :=
  match mb !! i with None => true | Some _ => false end.

Definition spec_create (mb : mailboxes) : (Z * option Z) * mailboxes :=
  match first_from (id_free mb) endpoint_ids 0 with
  | Some i => ((0, Some (Z.of_nat i)), <[Z.of_nat i := None]> mb)
  | None => ((-1, None), mb)
  end.

Definition spec_send (to : Z) (m : aegis_msg) (mb : mailboxes) : Z * mailboxes :=
  match mb !! to with
  | None => (-1, mb)
  | Some (Some _) => (-2, mb)
  | Some None => (0, <[to := Some m]> mb)
  end.

Definition spec_recv (on : Z) (mb : mailboxes) : (Z * option aegis_msg) * mailboxes :=
  match mb !! on with
  | None => ((-1, None), mb)
  | Some None => ((-2, None), mb)
  | Some (Some m) => ((0, Some m), <[on := None]> mb)
  end.

(** What one table entry stands for. *)
Definition abs_endpoint (e : endpoint_t) : option (option aegis_msg) :=
  if e.(used) then Some (if e.(has_pending) then Some e.(pending) else None) else None.

Definition abs_at (eps : list endpoint_t) (i : Z) : option (option aegis_msg) :=
  if decide (0 <= i) then eps !! Z.to_nat i ≫= abs_endpoint else None.

Definition ipc_repr (eps : list endpoint_t) (mb : mailboxes) : Prop :=
  length eps = AEGIS_MAX_ENDPOINTS ∧ ∀ i, mb !! i = abs_at eps i.

(** ** Lemmas *)

Lemma abs_at_in eps i :
  length eps = AEGIS_MAX_ENDPOINTS → 0 <= i < 64 →
  abs_at eps i = abs_endpoint (eps !!! Z.to_nat i).
Proof.
  intros Hlen Hi. unfold abs_at. rewrite decide_True by lia.
  rewrite list_lookup_lookup_total_lt; [done|]. rewrite Hlen. unfold AEGIS_MAX_ENDPOINTS. lia.
Qed.

Lemma abs_at_out eps i :
  length eps = AEGIS_MAX_ENDPOINTS → 64 <= i → abs_at eps i = None.
Proof.
  intros Hlen Hi. unfold abs_at. rewrite decide_True by lia.
  rewrite lookup_ge_None_2; [done|]. rewrite Hlen. unfold AEGIS_MAX_ENDPOINTS. lia.
Qed.

Lemma abs_at_insert eps (i : nat) j e :
  (i < length eps)%nat →
  abs_at (<[i := e]> eps) j = if decide (j = Z.of_nat i) then abs_endpoint e else abs_at eps j.
Proof.
  intros Hi. unfold abs_at. destruct (decide (0 <= j)).
  - case_decide; subst.
    + by rewrite Nat2Z.id, list_lookup_insert_eq.
    + rewrite list_lookup_insert_ne; [done|lia].
  - case_decide; [lia|done].
Qed.

Lemma ipc_repr_insert eps mb (i : nat) e o :
  ipc_repr eps mb → (i < AEGIS_MAX_ENDPOINTS)%nat → abs_endpoint e = Some o →
  ipc_repr (<[i := e]> eps) (<[Z.of_nat i := o]> mb).
Proof.
  intros [Hlen Hmb] Hi He. split; [by rewrite length_insert|].
  intros j. rewrite abs_at_insert by lia. rewrite lookup_insert, Hmb.
  repeat case_decide; congruence.
Qed.

Lemma ipc_repr_insert_Z eps mb z e o :
  ipc_repr eps mb → 0 <= z < Z.of_nat AEGIS_MAX_ENDPOINTS → abs_endpoint e = Some o →
  ipc_repr (<[Z.to_nat z := e]> eps) (<[z := o]> mb).
Proof.
  intros. replace (<[z := o]> mb) with (<[Z.of_nat (Z.to_nat z) := o]> mb)
    by (f_equal; lia). apply ipc_repr_insert; [done|lia|done].
Qed.

Lemma ipc_repr_length eps mb : ipc_repr eps mb → length eps = AEGIS_MAX_ENDPOINTS.
Proof. by intros [? _]. Qed.

#[export] Hint Resolve ipc_repr_insert ipc_repr_insert_Z ipc_repr_length : aegis.

(** The scan over the table and the scan over the identifiers agree. *)
Lemma create_scan eps mb :
  ipc_repr eps mb →
  first_from (λ e, negb (used e)) eps 0 =
  first_from (id_free mb) endpoint_ids 0.
Proof.
  intros [Hlen Hmb]. apply first_from_Forall2, Forall2_same_length_lookup_2.
  { by rewrite Hlen. }
  intros j e y He Hy. unfold endpoint_ids in Hy.
  rewrite list_lookup_fmap, fmap_Some in Hy. destruct Hy as (k & Hk & ->).
  apply lookup_seq in Hk as [-> Hj]. simpl.
  unfold id_free. rewrite Hmb. unfold abs_at. rewrite decide_True, Nat2Z.id, He by lia. simpl.
  unfold abs_endpoint. by destruct (used e).
Qed.

Lemma ipc_create_sim eps mb :
  ipc_repr eps mb →
  (ipc_endpoint_create true eps).1 = (spec_create mb).1 ∧
  ipc_repr (ipc_endpoint_create true eps).2 (spec_create mb).2.
Proof.
  intros H. unfold ipc_endpoint_create, spec_create. simpl. rewrite <-(create_scan eps mb H).
  destruct (first_from _ eps 0) as [i|] eqn:Hi; [|done].
  apply first_from_lt in Hi. erewrite ipc_repr_length in Hi by done.
  split; [done|]. apply ipc_repr_insert; done.
Qed.

Lemma ipc_send_sim eps mb to m :
  0 <= to → ipc_repr eps mb →
  (ipc_send to (Some m) eps).1 = (spec_send to m mb).1 ∧
  ipc_repr (ipc_send to (Some m) eps).2 (spec_send to m mb).2.
Proof.
  intros Hto H. pose proof H as [Hlen Hmb]. unfold ipc_send, spec_send.
  rewrite (Hmb to). case_match eqn:Hge.
  { apply Z.leb_le in Hge. by rewrite abs_at_out. }
  apply Z.leb_gt in Hge. rewrite abs_at_in by done. unfold abs_endpoint.
  destruct (used _) eqn:Hu; [|done]. destruct (has_pending _) eqn:Hp; [done|]. simpl.
  split; [done|]. by apply ipc_repr_insert_Z.
Qed.

Lemma ipc_recv_sim eps mb on :
  0 <= on → ipc_repr eps mb →
  (ipc_recv on true eps).1 = (spec_recv on mb).1 ∧
  ipc_repr (ipc_recv on true eps).2 (spec_recv on mb).2.
Proof.
  intros Hon H. pose proof H as [Hlen Hmb]. unfold ipc_recv, spec_recv.
  rewrite (Hmb on). simpl. case_match eqn:Hge.
  { apply Z.leb_le in Hge. by rewrite abs_at_out. }
  apply Z.leb_gt in Hge. rewrite abs_at_in by done. unfold abs_endpoint.
  destruct (used _) eqn:Hu; [|done]. destruct (has_pending _) eqn:Hp; [|done]. simpl.
  split; [done|]. by apply ipc_repr_insert_Z.
Qed.

#[local] Arguments ipc_send : simpl never.
#[local] Arguments ipc_recv : simpl never.
#[local] Arguments ipc_endpoint_create : simpl never.

Lemma ipc_init_repr eps :
  length eps = AEGIS_MAX_ENDPOINTS → ipc_repr (ipc_init eps) ∅.
Proof.
  intros Hlen. split; [by unfold ipc_init; rewrite length_fmap|].
  intros i. rewrite lookup_empty. unfold abs_at, ipc_init. case_decide; [|done].
  rewrite list_lookup_fmap. by destruct (eps !! _).
Qed.

(** ** Traces *)

Inductive ipc_op : Type :=
  | OpCreate
  | OpSend (to : Z) (m : aegis_msg)
  | OpRecv (on : Z).

Inductive ipc_event : Type :=
  | EvCreate (r : Z * option Z)
  | EvSend (to : Z) (m : aegis_msg) (r : Z)
  | EvRecv (on : Z) (r : Z * option aegis_msg).

Definition ipc_step (o : ipc_op) (eps : list endpoint_t) : ipc_event * list endpoint_t :=
  match o with
  | OpCreate => let '(r, eps') := ipc_endpoint_create true eps in (EvCreate r, eps')
  | OpSend to m => let '(r, eps') := ipc_send to (Some m) eps in (EvSend to m r, eps')
  | OpRecv on => let '(r, eps') := ipc_recv on true eps in (EvRecv on r, eps')
  end.

Fixpoint ipc_run (os : list ipc_op) (eps : list endpoint_t)
    : list ipc_event * list endpoint_t :=
  match os with
  | [] => ([], eps)
  | o :: os' =>
      let '(ev, eps1) := ipc_step o eps in
      let '(evs, eps2) := ipc_run os' eps1 in (ev :: evs, eps2)
  end.

Definition spec_step (o : ipc_op) (mb : mailboxes) : ipc_event * mailboxes :=
  match o with
  | OpCreate => let '(r, mb') := spec_create mb in (EvCreate r, mb')
  | OpSend to m => let '(r, mb') := spec_send to m mb in (EvSend to m r, mb')
  | OpRecv on => let '(r, mb') := spec_recv on mb in (EvRecv on r, mb')
  end.

Fixpoint spec_run (os : list ipc_op) (mb : mailboxes) : list ipc_event * mailboxes :=
  match os with
  | [] => ([], mb)
  | o :: os' =>
      let '(ev, mb1) := spec_step o mb in
      let '(evs, mb2) := spec_run os' mb1 in (ev :: evs, mb2)
  end.

(** The identifiers an operation names are values of an unsigned type. *)
Definition op_ok (o : ipc_op) : Prop :=
  match o with OpCreate => True | OpSend to _ => 0 <= to | OpRecv on => 0 <= on end.

#[export] Instance op_ok_dec o : Decision (op_ok o).
Proof. destruct o; apply _. Defined.

(** Messages accepted for, and delivered from, endpoint [e]. *)
Definition accepted (e : Z) (ev : ipc_event) : list aegis_msg :=
  match ev with EvSend to m r => if decide (to = e ∧ r = 0) then [m] else [] | _ => [] end.
Definition delivered (e : Z) (ev : ipc_event) : list aegis_msg :=
  match ev with EvRecv on (_, Some m) => if decide (on = e) then [m] else [] | _ => [] end.

Definition waiting (mb : mailboxes) (e : Z) : list aegis_msg :=
  match mb !! e with Some (Some m) => [m] | _ => [] end.

Lemma ipc_step_sim o eps mb :
  op_ok o → ipc_repr eps mb →
  (ipc_step o eps).1 = (spec_step o mb).1 ∧ ipc_repr (ipc_step o eps).2 (spec_step o mb).2.
Proof.
  intros Ho H. destruct o as [|to m|on]; simpl in *.
  - destruct (ipc_create_sim _ _ H) as [E R].
    destruct (ipc_endpoint_create _ _), (spec_create _); simpl in *. subst. done.
  - destruct (ipc_send_sim _ _ to m Ho H) as [E R].
    destruct (ipc_send _ _ _), (spec_send _ _ _); simpl in *. by subst.
  - destruct (ipc_recv_sim _ _ on Ho H) as [E R].
    destruct (ipc_recv _ _ _), (spec_recv _ _); simpl in *. by subst.
Qed.

Lemma ipc_run_sim os : ∀ eps mb,
  Forall op_ok os → ipc_repr eps mb →
  (ipc_run os eps).1 = (spec_run os mb).1 ∧ ipc_repr (ipc_run os eps).2 (spec_run os mb).2.
Proof.
  induction os as [|o os IH]; intros eps mb Hos H; simpl; [done|].
  apply Forall_cons_iff in Hos as [Ho Hos].
  destruct (ipc_step_sim o eps mb Ho H) as [E R].
  destruct (ipc_step o eps) as [ev eps1], (spec_step o mb) as [ev' mb1]; simpl in *; subst ev'.
  destruct (IH _ _ Hos R) as [E' R'].
  destruct (ipc_run os eps1), (spec_run os mb1); simpl in *. by subst.
Qed.

Lemma spec_step_waiting o mb e :
  waiting mb e ++ accepted e (spec_step o mb).1 =
  delivered e (spec_step o mb).1 ++ waiting (spec_step o mb).2 e.
Proof.
  unfold waiting. destruct o as [|to m|on]; simpl.
  - unfold spec_create. destruct (first_from _ _ _) as [i|] eqn:Hi; simpl; [|by rewrite app_nil_r].
    apply first_from_Some in Hi as (_ & (x & Hx & Hnone) & _).
    unfold endpoint_ids in Hx.
    rewrite list_lookup_fmap, fmap_Some in Hx. destruct Hx as (k & Hk & ->).
    apply lookup_seq in Hk as [-> _]. rewrite Nat.sub_0_r in Hnone. unfold id_free in Hnone.
    rewrite app_nil_r, lookup_insert. case_decide as E; [subst|done].
    simpl in Hnone. by destruct (mb !! _).
  - unfold spec_send. destruct (mb !! to) as [[m'|]|] eqn:Hto; simpl.
    1,3: rewrite decide_False by (by intros [_ ?]); by rewrite app_nil_r.
    destruct (decide (to = e)) as [->|Hne].
    + rewrite decide_True by done. by rewrite Hto, lookup_insert_eq.
    + rewrite decide_False by (by intros [? _]). rewrite app_nil_r. by rewrite lookup_insert_ne.
  - unfold spec_recv. destruct (mb !! on) as [[m'|]|] eqn:Hon; simpl; rewrite app_nil_r; [|done..].
    destruct (decide (on = e)) as [->|Hne].
    + by rewrite Hon, lookup_insert_eq.
    + by rewrite lookup_insert_ne.
Qed.

Lemma spec_run_waiting os e : ∀ mb,
  waiting mb e ++ concat (accepted e <$> (spec_run os mb).1) =
  concat (delivered e <$> (spec_run os mb).1) ++ waiting (spec_run os mb).2 e.
Proof.
  induction os as [|o os IH]; intros mb; simpl; [by rewrite app_nil_r|].
  pose proof (spec_step_waiting o mb e) as Hs. destruct (spec_step o mb) as [ev mb1].
  specialize (IH mb1). destruct (spec_run os mb1) as [evs mb2]. simpl in *.
  rewrite app_assoc, Hs, <-!app_assoc. f_equal. exact IH.
Qed.

Lemma ipc_waiting eps mb e :
  ipc_repr eps mb → waiting mb e = match abs_at eps e with Some (Some m) => [m] | _ => [] end.
Proof. intros [_ H]. unfold waiting. by rewrite H. Qed.

(** ** Properties *)

(** C1: every endpoint operation of the kernel simulates the one-place
    mailbox specification: return codes, the identifier chosen (the lowest
    free one), the message delivered and the successor state all agree, on
    every branch, and the null-pointer calls fail without any effect. *)
Theorem ipc_refines_mailboxes eps mb :
  ipc_repr eps mb →
  ((ipc_endpoint_create true eps).1 = (spec_create mb).1 ∧
   ipc_repr (ipc_endpoint_create true eps).2 (spec_create mb).2) ∧
  (∀ to m, 0 <= to →
   (ipc_send to (Some m) eps).1 = (spec_send to m mb).1 ∧
   ipc_repr (ipc_send to (Some m) eps).2 (spec_send to m mb).2) ∧
  (∀ on, 0 <= on →
   (ipc_recv on true eps).1 = (spec_recv on mb).1 ∧
   ipc_repr (ipc_recv on true eps).2 (spec_recv on mb).2) ∧
  (ipc_endpoint_create false eps = ((-1, None), eps) ∧
   ∀ i, ipc_send i None eps = (-1, eps) ∧ ipc_recv i false eps = ((-1, None), eps)).
Proof.
  intros H. split_and!.
  - by apply ipc_create_sim.
  - by apply ipc_create_sim.
  - intros to m Hto. by apply ipc_send_sim.
  - intros on Hon. by apply ipc_recv_sim.
  - done.
  - intros i. by split.
Qed.

Lemma ipc_refines_mailboxes_witness :
  (ipc_endpoint_create true (ipc_init endpoints0)).1 = (0, Some 0).
Proof.
  destruct (ipc_refines_mailboxes (ipc_init endpoints0) ∅) as ((E & _) & _);
    [by apply ipc_init_repr|].
  rewrite E. vm_compute. reflexivity.
Defined.

(** C2: exactly-once, in-order delivery.  In any interleaving of creations,
    sends and receives after [ipc_init], the messages accepted for an
    endpoint are the messages delivered from it followed by the message
    still pending: nothing is lost, duplicated, reordered or overwritten. *)
Theorem ipc_exactly_once_in_order os eps e :
  length eps = AEGIS_MAX_ENDPOINTS → Forall op_ok os →
  let '(evs, eps') := ipc_run os (ipc_init eps) in
  concat (accepted e <$> evs) =
  concat (delivered e <$> evs) ++
  match abs_at eps' e with Some (Some m) => [m] | _ => [] end.
Proof.
  intros Hlen Hos.
  destruct (ipc_run_sim os _ _ Hos (ipc_init_repr eps Hlen)) as [E R].
  pose proof (spec_run_waiting os e ∅) as Hw.
  destruct (ipc_run _ _) as [evs eps'], (spec_run _ _) as [evs' mb']. simpl in *. subst evs'.
  rewrite <-(ipc_waiting _ _ _ R). exact Hw.
Qed.

Lemma ipc_exactly_once_in_order_witness :
  let '(evs, eps') := ipc_run [OpCreate; OpSend 0 zero_msg; OpSend 0 zero_msg; OpRecv 0]
                              (ipc_init endpoints0) in
  concat (accepted 0 <$> evs) = [zero_msg].
Proof.
  assert (Hok : Forall op_ok [OpCreate; OpSend 0 zero_msg; OpSend 0 zero_msg; OpRecv 0])
    by (repeat constructor; simpl; lia).
  pose proof (ipc_exactly_once_in_order _ endpoints0 0 eq_refl Hok) as H.
  vm_compute in H |- *. exact H.
Defined.
