(* ===== verification/Heap.v ===== *)
(** * Kernel heap ([kernel/src/mm.c], first part)

    The memory manager's state, the bump allocator [mm_alloc], and the
    interface [Allocator] that the page tables ([Paging]) and the memory
    areas ([Vma]) are built on. *)

From S2P Require Import Prelude Memory.

Definition KERNEL_HEAP_SIZE : Z := 256 * 1024.
Definition AEGIS_PAGE_SIZE : Z := 4096.

(** ** State

    The static variables of [mm.c], together with the memory they live in.
    [heap_area] is the address the linker gives to the array of that name;
    [cr3] is the register [mm_switch_page_table] loads. *)
Record mm_state : Type := mk_mm {
  mem : memory;
  heap_area : Z;
  heap_offset : Z;
  next_phys_page : Z;
  kernel_page_table : Z;
  current_page_table : Z;
  cr3 : Z
}.

(** The state in which the image is loaded: [rest] is what memory holds. *)
Definition mm_boot (heap_area : Z) (rest : Z → Z) : mm_state :=
  mk_mm (mk_memory ∅ rest) heap_area 0 1048576 0 0 0.

Definition set_mm_mem (m : memory) (s : mm_state) : mm_state :=
  mk_mm m s.(heap_area) s.(heap_offset) s.(next_phys_page)
        s.(kernel_page_table) s.(current_page_table) s.(cr3).
Definition set_heap_offset (o : Z) (s : mm_state) : mm_state :=
  mk_mm s.(mem) s.(heap_area) o s.(next_phys_page)
        s.(kernel_page_table) s.(current_page_table) s.(cr3).

(** ** Operations *)

(** [(value + align - 1) & ~(align - 1)] on [size_t]. *)
Definition align_up (value align : Z) : Z :=
  ((value ⊞ align) ⊟ 1) .& not64 (align ⊟ 1).

(** [void *mm_alloc(size_t size, size_t align)]; 0 is the null pointer. *)
Definition mm_alloc (size align : Z) (s : mm_state) : Z * mm_state :=
  let start := align_up s.(heap_offset) align in
  if KERNEL_HEAP_SIZE <? start ⊞ size then (0, s)
  else (s.(heap_area) ⊞ start, set_heap_offset (start ⊞ size) s).

#[global] Arguments mm_alloc : simpl never.

Definition mm_phys_alloc (s : mm_state) : Z * mm_state :=
  (s.(next_phys_page),
   mk_mm s.(mem) s.(heap_area) s.(heap_offset)
         (s.(next_phys_page) ⊞ AEGIS_PAGE_SIZE)
         s.(kernel_page_table) s.(current_page_table) s.(cr3)).

(** ** The allocator interface *)

(** What the rest of the memory manager asks of an allocator: [brk] is the
    first address never handed out yet. *)
Class Allocator (S : Type) : Type := {
  alloc : Z → Z → S → Z * S;
  mem_of : S → memory;
  set_mem : memory → S → S;
  heap_start : S → Z;
  heap_limit : S → Z;
  brk : S → Z;
  alloc_inv : S → Prop
}.

Definition pow2 (align : Z) : Prop := ∃ k, 0 <= k <= 32 ∧ align = 2 ^ k.

(** The outcome of one allocation, as a client sees it. *)
Record alloc_result {S} `{Allocator S} (size align : Z) (s : S) (p : Z) (s' : S) : Prop := {
  res_inv : alloc_inv s';
  res_mem : mem_of s' = mem_of s;
  res_start : heap_start s' = heap_start s;
  res_limit : heap_limit s' = heap_limit s;
  res_block : (p = 0 ∧ brk s' = brk s) ∨
              (0 < p ∧ brk s <= p ∧ brk s' = p + size ∧
               (p - heap_start s) mod align = 0 ∧ p < brk s + align);
  res_room : brk s + align + size <= heap_limit s → p ≠ 0
}.

Class AllocatorLaws (S : Type) `{Allocator S} : Prop := {
  mem_set_mem m s : mem_of (set_mem m s) = m;
  brk_set_mem m s : brk (set_mem m s) = brk s;
  start_set_mem m s : heap_start (set_mem m s) = heap_start s;
  limit_set_mem m s : heap_limit (set_mem m s) = heap_limit s;
  inv_set_mem m s : alloc_inv (set_mem m s) ↔ alloc_inv s;
  brk_bounds s : alloc_inv s → 0 < heap_start s <= brk s ∧ brk s <= heap_limit s < 2 ^ 64;
  heap_size s : heap_limit s = heap_start s + KERNEL_HEAP_SIZE;
  alloc_spec size align s :
    alloc_inv s → 0 <= size <= 2 ^ 32 → pow2 align →
    alloc_result size align s (alloc size align s).1 (alloc size align s).2
}.

(** ** The bump allocator implements the interface *)

Definition mm_ok (s : mm_state) : Prop :=
  0 < s.(heap_area) ∧ s.(heap_area) + KERNEL_HEAP_SIZE < 2 ^ 64 ∧
  0 <= s.(heap_offset) <= KERNEL_HEAP_SIZE.

#[export] Instance mm_ok_dec s : Decision (mm_ok s).
Proof. unfold mm_ok. apply _. Defined.

(** The least multiple of [align] that is not below [value]. *)
Definition round_up (value align : Z) : Z := (value + align - 1) / align * align.

Lemma round_up_spec v a :
  0 < a → v <= round_up v a < v + a ∧ round_up v a mod a = 0.
Proof.
  intros Ha. unfold round_up. split; [|by rewrite Z_mod_mult].
  pose proof (Z.div_mod (v + a - 1) a ltac:(lia)).
  pose proof (Z.mod_pos_bound (v + a - 1) a Ha). lia.
Qed.

Lemma round_up_least v a w : 0 < a → v <= w → w mod a = 0 → round_up v a <= w.
Proof.
  intros Ha Hw Hmod. destruct (round_up_spec v a Ha) as [? Hr].
  apply Z.mod_divide in Hmod as [q ->]; [|lia]. apply Z.mod_divide in Hr as [r Hr]; [|lia].
  assert (r * a < (q + 1) * a) as Hlt%Z.mul_lt_mono_pos_r by lia; [|done].
  rewrite Hr. apply Z.mul_le_mono_nonneg_r; lia.
Qed.

Lemma align_up_round_up v k :
  0 <= k < 64 → 0 <= v → v + 2 ^ k <= 2 ^ 64 → align_up v (2 ^ k) = round_up v (2 ^ k).
Proof.
  intros Hk Hv Hle. unfold align_up, round_up.
  assert (Hp : 0 < 2 ^ k) by (apply Z.pow_pos_nonneg; lia).
  assert (E1 : (v ⊞ 2 ^ k) ⊟ 1 = v + 2 ^ k - 1).
  { unfold u64. rewrite Zminus_mod_idemp_l. apply Z.mod_small. lia. }
  assert (E2 : 2 ^ k ⊟ 1 = Z.ones k).
  { rewrite Z.ones_equiv, u64_small by lia. lia. }
  rewrite E1, E2, land_not64_ones by lia.
  pose proof (Z.div_mod (v + 2 ^ k - 1) (2 ^ k) ltac:(lia)). lia.
Qed.

Lemma pow2_pos a : pow2 a → 0 < a <= 2 ^ 32.
Proof.
  intros (k & Hk & ->). split; [apply Z.pow_pos_nonneg; lia|].
  apply Z.pow_le_mono_r; lia.
Qed.

Lemma pow2_align_up v a :
  pow2 a → 0 <= v <= KERNEL_HEAP_SIZE → align_up v a = round_up v a.
Proof.
  intros Ha Hv. pose proof (pow2_pos a Ha). destruct Ha as (k & Hk & ->).
  apply align_up_round_up; unfold KERNEL_HEAP_SIZE in *; lia.
Qed.

(** The one equation that describes [mm_alloc] on requests that do not wrap. *)
Lemma mm_alloc_eq size a s :
  mm_ok s → pow2 a → 0 <= size <= 2 ^ 32 →
  let start := round_up s.(heap_offset) a in
  mm_alloc size a s =
  if KERNEL_HEAP_SIZE <? start + size then (0, s)
  else (s.(heap_area) + start, set_heap_offset (start + size) s).
Proof.
  intros (Hb & Hl & Ho) Ha Hs start. unfold mm_alloc.
  pose proof (pow2_pos a Ha). destruct (round_up_spec (heap_offset s) a) as [Hr _]; [lia|].
  rewrite (pow2_align_up _ a) by done. fold start in Hr |- *.
  unfold KERNEL_HEAP_SIZE in *.
  rewrite (u64_small (start + size)) by lia. case_match eqn:E; [done|].
  apply Z.ltb_ge in E. by rewrite u64_small by lia.
Qed.

#[export] Instance mm_allocator : Allocator mm_state := {
  alloc := mm_alloc;
  mem_of := mem;
  set_mem := set_mm_mem;
  heap_start := heap_area;
  heap_limit s := s.(heap_area) + KERNEL_HEAP_SIZE;
  brk s := s.(heap_area) + s.(heap_offset);
  alloc_inv := mm_ok
}.

#[export] Instance mm_allocator_laws : AllocatorLaws mm_state.
Proof.
  split; try done.
  - intros s (? & ? & ?). simpl. unfold KERNEL_HEAP_SIZE in *. lia.
  - intros size a s Hok Hsize Ha. pose proof Hok as (Hb & Hl & Ho).
    pose proof (pow2_pos a Ha).
    destruct (round_up_spec (heap_offset s) a) as [Hr Hm]; [lia|].
    simpl. rewrite mm_alloc_eq by done. case_match eqn:E.
    + apply Z.ltb_lt in E. split; simpl; try done; [by left|lia].
    + apply Z.ltb_ge in E. split; simpl; try done; [|right|lia].
      * unfold mm_ok; simpl. lia.
      * replace (heap_area s + _ - heap_area s) with (round_up (heap_offset s) a) by lia.
        split_and!; lia || done.
Qed.

(** ** Sequences of allocations, against the interface *)

Section client.
Context {S : Type} `{AllocatorLaws S}.

Definition req_ok (r : Z * Z) : Prop := 0 <= r.1 <= 2 ^ 32 ∧ pow2 r.2.

Fixpoint alloc_all (reqs : list (Z * Z)) (s : S) : list Z * S :=
  match reqs with
  | [] => ([], s)
  | (size, align) :: reqs' =>
      let '(p, s1) := alloc size align s in
      let '(ps, s2) := alloc_all reqs' s1 in (p :: ps, s2)
  end.

(** A block that was granted lies in the heap, between two positions of
    the break. *)
Definition granted (lo hi : Z) (s : S) (r : Z * Z) (p : Z) : Prop :=
  p ≠ 0 → lo <= p ∧ p + r.1 <= hi ∧ (p - heap_start s) mod r.2 = 0.

Lemma alloc_all_spec reqs : ∀ s,
  alloc_inv s → Forall req_ok reqs →
  let '(ps, s') := alloc_all reqs s in
  alloc_inv s' ∧ heap_start s' = heap_start s ∧ heap_limit s' = heap_limit s ∧
  brk s <= brk s' ∧ Forall2 (granted (brk s) (brk s') s) reqs ps ∧
  ∀ i j ri rj p q, (i < j)%nat →
    reqs !! i = Some ri → reqs !! j = Some rj → ps !! i = Some p → ps !! j = Some q →
    p ≠ 0 → q ≠ 0 → p + ri.1 <= q.
Proof.
  induction reqs as [|[size align] reqs IH]; intros s Hs Hreqs; simpl.
  { by split_and!. }
  apply Forall_cons_iff in Hreqs as [[Hsize Ha] Hreqs]. simpl in *.
  pose proof (alloc_spec size align s Hs Hsize Ha) as R.
  destruct (alloc size align s) as [p s1]. simpl in *. destruct R as [Hi _ Hst Hli Hblk _].
  specialize (IH s1 Hi Hreqs). destruct (alloc_all reqs s1) as [ps s2].
  destruct IH as (Hi2 & Hst2 & Hli2 & Hle & Hall & Hdis).
  assert (Hbrk : brk s <= brk s1) by lia.
  split_and!; try congruence; try lia; try done.
  - constructor.
    + intros Hp. simpl. lia.
    + eapply Forall2_impl; [exact Hall|]. intros r q Hq Hnz. rewrite <-Hst.
      destruct (Hq Hnz) as (? & ? & ?). split_and!; lia || done.
  - intros [|i] [|j] ri rj q1 q2 Hij; try lia; simpl; intros; simplify_eq.
    + match goal with H1 : reqs !! j = Some _, H2 : ps !! j = Some _ |- _ =>
        pose proof (Forall2_lookup_lr _ _ _ _ _ _ Hall H1 H2) as Hg end.
      destruct (Hg ltac:(done)). simpl in *. lia.
    + eapply (Hdis i j); eauto with lia.
Qed.
End client.

(** ** Properties *)

(** What [mm_alloc] does on a request that does not wrap, on both
    branches: it returns the lowest aligned address of the heap at or above
    the break and moves the break to the end of the block when the block
    fits, and otherwise returns null and changes nothing. *)
Theorem mm_alloc_functional size align s :
  mm_ok s → pow2 align → 0 <= size <= 2 ^ 32 →
  ∃ start,
    (heap_offset s <= start ∧ start mod align = 0 ∧
     ∀ w, heap_offset s <= w → w mod align = 0 → start <= w) ∧
    (start + size <= KERNEL_HEAP_SIZE →
       mm_alloc size align s = (heap_area s + start, set_heap_offset (start + size) s)) ∧
    (KERNEL_HEAP_SIZE < start + size → mm_alloc size align s = (0, s)).
Proof.
  intros Hok Ha Hs. pose proof (pow2_pos align Ha).
  exists (round_up (heap_offset s) align).
  destruct (round_up_spec (heap_offset s) align) as [? ?]; [lia|].
  rewrite (mm_alloc_eq _ _ _ Hok Ha Hs). split_and!; try done; try lia.
  - intros w ? ?. apply round_up_least; done || lia.
  - intros ?. by rewrite (proj2 (Z.ltb_ge _ _)) by lia.
  - intros ?. by rewrite (proj2 (Z.ltb_lt _ _)) by lia.
Qed.

Lemma mm_alloc_functional_witness :
  ∃ start, 100 <= start <= 112 ∧
    mm_alloc 64 16 (set_heap_offset 100 (mm_boot 4194304 (λ _, 0))) =
    (4194304 + start, set_heap_offset (start + 64) (set_heap_offset 100 (mm_boot 4194304 (λ _, 0)))).
Proof.
  destruct (mm_alloc_functional 64 16 (set_heap_offset 100 (mm_boot 4194304 (λ _, 0))))
    as (start & (Hle & _ & Hleast) & Hfit & _).
  - apply (bool_decide_unpack _). vm_compute. exact I.
  - exists 4. lia.
  - lia.
  - assert (Hle2 : start <= 112) by (apply Hleast; [simpl; lia|reflexivity]).
    exists start. simpl in Hle. split; [lia|]. apply Hfit. unfold KERNEL_HEAP_SIZE. lia.
Defined.

(** An address at a multiple of [a] from [base] has the residue of [base]. *)
Lemma offset_residue p base a : 0 < a → (p - base) mod a = 0 → p mod a = base mod a.
Proof.
  intros Ha H. replace p with (base + (p - base)) by lia.
  by rewrite Zplus_mod, H, Z.add_0_r, Z.mod_mod by lia.
Qed.

(** C4: over any sequence of such requests the blocks handed out are
    pairwise disjoint, inside [heap_area], and never below a block handed out
    before; the allocator stays well-formed.  What is a multiple of the
    requested alignment is a block's offset in [heap_area]: its address has
    the residue of [heap_area] itself, so it is aligned exactly when
    [heap_area] happens to be, for which the declaration does not provide. *)
Theorem mm_alloc_blocks_disjoint reqs s :
  mm_ok s → Forall req_ok reqs →
  let '(ps, s') := alloc_all (S := mm_state) reqs s in
  mm_ok s' ∧ heap_offset s <= heap_offset s' ∧
  Forall2 (granted (heap_area s + heap_offset s) (heap_area s + KERNEL_HEAP_SIZE) s) reqs ps ∧
  (∀ i r p, reqs !! i = Some r → ps !! i = Some p → p ≠ 0 → p mod r.2 = heap_area s mod r.2) ∧
  ∀ i j ri rj p q, (i < j)%nat →
    reqs !! i = Some ri → reqs !! j = Some rj → ps !! i = Some p → ps !! j = Some q →
    p ≠ 0 → q ≠ 0 → p + ri.1 <= q.
Proof.
  intros Hok Hreqs. pose proof (alloc_all_spec (S := mm_state) reqs s Hok Hreqs) as Hall.
  destruct (alloc_all reqs s) as [ps s']. simpl in Hall.
  destruct Hall as (Hok' & Hst & _ & Hle & Hg & Hd). split_and!; [done|lia| | |done].
  - destruct Hok' as (_ & _ & ?). eapply Forall2_impl; [exact Hg|].
    intros r p Hp Hnz. destruct (Hp Hnz) as (? & ? & ?). simpl in *. split_and!; lia || done.
  - intros i r p Hr Hp Hnz. pose proof (Forall2_lookup_lr _ _ _ _ _ _ Hg Hr Hp Hnz) as (_ & _ & Hm).
    apply offset_residue; [|exact Hm]. rewrite Forall_lookup in Hreqs.
    by apply pow2_pos, (Hreqs i r Hr).
Qed.

Lemma mm_alloc_blocks_disjoint_witness :
  mm_ok (alloc_all (S := mm_state) [(100, 8); (4096, 4096); (32, 8)]
          (mm_boot 4194304 (λ _, 0))).2.
Proof.
  pose proof (mm_alloc_blocks_disjoint [(100, 8); (4096, 4096); (32, 8)]
                (mm_boot 4194304 (λ _, 0))) as H.
  destruct (alloc_all _ _) as [ps s']. apply H.
  - apply (bool_decide_unpack _). vm_compute. exact I.
  - repeat constructor; simpl; try lia; [by exists 3|by exists 12|by exists 3].
Defined.

(** A request whose size makes [start + size] wrap passes the bound
    check.  From every state with a non-empty heap there is a [size_t] for
    which [mm_alloc] returns a non-null block, rewinds the break to the
    start of the heap, and hands the first bytes of [heap_area], which are
    already in use, to the next caller. *)
Theorem mm_alloc_size_wraps s :
  mm_ok s → 0 < heap_offset s →
  ∃ size, 0 <= size < 2 ^ 64 ∧ size > KERNEL_HEAP_SIZE ∧
    let '(p, s1) := mm_alloc size 1 s in
    p ≠ 0 ∧ heap_offset s1 = 0 ∧ (mm_alloc 1 1 s1).1 = heap_area s.
Proof.
  intros (Hb & Hl & Ho) Hpos. exists (2 ^ 64 - heap_offset s).
  unfold KERNEL_HEAP_SIZE in *. split_and!; [lia..|].
  unfold mm_alloc at 1.
  rewrite (pow2_align_up _ 1) by ((by exists 0) || (unfold KERNEL_HEAP_SIZE; lia)).
  unfold round_up. rewrite Z.div_1_r, Z.mul_1_r.
  replace (heap_offset s + 1 - 1 ⊞ (2 ^ 64 - heap_offset s)) with 0
    by (unfold u64; replace (_ + _) with (2 ^ 64) by lia; done).
  simpl. rewrite u64_small by lia. split_and!; [lia|done|].
  change (align_up 0 1) with 0. rewrite Z.add_0_r. apply u64_small. lia.
Qed.

Lemma mm_alloc_size_wraps_witness :
  ∃ size, (mm_alloc size 1 (set_heap_offset 4096 (mm_boot 4194304 (λ _, 0)))).1 ≠ 0
          ∧ size > KERNEL_HEAP_SIZE.
Proof.
  destruct (mm_alloc_size_wraps (set_heap_offset 4096 (mm_boot 4194304 (λ _, 0))))
    as (size & _ & Hbig & H).
  - apply (bool_decide_unpack _). vm_compute. exact I.
  - vm_compute. reflexivity.
  - exists size. destruct (mm_alloc size 1 _) as [p s1]. by destruct H.
Defined.
