(* ===== verification/Paging.v ===== *)
(** * Page tables ([kernel/src/mm.c], second part)

    Four-level x86-64 page tables living in the shared memory, built on the
    allocator interface of [Heap].  [translate] is the reference: the walk
    the processor performs.  The theorems say what a mapping writes, how
    [mm_page_walk], [mm_page_protect] and [mm_page_unmap] see it, and how
    that relates to the processor's view. *)

From S2P Require Import Prelude Memory Heap.

Definition AEGIS_PTE_PRESENT : Z := 1.
Definition AEGIS_PTE_WRITABLE : Z := 2.
Definition AEGIS_PTE_USER : Z := 4.
Definition AEGIS_PTE_GLOBAL : Z := 256.
Definition AEGIS_PTE_NX : Z := 2 ^ 63.
Definition AEGIS_PTE_FLAGS_DEFAULT : Z := AEGIS_PTE_PRESENT .| AEGIS_PTE_WRITABLE.

(** [(vaddr >> 39) & 0x1FF] and the three others, kept in [uint16_t]s. *)
Definition pml4_idx (vaddr : Z) : Z := u16 (Z.shiftr vaddr 39 .& 511).
Definition pdpt_idx (vaddr : Z) : Z := u16 (Z.shiftr vaddr 30 .& 511).
Definition pd_idx (vaddr : Z) : Z := u16 (Z.shiftr vaddr 21 .& 511).
Definition pt_idx (vaddr : Z) : Z := u16 (Z.shiftr vaddr 12 .& 511).

(** The address of [pt->entries[index]]. *)
Definition entry_addr (pt index : Z) : Z := pt + 8 * index.

Definition is_present (entry : Z) : bool := negb (entry .& AEGIS_PTE_PRESENT =? 0).

(** [(paddr & ~0xFFF) | flags | AEGIS_PTE_PRESENT] *)
Definition leaf_entry (paddr flags : Z) : Z :=
  paddr .& PAGE_MASK .| flags .| AEGIS_PTE_PRESENT.

Section operations.
Context {S : Type} `{Allocator S}.

Definition page_table_alloc (s : S) : Z * S :=
  let '(page, s1) := alloc AEGIS_PAGE_SIZE AEGIS_PAGE_SIZE s in
  if page =? 0 then (0, s1) else (page, s1).

Definition mm_page_table_create (s : S) : Z * S := page_table_alloc s.

Definition page_table_get_entry (pt index : Z) (create : bool) (s : S) : Z * S :=
  let entry := load64 (mem_of s) (entry_addr pt index) in
  if is_present entry then (entry .& PAGE_MASK, s) else
  if negb create then (0, s) else
  let '(new_pt, s1) := page_table_alloc s in
  if new_pt =? 0 then (0, s1) else
  (new_pt,
   set_mem (store64 (entry_addr pt index)
              (new_pt .| AEGIS_PTE_PRESENT .| AEGIS_PTE_WRITABLE .| AEGIS_PTE_USER)
              (mem_of s1)) s1).

(** The three descents shared by [mm_page_map], [mm_page_unmap] and
    [mm_page_walk]: the page table reached, 0 when a level is missing. *)
Definition descend (pt vaddr : Z) (create : bool) (s : S) : Z * S :=
  let '(pdpt, s1) := page_table_get_entry pt (pml4_idx vaddr) create s in
  if pdpt =? 0 then (0, s1) else
  let '(pd, s2) := page_table_get_entry pdpt (pdpt_idx vaddr) create s1 in
  if pd =? 0 then (0, s2) else
  let '(pt_page, s3) := page_table_get_entry pd (pd_idx vaddr) create s2 in
  if pt_page =? 0 then (0, s3) else (pt_page, s3).

(** The entry is written into [pt], the table passed in, as in the code;
    [pt_page], the table reached, is only tested for null. *)
Definition mm_page_map (pt vaddr paddr flags : Z) (s : S) : Z * S :=
  let '(pt_page, s3) := descend pt vaddr true s in
  if pt_page =? 0 then (-1, s3) else
  (0, set_mem (store64 (entry_addr pt (pt_idx vaddr)) (leaf_entry paddr flags)
                       (mem_of s3)) s3).

Definition mm_page_unmap (pt vaddr : Z) (s : S) : S :=
  let '(pt_page, s3) := descend pt vaddr false s in
  if pt_page =? 0 then s3 else
  set_mem (store64 (entry_addr pt (pt_idx vaddr)) 0 (mem_of s3)) s3.

Definition mm_page_walk (pt vaddr : Z) (create : bool) (s : S) : Z * S :=
  let '(pt_page, s3) := descend pt vaddr create s in
  if pt_page =? 0 then (0, s3) else (entry_addr pt (pt_idx vaddr), s3).

Definition mm_page_protect (pt vaddr flags : Z) (s : S) : Z * S :=
  let '(entry, s1) := mm_page_walk pt vaddr false s in
  if (entry =? 0) || negb (is_present (load64 (mem_of s1) entry)) then (-1, s1) else
  (0, set_mem (store64 entry (load64 (mem_of s1) entry .& PAGE_MASK .| flags)
                       (mem_of s1)) s1).
End operations.

(** The processor's walk (reference definition): four present entries lead
    from the root to the frame that holds [vaddr]. *)
Definition hw_next (m : memory) (table index : Z) : option Z :=
  let e := load64 m (entry_addr table index) in
  if is_present e then Some (e .& PAGE_MASK) else None.

Definition translate (m : memory) (root vaddr : Z) : option Z :=
  pdpt ← hw_next m root (pml4_idx vaddr);
  pd ← hw_next m pdpt (pdpt_idx vaddr);
  pt ← hw_next m pd (pd_idx vaddr);
  frame ← hw_next m pt (pt_idx vaddr);
  Some (frame + vaddr mod AEGIS_PAGE_SIZE).

(** ** Bit-level lemmas *)

Lemma idx_range v k : 0 <= u16 (Z.shiftr v k .& 511) < 512.
Proof.
  change 511 with (Z.ones 9). rewrite Z.land_ones by lia.
  pose proof (Z.mod_pos_bound (Z.shiftr v k) (2 ^ 9) ltac:(lia)).
  rewrite u16_small by lia. lia.
Qed.

Lemma pml4_idx_range v : 0 <= pml4_idx v < 512. Proof. apply idx_range. Qed.
Lemma pdpt_idx_range v : 0 <= pdpt_idx v < 512. Proof. apply idx_range. Qed.
Lemma pd_idx_range v : 0 <= pd_idx v < 512. Proof. apply idx_range. Qed.
Lemma pt_idx_range v : 0 <= pt_idx v < 512. Proof. apply idx_range. Qed.

#[export] Hint Resolve pml4_idx_range pdpt_idx_range pd_idx_range pt_idx_range : aegis.

Lemma land_page_mask z : 0 <= z < 2 ^ 64 → z .& PAGE_MASK = z - z mod 4096.
Proof. intros. unfold PAGE_MASK. by apply (land_not64_ones z 12). Qed.

(** A page-aligned address and a value below the page size do not overlap. *)
Lemma lor_page p x : p mod 4096 = 0 → 0 <= x < 4096 → p .| x = p + x.
Proof.
  intros Hp Hx. rewrite <-Z.lxor_lor, <-Z.add_nocarry_lxor; [done| |].
  all: rewrite <-(Z.mod_small x (2 ^ 12)), <-Z.land_ones by lia.
  all: rewrite (Z.land_comm x), Z.land_assoc, Z.land_ones by lia.
  all: change (2 ^ 12) with 4096; by rewrite Hp, Z.land_0_l.
Qed.

Lemma table_entry p :
  p mod 4096 = 0 → 0 <= p → p + 4096 < 2 ^ 64 →
  let e := p .| AEGIS_PTE_PRESENT .| AEGIS_PTE_WRITABLE .| AEGIS_PTE_USER in
  u64 e = e ∧ is_present e = true ∧ e .& PAGE_MASK = p.
Proof.
  intros Hp H0 Hlt. unfold AEGIS_PTE_PRESENT, AEGIS_PTE_WRITABLE, AEGIS_PTE_USER.
  rewrite <-!Z.lor_assoc. change (Z.lor 1 (Z.lor 2 4)) with 7. rewrite lor_page by lia.
  split_and!.
  - apply u64_small. lia.
  - unfold is_present, AEGIS_PTE_PRESENT. change 1 with (Z.ones 1).
    rewrite Z.land_ones by lia. apply Z.mod_divide in Hp as [q ->]; [|lia].
    replace (q * 4096 + 7) with (1 + (q * 2048 + 3) * 2 ^ 1) by lia.
    rewrite Z_mod_plus_full. done.
  - rewrite land_page_mask by lia. rewrite <-Zplus_mod_idemp_l, Hp.
    change ((0 + 7) mod 4096) with 7. lia.
Qed.

Lemma is_present_testbit e : is_present e = Z.testbit e 0.
Proof.
  unfold is_present, AEGIS_PTE_PRESENT. change 1 with (Z.ones 1).
  rewrite Z.land_ones by lia. change (2 ^ 1) with 2. rewrite <-Z.bit0_mod.
  by destruct (Z.testbit e 0).
Qed.

(** A leaf entry is always present. *)
Lemma leaf_present pa fl : is_present (u64 (leaf_entry pa fl)) = true.
Proof.
  rewrite is_present_testbit. unfold u64. rewrite Z.mod_pow2_bits_low by lia.
  unfold leaf_entry, AEGIS_PTE_PRESENT. rewrite Z.lor_spec. by rewrite orb_true_r.
Qed.

(** ** Fresh tables *)

Section tables.
Context {S : Type} `{AllocatorLaws S}.

(** The part of the heap that was never handed out holds zeros, as the
    zero-initialised array [heap_area] does at boot. *)
Definition heap_fresh (s : S) : Prop :=
  ∀ a, brk s <= a < heap_limit s → load8 (mem_of s) a = 0.

Definition table_zero (m : memory) (pt : Z) : Prop :=
  ∀ j, 0 <= j < 512 → load64 m (entry_addr pt j) = 0.

(** A state in which tables can be built: the allocator is well-formed,
    [heap_area] is page-aligned and the unused heap is clean. *)
Record paging_inv (s : S) : Prop := {
  pi_inv : alloc_inv s;
  pi_aligned : heap_start s mod 4096 = 0;
  pi_fresh : heap_fresh s
}.

Lemma paging_inv_store n a v s :
  paging_inv s → a + Z.of_nat n <= brk s →
  paging_inv (set_mem (store_le n a v (mem_of s)) s).
Proof.
  intros [Hi Ha Hf] Hle. split.
  - by apply inv_set_mem.
  - by rewrite start_set_mem.
  - intros b. rewrite brk_set_mem, limit_set_mem, mem_set_mem, load8_store_le.
    intros Hb. rewrite decide_False by lia. by apply Hf.
Qed.

(** Allocating a table: a fresh page, zero-filled, page-aligned. *)
Lemma page_table_alloc_spec s p s' :
  paging_inv s → brk s + 8192 <= heap_limit s →
  page_table_alloc s = (p, s') →
  paging_inv s' ∧ mem_of s' = mem_of s ∧ heap_limit s' = heap_limit s ∧
  brk s <= p ∧ p mod 4096 = 0 ∧ 0 < p ∧ p + 4096 < 2 ^ 64 ∧
  brk s' = p + 4096 ∧ p < brk s + 4096 ∧ table_zero (mem_of s') p.
Proof.
  intros [Hi Ha Hf] Hroom. unfold page_table_alloc, AEGIS_PAGE_SIZE.
  destruct (alloc_spec 4096 4096 s Hi ltac:(lia) ltac:(by exists 12))
    as [Hi' Hm Hst Hli Hblk Hnz].
  destruct (alloc 4096 4096 s) as [q s1]. simpl in *.
  destruct Hblk as [[-> _]|(Hq & Hle & Hbrk & Hal & Hlt)]; [lia|].
  rewrite (proj2 (Z.eqb_neq q 0)) by lia. intros [= <- <-].
  destruct (brk_bounds s Hi) as [Hb1 Hb2]. destruct (brk_bounds s1 Hi') as [? Hb3].
  assert (Hmod : q mod 4096 = 0).
  { rewrite <-Hal, Zminus_mod, Ha, Z.sub_0_r. by rewrite Z.mod_mod. }
  split_and!; try done; try lia.
  - split; [done|by rewrite Hst|]. intros a. rewrite Hm, Hli. intros. apply Hf. lia.
  - intros j Hj. rewrite Hm. apply (load_le_zero 8). unfold entry_addr.
    intros b Hb. apply Hf. lia.
Qed.

(** Creating the entry of a level that is missing. *)
Lemma get_entry_create s pt i p s' :
  paging_inv s → brk s + 8192 <= heap_limit s →
  0 <= i < 512 → pt + 4096 <= brk s → load64 (mem_of s) (entry_addr pt i) = 0 →
  page_table_get_entry pt i true s = (p, s') →
  paging_inv s' ∧ heap_limit s' = heap_limit s ∧
  brk s <= p ∧ p mod 4096 = 0 ∧ 0 < p ∧ p + 4096 < 2 ^ 64 ∧
  brk s' = p + 4096 ∧ p < brk s + 4096 ∧ table_zero (mem_of s') p ∧
  mem_of s' = store64 (entry_addr pt i)
    (p .| AEGIS_PTE_PRESENT .| AEGIS_PTE_WRITABLE .| AEGIS_PTE_USER) (mem_of s).
Proof.
  intros Hs Hroom Hi Hpt Hz. unfold page_table_get_entry. rewrite Hz. simpl.
  destruct (page_table_alloc s) as [q s1] eqn:Ealloc.
  destruct (page_table_alloc_spec _ _ _ Hs Hroom Ealloc)
    as (Hinv & Hm & Hli & Hle & Hal & Hpos & Hlt & Hbrk & Hbrk2 & Hzero).
  rewrite (proj2 (Z.eqb_neq q 0)) by lia. intros [= <- <-].
  unfold entry_addr in *.
  rewrite !brk_set_mem, limit_set_mem, mem_set_mem. split_and!; try done.
  - apply (paging_inv_store 8); [done|lia].
  - intros j Hj. unfold entry_addr. rewrite load64_store64_ne by lia. by apply Hzero.
  - by rewrite Hm.
Qed.

(** A present entry is followed, whatever [create] is. *)
Lemma get_entry_present s pt i p create :
  p mod 4096 = 0 → 0 <= p → p + 4096 < 2 ^ 64 →
  load64 (mem_of s) (entry_addr pt i) =
    u64 (p .| AEGIS_PTE_PRESENT .| AEGIS_PTE_WRITABLE .| AEGIS_PTE_USER) →
  page_table_get_entry pt i create s = (p, s) ∧ hw_next (mem_of s) pt i = Some p.
Proof.
  intros Hp Hnn Hlt He. destruct (table_entry p Hp Hnn Hlt) as (Eu & Epr & Em).
  unfold page_table_get_entry, hw_next. by rewrite He, Eu, Epr, Em.
Qed.

(** The shape of the memory after a mapping into an empty root: three fresh
    tables chained below the root, and the leaf entry stored in the root. *)
Record mapped_shape (s s' : S) (root v entry t3 t2 t1 : Z) : Prop := {
  ms_root : root + 4096 <= t3;
  ms_t3 : t3 + 4096 <= t2;
  ms_t2 : t2 + 4096 <= t1;
  ms_align : t3 mod 4096 = 0 ∧ t2 mod 4096 = 0 ∧ t1 mod 4096 = 0;
  ms_pos : 0 < t3;
  ms_top : t1 + 4096 < 2 ^ 64;
  ms_e4 : pt_idx v ≠ pml4_idx v →
    load64 (mem_of s') (entry_addr root (pml4_idx v)) =
    u64 (t3 .| AEGIS_PTE_PRESENT .| AEGIS_PTE_WRITABLE .| AEGIS_PTE_USER);
  ms_e3 : load64 (mem_of s') (entry_addr t3 (pdpt_idx v)) =
    u64 (t2 .| AEGIS_PTE_PRESENT .| AEGIS_PTE_WRITABLE .| AEGIS_PTE_USER);
  ms_e2 : load64 (mem_of s') (entry_addr t2 (pd_idx v)) =
    u64 (t1 .| AEGIS_PTE_PRESENT .| AEGIS_PTE_WRITABLE .| AEGIS_PTE_USER);
  ms_e1 : table_zero (mem_of s') t1;
  ms_entry : load64 (mem_of s') (entry_addr root (pt_idx v)) = u64 entry;
  ms_inv : paging_inv s';
  ms_brk : brk s' = t1 + 4096;
  ms_near : brk s <= t3 < brk s + 4096 ∧ t2 < t3 + 8192 ∧ t1 < t2 + 8192
}.

Lemma mm_page_map_fresh s root v pa fl :
  paging_inv s → brk s + 24576 <= heap_limit s →
  root + 4096 <= brk s → table_zero (mem_of s) root →
  ∃ t3 t2 t1 s', mm_page_map root v pa fl s = (0, s') ∧
    mapped_shape s s' root v (leaf_entry pa fl) t3 t2 t1.
Proof.
  intros Hs Hroom Hroot Hz. unfold mm_page_map, descend.
  pose proof (pml4_idx_range v). pose proof (pdpt_idx_range v).
  pose proof (pd_idx_range v). pose proof (pt_idx_range v).
  destruct (page_table_get_entry root _ _ s) as [t3 s1] eqn:E3.
  apply get_entry_create in E3 as (I1 & L1 & G1 & A1 & P1 & T1 & B1 & C1 & Z1 & M1);
    [|done|lia|done|lia|by apply Hz].
  rewrite (proj2 (Z.eqb_neq t3 0)) by lia.
  destruct (page_table_get_entry t3 _ _ s1) as [t2 s2] eqn:E2.
  apply get_entry_create in E2 as (I2 & L2 & G2 & A2 & P2 & T2 & B2 & C2 & Z2 & M2);
    [|done|lia|done|lia|by apply Z1].
  rewrite (proj2 (Z.eqb_neq t2 0)) by lia.
  destruct (page_table_get_entry t2 _ _ s2) as [t1 s3] eqn:E1.
  apply get_entry_create in E1 as (I3 & L3 & G3 & A3 & P3 & T3 & B3 & C3 & Z3 & M3);
    [|done|lia|done|lia|by apply Z2].
  rewrite (proj2 (Z.eqb_neq t1 0)) by lia. simpl.
  rewrite (proj2 (Z.eqb_neq t1 0)) by lia.
  eexists t3, t2, t1, _. split; [reflexivity|].
  split; rewrite ?mem_set_mem, ?brk_set_mem; try lia; try done; unfold entry_addr in *.
  - intros Hne. rewrite load64_store64_ne by lia. rewrite M3, load64_store64_ne by lia.
    rewrite M2, load64_store64_ne by lia. by rewrite M1, load64_store64_eq.
  - rewrite load64_store64_ne by lia. rewrite M3, load64_store64_ne by lia.
    by rewrite M2, load64_store64_eq.
  - rewrite load64_store64_ne by lia. by rewrite M3, load64_store64_eq.
  - intros j Hj. unfold entry_addr. rewrite load64_store64_ne by lia. by apply Z3.
  - by rewrite load64_store64_eq.
  - apply (paging_inv_store 8); [done|lia].
Qed.

(** Rewriting the slot of the leaf entry keeps the shape. *)
Lemma mapped_shape_store s s' root v e e' t3 t2 t1 :
  mapped_shape s s' root v e t3 t2 t1 →
  mapped_shape s (set_mem (store64 (entry_addr root (pt_idx v)) e' (mem_of s')) s')
    root v e' t3 t2 t1.
Proof.
  intros [? ? ? ? ? ? He4 He3 He2 He1 ? ? ? ?].
  pose proof (pml4_idx_range v). pose proof (pdpt_idx_range v).
  pose proof (pd_idx_range v). pose proof (pt_idx_range v).
  unfold entry_addr in *. split; rewrite ?mem_set_mem, ?brk_set_mem; try done;
    unfold entry_addr in *.
  - intros Hne. rewrite load64_store64_ne by lia. exact (He4 Hne).
  - by rewrite load64_store64_ne by lia.
  - by rewrite load64_store64_ne by lia.
  - intros j Hj. unfold entry_addr. rewrite load64_store64_ne by lia. exact (He1 j Hj).
  - by rewrite load64_store64_eq.
  - apply (paging_inv_store 8); [done|lia].
Qed.

(** Reading the chain back. *)
Lemma mapped_shape_descend s s' root v e t3 t2 t1 create :
  mapped_shape s s' root v e t3 t2 t1 → pt_idx v ≠ pml4_idx v →
  descend root v create s' = (t1, s') ∧ translate (mem_of s') root v = None.
Proof.
  intros [_ Hle2 Hle1 (A3 & A2 & A1) Hp Htop He4 He3 He2 He1 _ _ _ _] Hne. specialize (He4 Hne).
  destruct (get_entry_present s' root (pml4_idx v) t3 create A3) as [G3 W3]; [lia..|done|].
  destruct (get_entry_present s' t3 (pdpt_idx v) t2 create A2) as [G2 W2]; [lia..|done|].
  destruct (get_entry_present s' t2 (pd_idx v) t1 create A1) as [G1 W1]; [lia..|done|].
  unfold descend, translate. rewrite G3, G2, G1, W3. simpl. rewrite W2. simpl. rewrite W1. simpl.
  rewrite (proj2 (Z.eqb_neq t3 0)), (proj2 (Z.eqb_neq t2 0)), (proj2 (Z.eqb_neq t1 0)) by lia.
  split; [done|]. unfold hw_next. by rewrite He1 by auto with aegis.
Qed.

Lemma mapped_shape_walk s s' root v e t3 t2 t1 create :
  mapped_shape s s' root v e t3 t2 t1 → pt_idx v ≠ pml4_idx v →
  mm_page_walk root v create s' = (entry_addr root (pt_idx v), s').
Proof.
  intros M Hne. unfold mm_page_walk.
  rewrite (proj1 (mapped_shape_descend _ _ _ _ _ _ _ _ create M Hne)).
  rewrite (proj2 (Z.eqb_neq t1 0)) by (destruct M; lia). done.
Qed.
End tables.

(** ** Kernel start-up *)

Definition set_kernel_page_table (pt : Z) (s : mm_state) : mm_state :=
  mk_mm s.(mem) s.(heap_area) s.(heap_offset) s.(next_phys_page)
        pt s.(current_page_table) s.(cr3).
Definition set_current_page_table (pt : Z) (s : mm_state) : mm_state :=
  mk_mm s.(mem) s.(heap_area) s.(heap_offset) s.(next_phys_page)
        s.(kernel_page_table) pt s.(cr3).

(** [for (addr = 0; addr < 4 MiB; addr += 4096) mm_page_map(...)]: the loop
    from [addr] on, with [fuel] iterations allowed; the results of the calls
    are ignored. *)
Fixpoint identity_map (fuel : nat) (pt addr : Z) (s : mm_state) : mm_state :=
  match fuel with
  | O => s
  | S fuel' =>
      if addr <? 4 * 1024 * 1024 then
        identity_map fuel' pt (addr ⊞ AEGIS_PAGE_SIZE)
          (mm_page_map pt addr addr (AEGIS_PTE_FLAGS_DEFAULT .| AEGIS_PTE_GLOBAL) s).2
      else s
  end.

(** 1024 iterations reach the bound; the fuel leaves one to test it. *)
Definition IDENTITY_MAP_FUEL : nat := S 1024.

Definition mm_init (s : mm_state) : mm_state :=
  let s0 := set_heap_offset 0 s in
  let '(kpt, s1) := page_table_alloc s0 in
  let s2 := set_kernel_page_table kpt s1 in
  if kpt =? 0 then s2 else
  set_current_page_table kpt (identity_map IDENTITY_MAP_FUEL kpt 0 s2).

Definition mm_switch_page_table (pt : Z) (s : mm_state) : mm_state :=
  let s1 := set_current_page_table pt s in
  mk_mm s1.(mem) s1.(heap_area) s1.(heap_offset) s1.(next_phys_page)
        s1.(kernel_page_table) s1.(current_page_table) pt.

Definition mm_kernel_page_table (s : mm_state) : Z := s.(kernel_page_table).

(** A root whose slot 0 holds a present entry for frame 0 is stuck: the
    descent reads the frame address as a null pointer. *)
Lemma mm_page_map_stuck {S} `{Allocator S} (s : S) root v pa fl :
  load64 (mem_of s) (entry_addr root 0) = 259 → pml4_idx v = 0 →
  mm_page_map root v pa fl s = (-1, s).
Proof.
  intros He Hv. unfold mm_page_map, descend, page_table_get_entry. by rewrite Hv, He.
Qed.

Lemma pml4_idx_low v : 0 <= v < 2 ^ 39 → pml4_idx v = 0.
Proof.
  intros Hv. unfold pml4_idx. rewrite Z.shiftr_div_pow2 by lia.
  by rewrite Z.div_small by lia.
Qed.

Lemma identity_map_S fuel pt addr s :
  addr < 4 * 1024 * 1024 →
  identity_map (S fuel) pt addr s =
  identity_map fuel pt (addr ⊞ AEGIS_PAGE_SIZE)
    (mm_page_map pt addr addr (AEGIS_PTE_FLAGS_DEFAULT .| AEGIS_PTE_GLOBAL) s).2.
Proof. intros Hlt. simpl. by rewrite (proj2 (Z.ltb_lt _ _) Hlt). Qed.

Lemma identity_map_stuck fuel root addr s :
  load64 (mem_of s) (entry_addr root 0) = 259 → 0 <= addr →
  identity_map fuel root addr s = s.
Proof.
  intros He. revert addr. induction fuel as [|fuel IH]; intros addr Ha; simpl; [done|].
  case_match eqn:Hlt; [|done]. apply Z.ltb_lt in Hlt.
  rewrite mm_page_map_stuck by (done || apply pml4_idx_low; lia). simpl.
  apply IH. unfold AEGIS_PAGE_SIZE. rewrite u64_small by lia. lia.
Qed.

Lemma mm_boot_paging_inv o ha rest :
  0 < ha → ha + KERNEL_HEAP_SIZE < 2 ^ 64 → ha mod 4096 = 0 → 0 <= o <= KERNEL_HEAP_SIZE →
  (∀ a, ha <= a < ha + KERNEL_HEAP_SIZE → rest a = 0) →
  paging_inv (set_heap_offset o (mm_boot ha rest)).
Proof.
  intros Hha Htop Hal Ho Hz. split; simpl; [|done|].
  - unfold mm_ok, KERNEL_HEAP_SIZE in *; simpl; lia.
  - intros a. simpl. unfold load8. simpl. rewrite lookup_empty. simpl.
    intros Ha. rewrite Hz by lia. done.
Qed.

(** The root table [mm_init] allocates is the first page of the heap. *)
Lemma first_table s s1 kpt :
  paging_inv s → heap_offset s = 0 → page_table_alloc s = (kpt, s1) →
  kpt = heap_area s ∧ paging_inv s1 ∧ heap_area s1 = heap_area s ∧
  heap_offset s1 = 4096 ∧ table_zero (mem s1) kpt.
Proof.
  intros I0 Ho Ea. pose proof I0 as [(Hpos & _) Hal _]. simpl in Hal.
  assert (Hst : heap_area s1 = heap_area s).
  { unfold page_table_alloc in Ea. simpl in Ea. unfold mm_alloc in Ea.
    repeat case_match; simplify_eq; done. }
  apply page_table_alloc_spec in Ea as (I1 & Hm & Hli & Hle & Hmod & _ & _ & Hb & Hlt & Hz);
    [|done|simpl; unfold KERNEL_HEAP_SIZE; lia].
  simpl in *. unfold KERNEL_HEAP_SIZE in *.
  assert (kpt = heap_area s) as ->.
  { apply Z.mod_divide in Hal as [q Hq]; [|lia]. apply Z.mod_divide in Hmod as [r Hr]; lia. }
  split_and!; done || lia.
Qed.

(** The operations on tables leave the manager's own variables alone. *)
Lemma get_entry_vars pt i create (s : mm_state) :
  let s' := (page_table_get_entry pt i create s).2 in
  kernel_page_table s' = kernel_page_table s ∧ heap_area s' = heap_area s.
Proof.
  unfold page_table_get_entry, page_table_alloc. simpl. unfold mm_alloc.
  repeat (case_match; simplify_eq/=; try done).
Qed.

Lemma mm_page_map_vars pt v pa fl (s : mm_state) :
  let s' := (mm_page_map pt v pa fl s).2 in
  kernel_page_table s' = kernel_page_table s ∧ heap_area s' = heap_area s.
Proof.
  unfold mm_page_map, descend.
  pose proof (get_entry_vars pt (pml4_idx v) true s) as H1.
  destruct (page_table_get_entry pt _ _ _) as [t3 s1]; simpl in H1.
  destruct (t3 =? 0); simpl; [done|].
  pose proof (get_entry_vars t3 (pdpt_idx v) true s1) as H2.
  destruct (page_table_get_entry t3 _ _ _) as [t2 s2]; simpl in H2.
  destruct (t2 =? 0); simpl; [intuition congruence|].
  pose proof (get_entry_vars t2 (pd_idx v) true s2) as H3.
  destruct (page_table_get_entry t2 _ _ _) as [t1 s3]; simpl in H3.
  destruct (t1 =? 0) eqn:E; simpl; rewrite ?E; simpl; intuition congruence.
Qed.

(** The first iteration builds the three tables and then overwrites the
    link to them; the others do nothing. *)
Lemma identity_map_boot fuel s :
  paging_inv s → heap_offset s = 4096 → table_zero (mem s) (heap_area s) →
  let s' := identity_map (S fuel) (heap_area s) 0 s in
  kernel_page_table s' = kernel_page_table s ∧ heap_offset s' = 4 * AEGIS_PAGE_SIZE ∧
  load64 (mem s') (entry_addr (heap_area s) 0) = 259.
Proof.
  intros Hs Ho Hz. pose proof Hs as [(Hpos & _) Hal _]. simpl in Hal.
  set (fl := AEGIS_PTE_FLAGS_DEFAULT .| AEGIS_PTE_GLOBAL).
  destruct (mm_page_map_fresh s (heap_area s) 0 0 fl Hs) as (t3 & t2 & t1 & s1 & E & M);
    [simpl; unfold KERNEL_HEAP_SIZE; lia|simpl; lia|done|].
  pose proof (mm_page_map_vars (heap_area s) 0 0 fl s) as [Hk Hha].
  rewrite E in Hk, Hha. simpl in Hk, Hha.
  destruct M as [_ ? ? (A3 & A2 & A1) _ _ _ _ _ _ He _ Hb Hn]. simpl in Hb, Hn.
  assert (He' : load64 (mem s1) (entry_addr (heap_area s) 0) = 259) by exact He.
  rewrite identity_map_S by lia. fold fl. rewrite E. cbv zeta.
  rewrite identity_map_stuck by done. split_and!; [done| |done].
  unfold AEGIS_PAGE_SIZE.
  apply Z.mod_divide in Hal as [q Hq], A3 as [q3 H3], A2 as [q2 H2], A1 as [q1 H1]; simpl; lia.
Qed.

(** A concrete state for the witnesses: one empty root at 4 MiB. *)
Definition one_root : mm_state := set_heap_offset 4096 (mm_boot 4194304 (λ _, 0)).

Lemma one_root_inv : paging_inv one_root ∧ table_zero (mem_of one_root) 4194304.
Proof.
  split.
  - by apply mm_boot_paging_inv.
  - intros j Hj. by apply (load_le_zero 8).
Qed.

(** ** Properties *)

(** C30: the memory manager is consistent with itself under these conditions:
    the heap is fresh from its break on and holds room for six pages, its
    area is page-aligned ([paging_inv]), the root is an empty page below the
    break, and the level-1 and level-4 indices of [vaddr] differ.  Then
    [mm_page_map] succeeds and the three other operations see exactly that
    entry:
    [mm_page_walk] returns its address without changing anything,
    [mm_page_protect] replaces its flags and keeps its frame, and
    [mm_page_unmap] clears it, after which [mm_page_protect] fails.  Where the
    indices are equal, as for the very first page, the entry replaces the
    link to the next level instead ([mm_init_maps_one_page]). *)
Theorem mm_page_map_roundtrip {S} `{AllocatorLaws S} (s : S) root v pa fl fl' :
  paging_inv s → brk s + 24576 <= heap_limit s →
  0 < root → root + 4096 <= brk s → table_zero (mem_of s) root → pt_idx v ≠ pml4_idx v →
  let e := entry_addr root (pt_idx v) in
  ∃ s1, mm_page_map root v pa fl s = (0, s1) ∧
    load64 (mem_of s1) e = u64 (leaf_entry pa fl) ∧
    (∀ create, mm_page_walk root v create s1 = (e, s1)) ∧
    (∃ s2, mm_page_protect root v fl' s1 = (0, s2) ∧
       load64 (mem_of s2) e = u64 (u64 (leaf_entry pa fl) .& PAGE_MASK .| fl')) ∧
    (let s3 := mm_page_unmap root v s1 in
     load64 (mem_of s3) e = 0 ∧ mm_page_protect root v fl' s3 = (-1, s3)).
Proof.
  intros Hs Hroom Hpos Hroot Hz Hne e; subst e.
  destruct (mm_page_map_fresh s root v pa fl Hs Hroom Hroot Hz) as (t3 & t2 & t1 & s1 & E & M).
  pose proof (pt_idx_range v) as Hr. assert (Hea : entry_addr root (pt_idx v) ≠ 0) by (unfold entry_addr; lia).
  exists s1. split_and!; [done|apply M| | |].
  - intros create. by apply (mapped_shape_walk _ _ _ _ _ _ _ _ _ M).
  - unfold mm_page_protect. rewrite (mapped_shape_walk _ _ _ _ _ _ _ _ _ M Hne).
    rewrite (ms_entry _ _ _ _ _ _ _ _ M), leaf_present, (proj2 (Z.eqb_neq _ 0) Hea).
    eexists; split; [done|]. by rewrite mem_set_mem, load64_store64_eq.
  - cbv zeta. unfold mm_page_unmap.
    rewrite (proj1 (mapped_shape_descend _ _ _ _ _ _ _ _ _ M Hne)).
    rewrite (proj2 (Z.eqb_neq t1 0)) by (destruct M; lia).
    pose proof (mapped_shape_store _ _ _ _ _ 0 _ _ _ M) as M0.
    split; [apply M0|]. unfold mm_page_protect.
    rewrite (mapped_shape_walk _ _ _ _ _ _ _ _ _ M0 Hne), (ms_entry _ _ _ _ _ _ _ _ M0).
    by rewrite orb_true_r.
Qed.

Lemma mm_page_map_roundtrip_witness :
  ∃ s1, mm_page_map 4194304 8192 12288 2 one_root = (0, s1) ∧
        mm_page_walk 4194304 8192 false s1 = (4194304 + 16, s1).
Proof.
  destruct (mm_page_map_roundtrip one_root 4194304 8192 12288 2 0) as (s1 & E & _ & W & _).
  - apply one_root_inv.
  - vm_compute. discriminate.
  - reflexivity.
  - vm_compute. discriminate.
  - apply one_root_inv.
  - vm_compute. discriminate.
  - exists s1. split; [exact E|exact (W false)].
Defined.

(** The mapping is not the one asked for.  In the same situation the
    processor finds no translation for [vaddr]: the last-level table that
    was just built stays empty, because the entry is stored in the root
    instead of in [pt_page]. *)
Theorem mm_page_map_no_translation {S} `{AllocatorLaws S} (s : S) root v pa fl :
  paging_inv s → brk s + 24576 <= heap_limit s →
  0 < root → root + 4096 <= brk s → table_zero (mem_of s) root → pt_idx v ≠ pml4_idx v →
  (mm_page_map root v pa fl s).1 = 0 ∧
  translate (mem_of (mm_page_map root v pa fl s).2) root v = None.
Proof.
  intros Hs Hroom Hpos Hroot Hz Hne.
  destruct (mm_page_map_fresh s root v pa fl Hs Hroom Hroot Hz) as (t3 & t2 & t1 & s1 & E & M).
  rewrite E. split; [done|]. by apply (mapped_shape_descend _ _ _ _ _ _ _ _ true M).
Qed.

Lemma mm_page_map_no_translation_witness :
  translate (mem_of (mm_page_map 4194304 8192 12288 2 one_root).2) 4194304 8192 = None.
Proof.
  apply (mm_page_map_no_translation one_root 4194304 8192 12288 2).
  - apply one_root_inv.
  - vm_compute. discriminate.
  - reflexivity.
  - vm_compute. discriminate.
  - apply one_root_inv.
  - vm_compute. discriminate.
Defined.

(** Pages collide.  Whatever the tables hold, a successful mapping of
    [v2] replaces the entry that [mm_page_walk] finds for any [v1] with the
    same level-1 index, that is, for every page at a multiple of 2 MiB from
    [v2]; [mm_page_walk] has no other entry to return for [v1]. *)
Theorem mm_page_map_aliases {S} `{AllocatorLaws S} (s : S) root v1 v2 pa fl create :
  (mm_page_map root v2 pa fl s).1 = 0 → pt_idx v1 = pt_idx v2 →
  let s' := (mm_page_map root v2 pa fl s).2 in
  let e := (mm_page_walk root v1 create s').1 in
  e = 0 ∨ e = entry_addr root (pt_idx v2) ∧
          load64 (mem_of s') e = u64 (leaf_entry pa fl).
Proof.
  intros Hok Hidx s'. unfold mm_page_walk. destruct (descend root v1 create s') as [t s2].
  destruct (t =? 0); [by left|]. right. rewrite Hidx. split; [done|]. cbv zeta. simpl.
  unfold s', mm_page_map in *. destruct (descend root v2 true s) as [t' s3].
  destruct (t' =? 0); [done|]. simpl. by rewrite mem_set_mem, load64_store64_eq.
Qed.

Lemma mm_page_map_aliases_witness :
  let s1 := (mm_page_map 4194304 8192 12288 2 one_root).2 in
  let s2 := (mm_page_map 4194304 (8192 + 2097152) 20480 2 s1).2 in
  let e := (mm_page_walk 4194304 8192 false s2).1 in
  e = 0 ∨ e = 4194304 + 16 ∧ load64 (mem s2) e = 20480 + 3.
Proof.
  intros s1 s2 e.
  exact (mm_page_map_aliases s1 4194304 8192 (8192 + 2097152) 20480 2 false eq_refl eq_refl).
Defined.

(** What [mm_init] leaves behind, from the state in which the image is
    loaded.  The heap holds the root and three tables; the root's slot 0
    holds the entry of the very first page (frame 0, flags [0x103]) instead
    of the link to the next level, so each of the 1023 other identity
    mappings, and any later mapping below 512 GiB, fails and changes
    nothing. *)
Theorem mm_init_maps_one_page ha rest :
  0 < ha → ha + KERNEL_HEAP_SIZE < 2 ^ 64 → ha mod 4096 = 0 →
  (∀ a, ha <= a < ha + KERNEL_HEAP_SIZE → rest a = 0) →
  let s := mm_init (mm_boot ha rest) in
  kernel_page_table s = ha ∧ current_page_table s = ha ∧
  heap_offset s = 4 * AEGIS_PAGE_SIZE ∧
  load64 (mem s) (entry_addr ha 0) = 259 ∧
  ∀ v pa fl, 0 <= v < 2 ^ 39 → mm_page_map ha v pa fl s = (-1, s).
Proof.
  intros Hha Htop Hal Hz.
  pose proof (mm_boot_paging_inv 0 ha rest Hha Htop Hal ltac:(unfold KERNEL_HEAP_SIZE; lia) Hz)
    as I0.
  unfold mm_init, IDENTITY_MAP_FUEL. generalize 1024%nat as fuel. intros fuel.
  change (set_heap_offset 0 (mm_boot ha rest)) with (mm_boot ha rest).
  destruct (page_table_alloc (mm_boot ha rest)) as [kpt s1] eqn:Ea.
  apply first_table in Ea as (-> & I1 & Ha1 & Ho1 & Hz1); [|done|done].
  change (heap_area (mm_boot ha rest)) with ha in *.
  rewrite (proj2 (Z.eqb_neq ha 0)) by lia.
  assert (I2 : paging_inv (set_kernel_page_table ha s1)) by (destruct s1, I1; by split).
  pose proof (identity_map_boot fuel (set_kernel_page_table ha s1) I2 Ho1) as Hid.
  change (heap_area (set_kernel_page_table ha s1)) with (heap_area s1) in Hid.
  rewrite Ha1 in Hid. destruct (Hid Hz1) as (Hk & Hoff & He).
  split_and!; [exact Hk|done|exact Hoff|exact He|].
  intros v pa fl Hv. apply mm_page_map_stuck; [exact He|by apply pml4_idx_low].
Qed.

Lemma mm_init_maps_one_page_witness :
  load64 (mem (mm_init (mm_boot 4194304 (λ _, 0)))) (entry_addr 4194304 0) = 259.
Proof.
  apply (mm_init_maps_one_page 4194304 (λ _, 0)); try reflexivity.
Defined.
