(* ===== verification/Vma.v ===== *)
(** * Virtual memory areas ([kernel/src/mm.c], third part)

    [vma_t] nodes live in the shared memory as singly linked lists whose
    head is a pointer cell of the caller.  The operations below load and
    store that memory.  The specification is a list of areas, most recent
    first; [vma_at] relates the two and the theorems are refinements. *)

From S2P Require Import Prelude Memory Heap.

(** [struct vma]: start, end, flags and next at offsets 0, 8, 16 and 24. *)
Definition VMA_SIZE : Z := 32.
Definition vma_start (p : Z) : Z := p.
Definition vma_end (p : Z) : Z := p + 8.
Definition vma_flags (p : Z) : Z := p + 16.
Definition vma_next (p : Z) : Z := p + 24.

Section operations.
Context {S : Type} `{Allocator S}.

Definition poke (a v : Z) (s : S) : S := set_mem (store64 a v (mem_of s)) s.

(** [int mm_vma_add(vma_t **list, ...)]: [list_] is the address of the cell
    that holds the head. *)
Definition mm_vma_add (list_ start end_ flags : Z) (s : S) : Z * S :=
  if (end_ <=? start) || negb (start mod AEGIS_PAGE_SIZE =? 0)
     || negb (end_ mod AEGIS_PAGE_SIZE =? 0) then (-1, s) else
  let '(new_vma, s1) := alloc VMA_SIZE 8 s in
  if new_vma =? 0 then (-1, s1) else
  let s2 := poke (vma_start new_vma) start s1 in
  let s3 := poke (vma_end new_vma) end_ s2 in
  let s4 := poke (vma_flags new_vma) flags s3 in
  let s5 := poke (vma_next new_vma) (load64 (mem_of s4) list_) s4 in
  (0, poke list_ new_vma s5).

(** The loop of [mm_vma_remove]: [curr] is the address of the link being
    looked at. *)
Fixpoint vma_remove_loop (fuel : nat) (curr start : Z) (s : S) : S :=
  match fuel with
  | O => s
  | Datatypes.S fuel' =>
      let node := load64 (mem_of s) curr in
      if node =? 0 then s else
      if load64 (mem_of s) (vma_start node) =? start
      then poke curr (load64 (mem_of s) (vma_next node)) s
      else vma_remove_loop fuel' (vma_next node) start s
  end.

(** The loop of [mm_vma_find]: the address of the node found, 0 for null. *)
Fixpoint vma_find_loop (fuel : nat) (vma addr : Z) (s : S) : Z :=
  match fuel with
  | O => 0
  | Datatypes.S fuel' =>
      if vma =? 0 then 0 else
      if (load64 (mem_of s) (vma_start vma) <=? addr)
         && (addr <? load64 (mem_of s) (vma_end vma)) then vma
      else vma_find_loop fuel' (load64 (mem_of s) (vma_next vma)) addr s
  end.
End operations.

(** At most [KERNEL_HEAP_SIZE / VMA_SIZE] nodes fit in the heap; one more
    iteration sees the end of the list. *)
Definition VMA_FUEL : nat := S (Z.to_nat (KERNEL_HEAP_SIZE / VMA_SIZE)).
#[global] Arguments VMA_FUEL : simpl never.

Definition mm_vma_remove {S} `{Allocator S} (list_ start : Z) (s : S) : S :=
  vma_remove_loop VMA_FUEL list_ start s.

Definition mm_vma_find {S} `{Allocator S} (list_ addr : Z) (s : S) : Z :=
  vma_find_loop VMA_FUEL list_ addr s.

(** ** Specification: a list of areas *)

Record area : Type := mk_area { a_start : Z; a_end : Z; a_flags : Z }.

Definition contains (addr : Z) (v : area) : bool :=
  (a_start v <=? addr) && (addr <? a_end v).

Fixpoint spec_remove {A} (start : Z) (l : list (A * area)) : list (A * area) :=
  match l with
  | [] => []
  | (p, v) :: l' => if a_start v =? start then l' else (p, v) :: spec_remove start l'
  end.

Definition area_ok (v : area) : Prop :=
  0 <= a_start v < a_end v ∧ a_end v < 2 ^ 64 ∧ 0 <= a_flags v < 2 ^ 64 ∧
  a_start v mod AEGIS_PAGE_SIZE = 0 ∧ a_end v mod AEGIS_PAGE_SIZE = 0.

(** ** Representation *)

(** [cell] holds the address of the first node, whose fields hold its area
    and whose [next] field is the cell of the rest. *)
Fixpoint vma_chain (m : memory) (cell : Z) (l : list (Z * area)) : Prop :=
  match l with
  | [] => load64 m cell = 0
  | (p, v) :: l' =>
      load64 m cell = p ∧
      load64 m (vma_start p) = a_start v ∧ load64 m (vma_end p) = a_end v ∧
      load64 m (vma_flags p) = a_flags v ∧ vma_chain m (vma_next p) l'
  end.

(** The nodes are disjoint blocks of the heap, newest (highest) first. *)
Fixpoint nodes_below (lo hi : Z) (l : list (Z * area)) : Prop :=
  match l with
  | [] => True
  | (p, v) :: l' => lo <= p ∧ p + VMA_SIZE <= hi ∧ area_ok v ∧ nodes_below lo p l'
  end.

Record vma_at {S} `{Allocator S} (s : S) (list_ : Z) (l : list (Z * area)) : Prop := {
  va_inv : alloc_inv s;
  va_chain : vma_chain (mem_of s) list_ l;
  va_nodes : nodes_below (heap_start s) (brk s) l;
  va_cell : list_ + 8 <= heap_start s ∨ heap_limit s <= list_
}.

(** ** Lemmas *)

Lemma nodes_below_mono lo hi hi' l :
  hi <= hi' → nodes_below lo hi l → nodes_below lo hi' l.
Proof. destruct l as [|[p v] l]; simpl; intuition lia. Qed.

Lemma nodes_below_length lo hi l :
  nodes_below lo hi l → lo <= hi → Z.of_nat (length l) * VMA_SIZE <= hi - lo.
Proof.
  revert hi; induction l as [|[p v] l IH]; intros hi; simpl; [unfold VMA_SIZE; lia|].
  intros (? & ? & _ & Hl) _. specialize (IH p Hl ltac:(lia)). unfold VMA_SIZE in *. lia.
Qed.

(** A store outside of the cell and of the nodes is not seen. *)
Lemma vma_chain_frame m a v cell lo hi l :
  nodes_below lo hi l → a + 8 <= cell ∨ cell + 8 <= a →
  a + 8 <= lo ∨ hi <= a →
  vma_chain m cell l → vma_chain (store64 a v m) cell l.
Proof.
  revert cell hi; induction l as [|[p w] l IH]; intros cell hi; simpl.
  { intros _ ? _ ?. by rewrite load64_store64_ne. }
  unfold VMA_SIZE, vma_start, vma_end, vma_flags, vma_next in *.
  intros (Hlo & Hhi & _ & Hl) Hc Ha (E1 & E2 & E3 & E4 & Hch).
  rewrite !load64_store64_ne by lia. split_and!; try done.
  apply (IH _ p); [done|lia|lia|done].
Qed.

(** The chain only depends on the cell's content. *)
Lemma vma_chain_cell m c c' l :
  load64 m c = load64 m c' → vma_chain m c l → vma_chain m c' l.
Proof. destruct l as [|[p v] l]; simpl; intros <-; done. Qed.

Section proofs.
Context {S : Type} `{AllocatorLaws S}.
Implicit Types s : S.

Lemma poke_facts a v s :
  mem_of (poke a v s) = store64 a v (mem_of s) ∧ brk (poke a v s) = brk s ∧
  heap_start (poke a v s) = heap_start s ∧ heap_limit (poke a v s) = heap_limit s ∧
  (alloc_inv s → alloc_inv (poke a v s)).
Proof.
  unfold poke. rewrite mem_set_mem, brk_set_mem, start_set_mem, limit_set_mem, inv_set_mem.
  done.
Qed.

Lemma vma_at_length s list_ l : vma_at s list_ l → (length l < VMA_FUEL)%nat.
Proof.
  intros [Hi _ Hn _]. destruct (brk_bounds s Hi) as [? [? _]]. pose proof (heap_size s).
  pose proof (nodes_below_length _ _ _ Hn ltac:(lia)) as Hlen.
  unfold VMA_FUEL. change (KERNEL_HEAP_SIZE / VMA_SIZE) with 8192.
  unfold VMA_SIZE, KERNEL_HEAP_SIZE in *. lia.
Qed.

Lemma vma_find_loop_spec fuel cell addr s lo hi l :
  (length l < fuel)%nat → 0 < lo → nodes_below lo hi l → vma_chain (mem_of s) cell l →
  vma_find_loop fuel (load64 (mem_of s) cell) addr s =
  match List.find (λ x, contains addr x.2) l with Some (p, _) => p | None => 0 end.
Proof.
  intros Hf Hlo. revert fuel cell hi Hf. induction l as [|[p v] l IH]; intros [|fuel] cell hi Hf;
    simpl in *; try lia.
  { intros _ E. by rewrite E. }
  intros (Hp & _ & _ & Hn) (E & E1 & E2 & _ & Hch). rewrite E, E1, E2.
  rewrite (proj2 (Z.eqb_neq p 0)) by lia. fold (contains addr v).
  destruct (contains addr v); [done|]. eapply IH; [lia|done|done].
Qed.

Lemma vma_remove_loop_spec fuel start s l : ∀ cell lo hi,
  (length l < fuel)%nat → 0 < lo → nodes_below lo hi l → vma_chain (mem_of s) cell l →
  cell + 8 <= lo ∨ hi <= cell →
  let s' := vma_remove_loop fuel cell start s in
  vma_chain (mem_of s') cell (spec_remove start l) ∧
  brk s' = brk s ∧ heap_start s' = heap_start s ∧ heap_limit s' = heap_limit s ∧
  (alloc_inv s → alloc_inv s') ∧
  ∀ a, a + 8 <= lo ∨ hi <= a → a + 8 <= cell ∨ cell + 8 <= a →
    load64 (mem_of s') a = load64 (mem_of s) a.
Proof.
  revert fuel. induction l as [|[p v] l IH]; intros [|fuel] cell lo hi Hf Hlo; simpl in *; try lia.
  { intros _ E _. rewrite E. simpl. done. }
  intros (Hp & Hhi & _ & Hn) (E & E1 & E2 & E3 & Hch) Hcell. rewrite E, E1.
  rewrite (proj2 (Z.eqb_neq p 0)) by lia.
  unfold VMA_SIZE, vma_start, vma_end, vma_flags, vma_next in *.
  destruct (a_start v =? start) eqn:Es.
  - destruct (poke_facts cell (load64 (mem_of s) (p + 24)) s) as (-> & -> & -> & -> & Hinv).
    split_and!; try done.
    + apply (vma_chain_frame _ cell (load64 (mem_of s) (p + 24)) _ _ _ _ Hn) in Hch; [|lia..].
      eapply vma_chain_cell; [|exact Hch].
      rewrite load64_store64_eq, load64_store64_ne by lia.
      symmetry. apply u64_small, load64_range.
    + intros a ? ?. apply load64_store64_ne. lia.
  - destruct (IH fuel (p + 24) lo p) as (Hch' & -> & -> & -> & Hinv & Hfr);
      [lia|lia|done|done|lia|].
    split_and!; try done.
    + simpl. unfold vma_start, vma_end, vma_flags, vma_next.
      rewrite !Hfr by lia. done.
    + intros a ? ?. apply Hfr; lia.
Qed.

Lemma spec_remove_nodes start lo hi l :
  nodes_below lo hi l → nodes_below lo hi (spec_remove start l).
Proof.
  revert hi; induction l as [|[p v] l IH]; intros hi; simpl; [done|].
  intros (? & ? & ? & Hn). destruct (_ =? _); simpl.
  - eapply nodes_below_mono; [|done]. unfold VMA_SIZE in *. lia.
  - auto.
Qed.

Lemma mm_vma_remove_at s list_ start l :
  vma_at s list_ l → vma_at (mm_vma_remove list_ start s) list_ (spec_remove start l).
Proof.
  intros Hat. pose proof (vma_at_length _ _ _ Hat) as Hlen. destruct Hat as [Hi Hch Hn Hc].
  destruct (brk_bounds s Hi) as [? ?].
  destruct (vma_remove_loop_spec VMA_FUEL start s l list_ (heap_start s) (brk s))
    as (Hch' & Eb & Es & El & Hinv & _); try done || lia.
  split.
  - by apply Hinv.
  - done.
  - unfold mm_vma_remove. rewrite Eb, Es. by apply spec_remove_nodes.
  - unfold mm_vma_remove. rewrite Es, El. done.
Qed.

Lemma mm_vma_find_at s list_ addr l :
  vma_at s list_ l →
  mm_vma_find (load64 (mem_of s) list_) addr s =
  match List.find (λ x, contains addr x.2) l with Some (p, _) => p | None => 0 end.
Proof.
  intros Hat. pose proof (vma_at_length _ _ _ Hat) as Hlen. destruct Hat as [Hi Hch Hn Hc].
  destruct (brk_bounds s Hi) as [? ?].
  by apply (vma_find_loop_spec _ _ _ _ (heap_start s) (brk s)); [lia..| |].
Qed.

(** The five stores of [mm_vma_add]: the chain grows by one node. *)
Definition link_node (list_ p : Z) (v : area) (m : memory) : memory :=
  let m4 := store64 (vma_flags p) (a_flags v)
              (store64 (vma_end p) (a_end v) (store64 (vma_start p) (a_start v) m)) in
  store64 list_ p (store64 (vma_next p) (load64 m4 list_) m4).

Lemma link_node_chain m list_ p v lo hi l :
  nodes_below lo hi l → vma_chain m list_ l → area_ok v →
  0 < p → hi <= p → lo <= hi → p + VMA_SIZE < 2 ^ 64 →
  list_ + 8 <= lo ∨ p + VMA_SIZE <= list_ →
  vma_chain (link_node list_ p v m) list_ ((p, v) :: l).
Proof.
  intros Hn Hch ([? ?] & ? & ? & _) Hp Hhi Hlh Htop Hc.
  unfold link_node, VMA_SIZE, vma_start, vma_end, vma_flags, vma_next in *.
  set (m4 := store64 (p + 16) _ _).
  assert (Hch4 : vma_chain m4 list_ l).
  { unfold m4. do 3 (eapply vma_chain_frame; [exact Hn|lia|lia|]). exact Hch. }
  assert (Hh : load64 m4 list_ = u64 (load64 m4 list_)).
  { symmetry. apply u64_small, load64_range. }
  assert (E1 : load64 m4 p = a_start v).
  { unfold m4. rewrite !load64_store64_ne by lia. rewrite load64_store64_eq.
    apply u64_small. lia. }
  assert (E2 : load64 m4 (p + 8) = a_end v).
  { unfold m4. rewrite !load64_store64_ne by lia. rewrite load64_store64_eq.
    apply u64_small. lia. }
  assert (E3 : load64 m4 (p + 16) = a_flags v).
  { unfold m4. rewrite load64_store64_eq. apply u64_small. lia. }
  clearbody m4. simpl. unfold vma_start, vma_end, vma_flags, vma_next.
  rewrite load64_store64_eq, u64_small by lia.
  rewrite !(load64_store64_ne list_) by lia. rewrite !load64_store64_ne by lia.
  split_and!; try done.
  eapply vma_chain_frame; [exact Hn|lia|lia|].
  eapply (vma_chain_cell _ list_).
  - rewrite load64_store64_eq, load64_store64_ne by lia. exact Hh.
  - eapply vma_chain_frame; [exact Hn|lia|lia|done].
Qed.

Lemma mm_vma_add_at s list_ v l :
  vma_at s list_ l → area_ok v →
  let '(r, s') := mm_vma_add list_ (a_start v) (a_end v) (a_flags v) s in
  (r = -1 ∧ vma_at s' list_ l ∧ heap_limit s < brk s + 8 + VMA_SIZE) ∨
  (r = 0 ∧ ∃ p, load64 (mem_of s') list_ = p ∧ vma_at s' list_ ((p, v) :: l)).
Proof.
  intros [Hi Hch Hn Hc] Hv. pose proof Hv as ([? ?] & ? & ? & Hs & He).
  unfold mm_vma_add. rewrite (proj2 (Z.leb_gt _ _)) by lia. rewrite Hs, He. simpl.
  destruct (alloc_spec VMA_SIZE 8 s Hi ltac:(unfold VMA_SIZE; lia) ltac:(by exists 3))
    as [Hi' Hm Hst Hli Hblk Hroom].
  destruct (alloc VMA_SIZE 8 s) as [p s1]. simpl in *.
  destruct (brk_bounds s Hi) as [? ?]. destruct (brk_bounds s1 Hi') as [? ?].
  destruct Hblk as [[-> Hb]|(Hp & Hle & Hb & _)]; simpl.
  { left. split_and!; [done| |lia]. split; rewrite ?Hm, ?Hb, ?Hst, ?Hli; done. }
  rewrite (proj2 (Z.eqb_neq p 0)) by lia. right. split; [done|]. exists p.
  assert (Hch' : vma_chain (link_node list_ p v (mem_of s)) list_ ((p, v) :: l)).
  { eapply link_node_chain; try done || lia. }
  assert (Hmem : ∀ x, mem_of (poke list_ p x) = store64 list_ p (mem_of x)).
  { intros x. apply poke_facts. }
  split.
  - unfold poke. rewrite !mem_set_mem, Hm. apply Hch'.
  - split.
    + unfold poke. by rewrite !inv_set_mem.
    + unfold poke. rewrite !mem_set_mem, Hm. exact Hch'.
    + unfold poke. rewrite !brk_set_mem, !start_set_mem. simpl.
      rewrite Hst. split_and!; [lia|lia|done|]. by eapply nodes_below_mono.
    + unfold poke. rewrite !start_set_mem, !limit_set_mem. by rewrite Hst, Hli.
Qed.
End proofs.

(** Concrete states for the witnesses: the list headed by the cell at
    address 64, empty and with one area. *)
Definition no_vma : mm_state := mm_boot 4194304 (λ _, 0).
Definition one_vma : mm_state := (mm_vma_add 64 4096 12288 3 no_vma).2.

Lemma no_vma_at : vma_at no_vma 64 [].
Proof.
  split; simpl; [|done|done|lia]. apply (bool_decide_unpack _). vm_compute. exact I.
Qed.

Lemma one_vma_at : vma_at one_vma 64 [(4194304, mk_area 4096 12288 3)].
Proof.
  split.
  - apply (bool_decide_unpack _). vm_compute. exact I.
  - vm_compute. done.
  - repeat split; vm_compute; (discriminate || reflexivity).
  - left. vm_compute. discriminate.
Qed.

(** ** Properties *)

(** C32: insertion.  [mm_vma_add] rejects an empty, inverted or unaligned
    range without touching the state; on a valid one it pushes the area on
    the front of the list, and it fails only when the heap cannot hold the
    32-byte node, leaving the list as it was. *)
Theorem mm_vma_add_refines {S} `{AllocatorLaws S} (s : S) list_ l v :
  vma_at s list_ l →
  (a_end v <= a_start v ∨ a_start v mod AEGIS_PAGE_SIZE ≠ 0 ∨ a_end v mod AEGIS_PAGE_SIZE ≠ 0 →
   mm_vma_add list_ (a_start v) (a_end v) (a_flags v) s = (-1, s)) ∧
  (area_ok v →
   let '(r, s') := mm_vma_add list_ (a_start v) (a_end v) (a_flags v) s in
   (r = -1 ∧ vma_at s' list_ l ∧ heap_limit s < brk s + 8 + VMA_SIZE) ∨
   (r = 0 ∧ ∃ p, load64 (mem_of s') list_ = p ∧ vma_at s' list_ ((p, v) :: l))).
Proof.
  intros Hat. split; [|by apply mm_vma_add_at].
  intros Hbad. unfold mm_vma_add. destruct (a_end v <=? a_start v) eqn:E1; [done|].
  destruct (a_start v mod _ =? 0) eqn:E2; [|done].
  destruct (a_end v mod _ =? 0) eqn:E3; [|done].
  apply Z.leb_gt in E1. apply Z.eqb_eq in E2, E3. lia.
Qed.

Lemma mm_vma_add_refines_witness :
  mm_vma_add 64 4096 4096 0 no_vma = (-1, no_vma) ∧
  (mm_vma_add 64 4096 12288 3 no_vma).1 = 0.
Proof.
  destruct (mm_vma_add_refines no_vma 64 [] (mk_area 4096 4096 0) no_vma_at) as [Hbad _].
  destruct (mm_vma_add_refines no_vma 64 [] (mk_area 4096 12288 3) no_vma_at) as [_ Hgood].
  split.
  - apply Hbad. left. simpl. lia.
  - assert (Hok : area_ok (mk_area 4096 12288 3)) by (repeat split; vm_compute; (discriminate || reflexivity)).
    specialize (Hgood Hok). cbn [a_start a_end a_flags] in Hgood.
    destruct (mm_vma_add 64 4096 12288 3 no_vma) as [r s'].
    destruct Hgood as [(_ & _ & Hfull)|[-> _]]; [|done].
    vm_compute in Hfull. discriminate.
Defined.

(** C31: lookup and removal.  [mm_vma_find] returns the node of the most
    recently added area that contains the address, or null when there is
    none, and [mm_vma_remove] unlinks exactly the most recently added area
    with the given start; both loops end within the fuel. *)
Theorem mm_vma_find_remove_refine {S} `{AllocatorLaws S} (s : S) list_ l start addr :
  vma_at s list_ l →
  mm_vma_find (load64 (mem_of s) list_) addr s =
    match List.find (λ x, contains addr x.2) l with Some (p, _) => p | None => 0 end ∧
  vma_at (mm_vma_remove list_ start s) list_ (spec_remove start l).
Proof.
  intros Hat. split.
  - by apply mm_vma_find_at.
  - by apply mm_vma_remove_at.
Qed.

Lemma mm_vma_find_remove_refine_witness :
  mm_vma_find (load64 (mem one_vma) 64) 8191 one_vma = 4194304 ∧
  vma_at (mm_vma_remove 64 4096 one_vma) 64 [].
Proof.
  destruct (mm_vma_find_remove_refine one_vma 64 _ 4096 8191 one_vma_at) as [Hf Hr].
  split; [exact Hf|exact Hr].
Defined.
