(* ===== verification/Sched.v ===== *)
(** * Scheduler state and operations ([kernel/src/sched.c])

    The static variables of [sched.c] as a record, and one definition per
    function.  Task slots and priorities index C arrays and are [nat]s; task
    identifiers, wake-up times and addresses are [Z]s of their C width.
    Array accesses are total here: [SchedSafety] proves that every index
    the code computes is in range in every reachable state.  The diagnostic
    [console_write] calls write to the serial port only and are left out.

    The task register file [task_regs_t] is never read or written by the
    code and has no counterpart. *)

From S2P Require Import Prelude.

Definition TASK_MAX : nat := 64.
Definition TASK_STACK_SIZE : Z := 4096.
Definition TASK_PRIORITY_LOW : nat := 0.
Definition TASK_PRIORITY_NORMAL : nat := 1.
Definition TASK_PRIORITY_HIGH : nat := 2.
Definition TASK_PRIORITY_MAX : nat := 2.

Inductive task_state_t : Type :=
  | TASK_STATE_EMPTY
  | TASK_STATE_READY
  | TASK_STATE_RUNNING
  | TASK_STATE_BLOCKED
  | TASK_STATE_TERMINATED.

#[export] Instance task_state_eq_dec : EqDecision task_state_t.
Proof. solve_decision. Defined.

(** [stack] holds the sixteen lowest words of the task's stack, the part of
    it that the scheduler writes. *)
Record task_t : Type := mk_task {
  id : Z;
  state : task_state_t;
  stack : list Z;
  stack_top : Z;
  next : nat;
  wake_time : Z;
  entry : Z;
  priority : nat
}.

Definition task0 : task_t :=
  mk_task 0 TASK_STATE_EMPTY (replicate 16 0) 0 0 0 0 0.
#[export] Instance task_inhabited : Inhabited task_t := populate task0.

Definition set_state (s : task_state_t) (t : task_t) : task_t :=
  mk_task t.(id) s t.(stack) t.(stack_top) t.(next) t.(wake_time) t.(entry) t.(priority).
Definition set_next (n : nat) (t : task_t) : task_t :=
  mk_task t.(id) t.(state) t.(stack) t.(stack_top) n t.(wake_time) t.(entry) t.(priority).
Definition set_wake_time (w : Z) (t : task_t) : task_t :=
  mk_task t.(id) t.(state) t.(stack) t.(stack_top) t.(next) w t.(entry) t.(priority).
Definition set_priority (p : nat) (t : task_t) : task_t :=
  mk_task t.(id) t.(state) t.(stack) t.(stack_top) t.(next) t.(wake_time) t.(entry) p.
Definition set_stack_top (a : Z) (t : task_t) : task_t :=
  mk_task t.(id) t.(state) t.(stack) a t.(next) t.(wake_time) t.(entry) t.(priority).

(** The static variables, the address the linker gives to [tasks], and the
    stack pointer that the inline assembly saves and loads. *)
Record sched : Type := mk_sched {
  tasks : list task_t;
  current_task : nat;
  ready_queue_head : list nat;
  ready_queue_tail : list nat;
  task_counter : Z;
  scheduler_running : bool;
  tasks_addr : Z;
  rsp : Z
}.

(** The zero-initialised variables ([task_counter] starts at 1). *)
Definition sched_boot (addr sp : Z) : sched :=
  mk_sched (replicate TASK_MAX task0) 0 [0; 0; 0]%nat [0; 0; 0]%nat 1 false addr sp.

Definition task_at (st : sched) (i : nat) : task_t := st.(tasks) !!! i.
Definition head_of (st : sched) (p : nat) : nat := st.(ready_queue_head) !!! p.
Definition tail_of (st : sched) (p : nat) : nat := st.(ready_queue_tail) !!! p.

Definition upd_task (i : nat) (f : task_t → task_t) (st : sched) : sched :=
  mk_sched (alter f i st.(tasks)) st.(current_task) st.(ready_queue_head)
    st.(ready_queue_tail) st.(task_counter) st.(scheduler_running) st.(tasks_addr) st.(rsp).
Definition set_current (i : nat) (st : sched) : sched :=
  mk_sched st.(tasks) i st.(ready_queue_head)
    st.(ready_queue_tail) st.(task_counter) st.(scheduler_running) st.(tasks_addr) st.(rsp).
Definition set_head (p i : nat) (st : sched) : sched :=
  mk_sched st.(tasks) st.(current_task) (<[p := i]> st.(ready_queue_head))
    st.(ready_queue_tail) st.(task_counter) st.(scheduler_running) st.(tasks_addr) st.(rsp).
Definition set_tail (p i : nat) (st : sched) : sched :=
  mk_sched st.(tasks) st.(current_task) st.(ready_queue_head)
    (<[p := i]> st.(ready_queue_tail)) st.(task_counter) st.(scheduler_running)
    st.(tasks_addr) st.(rsp).
Definition set_counter (c : Z) (st : sched) : sched :=
  mk_sched st.(tasks) st.(current_task) st.(ready_queue_head)
    st.(ready_queue_tail) c st.(scheduler_running) st.(tasks_addr) st.(rsp).
Definition set_running (b : bool) (st : sched) : sched :=
  mk_sched st.(tasks) st.(current_task) st.(ready_queue_head)
    st.(ready_queue_tail) st.(task_counter) b st.(tasks_addr) st.(rsp).
Definition set_rsp (a : Z) (st : sched) : sched :=
  mk_sched st.(tasks) st.(current_task) st.(ready_queue_head)
    st.(ready_queue_tail) st.(task_counter) st.(scheduler_running) st.(tasks_addr) a.

(** ** Shared fragments *)

(** The statement that links slot [i] behind the queue of priority [p]; it
    occurs in [task_create_priority], [task_set_priority], [task_yield] and
    [task_wake]. *)
Definition enqueue (p i : nat) (st : sched) : sched :=
  if decide (head_of st p = 0%nat) then set_tail p i (set_head p i st)
  else set_tail p i (upd_task (tail_of st p) (set_next i) st).

(** [current_task = ready_queue_head[p]], the head advances, and the tail is
    reset when the queue became empty; in [task_yield], [task_sleep] and
    [sched_start]. *)
Definition dequeue (p : nat) (st : sched) : sched :=
  let h := head_of st p in
  let st1 := set_current h st in
  let st2 := set_head p (next (task_at st1 h)) st1 in
  if decide (head_of st2 p = 0%nat) then set_tail p 0%nat st2 else st2.

(** The inline assembly of [task_yield] and [task_sleep]: the register that
    holds the new stack pointer is read before the old one is saved. *)
Definition switch_stack (old : nat) (st : sched) : sched :=
  let new_sp := stack_top (task_at st st.(current_task)) in
  set_rsp new_sp (upd_task old (set_stack_top st.(rsp)) st).

(** ** Operations *)

Definition sched_init (st : sched) : sched :=
  mk_sched
    ((λ t, mk_task 0 TASK_STATE_EMPTY t.(stack) t.(stack_top) t.(next) t.(wake_time)
             t.(entry) TASK_PRIORITY_NORMAL) <$> st.(tasks))
    0 ((λ _, 0%nat) <$> st.(ready_queue_head)) ((λ _, 0%nat) <$> st.(ready_queue_tail))
    1 false st.(tasks_addr) st.(rsp).

(** [sizeof(task_t)] and the offset of [stack] in it. *)
Definition SIZEOF_TASK : Z := 4312.
Definition OFFSETOF_STACK : Z := 172.

(** [(uint64_t)&tasks[slot].stack[TASK_STACK_SIZE - 16] & ~0xF] *)
Definition initial_stack_top (st : sched) (slot : nat) : Z :=
  u64 (st.(tasks_addr) + Z.of_nat slot * SIZEOF_TASK + OFFSETOF_STACK + (TASK_STACK_SIZE - 16))
  .& not64 15.

(** [task_id_t task_create_priority(void ( *entry)(void), uint8_t priority)];
    an entry of 0 is the null pointer. *)
Definition task_create_priority (entry : Z) (priority : nat) (st : sched) : Z * sched :=
  if entry =? 0 then (0, st) else
  let priority := if decide (TASK_PRIORITY_MAX < priority)%nat then TASK_PRIORITY_MAX
                  else priority in
  match first_from (λ t, bool_decide (state t = TASK_STATE_EMPTY)) (drop 1 st.(tasks)) 1 with
  | None => (0, st)
  | Some slot =>
      let new_id := st.(task_counter) in
      let st1 := set_counter (st.(task_counter) ⊞ 1) st in
      let st2 := upd_task slot (λ t,
        mk_task new_id TASK_STATE_READY (replicate 16 0) (initial_stack_top st slot)
                0 0 entry priority) st1 in
      (new_id, enqueue priority slot st2)
  end.

Definition task_create (entry : Z) (st : sched) : Z * sched :=
  task_create_priority entry TASK_PRIORITY_NORMAL st.

(** The removal half of [task_set_priority]: slot [i] is unlinked from the
    queue of priority [old_prio], as its head or behind the first slot [j]
    whose [next] is [i]. *)
Definition unlink (old_prio i : nat) (st : sched) : sched :=
  if decide (head_of st old_prio = i) then
    let st1 := set_head old_prio (next (task_at st i)) st in
    if decide (tail_of st1 old_prio = i) then set_tail old_prio 0%nat st1 else st1
  else
    match first_from (λ t, bool_decide (next t = i)) (drop 1 st.(tasks)) 1 with
    | None => st
    | Some j =>
        let st1 := upd_task j (set_next (next (task_at st i))) st in
        if decide (tail_of st1 old_prio = i) then set_tail old_prio j st1 else st1
    end.

Definition task_set_priority (tid : Z) (priority : nat) (st : sched) : sched :=
  let priority := if decide (TASK_PRIORITY_MAX < priority)%nat then TASK_PRIORITY_MAX
                  else priority in
  match first_from (λ t, id t =? tid) (drop 1 st.(tasks)) 1 with
  | None => st
  | Some i =>
      let old_prio := Sched.priority (task_at st i) in
      if decide (old_prio = priority) then st else
      let st1 := unlink old_prio i st in
      let st2 := upd_task i (set_priority priority) st1 in
      upd_task i (set_next 0) (enqueue priority i st2)
  end.

Definition task_yield (st : sched) : sched :=
  if negb st.(scheduler_running) || bool_decide (st.(current_task) = 0%nat) then st else
  let prio := priority (task_at st st.(current_task)) in
  if decide (head_of st prio = 0%nat) then st else
  let old := st.(current_task) in
  let st1 := dequeue prio st in
  let st2 :=
    if decide (state (task_at st1 old) = TASK_STATE_RUNNING) then
      enqueue prio old (upd_task old (λ t, set_next 0 (set_state TASK_STATE_READY t)) st1)
    else st1 in
  switch_stack old st2.

Definition task_sleep (ms : Z) (st : sched) : sched :=
  if negb st.(scheduler_running) || bool_decide (st.(current_task) = 0%nat) then st else
  let old := st.(current_task) in
  let st1 := upd_task old (λ t, set_wake_time ms (set_state TASK_STATE_BLOCKED t)) st in
  let prio := priority (task_at st1 old) in
  if decide (head_of st1 prio = 0%nat) then st1 else
  switch_stack old (dequeue prio st1).

Definition task_wake (tid : Z) (st : sched) : sched :=
  match first_from (λ t, (id t =? tid) && bool_decide (state t = TASK_STATE_BLOCKED))
                   (drop 1 st.(tasks)) 1 with
  | None => st
  | Some i =>
      let st1 := upd_task i
        (λ t, set_next 0 (set_wake_time 0 (set_state TASK_STATE_READY t))) st in
      enqueue (priority (task_at st1 i)) i st1
  end.

(** One iteration of the loop of [sched_tick]. *)
Definition tick_slot (st : sched) (i : nat) : sched :=
  let t := task_at st i in
  if bool_decide (state t = TASK_STATE_BLOCKED) && (0 <? wake_time t) then
    if wake_time t <=? 1 then task_wake (id t) st
    else upd_task i (set_wake_time (wake_time t - 1)) st
  else st.

Definition sched_tick (st : sched) : sched :=
  foldl tick_slot st (seq 1 (TASK_MAX - 1)).

Definition sched_current (st : sched) : Z :=
  if decide (st.(current_task) = 0%nat) then 0 else id (task_at st st.(current_task)).

(** The priorities in the order in which [sched_start] tries them. *)
Definition start_order : list nat := rev (seq 0 (S TASK_PRIORITY_MAX)).

(** [void sched_start(void)]: the first component is the entry point that
    the inline assembly calls, on the stack it has just loaded. *)
Definition sched_start (st : sched) : option Z * sched :=
  match filter (λ p, head_of st p ≠ 0%nat) start_order with
  | [] => (None, st)
  | highest_prio :: _ =>
      let st1 := dequeue highest_prio (set_running true st) in
      let cur := st1.(current_task) in
      let st2 := upd_task cur (set_state TASK_STATE_RUNNING) st1 in
      (Some (entry (task_at st2 cur)), set_rsp (stack_top (task_at st2 cur)) st2)
  end.
