(* ===== verification/SchedQueue.v ===== *)
(** * Ready queues: representation and refinement of the scheduler

    The ready queue of each priority is a list of task slots threaded
    through the [next] fields.  [sched_repr st qs] says that the arrays of
    [Sched] represent the abstract queues [qs]; the lemmas show that the
    shared fragments [enqueue] and [dequeue] are append and uncons, and the
    theorems lift this to the operations. *)

From S2P Require Import Prelude Sched.

(** ** Equations of the state updates *)

Create Rewrite HintDb sched.

Section equations.
Implicit Types st : sched.

Lemma task_at_set_head p i st j : task_at (set_head p i st) j = task_at st j.
Proof. done. Qed.
Lemma task_at_set_tail p i st j : task_at (set_tail p i st) j = task_at st j.
Proof. done. Qed.
Lemma task_at_set_current i st j : task_at (set_current i st) j = task_at st j.
Proof. done. Qed.
Lemma task_at_set_rsp a st j : task_at (set_rsp a st) j = task_at st j.
Proof. done. Qed.
Lemma task_at_set_running b st j : task_at (set_running b st) j = task_at st j.
Proof. done. Qed.
Lemma task_at_set_counter c st j : task_at (set_counter c st) j = task_at st j.
Proof. done. Qed.
Lemma head_of_upd_task i f st p : head_of (upd_task i f st) p = head_of st p.
Proof. done. Qed.
Lemma head_of_set_tail q i st p : head_of (set_tail q i st) p = head_of st p.
Proof. done. Qed.
Lemma head_of_set_current i st p : head_of (set_current i st) p = head_of st p.
Proof. done. Qed.
Lemma tail_of_upd_task i f st p : tail_of (upd_task i f st) p = tail_of st p.
Proof. done. Qed.
Lemma tail_of_set_head q i st p : tail_of (set_head q i st) p = tail_of st p.
Proof. done. Qed.
Lemma tail_of_set_current i st p : tail_of (set_current i st) p = tail_of st p.
Proof. done. Qed.

Lemma task_at_upd i f st j :
  (i < length (tasks st))%nat →
  task_at (upd_task i f st) j = if decide (i = j) then f (task_at st j) else task_at st j.
Proof.
  intros Hi. unfold task_at, upd_task; simpl.
  case_decide as E; [subst|by rewrite list_lookup_total_alter_ne].
  by rewrite list_lookup_total_alter_eq.
Qed.

Lemma head_of_set_head p i st q :
  (p < length (ready_queue_head st))%nat →
  head_of (set_head p i st) q = if decide (p = q) then i else head_of st q.
Proof.
  intros Hp. unfold head_of, set_head; simpl.
  case_decide as E; [subst|by rewrite list_lookup_total_insert_ne].
  by rewrite list_lookup_total_insert_eq.
Qed.

Lemma tail_of_set_tail p i st q :
  (p < length (ready_queue_tail st))%nat →
  tail_of (set_tail p i st) q = if decide (p = q) then i else tail_of st q.
Proof.
  intros Hp. unfold tail_of, set_tail; simpl.
  case_decide as E; [subst|by rewrite list_lookup_total_insert_ne].
  by rewrite list_lookup_total_insert_eq.
Qed.
End equations.

#[export] Hint Rewrite task_at_set_head task_at_set_tail task_at_set_current task_at_set_rsp
  task_at_set_running task_at_set_counter head_of_upd_task head_of_set_tail head_of_set_current
  tail_of_upd_task tail_of_set_head tail_of_set_current : sched.

(** The arrays have the sizes of their declarations. *)
Definition sized (st : sched) : Prop :=
  length st.(tasks) = TASK_MAX ∧
  length st.(ready_queue_head) = S TASK_PRIORITY_MAX ∧
  length st.(ready_queue_tail) = S TASK_PRIORITY_MAX.

Lemma sized_upd_task i f st : sized st → sized (upd_task i f st).
Proof. intros (? & ? & ?). split_and!; simpl; [by rewrite length_alter|done|done]. Qed.
Lemma sized_set_head p i st : sized st → sized (set_head p i st).
Proof. intros (? & ? & ?). split_and!; simpl; [done|by rewrite length_insert|done]. Qed.
Lemma sized_set_tail p i st : sized st → sized (set_tail p i st).
Proof. intros (? & ? & ?). split_and!; simpl; [done|done|by rewrite length_insert]. Qed.
Lemma sized_set_current i st : sized st → sized (set_current i st).
Proof. done. Qed.
Lemma sized_set_rsp a st : sized st → sized (set_rsp a st).
Proof. done. Qed.
Lemma sized_set_running b st : sized st → sized (set_running b st).
Proof. done. Qed.
Lemma sized_set_counter c st : sized st → sized (set_counter c st).
Proof. done. Qed.

#[export] Hint Resolve sized_upd_task sized_set_head sized_set_tail sized_set_current
  sized_set_rsp sized_set_running sized_set_counter : aegis.

(** ** Linked segments *)

Fixpoint linked (nx : nat → nat) (q : list nat) : Prop :=
  match q with
  | [] => True
  | a :: q' => nx a = hd 0%nat q' ∧ linked nx q'
  end.

Lemma linked_ext nx nx' q : (∀ i, i ∈ q → nx i = nx' i) → linked nx q → linked nx' q.
Proof.
  induction q as [|a q IH]; simpl; [done|]. intros H [Ha Hq]. split.
  - rewrite <-H; [done|]. left.
  - apply IH; [|done]. intros i Hi. apply H. by right.
Qed.

Lemma last_in (d : nat) q : q ≠ [] → default d (list.last q) ∈ q.
Proof.
  intros Hq. destruct (list.last q) eqn:E; simpl.
  - by apply last_Some_elem_of.
  - by apply last_None in E.
Qed.

(** Appending [i]: the last slot is redirected to [i], which ends the list. *)
Lemma linked_snoc nx nx' q i :
  q ≠ [] → NoDup q → i ∉ q → i ≠ 0%nat →
  (∀ j, j ∈ q → nx' j = if decide (j = default 0%nat (list.last q)) then i else nx j) →
  nx' i = 0%nat → linked nx q → linked nx' (q ++ [i]).
Proof.
  induction q as [|a q IH]; [done|]. intros _ Hnd Hni Hi0 Hnx Hend [Ha Hq].
  apply NoDup_cons in Hnd as [Hna Hnd]. apply not_elem_of_cons in Hni as [Hia Hni].
  destruct q as [|b q].
  - simpl. rewrite (Hnx a) by left. simpl. by rewrite decide_True.
  - change ((a :: b :: q) ++ [i]) with (a :: (b :: q) ++ [i]). split.
    + rewrite (Hnx a) by left. rewrite decide_False; [done|].
      rewrite last_cons_cons. intros E. apply Hna. rewrite E. by apply last_in.
    + apply IH; try done. intros j Hj. rewrite Hnx by (by right). by rewrite last_cons_cons.
Qed.

(** ** Representation *)

Definition queue_at (st : sched) (p : nat) (q : list nat) : Prop :=
  head_of st p = hd 0%nat q ∧ tail_of st p = default 0%nat (list.last q) ∧
  linked (λ i, next (task_at st i)) q ∧ NoDup q ∧
  ∀ i, i ∈ q → (1 <= i < TASK_MAX)%nat ∧ state (task_at st i) = TASK_STATE_READY ∧
               priority (task_at st i) = p.

Record sched_repr (st : sched) (qs : list (list nat)) : Prop := {
  sr_sized : sized st;
  sr_queues : length qs = S TASK_PRIORITY_MAX;
  sr_at : ∀ p q, qs !! p = Some q → queue_at st p q
}.

(** Slot [i] is in no ready queue. *)
Definition unqueued (qs : list (list nat)) (i : nat) : Prop :=
  ∀ p q, qs !! p = Some q → i ∉ q.

Lemma queue_at_nil_head st p q : queue_at st p q → head_of st p = 0%nat → q = [].
Proof.
  intros (Hh & _ & _ & _ & Hs) H0. destruct q as [|x q]; [done|].
  simpl in Hh. destruct (Hs x) as [? _]; [left|lia].
Qed.

(** A queued slot is queued under its own priority only. *)
Lemma queued_prio st qs p q i :
  sched_repr st qs → qs !! p = Some q → i ∈ q → priority (task_at st i) = p.
Proof. intros R Hq Hi. by apply (sr_at _ _ R p q Hq). Qed.

Lemma queued_ready st qs p q i :
  sched_repr st qs → qs !! p = Some q → i ∈ q →
  (1 <= i < TASK_MAX)%nat ∧ state (task_at st i) = TASK_STATE_READY.
Proof. intros R Hq Hi. apply (sr_at _ _ R p q Hq) in Hi as (? & ? & _). done. Qed.

Lemma unqueued_not_ready st qs i :
  sched_repr st qs → state (task_at st i) ≠ TASK_STATE_READY → unqueued qs i.
Proof. intros R Hn p q Hq Hi. by destruct (queued_ready _ _ _ _ _ R Hq Hi). Qed.

Lemma unqueued_insert qs p q i :
  unqueued qs i → i ∉ q → unqueued (<[p := q]> qs) i.
Proof.
  intros Hu Hi p' q'. rewrite list_lookup_insert. case_decide as E.
  - intros [= <-]. done.
  - apply Hu.
Qed.

#[export] Hint Resolve unqueued_not_ready unqueued_insert : aegis.

(** Two states that agree on what a queue mentions represent the same one. *)
Lemma queue_at_ext st st' p q :
  head_of st' p = head_of st p → tail_of st' p = tail_of st p →
  (∀ i, i ∈ q → next (task_at st' i) = next (task_at st i) ∧
     state (task_at st' i) = state (task_at st i) ∧
     priority (task_at st' i) = priority (task_at st i)) →
  queue_at st p q → queue_at st' p q.
Proof.
  intros Hh Ht Hi (H1 & H2 & H3 & H4 & H5). split_and!; try congruence; try done.
  - eapply linked_ext; [|exact H3]. intros i Hin. symmetry. by apply Hi.
  - intros i Hin. destruct (Hi i Hin) as (_ & -> & ->). by apply H5.
Qed.

(** Changing a slot that is in no queue. *)
Lemma sched_repr_upd_unqueued st qs i f :
  sched_repr st qs → (i < TASK_MAX)%nat → unqueued qs i → sched_repr (upd_task i f st) qs.
Proof.
  intros [Hsz Hlen Hat] Hi Hu. split; [by apply sized_upd_task|done|].
  intros p q Hq. apply (queue_at_ext st); [done|done| |by apply Hat].
  intros j Hj. rewrite task_at_upd by (by rewrite (proj1 Hsz)).
  rewrite decide_False; [done|]. intros ->. by apply (Hu p q Hq).
Qed.

(** Changing fields of any slot that the queues do not mention. *)
Lemma sched_repr_upd_frame st qs i f :
  sched_repr st qs → (i < TASK_MAX)%nat →
  (∀ t, next (f t) = next t ∧ state (f t) = state t ∧ priority (f t) = priority t) →
  sched_repr (upd_task i f st) qs.
Proof.
  intros [Hsz Hlen Hat] Hi Hf. split; [by apply sized_upd_task|done|].
  intros p q Hq. apply (queue_at_ext st); [done|done| |by apply Hat].
  intros j Hj. rewrite task_at_upd by (by rewrite (proj1 Hsz)). by case_decide.
Qed.

Lemma sched_repr_switch st qs old :
  sched_repr st qs → (old < TASK_MAX)%nat → sched_repr (switch_stack old st) qs.
Proof.
  intros R Hold. unfold switch_stack.
  destruct (sched_repr_upd_frame st qs old (set_stack_top (rsp st)) R Hold) as [? ? Hat];
    [done|by split].
Qed.

(** What [enqueue] changes. *)
Lemma enqueue_view st p i :
  sized st → (p < S TASK_PRIORITY_MAX)%nat → (tail_of st p < TASK_MAX)%nat →
  (∀ p', head_of (enqueue p i st) p' =
     if decide (p = p' ∧ head_of st p = 0%nat) then i else head_of st p') ∧
  (∀ p', tail_of (enqueue p i st) p' = if decide (p = p') then i else tail_of st p') ∧
  (∀ j, task_at (enqueue p i st) j =
     if decide (head_of st p ≠ 0%nat ∧ tail_of st p = j) then set_next i (task_at st j)
     else task_at st j).
Proof.
  intros (Hs1 & Hs2 & Hs3) Hp Ht. unfold enqueue. split_and!; intros x; case_decide as H0.
  - rewrite head_of_set_tail, head_of_set_head by lia. repeat case_decide; naive_solver.
  - rewrite decide_False by naive_solver. done.
  - rewrite tail_of_set_tail by (simpl; lia). done.
  - rewrite tail_of_set_tail by (simpl; lia). done.
  - rewrite decide_False by naive_solver. done.
  - rewrite task_at_set_tail, task_at_upd by lia. repeat case_decide; naive_solver.
Qed.

Lemma enqueue_sized st p i : sized st → sized (enqueue p i st).
Proof. intros. unfold enqueue. case_decide; auto with aegis. Qed.

(** [enqueue] appends to its queue ... *)
Lemma enqueue_queue_at st p q i :
  sized st → (p < S TASK_PRIORITY_MAX)%nat → queue_at st p q →
  (1 <= i < TASK_MAX)%nat → i ∉ q →
  state (task_at st i) = TASK_STATE_READY → priority (task_at st i) = p →
  next (task_at st i) = 0%nat →
  queue_at (enqueue p i st) p (q ++ [i]).
Proof.
  intros Hsz Hp Hq Hi Hni Hst Hpr Hnx. pose proof Hq as (Hh & Ht & Hl & Hnd & Hs).
  assert (Hne : q ≠ [] → tail_of st p ∈ q ∧ head_of st p ≠ 0%nat).
  { intros Hne. split; [rewrite Ht; by apply last_in|].
    intros H0. by apply Hne, (queue_at_nil_head st p). }
  assert (Htl : (tail_of st p < TASK_MAX)%nat).
  { destruct q as [|x q]; [rewrite Ht; simpl; unfold TASK_MAX; lia|].
    destruct Hne as [Hin _]; [done|]. apply Hs in Hin. lia. }
  destruct (enqueue_view st p i Hsz Hp Htl) as (Vh & Vt & Vn). unfold queue_at.
  rewrite Vh, Vt, (decide_True (P := p = p)), last_snoc by done.
  assert (Hti : tail_of st p ≠ i ∨ q = []).
  { destruct q; [by right|left]. destruct Hne as [Hin _]; [done|]. congruence. }
  split_and!; [|done| | |].
  - destruct q as [|x q]; [by rewrite decide_True by done|].
    rewrite decide_False; [done|]. intros [_ H0]. by destruct Hne.
  - destruct q as [|x q].
    { simpl. rewrite Vn. simpl in Hh. rewrite decide_False by naive_solver. done. }
    destruct Hne as [Hin Hh0]; [done|].
    eapply linked_snoc; [done|done|done|lia| | |exact Hl].
    + intros j Hj. rewrite Vn, <-Ht.
      destruct (decide (_ ∧ _)) as [[_ E]|E]; [by rewrite decide_True|].
      rewrite decide_False; [done|]. intros ->. by apply E.
    + rewrite Vn. destruct (decide (_ ∧ _)) as [[_ E]|_]; [by rewrite E in Hin|exact Hnx].
  - apply NoDup_app. split_and!; [done| |apply NoDup_singleton].
    intros j Hj ->%list_elem_of_singleton. done.
  - intros j. rewrite elem_of_app, list_elem_of_singleton, Vn.
    intros [Hj| ->]; [apply Hs in Hj|]; by destruct (decide (_ ∧ _)).
Qed.

(** ... and leaves the others alone. *)
Lemma enqueue_repr st qs p q i :
  sched_repr st qs → qs !! p = Some q → (1 <= i < TASK_MAX)%nat → i ∉ q →
  state (task_at st i) = TASK_STATE_READY → priority (task_at st i) = p →
  next (task_at st i) = 0%nat →
  sched_repr (enqueue p i st) (<[p := q ++ [i]]> qs).
Proof.
  intros [Hsz Hlen Hat] Hq Hi Hni Hst Hpr Hnx. pose proof (Hat p q Hq) as Hqa.
  assert (Hp : (p < S TASK_PRIORITY_MAX)%nat) by (rewrite <-Hlen; eapply lookup_lt_Some; done).
  split; [by apply enqueue_sized|by rewrite length_insert|].
  intros p' q'. rewrite list_lookup_insert. case_decide as E.
  { destruct E as [<- _]. intros [= <-]. by apply enqueue_queue_at. }
  intros Hq'. assert (Hpp : p ≠ p') by (intros <-; apply E; lia).
  assert (Htl : tail_of st p = 0%nat ∨ tail_of st p ∈ q ∧ (tail_of st p < TASK_MAX)%nat).
  { destruct Hqa as (_ & Ht & _ & _ & Hs). destruct q as [|x q]; [by left|right].
    assert (tail_of st p ∈ x :: q) as Hin by (rewrite Ht; by apply last_in).
    split; [done|]. apply Hs in Hin. lia. }
  assert (Hlt : (tail_of st p < TASK_MAX)%nat) by (unfold TASK_MAX in *; naive_solver lia).
  destruct (enqueue_view st p i Hsz Hp Hlt) as (Vh & Vt & Vn).
  apply (queue_at_ext st).
  - rewrite Vh, decide_False; [done|]. naive_solver.
  - rewrite Vt. by rewrite decide_False.
  - intros j Hj. rewrite Vn. destruct (decide (_ ∧ _)) as [[_ Ej]|_]; [|done]. subst j. apply (Hat p' q' Hq') in Hj as (Hr & _ & Hpr').
    destruct Htl as [Htl|[Htl _]]; [lia|].
    destruct Hqa as (_ & _ & _ & _ & Hs). apply Hs in Htl as (_ & _ & ?). congruence.
  - by apply Hat.
Qed.

(** [dequeue] takes the first slot off and makes it current. *)
Lemma dequeue_view st p :
  sized st → (p < S TASK_PRIORITY_MAX)%nat →
  let n := next (task_at st (head_of st p)) in
  current_task (dequeue p st) = head_of st p ∧
  (∀ j, task_at (dequeue p st) j = task_at st j) ∧
  (∀ p', head_of (dequeue p st) p' = if decide (p = p') then n else head_of st p') ∧
  (∀ p', tail_of (dequeue p st) p' =
     if decide (p = p') then (if decide (n = 0%nat) then 0%nat else tail_of st p)
     else tail_of st p').
Proof.
  intros (Hs1 & Hs2 & Hs3) Hp n. unfold dequeue. rewrite task_at_set_current.
  rewrite head_of_set_head by (simpl; lia). rewrite (decide_True (P := p = p)) by done. fold n.
  split_and!; try intros x.
  - by case_decide.
  - by case_decide.
  - destruct (decide (n = 0%nat)); autorewrite with sched;
      rewrite head_of_set_head by (simpl; lia); done.
  - destruct (decide (n = 0%nat)).
    + rewrite tail_of_set_tail by (simpl; lia). done.
    + autorewrite with sched. by case_decide; subst.
Qed.

Lemma dequeue_sized st p : sized st → sized (dequeue p st).
Proof. intros. unfold dequeue. case_decide; auto 6 with aegis. Qed.

Lemma dequeue_repr st qs p x q :
  sched_repr st qs → qs !! p = Some (x :: q) →
  current_task (dequeue p st) = x ∧ (∀ j, task_at (dequeue p st) j = task_at st j) ∧
  sched_repr (dequeue p st) (<[p := q]> qs).
Proof.
  intros [Hsz Hlen Hat] Hq. pose proof (Hat p _ Hq) as (Hh & Ht & [Hx Hl] & Hnd & Hs).
  assert (Hp : (p < S TASK_PRIORITY_MAX)%nat) by (rewrite <-Hlen; eapply lookup_lt_Some; done).
  destruct (dequeue_view st p Hsz Hp) as (Vc & Vn & Vh & Vt). rewrite Hh in Vc, Vh, Vt.
  simpl in Vc, Vh, Vt, Hx. rewrite Hx in Vh, Vt.
  split_and!; [done|done|]. split; [by apply dequeue_sized|by rewrite length_insert|].
  intros p' q'. rewrite list_lookup_insert.
  destruct (decide (p = p' ∧ (p < length qs)%nat)) as [E|E].
  - destruct E as [<- _]. intros [= <-]. apply NoDup_cons in Hnd as [Hnx Hnd].
    unfold queue_at. rewrite Vh, Vt, !(decide_True (P := p = p)) by done.
    split_and!; [done| | |done|].
    + destruct q as [|y q]; [done|]. simpl hd. rewrite decide_False.
      * by rewrite Ht, last_cons_cons.
      * destruct (Hs y) as [? _]; [right; left|lia].
    + eapply linked_ext; [|exact Hl]. intros j _. by rewrite Vn.
    + intros j Hj. rewrite Vn. apply Hs. by right.
  - intros Hq'. assert (Hpp : p ≠ p') by (intros <-; apply E; lia).
    apply (queue_at_ext st); [| | |by apply Hat].
    + rewrite Vh. by rewrite decide_False.
    + rewrite Vt. by rewrite decide_False.
    + intros j _. by rewrite Vn.
Qed.

(** The slot just taken off is in no queue any more. *)
Lemma dequeue_unqueued st qs p x q :
  sched_repr st qs → qs !! p = Some (x :: q) → unqueued (<[p := q]> qs) x.
Proof.
  intros R Hq p' q'. pose proof (sr_at _ _ R p _ Hq) as (_ & _ & _ & Hnd & Hs).
  apply NoDup_cons in Hnd as [Hnx _]. rewrite list_lookup_insert. case_decide as E.
  - by intros [= <-].
  - intros Hq' Hx. pose proof (queued_prio _ _ _ _ _ R Hq' Hx) as H1.
    destruct (Hs x) as (_ & _ & H2); [left|]. apply E. split; [congruence|].
    eapply lookup_lt_Some; done.
Qed.

(** ** The scan for a free slot *)

Lemma lookup_drop_1 (l : list task_t) (i : nat) :
  (1 <= i)%nat → drop 1 l !! (i - 1)%nat = l !! i.
Proof. intros Hi. rewrite lookup_drop. f_equal. lia. Qed.

(** The scans of the code from slot 1 on, in terms of [task_at]. *)
Lemma scan_Some st p i :
  sized st → first_from p (drop 1 (tasks st)) 1 = Some i →
  (1 <= i < TASK_MAX)%nat ∧ p (task_at st i) = true ∧
  ∀ j, (1 <= j < i)%nat → p (task_at st j) = false.
Proof.
  intros (Hs & _) Hf. apply first_from_Some in Hf as (Hi & (t & Ht & Hpt) & Hall).
  rewrite lookup_drop_1 in Ht by done. pose proof (lookup_lt_Some _ _ _ Ht) as Hlt.
  unfold task_at. rewrite (list_lookup_total_correct _ _ _ Ht). split_and!; [lia|lia|done|].
  intros j Hj. destruct (lookup_lt_is_Some_2 (tasks st) j) as [t' Ht']; [lia|].
  rewrite (list_lookup_total_correct _ _ _ Ht').
  apply (Hall (j - 1)%nat); [lia|]. by rewrite lookup_drop_1 by lia.
Qed.

Lemma scan_None st p :
  sized st → first_from p (drop 1 (tasks st)) 1 = None →
  ∀ j, (1 <= j < TASK_MAX)%nat → p (task_at st j) = false.
Proof.
  intros (Hs & _) Hf j Hj. apply first_from_None in Hf.
  destruct (lookup_lt_is_Some_2 (tasks st) j) as [t Ht]; [lia|].
  unfold task_at. rewrite (list_lookup_total_correct _ _ _ Ht).
  rewrite Forall_lookup in Hf. apply (Hf (j - 1)%nat). by rewrite lookup_drop_1 by lia.
Qed.

Lemma scan_unique st p i :
  sized st → (1 <= i < TASK_MAX)%nat → p (task_at st i) = true →
  (∀ j, (1 <= j < i)%nat → p (task_at st j) = false) →
  first_from p (drop 1 (tasks st)) 1 = Some i.
Proof.
  intros Hs Hi Hp Hall. destruct (first_from p _ 1) as [k|] eqn:E.
  - apply scan_Some in E as (Hk & Hpk & Hallk); [|done]. f_equal.
    destruct (lt_eq_lt_dec i k) as [[Hlt|?]|Hlt]; [|done|].
    + rewrite Hallk in Hp by lia. done.
    + rewrite Hall in Hpk by lia. done.
  - pose proof (scan_None _ _ Hs E i Hi). congruence.
Qed.

(** ** Abstract queue operations *)

(** Append slot [i] to the queue of priority [p]; take its first slot off. *)
Definition push (p i : nat) (qs : list (list nat)) : list (list nat) :=
  alter (λ q, q ++ [i]) p qs.
Definition pop (p : nat) (qs : list (list nat)) : list (list nat) :=
  alter (drop 1) p qs.

Lemma alter_as_insert {A} (f : A → A) (l : list A) p x :
  l !! p = Some x → alter f p l = <[p := f x]> l.
Proof.
  intros Hx. apply list_eq. intros j. rewrite list_lookup_alter, list_lookup_insert.
  case_decide as E; subst.
  - rewrite Hx, decide_True; [done|]. split; [done|]. by eapply lookup_lt_Some.
  - by rewrite decide_False by naive_solver.
Qed.

Lemma queue_exists st qs p :
  sched_repr st qs → (p <= TASK_PRIORITY_MAX)%nat → ∃ q, qs !! p = Some q.
Proof. intros R Hp. apply lookup_lt_is_Some_2. rewrite (sr_queues _ _ R). lia. Qed.

Lemma enqueue_push st qs p i :
  sched_repr st qs → (p <= TASK_PRIORITY_MAX)%nat → (1 <= i < TASK_MAX)%nat →
  unqueued qs i →
  state (task_at st i) = TASK_STATE_READY → priority (task_at st i) = p →
  next (task_at st i) = 0%nat →
  sched_repr (enqueue p i st) (push p i qs).
Proof.
  intros R Hp Hi Hu Hs Hpr Hn. destruct (queue_exists _ _ _ R Hp) as [q Hq].
  unfold push. rewrite (alter_as_insert _ _ _ _ Hq). apply enqueue_repr; auto.
  by apply (Hu p).
Qed.

Lemma dequeue_pop st qs p x q :
  sched_repr st qs → qs !! p = Some (x :: q) → sched_repr (dequeue p st) (pop p qs).
Proof.
  intros R Hq. unfold pop. rewrite (alter_as_insert _ _ _ _ Hq). simpl.
  rewrite drop_0. by apply (dequeue_repr st qs p x q).
Qed.

Lemma pop_unqueued qs p i : unqueued qs i → unqueued (pop p qs) i.
Proof.
  intros Hu p' q'. unfold pop. rewrite list_lookup_alter. case_decide; [subst p'|apply Hu].
  destruct (qs !! p) as [q|] eqn:E; simpl; [|done]. intros [= <-] Hin.
  apply (Hu p q E). rewrite <-(take_drop 1 q). apply elem_of_app. by right.
Qed.

Lemma push_unqueued qs p i j : unqueued qs j → i ≠ j → unqueued (push p i qs) j.
Proof.
  intros Hu Hij p' q'. unfold push. rewrite list_lookup_alter. case_decide; [subst p'|apply Hu].
  destruct (qs !! p) as [q|] eqn:E; simpl; [|done]. intros [= <-] Hin.
  apply elem_of_app in Hin as [Hin|Hin%list_elem_of_singleton]; [by apply (Hu p q E)|done].
Qed.

Lemma pop_head_unqueued st qs p x q :
  sched_repr st qs → qs !! p = Some (x :: q) → unqueued (pop p qs) x.
Proof.
  intros R Hq. unfold pop. rewrite (alter_as_insert _ _ _ _ Hq). simpl. rewrite drop_0.
  by eapply dequeue_unqueued.
Qed.

(** ** Tasks up to their links

    The [next] field belongs to the queues; everything else of a task is
    changed only where an operation says so. *)

Definition unlinked (t : task_t) : task_t := set_next 0 t.

(** A field that an update does not touch. *)
Lemma task_at_upd_same {B} (g : task_t → B) i f st j :
  (∀ t, g (f t) = g t) → g (task_at (upd_task i f st) j) = g (task_at st j).
Proof.
  intros Hf. unfold task_at, upd_task; simpl. rewrite !list_lookup_total_alt, list_lookup_alter.
  case_decide; [subst j|done]. by destruct (tasks st !! i); simpl; rewrite ?Hf.
Qed.

Lemma enqueue_unlinked p i st j :
  unlinked (task_at (enqueue p i st) j) = unlinked (task_at st j).
Proof.
  unfold enqueue. case_decide; autorewrite with sched; [done|].
  by apply task_at_upd_same.
Qed.

(** What [unlinked] preserves. *)
Lemma unlinked_fields t t' :
  unlinked t = unlinked t' →
  id t = id t' ∧ state t = state t' ∧ wake_time t = wake_time t' ∧
  priority t = priority t' ∧ stack_top t = stack_top t' ∧ entry t = entry t'.
Proof. destruct t, t'. unfold unlinked, set_next; simpl. intros [=]; subst. done. Qed.

Lemma current_enqueue p i st : current_task (enqueue p i st) = current_task st.
Proof. unfold enqueue. by case_decide. Qed.
Lemma running_enqueue p i st : scheduler_running (enqueue p i st) = scheduler_running st.
Proof. unfold enqueue. by case_decide. Qed.
Lemma counter_enqueue p i st : task_counter (enqueue p i st) = task_counter st.
Proof. unfold enqueue. by case_decide. Qed.
Lemma running_dequeue p st : scheduler_running (dequeue p st) = scheduler_running st.
Proof. unfold dequeue. by case_decide. Qed.
Lemma counter_dequeue p st : task_counter (dequeue p st) = task_counter st.
Proof. unfold dequeue. by case_decide. Qed.
Lemma rsp_enqueue p i st : rsp (enqueue p i st) = rsp st.
Proof. unfold enqueue. by case_decide. Qed.
Lemma rsp_dequeue p st : rsp (dequeue p st) = rsp st.
Proof. unfold dequeue. by case_decide. Qed.

#[export] Hint Rewrite current_enqueue running_enqueue counter_enqueue running_dequeue
  counter_dequeue rsp_enqueue rsp_dequeue : sched.

(** Every priority is a valid queue index. *)
Definition prios_ok (st : sched) : Prop :=
  ∀ i, (priority (task_at st i) <= TASK_PRIORITY_MAX)%nat.

(** ** Deciding the representation of a concrete state *)

#[export] Instance linked_dec nx q : Decision (linked nx q).
Proof. induction q; simpl; apply _. Defined.

Definition repr_check (st : sched) (qs : list (list nat)) : bool :=
  bool_decide (length st.(tasks) = TASK_MAX ∧
    length st.(ready_queue_head) = S TASK_PRIORITY_MAX ∧
    length st.(ready_queue_tail) = S TASK_PRIORITY_MAX ∧
    length qs = S TASK_PRIORITY_MAX ∧
    Forall (λ pq : nat * list nat,
      head_of st pq.1 = hd 0%nat pq.2 ∧ tail_of st pq.1 = default 0%nat (list.last pq.2) ∧
      linked (λ i, next (task_at st i)) pq.2 ∧ NoDup pq.2 ∧
      Forall (λ i, (1 <= i)%nat ∧ (i < TASK_MAX)%nat ∧
        state (task_at st i) = TASK_STATE_READY ∧ priority (task_at st i) = pq.1) pq.2)
      (imap (λ p q, (p, q)) qs)).

Lemma repr_check_sound st qs : repr_check st qs = true → sched_repr st qs.
Proof.
  intros (H1 & H2 & H3 & H4 & HF)%bool_decide_eq_true. split; [done|done|].
  intros p q Hq. rewrite Forall_lookup in HF. specialize (HF p (p, q)).
  rewrite list_lookup_imap, Hq in HF. destruct HF as (? & ? & ? & ? & Hs); [done|].
  split_and!; [done..|]. rewrite Forall_forall in Hs. intros i Hi.
  apply Hs in Hi. tauto.
Qed.

Lemma prios_ok_check st :
  forallb (λ t, bool_decide (priority t <= TASK_PRIORITY_MAX)%nat) st.(tasks) = true →
  prios_ok st.
Proof.
  intros H i. unfold task_at. rewrite list_lookup_total_alt.
  destruct (tasks st !! i) as [t|] eqn:E; simpl; [|unfold TASK_PRIORITY_MAX; lia].
  rewrite forallb_forall in H. eapply bool_decide_eq_true_1, (H t).
  apply list_elem_of_In. by eapply list_elem_of_lookup_2.
Qed.
