(* ===== verification/SchedOps.v ===== *)
(** * What the scheduler operations do

    Each operation of [Sched] against the abstract queues of [SchedQueue]:
    creation, yielding, sleeping, waking, ticking and starting, on every
    branch; and what sequences of ticks do to a sleeping task. *)

From S2P Require Import Prelude Sched SchedQueue.

(** ** Waking and ticking *)

(** Slot [i] is woken: [READY], no wake-up time, at the end of its queue. *)
Definition woken (t : task_t) : task_t :=
  set_next 0 (set_wake_time 0 (set_state TASK_STATE_READY t)).

Definition wake_slot (i : nat) (st : sched) : sched :=
  let st1 := upd_task i woken st in enqueue (priority (task_at st1 i)) i st1.

Lemma task_wake_scan tid st :
  task_wake tid st =
  match first_from (λ t, (id t =? tid) && bool_decide (state t = TASK_STATE_BLOCKED))
                   (drop 1 st.(tasks)) 1 with
  | None => st
  | Some i => wake_slot i st
  end.
Proof. done. Qed.

Lemma wake_slot_sized i st : sized st → sized (wake_slot i st).
Proof. intros. apply enqueue_sized. auto with aegis. Qed.

Lemma wake_slot_task i st j :
  sized st → (i < TASK_MAX)%nat →
  unlinked (task_at (wake_slot i st) j) =
    if decide (i = j) then woken (task_at st j) else unlinked (task_at st j).
Proof.
  intros (Hs & _) Hi. unfold wake_slot. rewrite enqueue_unlinked, task_at_upd by lia.
  by case_decide.
Qed.

Lemma wake_slot_push st qs i :
  sched_repr st qs → prios_ok st → (1 <= i < TASK_MAX)%nat → unqueued qs i →
  sched_repr (wake_slot i st) (push (priority (task_at st i)) i qs).
Proof.
  intros R Hp Hi Hu. unfold wake_slot.
  assert (E : task_at (upd_task i woken st) i = woken (task_at st i)).
  { rewrite task_at_upd by (rewrite (proj1 (sr_sized _ _ R)); lia). by rewrite decide_True. }
  rewrite E. apply enqueue_push; rewrite ?E; try done; try apply Hp.
  apply sched_repr_upd_unqueued; [done|lia|done].
Qed.

(** The identifiers of blocked tasks are pairwise distinct. *)
Definition blocked_ids_distinct (st : sched) : Prop :=
  ∀ i j, (1 <= i < TASK_MAX)%nat → (1 <= j < TASK_MAX)%nat →
    state (task_at st i) = TASK_STATE_BLOCKED → state (task_at st j) = TASK_STATE_BLOCKED →
    id (task_at st i) = id (task_at st j) → i = j.

Lemma task_wake_blocked st i :
  sized st → blocked_ids_distinct st → (1 <= i < TASK_MAX)%nat →
  state (task_at st i) = TASK_STATE_BLOCKED →
  task_wake (id (task_at st i)) st = wake_slot i st.
Proof.
  intros Hsz Hd Hi Hb. rewrite task_wake_scan. erewrite scan_unique; [done|done|exact Hi| |].
  - rewrite Z.eqb_refl. simpl. by apply bool_decide_eq_true.
  - intros j Hj. apply andb_false_iff. rewrite Z.eqb_neq, bool_decide_eq_false.
    destruct (decide (state (task_at st j) = TASK_STATE_BLOCKED)) as [Hbj|]; [left|by right].
    intros E. enough (j = i) by lia. apply Hd; auto. lia.
Qed.

(** What a tick does to one task. *)
Definition expires (t : task_t) : bool :=
  bool_decide (state t = TASK_STATE_BLOCKED) && (wake_time t =? 1).
Definition ticked (t : task_t) : task_t :=
  if bool_decide (state t = TASK_STATE_BLOCKED) && (0 <? wake_time t) then
    if wake_time t =? 1 then woken t else set_wake_time (wake_time t - 1) t
  else t.

Lemma unlinked_ticked t t' : unlinked t = unlinked t' → unlinked (ticked t) = unlinked (ticked t').
Proof.
  destruct t, t'. unfold unlinked, ticked, woken, set_next, set_wake_time, set_state; simpl.
  intros [=]; subst. by repeat case_match.
Qed.

Lemma unlinked_expires t t' : unlinked t = unlinked t' → expires t = expires t'.
Proof. intros (_ & E1 & E2 & _)%unlinked_fields. unfold expires. by rewrite E1, E2. Qed.

Lemma ticked_blocked t :
  state (ticked t) = TASK_STATE_BLOCKED → state t = TASK_STATE_BLOCKED.
Proof. unfold ticked. by repeat case_match. Qed.

Lemma ticked_id t : id (ticked t) = id t.
Proof. unfold ticked. by repeat case_match. Qed.

Lemma ticked_priority t : priority (ticked t) = priority t.
Proof. unfold ticked. by repeat case_match. Qed.

#[export] Hint Rewrite ticked_id ticked_priority : sched.

(** The state of a tick that has visited the slots in [done]. *)
Definition mid_tick (st0 st : sched) (visited : list nat) : Prop :=
  sized st ∧ ∀ j, unlinked (task_at st j) =
    unlinked (if decide (j ∈ visited) then ticked (task_at st0 j) else task_at st0 j).

Lemma mid_tick_fields st0 st visited j :
  mid_tick st0 st visited →
  id (task_at st j) = id (task_at st0 j) ∧ priority (task_at st j) = priority (task_at st0 j) ∧
  (state (task_at st j) = TASK_STATE_BLOCKED → state (task_at st0 j) = TASK_STATE_BLOCKED).
Proof.
  intros [_ Hm]. specialize (Hm j). apply unlinked_fields in Hm as (-> & -> & _ & -> & _).
  case_decide; autorewrite with sched; auto using ticked_blocked.
Qed.

Lemma mid_tick_distinct st0 st visited :
  mid_tick st0 st visited → blocked_ids_distinct st0 → blocked_ids_distinct st.
Proof.
  intros Hm Hd i j Hi Hj Hbi Hbj E.
  destruct (mid_tick_fields _ _ _ i Hm) as (Ei & _ & Bi).
  destruct (mid_tick_fields _ _ _ j Hm) as (Ej & _ & Bj).
  apply Hd; auto. congruence.
Qed.

(** One iteration of the loop. *)
Lemma tick_slot_eq st i :
  sized st → blocked_ids_distinct st → (1 <= i < TASK_MAX)%nat →
  tick_slot st i =
    if expires (task_at st i) then wake_slot i st
    else upd_task i ticked st.
Proof.
  intros Hsz Hd Hi. unfold tick_slot, expires.
  assert (Hid : ticked (task_at st i) = task_at st i → upd_task i ticked st = st).
  { intros E. destruct st as [ts]; unfold upd_task, task_at in *; simpl in *. f_equal.
    apply list_eq. intros j. rewrite list_lookup_alter. case_decide; [subst j|done].
    destruct (ts !! i) eqn:El; [|done]. rewrite (list_lookup_total_correct _ _ _ El) in E.
    simpl. by rewrite E. }
  assert (Hup : ∀ f, f (task_at st i) = ticked (task_at st i) →
    upd_task i f st = upd_task i ticked st).
  { intros f E. destruct st as [ts]; unfold upd_task, task_at in *; simpl in *. f_equal.
    apply list_eq. intros j. rewrite !list_lookup_alter. case_decide; [subst j|done].
    destruct (ts !! i) eqn:El; [|done]. rewrite (list_lookup_total_correct _ _ _ El) in E.
    simpl. by rewrite E. }
  destruct (decide (state (task_at st i) = TASK_STATE_BLOCKED)) as [Hb|Hb].
  2:{ rewrite bool_decide_false by done. simpl. symmetry. apply Hid. unfold ticked.
      by rewrite bool_decide_false. }
  rewrite bool_decide_true by done. simpl. destruct (Z.ltb_spec 0 (wake_time (task_at st i))).
  - destruct (Z.leb_spec (wake_time (task_at st i)) 1) as [Hle|Hgt].
    + rewrite (proj2 (Z.eqb_eq _ _)) by lia. by apply task_wake_blocked.
    + rewrite (proj2 (Z.eqb_neq _ _)) by lia. apply Hup. unfold ticked.
      rewrite bool_decide_true, (proj2 (Z.ltb_lt _ _)), (proj2 (Z.eqb_neq _ _)) by (done || lia).
      done.
  - rewrite (proj2 (Z.eqb_neq _ _)) by lia. symmetry. apply Hid. unfold ticked.
    rewrite bool_decide_true, (proj2 (Z.ltb_ge _ _)) by (done || lia). done.
Qed.

(** The queues after the slots in [visited] have been ticked. *)
Definition tick_queues (st0 : sched) (visited : list nat) (qs : list (list nat)) :=
  foldl (λ qs i, if expires (task_at st0 i) then push (priority (task_at st0 i)) i qs else qs)
    qs visited.

Lemma tick_queues_lookup st0 visited qs p :
  tick_queues st0 visited qs !! p =
    (λ q, q ++ filter (λ i, expires (task_at st0 i) = true ∧ priority (task_at st0 i) = p) visited)
      <$> qs !! p.
Proof.
  revert qs. induction visited as [|i vis IH]; intros qs; simpl.
  { destruct (qs !! p); simpl; [by rewrite app_nil_r|done]. }
  rewrite IH, filter_cons. destruct (expires (task_at st0 i)) eqn:E.
  - unfold push. rewrite list_lookup_alter. case_decide as Ep.
    + rewrite decide_True by done.
      subst p. destruct (qs !! _); simpl; [by rewrite <-app_assoc|done].
    + by rewrite decide_False by naive_solver.
  - by rewrite decide_False by naive_solver.
Qed.

Lemma tick_queues_unqueued st0 visited qs i :
  unqueued qs i → i ∉ visited → unqueued (tick_queues st0 visited qs) i.
Proof.
  intros Hu Hni p q. rewrite tick_queues_lookup.
  destruct (qs !! p) as [q0|] eqn:E; simpl; [|done]. intros [= <-] Hin.
  apply elem_of_app in Hin as [Hin|Hin]; [by apply (Hu p q0)|].
  apply list_elem_of_filter in Hin as [_ ?]. done.
Qed.

Lemma mid_tick_step st0 st visited i :
  mid_tick st0 st visited → blocked_ids_distinct st0 → (1 <= i < TASK_MAX)%nat → i ∉ visited →
  mid_tick st0 (tick_slot st i) (visited ++ [i]).
Proof.
  intros Hm Hd Hi Hni. pose proof Hm as [Hsz Hv].
  rewrite tick_slot_eq; [|done|by eapply mid_tick_distinct|done].
  assert (Hvi : unlinked (task_at st i) = unlinked (task_at st0 i)).
  { rewrite Hv. by rewrite decide_False. }
  split.
  { destruct (expires _); [by apply wake_slot_sized|auto with aegis]. }
  intros j. assert (Hj : j ≠ i → j ∈ visited ++ [i] ↔ j ∈ visited).
  { rewrite elem_of_app, list_elem_of_singleton. tauto. }
  destruct (decide (j = i)) as [->|Hne].
  - rewrite (decide_True (P := i ∈ _)) by (apply elem_of_app; right; by left).
    destruct (expires (task_at st i)) eqn:Ex.
    + rewrite wake_slot_task, decide_True by (done || lia).
      rewrite <-(unlinked_ticked _ _ Hvi). unfold ticked, expires in *.
      apply andb_true_iff in Ex as [-> Ew%Z.eqb_eq]. rewrite Ew. done.
    + rewrite task_at_upd, decide_True by (done || (rewrite (proj1 Hsz); lia)).
      by apply unlinked_ticked.
  - assert (Hk : unlinked (task_at (if expires (task_at st i) then wake_slot i st
              else upd_task i ticked st) j) = unlinked (task_at st j)).
    { destruct (expires _).
      - by rewrite wake_slot_task, decide_False by (done || lia).
      - by rewrite task_at_upd, decide_False by (done || (rewrite (proj1 Hsz); lia)). }
    rewrite Hk, Hv. specialize (Hj Hne).
    destruct (decide (j ∈ visited ++ [i])), (decide (j ∈ visited)); tauto.
Qed.

Lemma tick_slot_queues st0 st visited qs i :
  mid_tick st0 st visited → blocked_ids_distinct st0 → (1 <= i < TASK_MAX)%nat → i ∉ visited →
  prios_ok st0 → sched_repr st0 qs →
  sched_repr st (tick_queues st0 visited qs) →
  sched_repr (tick_slot st i) (tick_queues st0 (visited ++ [i]) qs).
Proof.
  intros Hm Hd Hi Hni Hp R0 R. pose proof Hm as [Hsz Hv].
  rewrite tick_slot_eq; [|done|by eapply mid_tick_distinct|done].
  assert (Hvi : unlinked (task_at st i) = unlinked (task_at st0 i)).
  { rewrite Hv. by rewrite decide_False. }
  unfold tick_queues. rewrite foldl_app. simpl. fold (tick_queues st0 visited qs).
  rewrite <-(unlinked_expires _ _ Hvi).
  assert (Hpr : ∀ j, priority (task_at st j) = priority (task_at st0 j)).
  { intros j. by destruct (mid_tick_fields _ _ _ j Hm) as (_ & ? & _). }
  destruct (expires (task_at st i)) eqn:Ex.
  - assert (Hu : unqueued (tick_queues st0 visited qs) i).
    { apply tick_queues_unqueued; [|done]. eapply unqueued_not_ready; [done|].
      rewrite (unlinked_expires _ _ Hvi) in Ex. unfold expires in Ex.
      apply andb_true_iff in Ex as [Eb%bool_decide_eq_true _]. by rewrite Eb. }
    rewrite <-Hpr. apply wake_slot_push; try done. intros j. rewrite Hpr. apply Hp.
  - destruct (decide (state (task_at st i) = TASK_STATE_BLOCKED)) as [Hb|Hb].
    + apply sched_repr_upd_unqueued; [done|lia|].
      eapply unqueued_not_ready; [done|]. by rewrite Hb.
    + assert (E : upd_task i ticked st = upd_task i (λ t, t) st); [|rewrite E].
      { unfold upd_task. f_equal. apply list_eq. intros j. rewrite !list_lookup_alter.
        case_decide; [subst j|done]. destruct (tasks st !! i) eqn:El; simpl; [|done].
        unfold task_at in Hb. rewrite (list_lookup_total_correct _ _ _ El) in Hb.
        unfold ticked. by rewrite bool_decide_false. }
      apply sched_repr_upd_frame; [done|lia|done].
Qed.

Lemma tick_fold st qs k :
  sched_repr st qs → prios_ok st → blocked_ids_distinct st → (k < TASK_MAX)%nat →
  mid_tick st (foldl tick_slot st (seq 1 k)) (seq 1 k) ∧
  sched_repr (foldl tick_slot st (seq 1 k)) (tick_queues st (seq 1 k) qs).
Proof.
  intros R Hp Hd. induction k as [|k IH]; intros Hk.
  - split; [|done]. split; [by apply sr_sized in R|]. intros j. by rewrite decide_False by set_solver.
  - destruct IH as [Hm Rk]; [lia|]. rewrite seq_S, foldl_app. simpl foldl at 1 4.
    assert (Hni : (1 + k)%nat ∉ seq 1 k) by (rewrite elem_of_seq; lia).
    split; [apply mid_tick_step; auto; lia|].
    apply (tick_slot_queues _ _ _ _ _ Hm); auto. lia.
Qed.

Lemma tick_prios_ok st : sized st → blocked_ids_distinct st → prios_ok st → prios_ok (sched_tick st).
Proof.
  intros Hsz Hd Hp. assert (H : ∀ k, (k < TASK_MAX)%nat →
    mid_tick st (foldl tick_slot st (seq 1 k)) (seq 1 k)).
  { induction k as [|k IH]; intros Hk.
    - split; [done|]. intros j. by rewrite decide_False by set_solver.
    - rewrite seq_S, foldl_app. apply mid_tick_step; auto; [apply IH; lia|lia|].
      rewrite elem_of_seq. lia. }
  intros i. destruct (mid_tick_fields _ _ _ i (H (TASK_MAX - 1)%nat ltac:(unfold TASK_MAX; lia)))
    as (_ & E & _). unfold sched_tick. rewrite E. apply Hp.
Qed.

(** The combined effect of a tick; [tick_fold] at the end of the loop. *)
Lemma tick_effect st qs :
  sched_repr st qs → prios_ok st → blocked_ids_distinct st →
  mid_tick st (sched_tick st) (seq 1 (TASK_MAX - 1)) ∧
  sched_repr (sched_tick st) (tick_queues st (seq 1 (TASK_MAX - 1)) qs).
Proof. intros R Hp Hd. apply (tick_fold st qs (TASK_MAX - 1)); auto. Qed.

Lemma tick_slots j : j ∈ seq 1 (TASK_MAX - 1) ↔ (1 <= j < TASK_MAX)%nat.
Proof. rewrite elem_of_seq. unfold TASK_MAX. lia. Qed.

Section countdown.
Context (i : nat) (Hi : (1 <= i < TASK_MAX)%nat).

(** What is preserved along a run of ticks. *)
Definition tickable (st : sched) : Prop :=
  (∃ qs, sched_repr st qs) ∧ prios_ok st ∧ blocked_ids_distinct st.

Lemma tickable_tick st : tickable st → tickable (sched_tick st).
Proof.
  intros ([qs R] & Hp & Hd). destruct (tick_effect st qs R Hp Hd) as [Hm R'].
  split; [by eexists|]. split; [|by eapply mid_tick_distinct].
  apply tick_prios_ok; [apply R|done|done].
Qed.

Lemma tickable_iter st k : tickable st → tickable (Nat.iter k sched_tick st).
Proof. intros H. induction k as [|k IH]; simpl; auto using tickable_tick. Qed.

Lemma tick_task st : tickable st →
  unlinked (task_at (sched_tick st) i) = unlinked (ticked (task_at st i)).
Proof.
  intros ([qs R] & Hp & Hd). destruct (tick_effect st qs R Hp Hd) as [[_ Hm] _].
  rewrite Hm. by rewrite decide_True by by apply tick_slots.
Qed.

(** A pending wake-up time is counted down ... *)
Lemma countdown_iter st (n k : nat) :
  tickable st → state (task_at st i) = TASK_STATE_BLOCKED →
  wake_time (task_at st i) = Z.of_nat n → (k < n)%nat →
  state (task_at (Nat.iter k sched_tick st) i) = TASK_STATE_BLOCKED ∧
  wake_time (task_at (Nat.iter k sched_tick st) i) = Z.of_nat (n - k).
Proof.
  intros T Hb Hw. induction k as [|k IH]; intros Hk.
  { simpl. rewrite Hw. split; [done|lia]. }
  destruct IH as [Hbk Hwk]; [lia|]. simpl Nat.iter.
  pose proof (tick_task _ (tickable_iter st k T)) as E.
  apply unlinked_fields in E as (_ & -> & -> & _). unfold ticked.
  rewrite Hwk, bool_decide_true by done. rewrite (proj2 (Z.ltb_lt _ _)) by lia.
  rewrite (proj2 (Z.eqb_neq _ _)) by lia. simpl. split; [done|lia].
Qed.

(** ... and a zero one is never looked at. *)
Lemma zero_wake_time_iter st k :
  tickable st → state (task_at st i) = TASK_STATE_BLOCKED → wake_time (task_at st i) = 0 →
  state (task_at (Nat.iter k sched_tick st) i) = TASK_STATE_BLOCKED ∧
  wake_time (task_at (Nat.iter k sched_tick st) i) = 0.
Proof.
  intros T Hb Hw. induction k as [|k [Hbk Hwk]]; [done|]. simpl Nat.iter.
  pose proof (tick_task _ (tickable_iter st k T)) as E.
  apply unlinked_fields in E as (_ & -> & -> & _). unfold ticked.
  by rewrite Hwk, bool_decide_true by done.
Qed.

(** The tick that finds the time at 1 puts the slot at its queue. *)
Lemma tick_expired st :
  tickable st → state (task_at st i) = TASK_STATE_BLOCKED → wake_time (task_at st i) = 1 →
  state (task_at (sched_tick st) i) = TASK_STATE_READY ∧
  ∃ qs q, sched_repr (sched_tick st) qs ∧ qs !! priority (task_at st i) = Some q ∧ i ∈ q.
Proof.
  intros T Hb Hw. assert (Hx : expires (task_at st i) = true).
  { unfold expires. rewrite bool_decide_true, Hw by done. done. }
  split.
  - pose proof (tick_task _ T) as E. apply unlinked_fields in E as (_ & -> & _).
    unfold ticked. by rewrite bool_decide_true, Hw by done.
  - destruct T as ([qs R] & Hp & Hd). destruct (tick_effect st qs R Hp Hd) as [_ R'].
    destruct (queue_exists _ _ _ R (Hp i)) as [q Hq].
    eexists _, _. split; [exact R'|]. split; [by rewrite tick_queues_lookup, Hq|].
    apply elem_of_app. right. apply list_elem_of_filter. split; [done|]. by apply tick_slots.
Qed.
End countdown.

Lemma blocked_ids_check st :
  forallb (λ i, forallb (λ j,
    bool_decide (state (task_at st i) = TASK_STATE_BLOCKED →
                 state (task_at st j) = TASK_STATE_BLOCKED →
                 id (task_at st i) = id (task_at st j) → i = j))
    (seq 1 (TASK_MAX - 1))) (seq 1 (TASK_MAX - 1)) = true →
  blocked_ids_distinct st.
Proof.
  intros H i j Hi Hj. rewrite forallb_forall in H.
  specialize (H i). rewrite forallb_forall in H.
  eapply bool_decide_eq_true_1, H; apply list_elem_of_In; by apply tick_slots.
Qed.

(** Concrete states: three tasks of normal priority are created (slots 1 to
    3), the scheduler is started, and the first task sleeps for two ticks. *)
Definition demo_created : sched :=
  snd (task_create 12288 (snd (task_create 8192 (snd (task_create 4096
    (sched_init (sched_boot 2097152 1048576))))))).
Definition demo_started : sched := snd (sched_start demo_created).
Definition demo_asleep : sched := task_sleep 2 demo_started.

(** ** Properties of ticking *)

(** C8: a timer tick, as a whole, counts every blocked task with a pending
    wake-up time down by one, wakes exactly the tasks whose time was 1,
    leaves every other task alone, and appends the woken tasks in slot order
    to the ready queue of their own priority. *)
Theorem sched_tick_refines st qs :
  sched_repr st qs → prios_ok st → blocked_ids_distinct st →
  (∀ j, unlinked (task_at (sched_tick st) j) =
     unlinked (if decide (1 <= j < TASK_MAX)%nat then ticked (task_at st j)
               else task_at st j)) ∧
  ∃ qs', sched_repr (sched_tick st) qs' ∧
    ∀ p q, qs !! p = Some q →
      qs' !! p = Some (q ++ filter (λ i, expires (task_at st i) = true ∧
                                         priority (task_at st i) = p) (seq 1 (TASK_MAX - 1))).
Proof.
  intros R Hp Hd. destruct (tick_effect st qs R Hp Hd) as [[_ Hm] R']. split.
  - intros j. rewrite Hm. pose proof (tick_slots j).
    destruct (decide (j ∈ _)), (decide (1 <= j < TASK_MAX)%nat); tauto.
  - eexists. split; [exact R'|]. intros p q Hq. by rewrite tick_queues_lookup, Hq.
Qed.

Lemma sched_tick_refines_witness :
  ∃ qs', sched_repr (sched_tick (sched_tick demo_asleep)) qs' ∧ qs' !! 1%nat = Some [3; 1]%nat.
Proof.
  destruct (sched_tick_refines (sched_tick demo_asleep) [[]; [3]; []]%nat)
    as [_ (qs' & R & H)].
  - apply repr_check_sound. vm_compute. reflexivity.
  - apply prios_ok_check. vm_compute. reflexivity.
  - apply blocked_ids_check. vm_compute. reflexivity.
  - exists qs'. split; [exact R|]. specialize (H 1%nat [3]%nat eq_refl). rewrite H.
    vm_compute. reflexivity.
Defined.

(** A task blocked with wake-up time [n > 0] stays blocked for [n - 1]
    ticks; the [n]-th tick makes it ready and puts it into the ready queue
    of its priority.  A task blocked with wake-up time 0 ([task_sleep(0)]) is
    not woken by any number of ticks. *)
Theorem blocked_task_wakes_on_time st i (n : nat) :
  (1 <= i < TASK_MAX)%nat → tickable st →
  state (task_at st i) = TASK_STATE_BLOCKED → wake_time (task_at st i) = Z.of_nat n →
  (∀ k, (k < n)%nat → state (task_at (Nat.iter k sched_tick st) i) = TASK_STATE_BLOCKED) ∧
  ((0 < n)%nat → state (task_at (Nat.iter n sched_tick st) i) = TASK_STATE_READY ∧
     ∃ qs p q, sched_repr (Nat.iter n sched_tick st) qs ∧ qs !! p = Some q ∧ i ∈ q) ∧
  (n = 0%nat → ∀ k, state (task_at (Nat.iter k sched_tick st) i) = TASK_STATE_BLOCKED).
Proof.
  intros Hi T Hb Hw. split_and!.
  - intros k Hk. by apply (countdown_iter i Hi st n).
  - intros Hn. destruct n as [|n]; [lia|]. simpl Nat.iter.
    destruct (countdown_iter i Hi st (S n) n) as [Hbn Hwn]; [done|done|done|lia|].
    destruct (tick_expired i Hi (Nat.iter n sched_tick st)) as (Hr & qs & q & R & Hq & Hin).
    + by apply tickable_iter.
    + done.
    + rewrite Hwn. lia.
    + split; [done|]. by eexists _, _, _.
  - intros -> k. by apply (zero_wake_time_iter i Hi st k).
Qed.

Lemma blocked_task_wakes_on_time_witness :
  state (task_at (Nat.iter 1 sched_tick demo_asleep) 1) = TASK_STATE_BLOCKED ∧
  state (task_at (Nat.iter 2 sched_tick demo_asleep) 1) = TASK_STATE_READY.
Proof.
  destruct (blocked_task_wakes_on_time demo_asleep 1 2) as (H1 & H2 & _).
  - unfold TASK_MAX. lia.
  - split_and!.
    + exists [[]; [3]; []]%nat. apply repr_check_sound. vm_compute. reflexivity.
    + apply prios_ok_check. vm_compute. reflexivity.
    + apply blocked_ids_check. vm_compute. reflexivity.
  - vm_compute. reflexivity.
  - vm_compute. reflexivity.
  - split; [apply H1; lia|apply H2; lia].
Defined.

(** ** Creation *)

Definition clamp (p : nat) : nat := Nat.min p TASK_PRIORITY_MAX.

Lemma clamp_decide p :
  (if decide (TASK_PRIORITY_MAX < p)%nat then TASK_PRIORITY_MAX else p) = clamp p.
Proof. unfold clamp. case_decide; lia. Qed.

Lemma clamp_le p : (clamp p <= TASK_PRIORITY_MAX)%nat.
Proof. apply Nat.le_min_r. Qed.

(** The record of a fresh task. *)
Definition fresh_task (st : sched) (slot : nat) (entry : Z) (p : nat) : task_t :=
  mk_task st.(task_counter) TASK_STATE_READY (replicate 16 0) (initial_stack_top st slot)
          0 0 entry p.

Definition lowest_empty (st : sched) (i : nat) : Prop :=
  (1 <= i < TASK_MAX)%nat ∧ state (task_at st i) = TASK_STATE_EMPTY ∧
  ∀ j, (1 <= j < i)%nat → state (task_at st j) ≠ TASK_STATE_EMPTY.

Lemma lowest_empty_scan st i :
  sized st → lowest_empty st i →
  first_from (λ t, bool_decide (state t = TASK_STATE_EMPTY)) (drop 1 st.(tasks)) 1 = Some i.
Proof.
  intros Hs (Hi & He & Hl). apply scan_unique; [done|done|by apply bool_decide_eq_true|].
  intros j Hj. by apply bool_decide_eq_false, Hl.
Qed.

Lemma scan_lowest_empty st i :
  sized st →
  first_from (λ t, bool_decide (state t = TASK_STATE_EMPTY)) (drop 1 st.(tasks)) 1 = Some i →
  lowest_empty st i.
Proof.
  intros Hs (Hi & He & Hl)%scan_Some; [|done].
  split_and!; [lia|lia|by eapply bool_decide_eq_true_1|].
  intros j Hj. by eapply bool_decide_eq_false_1, Hl.
Qed.

Lemma create_eq st entry prio i :
  sized st → entry ≠ 0 → lowest_empty st i →
  task_create_priority entry prio st =
    (st.(task_counter),
     enqueue (clamp prio) i (upd_task i (λ _, fresh_task st i entry (clamp prio))
       (set_counter (st.(task_counter) ⊞ 1) st))).
Proof.
  intros Hs He Hl. unfold task_create_priority. rewrite (proj2 (Z.eqb_neq _ _)) by done.
  rewrite clamp_decide. cbv zeta. by rewrite (lowest_empty_scan _ _ Hs Hl).
Qed.

Lemma create_repr st qs i e p :
  sched_repr st qs → lowest_empty st i → (p <= TASK_PRIORITY_MAX)%nat →
  let st' := enqueue p i (upd_task i (λ _, fresh_task st i e p)
                            (set_counter (st.(task_counter) ⊞ 1) st)) in
  sched_repr st' (push p i qs) ∧
  ∀ j, unlinked (task_at st' j) =
    if decide (i = j) then fresh_task st i e p else unlinked (task_at st j).
Proof.
  intros R (Hi & He & _) Hp st'.
  assert (R1 : sched_repr (set_counter (st.(task_counter) ⊞ 1) st) qs) by by destruct R.
  assert (Hu : unqueued qs i) by (apply (unqueued_not_ready st); [done|]; by rewrite He).
  assert (Ht : ∀ j, task_at (upd_task i (λ _, fresh_task st i e p)
      (set_counter (st.(task_counter) ⊞ 1) st)) j =
      if decide (i = j) then fresh_task st i e p else task_at st j).
  { intros j. rewrite task_at_upd; [done|]. simpl. rewrite (proj1 (sr_sized _ _ R)). lia. }
  split.
  - apply enqueue_push; try done; [|rewrite Ht, decide_True by done; done..].
    apply sched_repr_upd_unqueued; [done|lia|done].
  - intros j. unfold st'. rewrite enqueue_unlinked, Ht. by case_decide.
Qed.

(** C9: [task_create_priority] gives 0 and changes nothing for a null entry
    point or when no slot from 1 to 63 is empty; otherwise it takes the
    lowest empty slot, fills it with a ready task whose identifier is the
    counter (which it returns and increments), with its priority clamped to
    the highest one, and appends the slot to the ready queue of that priority;
    no other task and no other queue changes. *)
Theorem task_create_priority_refines st qs entry prio :
  sched_repr st qs →
  (entry = 0 → task_create_priority entry prio st = (0, st)) ∧
  ((∀ j, (1 <= j < TASK_MAX)%nat → state (task_at st j) ≠ TASK_STATE_EMPTY) →
     task_create_priority entry prio st = (0, st)) ∧
  ∀ i, entry ≠ 0 → lowest_empty st i →
    ∃ st', task_create_priority entry prio st = (st.(task_counter), st') ∧
      st'.(task_counter) = st.(task_counter) ⊞ 1 ∧
      sched_repr st' (push (clamp prio) i qs) ∧
      ∀ j, unlinked (task_at st' j) =
        if decide (i = j) then fresh_task st i entry (clamp prio) else unlinked (task_at st j).
Proof.
  intros R. pose proof (sr_sized _ _ R) as Hs. split_and!.
  - intros ->. unfold task_create_priority. done.
  - intros Hfull. unfold task_create_priority. destruct (entry =? 0); [done|].
    destruct (first_from _ _ _) as [i|] eqn:E; [|done].
    apply scan_lowest_empty in E as (Hi & He & _); [|done]. by apply Hfull in He.
  - intros i He Hl. destruct (create_repr st qs i entry (clamp prio) R Hl (clamp_le _)) as [R' Ht].
    eexists. split; [by apply create_eq|]. split; [|by split].
    by autorewrite with sched.
Qed.

Lemma task_create_priority_refines_witness :
  ∃ st', task_create_priority 20480 9 demo_started = (4, st') ∧
    sched_repr st' [[]; [2; 3]; [4]]%nat.
Proof.
  destruct (task_create_priority_refines demo_started [[]; [2; 3]; []]%nat 20480 9)
    as (_ & _ & H).
  - apply repr_check_sound. vm_compute. reflexivity.
  - destruct (H 4%nat) as (st' & E & _ & R & _).
    + done.
    + split_and!; [lia|unfold TASK_MAX; lia|vm_compute; reflexivity|].
      intros j Hj. assert (j = 1 ∨ j = 2 ∨ j = 3)%nat as [->|[->| ->]] by lia; vm_compute; done.
    + exists st'. split; [exact E|exact R].
Defined.

(** ** Switching *)

Lemma switch_task st old j :
  sized st → (old < TASK_MAX)%nat →
  task_at (switch_stack old st) j =
    if decide (old = j) then set_stack_top (rsp st) (task_at st j) else task_at st j.
Proof.
  intros (Hs & _) Ho. unfold switch_stack. autorewrite with sched. by rewrite task_at_upd by lia.
Qed.

Lemma switch_rsp st old :
  rsp (switch_stack old st) = stack_top (task_at st (current_task st)).
Proof. done. Qed.

Lemma yield_stays st :
  scheduler_running st = false ∨ current_task st = 0%nat ∨
    head_of st (priority (task_at st (current_task st))) = 0%nat →
  task_yield st = st.
Proof.
  unfold task_yield. intros [->|[->|H]]; [done| |].
  - by rewrite bool_decide_true, orb_true_r.
  - case_match; [done|]. by rewrite decide_True.
Qed.

(** A task's record after it yielded. *)
Definition yielded (sp : Z) (t : task_t) : task_t :=
  set_stack_top sp (if decide (state t = TASK_STATE_RUNNING)
                    then set_state TASK_STATE_READY t else t).

(** The two ends of [task_yield] on a queue that is not empty. *)
Lemma yield_eq st qs x q :
  let c := current_task st in
  let p := priority (task_at st c) in
  sched_repr st qs → scheduler_running st = true → (0 < c < TASK_MAX)%nat →
  qs !! p = Some (x :: q) →
  task_yield st = switch_stack c (if decide (state (task_at st c) = TASK_STATE_RUNNING)
    then enqueue p c (upd_task c (λ t, set_next 0 (set_state TASK_STATE_READY t)) (dequeue p st))
    else dequeue p st).
Proof.
  intros c p R Hrun Hc Hq. destruct (dequeue_repr st qs p x q R Hq) as (_ & Ht & _).
  assert (Hh : head_of st p ≠ 0%nat).
  { intros E. by pose proof (queue_at_nil_head _ _ _ (sr_at _ _ R p _ Hq) E). }
  unfold task_yield. rewrite Hrun, bool_decide_false by (unfold c in *; lia). simpl orb.
  cbv iota. fold c. fold p. rewrite (decide_False (P := head_of st p = 0%nat)) by done.
  cbv zeta. by rewrite Ht.
Qed.

(** A running task goes back to the end of the queue it was taken from. *)
Lemma requeue_repr st qs p c x q u :
  sched_repr st qs → prios_ok st → (0 < c < TASK_MAX)%nat → qs !! p = Some (x :: q) →
  priority (task_at st c) = p → state (task_at st c) = TASK_STATE_RUNNING →
  u = upd_task c (λ t, set_next 0 (set_state TASK_STATE_READY t)) (dequeue p st) →
  (∀ j, task_at u j = if decide (c = j)
     then set_next 0 (set_state TASK_STATE_READY (task_at st j)) else task_at st j) ∧
  sched_repr (enqueue p c u) (push p c (pop p qs)).
Proof.
  intros R Hpr Hc Hq Hp Hr ->. destruct (dequeue_repr st qs p x q R Hq) as (_ & Ht & _).
  pose proof (dequeue_pop st qs p x q R Hq) as R1.
  assert (Hu : ∀ j, task_at (upd_task c (λ t, set_next 0 (set_state TASK_STATE_READY t))
    (dequeue p st)) j = if decide (c = j)
    then set_next 0 (set_state TASK_STATE_READY (task_at st j)) else task_at st j).
  { intros j. rewrite task_at_upd by (rewrite (proj1 (sr_sized _ _ R1)); lia). by rewrite Ht. }
  split; [exact Hu|].
  assert (Huq : unqueued (pop p qs) c).
  { apply pop_unqueued. apply (unqueued_not_ready st); [done|]. by rewrite Hr. }
  apply enqueue_push; rewrite ?Hu, ?decide_True by done; try done.
  - apply sched_repr_upd_unqueued; [done|lia|done].
  - rewrite <-Hp. apply Hpr.
Qed.

Lemma yield_switches st qs x q :
  let c := current_task st in
  let p := priority (task_at st c) in
  sched_repr st qs → prios_ok st → scheduler_running st = true → (0 < c < TASK_MAX)%nat →
  qs !! p = Some (x :: q) →
  let st' := task_yield st in
  current_task st' = x ∧ scheduler_running st' = true ∧ rsp st' = stack_top (task_at st x) ∧
  task_counter st' = task_counter st ∧
  sched_repr st' (if decide (state (task_at st c) = TASK_STATE_RUNNING)
                  then push p c (pop p qs) else pop p qs) ∧
  ∀ j, unlinked (task_at st' j) =
    if decide (c = j) then yielded (rsp st) (unlinked (task_at st j))
    else unlinked (task_at st j).
Proof.
  intros c p R Hpr Hrun Hc Hq st'.
  destruct (dequeue_repr st qs p x q R Hq) as (Hcur & Ht & _).
  pose proof (dequeue_pop st qs p x q R Hq) as R1. pose proof (sr_sized _ _ R1) as Hs1.
  unfold st'. rewrite (yield_eq st qs x q) by done. clear st'. fold c p.
  destruct (decide (state (task_at st c) = TASK_STATE_RUNNING)) as [Hr|Hr].
  - set (u := upd_task c _ (dequeue p st)).
    destruct (requeue_repr st qs p c x q u) as [Hu R2]; try done.
    split_and!.
    + unfold switch_stack; simpl. autorewrite with sched. done.
    + unfold switch_stack; simpl. autorewrite with sched. unfold u; simpl.
      by autorewrite with sched.
    + rewrite switch_rsp. autorewrite with sched. unfold u at 2. simpl current_task. rewrite Hcur.
      destruct (unlinked_fields _ _ (enqueue_unlinked p c u x)) as (_ & _ & _ & _ & -> & _).
      rewrite Hu. by case_decide.
    + unfold switch_stack, u; simpl. autorewrite with sched. simpl. by autorewrite with sched.
    + apply sched_repr_switch; [done|lia].
    + intros j. rewrite switch_task by (done || apply R2 || lia).
      autorewrite with sched. unfold u at 1. simpl rsp. autorewrite with sched.
      unfold yielded. destruct (decide (c = j)) as [<-|Hne].
      * rewrite (decide_True (P := state _ = _)) by done.
        change (unlinked (set_stack_top ?a ?t)) with (set_stack_top a (unlinked t)).
        rewrite enqueue_unlinked, Hu. by rewrite decide_True.
      * rewrite enqueue_unlinked, Hu. by rewrite decide_False.
  - split_and!.
    + unfold switch_stack; simpl. done.
    + unfold switch_stack; simpl. by autorewrite with sched.
    + rewrite switch_rsp, Hcur. by rewrite Ht.
    + simpl. by autorewrite with sched.
    + apply sched_repr_switch; [done|lia].
    + intros j. rewrite switch_task by (done || lia). autorewrite with sched. rewrite Ht.
      unfold yielded. destruct (decide (c = j)) as [<-|Hne]; [|done].
      by rewrite (decide_False (P := state (unlinked _) = _)).
Qed.

(** C7: [task_yield] does nothing before the scheduler runs, without a
    current task, or when the ready queue of the current task's priority is
    empty (whatever the queues of other priorities hold).  Otherwise the
    first slot of that queue becomes current and its saved stack pointer is
    loaded, the old stack pointer is saved in the old task, and no other task
    changes.  The old task becomes [READY] and goes to the end of the queue if
    it was [RUNNING]; otherwise it keeps its state and joins no queue.  As
    [task_yield] does not mark the new current task [RUNNING], the second
    case is that of every task that was itself reached by a yield
    ([SchedSafety.task_yield_runs_dry]). *)
Theorem task_yield_refines st qs :
  sched_repr st qs → prios_ok st → (current_task st < TASK_MAX)%nat →
  let c := current_task st in
  let p := priority (task_at st c) in
  let st' := task_yield st in
  (scheduler_running st = false ∨ c = 0%nat ∨ qs !! p = Some [] → st' = st) ∧
  ∀ x q, scheduler_running st = true → c ≠ 0%nat → qs !! p = Some (x :: q) →
    current_task st' = x ∧ rsp st' = stack_top (task_at st x) ∧
    sched_repr st' (if decide (state (task_at st c) = TASK_STATE_RUNNING)
                    then push p c (pop p qs) else pop p qs) ∧
    ∀ j, unlinked (task_at st' j) =
      if decide (c = j) then yielded (rsp st) (unlinked (task_at st j))
      else unlinked (task_at st j).
Proof.
  intros R Hp Hc c p st'. split.
  - intros [H|[H|H]]; apply yield_stays; [by left|by right; left|right; right].
    apply (sr_at _ _ R p _ H).
  - intros x q Hrun Hc0 Hq.
    destruct (yield_switches st qs x q R Hp Hrun) as (? & _ & ? & _ & ? & ?);
      [fold c in Hc; lia|done|done].
Qed.

Lemma task_yield_refines_witness :
  current_task (task_yield demo_started) = 2%nat ∧
  sched_repr (task_yield demo_started) [[]; [3; 1]; []]%nat.
Proof.
  destruct (task_yield_refines demo_started [[]; [2; 3]; []]%nat) as [_ H].
  - apply repr_check_sound. vm_compute. reflexivity.
  - apply prios_ok_check. vm_compute. reflexivity.
  - vm_compute. lia.
  - destruct (H 2%nat [3]%nat) as (Hc & _ & R & _); [reflexivity|done|reflexivity|].
    split; [exact Hc|exact R].
Defined.

(** ** Sleeping *)

Definition slept (ms : Z) (t : task_t) : task_t :=
  set_wake_time ms (set_state TASK_STATE_BLOCKED t).

Lemma sleep_inactive ms st :
  scheduler_running st = false ∨ current_task st = 0%nat → task_sleep ms st = st.
Proof.
  unfold task_sleep. intros [->| ->]; [done|]. by rewrite bool_decide_true, orb_true_r.
Qed.

Lemma sleep_task ms st j :
  sized st → (current_task st < TASK_MAX)%nat →
  task_at (upd_task (current_task st) (slept ms) st) j =
    if decide (current_task st = j) then slept ms (task_at st j) else task_at st j.
Proof. intros (Hs & _) Hc. by rewrite task_at_upd by lia. Qed.

Lemma sleep_repr ms st qs :
  sched_repr st qs → (current_task st < TASK_MAX)%nat → unqueued qs (current_task st) →
  sched_repr (upd_task (current_task st) (slept ms) st) qs.
Proof. intros. by apply sched_repr_upd_unqueued. Qed.

Lemma sleep_alone ms st qs :
  sched_repr st qs → scheduler_running st = true → (0 < current_task st < TASK_MAX)%nat →
  qs !! priority (task_at st (current_task st)) = Some [] →
  task_sleep ms st = upd_task (current_task st) (slept ms) st.
Proof.
  intros R Hrun Hc Hq. unfold task_sleep.
  rewrite Hrun, bool_decide_false by lia. simpl orb. cbv iota zeta.
  change (λ t, set_wake_time ms (set_state TASK_STATE_BLOCKED t)) with (slept ms).
  rewrite sleep_task by (apply R || lia). rewrite (decide_True (P := current_task st = current_task st)) by done.
  apply decide_True. autorewrite with sched. apply (sr_at _ _ R _ _ Hq).
Qed.

Lemma sleep_switches ms st qs x q :
  let c := current_task st in
  let p := priority (task_at st c) in
  sched_repr st qs → scheduler_running st = true → (0 < c < TASK_MAX)%nat →
  unqueued qs c → qs !! p = Some (x :: q) →
  let st' := task_sleep ms st in
  current_task st' = x ∧ scheduler_running st' = true ∧ rsp st' = stack_top (task_at st x) ∧
  task_counter st' = task_counter st ∧
  sched_repr st' (pop p qs) ∧
  ∀ j, task_at st' j =
    if decide (c = j) then set_stack_top (rsp st) (slept ms (task_at st j)) else task_at st j.
Proof.
  intros c p R Hrun Hc Hu Hq st'.
  assert (R1 : sched_repr (upd_task c (slept ms) st) qs) by (apply sleep_repr; [done|lia|done]).
  assert (Ht1 : ∀ j, task_at (upd_task c (slept ms) st) j =
    if decide (c = j) then slept ms (task_at st j) else task_at st j).
  { intros j. apply sleep_task; [apply R|fold c; lia]. }
  assert (Hp1 : priority (task_at (upd_task c (slept ms) st) c) = p).
  { by rewrite Ht1, decide_True. }
  destruct (dequeue_repr _ qs p x q R1 Hq) as (Hcur & Ht & _).
  pose proof (dequeue_pop _ qs p x q R1 Hq) as R2.
  assert (Hh : head_of (upd_task c (slept ms) st) p ≠ 0%nat).
  { intros E. by pose proof (queue_at_nil_head _ _ _ (sr_at _ _ R1 p _ Hq) E). }
  assert (E : st' = switch_stack c (dequeue p (upd_task c (slept ms) st))).
  { unfold st', task_sleep. rewrite Hrun, bool_decide_false by (unfold c in *; lia). simpl orb.
    cbv iota zeta. fold c.
    change (λ t, set_wake_time ms (set_state TASK_STATE_BLOCKED t)) with (slept ms).
    rewrite Hp1. by apply decide_False. }
  rewrite E. split_and!.
  - done.
  - unfold switch_stack; simpl. by autorewrite with sched.
  - rewrite switch_rsp, Hcur, Ht, Ht1. by case_decide.
  - unfold switch_stack; simpl. by autorewrite with sched.
  - apply sched_repr_switch; [done|lia].
  - intros j. rewrite switch_task by (apply R2 || lia). autorewrite with sched.
    rewrite Ht, Ht1. by case_decide.
Qed.

(** C28: [task_sleep ms] does nothing before the scheduler runs or without a
    current task; otherwise the current task becomes [BLOCKED] with wake-up
    time [ms].  If no other task of its priority is ready it stays the
    current task, blocked; else the first ready slot of its priority becomes
    current on its own stack, and the stack pointer is saved in the old task. *)
Theorem task_sleep_refines ms st qs :
  sched_repr st qs → (current_task st < TASK_MAX)%nat →
  unqueued qs (current_task st) →
  let c := current_task st in
  let p := priority (task_at st c) in
  let st' := task_sleep ms st in
  (scheduler_running st = false ∨ c = 0%nat → st' = st) ∧
  (scheduler_running st = true → c ≠ 0%nat → qs !! p = Some [] →
     current_task st' = c ∧ rsp st' = rsp st ∧ sched_repr st' qs ∧
     ∀ j, task_at st' j = if decide (c = j) then slept ms (task_at st j) else task_at st j) ∧
  ∀ x q, scheduler_running st = true → c ≠ 0%nat → qs !! p = Some (x :: q) →
     current_task st' = x ∧ rsp st' = stack_top (task_at st x) ∧ sched_repr st' (pop p qs) ∧
     ∀ j, task_at st' j =
       if decide (c = j) then set_stack_top (rsp st) (slept ms (task_at st j)) else task_at st j.
Proof.
  intros R Hc Hu c p st'. split_and!.
  - apply sleep_inactive.
  - intros Hrun Hc0 Hq. unfold st'. rewrite (sleep_alone ms st qs) by (done || (unfold c in *; lia)).
    split_and!; [done|done|by apply sleep_repr|]. intros j. by apply sleep_task; [apply R|].
  - intros x q Hrun Hc0 Hq.
    destruct (sleep_switches ms st qs x q R Hrun) as (? & _ & ? & _ & ? & ?); try done.
    unfold c in *; lia.
Qed.

Lemma task_sleep_refines_witness :
  current_task (task_sleep 2 demo_started) = 2%nat ∧
  sched_repr (task_sleep 2 demo_started) [[]; [3]; []]%nat.
Proof.
  destruct (task_sleep_refines 2 demo_started [[]; [2; 3]; []]%nat) as (_ & _ & H).
  - apply repr_check_sound. vm_compute. reflexivity.
  - vm_compute. lia.
  - apply (unqueued_not_ready demo_started); [|vm_compute; discriminate].
    apply repr_check_sound. vm_compute. reflexivity.
  - destruct (H 2%nat [3]%nat) as (Hc & _ & R & _); [reflexivity|done|reflexivity|].
    split; [exact Hc|exact R].
Defined.

(** ** Starting *)

Lemma start_order_eq : start_order = [2; 1; 0]%nat.
Proof. done. Qed.

Lemma head_nonzero st qs p x q :
  sched_repr st qs → qs !! p = Some (x :: q) → head_of st p ≠ 0%nat.
Proof. intros R Hq E. by pose proof (queue_at_nil_head _ _ _ (sr_at _ _ R p _ Hq) E). Qed.

Lemma head_zero st qs p :
  sched_repr st qs → qs !! p = Some [] → head_of st p = 0%nat.
Proof. intros R Hq. apply (sr_at _ _ R p _ Hq). Qed.

(** [p] is the highest priority with a ready task, which is [x]. *)
Definition highest_ready (qs : list (list nat)) (p x : nat) (q : list nat) : Prop :=
  qs !! p = Some (x :: q) ∧ ∀ p', (p < p' <= TASK_PRIORITY_MAX)%nat → qs !! p' = Some [].

Lemma filter_start_order st qs p x q :
  sched_repr st qs → highest_ready qs p x q →
  ∃ l, filter (λ p, head_of st p ≠ 0%nat) start_order = p :: l.
Proof.
  intros R [Hq Hh]. pose proof (head_nonzero _ _ _ _ _ R Hq) as H0.
  assert (Hp : (p < 3)%nat).
  { apply lookup_lt_Some in Hq. by rewrite (sr_queues _ _ R) in Hq. }
  assert (Hz : ∀ p', (p < p' <= 2)%nat → ¬ head_of st p' ≠ 0%nat).
  { intros p' Hp' Hn. by apply Hn, (head_zero _ _ _ R), Hh. }
  rewrite start_order_eq.
  assert (p = 0 ∨ p = 1 ∨ p = 2)%nat as [->|[->| ->]] by lia;
    rewrite !filter_cons; repeat rewrite decide_False by (apply Hz; lia);
    rewrite (decide_True (P := head_of st _ ≠ 0%nat)) by exact H0; by eexists.
Qed.

Lemma start_runs st qs p x q :
  sched_repr st qs → highest_ready qs p x q →
  let '(e, st') := sched_start st in
  e = Some (entry (task_at st x)) ∧ rsp st' = stack_top (task_at st x) ∧
  current_task st' = x ∧ scheduler_running st' = true ∧ task_counter st' = task_counter st ∧
  sched_repr st' (pop p qs) ∧
  ∀ j, task_at st' j =
    if decide (x = j) then set_state TASK_STATE_RUNNING (task_at st j) else task_at st j.
Proof.
  intros R Hh. destruct (filter_start_order _ _ _ _ _ R Hh) as [l Hl]. destruct Hh as [Hq _].
  unfold sched_start. rewrite Hl.
  assert (R0 : sched_repr (set_running true st) qs) by by destruct R.
  destruct (dequeue_repr _ qs p x q R0 Hq) as (Hcur & Ht & _).
  pose proof (dequeue_pop _ qs p x q R0 Hq) as R1.
  pose proof (pop_head_unqueued _ qs p x q R0 Hq) as Hu.
  destruct (queued_ready _ _ _ _ x R Hq) as [Hx _]; [by left|].
  rewrite Hcur. assert (Hj : ∀ j, task_at (upd_task x (set_state TASK_STATE_RUNNING)
     (dequeue p (set_running true st))) j =
     if decide (x = j) then set_state TASK_STATE_RUNNING (task_at st j) else task_at st j).
  { intros j. rewrite task_at_upd; [by rewrite Ht|].
    rewrite (proj1 (sr_sized _ _ R1)). lia. }
  cbv zeta. rewrite Hj, decide_True by done. split_and!; try done.
  - simpl. by autorewrite with sched.
  - simpl. by autorewrite with sched.
  - assert (R2 := sched_repr_upd_unqueued _ _ x (set_state TASK_STATE_RUNNING) R1
      ltac:(lia) Hu). by destruct R2.
Qed.

(** C29: [sched_start] gives up when no task is ready; otherwise it runs the
    first task of the highest priority that has a ready task: that task
    becomes current and [RUNNING], leaves its queue, its saved stack pointer
    is loaded and its entry point is called; no other task changes. *)
Theorem sched_start_picks_highest st qs :
  sched_repr st qs →
  ((∀ p, (p <= TASK_PRIORITY_MAX)%nat → qs !! p = Some []) → sched_start st = (None, st)) ∧
  ∀ p x q, highest_ready qs p x q →
    ∃ st', sched_start st = (Some (entry (task_at st x)), st') ∧
      rsp st' = stack_top (task_at st x) ∧ current_task st' = x ∧
      scheduler_running st' = true ∧ sched_repr st' (pop p qs) ∧
      ∀ j, task_at st' j =
        if decide (x = j) then set_state TASK_STATE_RUNNING (task_at st j) else task_at st j.
Proof.
  intros R. split.
  - intros He. unfold sched_start. rewrite start_order_eq, !filter_cons.
    by rewrite !decide_False by (intros Hn; apply Hn, (head_zero _ _ _ R), He; unfold TASK_PRIORITY_MAX; lia).
  - intros p x q Hh. pose proof (start_runs st qs p x q R Hh) as H.
    destruct (sched_start st) as [e st']. destruct H as (-> & ? & ? & ? & _ & ? & ?).
    by exists st'.
Qed.

Lemma sched_start_picks_highest_witness :
  ∃ st', sched_start (snd (task_create_priority 16384 2 demo_created)) = (Some 16384, st') ∧
    current_task st' = 4%nat.
Proof.
  destruct (sched_start_picks_highest (snd (task_create_priority 16384 2 demo_created))
    [[]; [1; 2; 3]; [4]]%nat) as [_ H].
  - apply repr_check_sound. vm_compute. reflexivity.
  - destruct (H 2%nat 4%nat []) as (st' & E & _ & Hc & _).
    + split; [reflexivity|]. unfold TASK_PRIORITY_MAX. lia.
    + exists st'. split; [exact E|exact Hc].
Defined.
