(* ===== verification/SchedPriority.v ===== *)
(** * Changing a task's priority

    [task_set_priority] takes a slot out of the ready queue of its old
    priority and appends it to that of the new one.  For a task that is in
    its queue, and to which no stale link of another slot points, this is a
    move between the abstract queues; for a task that is not ready it breaks
    the queues. *)

From S2P Require Import Prelude Sched SchedQueue SchedOps.

(** ** Removal from the middle of a queue *)

Lemma linked_app_inv nx l1 l2 : linked nx (l1 ++ l2) → linked nx l2.
Proof. induction l1 as [|a l1 IH]; simpl; [done|]. intros [_ H]. by apply IH. Qed.

(** In a linked list the predecessor is the one element that points to [i]. *)
Lemma linked_pred nx l1 k i l2 :
  linked nx (l1 ++ k :: i :: l2) → nx k = i ∧ nx i = hd 0%nat l2.
Proof. intros (H1 & H2 & _)%linked_app_inv. done. Qed.

Lemma linked_remove nx nx' l1 k i l2 :
  linked nx (l1 ++ k :: i :: l2) → NoDup (l1 ++ k :: i :: l2) →
  (∀ j, nx' j = if decide (k = j) then nx i else nx j) →
  linked nx' (l1 ++ k :: l2).
Proof.
  intros Hl Hnd Hnx. induction l1 as [|a l1 IH]; simpl in *.
  - destruct Hl as (Hk & Hi & Hl). apply NoDup_cons in Hnd as [Hk' Hnd]. split.
    + by rewrite Hnx, decide_True.
    + eapply linked_ext; [|exact Hl]. intros j Hj. rewrite Hnx, decide_False; [done|].
      intros ->. apply Hk'. by right.
  - destruct Hl as [Ha Hl]. apply NoDup_cons in Hnd as [Ha' Hnd]. split; [|by apply IH].
    rewrite Hnx, decide_False; [rewrite Ha; by destruct l1|].
    intros ->. apply Ha', elem_of_app. right. by left.
Qed.

(** In a list without duplicates linked to 0 at its end, only the
    predecessor of [i] points to [i]. *)
Lemma linked_pred_unique nx l1 k i l2 j :
  linked nx (l1 ++ k :: i :: l2) → NoDup (l1 ++ k :: i :: l2) → i ≠ 0%nat →
  j ∈ l1 ++ k :: i :: l2 → nx j = i → j = k.
Proof.
  intros Hl Hnd Hi Hj Hn. induction l1 as [|a l1 IH]; simpl in *.
  - destruct Hl as (Hk & Hni & Hl). apply elem_of_cons in Hj as [->|Hj]; [done|exfalso].
    apply NoDup_cons in Hnd as [_ Hnd]. clear Hk.
    assert (Hgen : ∀ l b, nx b = hd 0%nat l → linked nx l → i ∉ l → ∀ j, j ∈ b :: l → nx j ≠ i).
    { clear -Hi. induction l as [|c l IH]; intros b Hb Hl Hni j Hj E.
      - apply list_elem_of_singleton in Hj as ->. simpl in Hb. congruence.
      - apply elem_of_cons in Hj as [->|Hj].
        + rewrite Hb in E. simpl in E. subst c. apply Hni. by left.
        + destruct Hl as [Hc Hl]. eapply (IH c); [done|done| |done|done].
          intros H. apply Hni. by right. }
    apply NoDup_cons in Hnd as [Hni' _]. by eapply (Hgen l2 i).
  - apply NoDup_cons in Hnd as [Ha Hnd]. destruct Hl as [Hna Hl].
    apply elem_of_cons in Hj as [->|Hj]; [exfalso|by apply IH].
    destruct l1 as [|b l1]; simpl in *.
    + assert (k = i) as -> by congruence. apply NoDup_cons in Hnd as [Hk _]. apply Hk. by left.
    + assert (b = i) as -> by congruence. apply NoDup_cons in Hnd as [Hb _].
      apply Hb, elem_of_app. right. right. by left.
Qed.

(** Replacing the representation of one queue. *)
Lemma sched_repr_replace st st' qs p q q' :
  sched_repr st qs → sized st' → qs !! p = Some q → queue_at st' p q' →
  (∀ p', p' ≠ p → head_of st' p' = head_of st p' ∧ tail_of st' p' = tail_of st p') →
  (∀ j, j ∉ q → next (task_at st' j) = next (task_at st j)) →
  (∀ j, state (task_at st' j) = state (task_at st j) ∧
        priority (task_at st' j) = priority (task_at st j)) →
  sched_repr st' (<[p := q']> qs).
Proof.
  intros R Hs' Hq Hq' Hp Hn Ht. split; [done|rewrite length_insert; apply R|].
  intros r qr. rewrite list_lookup_insert.
  destruct (decide (p = r ∧ (p < length qs)%nat)) as [[<- _]|E]; [by intros [= <-]|].
  intros Hr. assert (Hne : r ≠ p).
  { intros ->. apply E. split; [done|]. by eapply lookup_lt_Some. }
  apply (queue_at_ext st); [by apply Hp|by apply Hp| |by apply (sr_at _ _ R)].
  intros j Hj. split; [|by apply Ht]. apply Hn. intros Hjq.
  pose proof (queued_prio _ _ _ _ _ R Hr Hj). pose proof (queued_prio _ _ _ _ _ R Hq Hjq).
  congruence.
Qed.

Lemma last_app_cons {A} (l1 : list A) x l2 : list.last (l1 ++ x :: l2) = list.last (x :: l2).
Proof.
  induction l1 as [|a l1 IH]; [done|]. simpl app.
  destruct (l1 ++ x :: l2) as [|b l] eqn:E; [by destruct l1|]. by rewrite last_cons_cons.
Qed.

Lemma remove_perm (l1 : list nat) k i l2 : l1 ++ k :: i :: l2 ≡ₚ i :: l1 ++ k :: l2.
Proof.
  replace (l1 ++ k :: i :: l2) with ((l1 ++ [k]) ++ i :: l2) by by rewrite <-app_assoc.
  by rewrite <-Permutation_middle, <-app_assoc.
Qed.

(** No slot outside of [q] has a link to slot [i]. *)
Definition no_stale_link (st : sched) (q : list nat) (i : nat) : Prop :=
  ∀ j, (1 <= j < TASK_MAX)%nat → next (task_at st j) = i → j ∈ q.

Lemma no_stale_link_check st q i :
  forallb (λ j, bool_decide (next (task_at st j) = i → j ∈ q)) (seq 1 (TASK_MAX - 1)) = true →
  no_stale_link st q i.
Proof.
  intros H j Hj. rewrite forallb_forall in H.
  eapply bool_decide_eq_true_1, H, list_elem_of_In. by apply tick_slots.
Qed.

Section unlink.
Context (st : sched) (qs : list (list nat)) (p : nat).
Context (R : sched_repr st qs).

Lemma unlink_head_repr i l2 :
  qs !! p = Some (i :: l2) → sched_repr (unlink p i st) (<[p := l2]> qs) ∧
  ∀ j, task_at (unlink p i st) j = task_at st j.
Proof.
  intros Hq. pose proof (sr_at _ _ R p _ Hq) as (Hh & Ht & [Hi Hl] & Hnd & Hs).
  pose proof (sr_sized _ _ R) as Hsz. pose proof Hsz as (Hs1 & Hs2 & Hs3).
  assert (Hp : (p < S TASK_PRIORITY_MAX)%nat) by (rewrite <-(sr_queues _ _ R); by eapply lookup_lt_Some).
  simpl in Hh, Hi. apply NoDup_cons in Hnd as [Hni Hnd].
  assert (Hti : tail_of st p = i ↔ l2 = []).
  { rewrite Ht. split; [|by intros ->]. destruct l2 as [|a l2]; [done|].
    rewrite last_cons_cons. intros E. exfalso. apply Hni. rewrite <-E at 1. by apply last_in. }
  unfold unlink. rewrite (decide_True (P := head_of st p = i)) by done.
  cbv zeta. rewrite tail_of_set_head. split; [|intros j; by case_decide].
  eapply (sched_repr_replace st); [exact R| |exact Hq| | | |].
  - case_decide; auto with aegis.
  - unfold queue_at. case_decide as E.
    + apply Hti in E as ->. autorewrite with sched.
      rewrite head_of_set_head, tail_of_set_tail, !(decide_True (P := p = p)) by (simpl; lia || done).
      split_and!; [done|done|done|done|set_solver].
    + autorewrite with sched. rewrite head_of_set_head, (decide_True (P := p = p)) by (simpl; lia || done).
      split_and!; [done| |done|done|intros j Hj; apply Hs; by right].
      destruct l2 as [|a l2]; [tauto|]. by rewrite Ht, last_cons_cons.
  - intros p' Hp'. case_decide; autorewrite with sched;
      rewrite head_of_set_head, ?tail_of_set_tail, !(decide_False (P := p = p')) by (simpl; lia || done); done.
  - intros j _. by case_decide.
  - intros j. by case_decide.
Qed.

Lemma middle_not_head l1 k i l2 :
  qs !! p = Some (l1 ++ k :: i :: l2) → head_of st p ≠ i.
Proof.
  intros Hq. pose proof (sr_at _ _ R p _ Hq) as (-> & _ & _ & Hnd & _). intros E.
  destruct l1 as [|a l1]; simpl in E, Hnd; rewrite E in Hnd;
    apply NoDup_cons in Hnd as [Hnd _]; apply Hnd; [by left|].
  apply elem_of_app. right. right. by left.
Qed.

Lemma middle_tail l1 k i l2 :
  qs !! p = Some (l1 ++ k :: i :: l2) → tail_of st p = i ↔ l2 = [].
Proof.
  intros Hq. pose proof (sr_at _ _ R p _ Hq) as (_ & -> & _ & Hnd & _).
  rewrite last_app_cons, last_cons_cons. split; [|by intros ->].
  destruct l2 as [|a l2]; [done|]. rewrite last_cons_cons. intros E. exfalso.
  replace (l1 ++ k :: i :: a :: l2) with ((l1 ++ [k]) ++ i :: a :: l2) in Hnd
    by by rewrite <-app_assoc.
  apply NoDup_app in Hnd as (_ & _ & [Hnd _]%NoDup_cons).
  apply Hnd. rewrite <-E at 1. by apply last_in.
Qed.

(** Without left-over links the scan finds the predecessor. *)
Lemma middle_scan l1 k i l2 :
  qs !! p = Some (l1 ++ k :: i :: l2) → no_stale_link st (l1 ++ k :: i :: l2) i →
  first_from (λ t, bool_decide (next t = i)) (drop 1 (tasks st)) 1 = Some k.
Proof.
  intros Hq Hns. pose proof (sr_at _ _ R p _ Hq) as (_ & _ & Hl & Hnd & Hs).
  destruct (linked_pred _ _ _ _ _ Hl) as [Hk Hi].
  destruct (Hs i) as [Hi1 _]; [apply elem_of_app; right; right; by left|].
  destruct (Hs k) as [Hk1 _]; [apply elem_of_app; right; by left|].
  apply scan_unique; [by apply R|done|by apply bool_decide_eq_true|].
  intros j Hj. apply bool_decide_eq_false. intros E.
  assert (j = k) by (eapply (linked_pred_unique _ l1 k i l2 j Hl Hnd); [lia| |done];
    apply Hns; [lia|done]). lia.
Qed.

Lemma unlink_middle_repr l1 k i l2 :
  qs !! p = Some (l1 ++ k :: i :: l2) → no_stale_link st (l1 ++ k :: i :: l2) i →
  sched_repr (unlink p i st) (<[p := l1 ++ k :: l2]> qs) ∧
  ∀ j, unlinked (task_at (unlink p i st) j) = unlinked (task_at st j).
Proof.
  intros Hq Hns. pose proof (sr_at _ _ R p _ Hq) as (Hh & Ht & Hl & Hnd & Hs).
  pose proof (sr_sized _ _ R) as Hsz. pose proof Hsz as (Hs1 & Hs2 & Hs3).
  assert (Hp : (p < S TASK_PRIORITY_MAX)%nat) by (rewrite <-(sr_queues _ _ R); by eapply lookup_lt_Some).
  destruct (linked_pred _ _ _ _ _ Hl) as [Hk Hi].
  destruct (Hs i) as [Hi1 _]; [apply elem_of_app; right; right; by left|].
  destruct (Hs k) as [Hk1 _]; [apply elem_of_app; right; by left|].
  pose proof (middle_not_head _ _ _ _ Hq) as Hhi. pose proof (middle_scan _ _ _ _ Hq Hns) as Hf.
  pose proof (middle_tail _ _ _ _ Hq) as Hti.
  unfold unlink. rewrite decide_False, Hf by done. cbv zeta.
  rewrite tail_of_upd_task.
  assert (Hu : ∀ j, task_at (upd_task k (set_next (next (task_at st i))) st) j =
     if decide (k = j) then set_next (next (task_at st i)) (task_at st j) else task_at st j).
  { intros j. by rewrite task_at_upd by lia. }
  split; [|intros j; case_decide; autorewrite with sched; rewrite Hu; by case_decide].
  eapply (sched_repr_replace st); [exact R| |exact Hq| | | |].
  - case_decide; auto with aegis.
  - split_and!.
    + case_decide; autorewrite with sched; rewrite Hh; by destruct l1.
    + rewrite last_app_cons. case_decide as E.
      * apply Hti in E as ->. by rewrite tail_of_set_tail, (decide_True (P := p = p)) by (simpl; lia || done).
      * autorewrite with sched. rewrite Ht, last_app_cons, last_cons_cons.
        destruct l2 as [|a l2]; [tauto|]. by rewrite !last_cons_cons.
    + eapply (linked_remove (λ j, next (task_at st j))); [exact Hl|done|].
      intros j. case_decide; autorewrite with sched; rewrite Hu; by case_decide.
    + rewrite remove_perm in Hnd. by apply NoDup_cons in Hnd as [_ Hnd].
    + intros j Hj. assert (Hjq : j ∈ l1 ++ k :: i :: l2) by (rewrite remove_perm; by right).
      apply Hs in Hjq. case_decide; autorewrite with sched; rewrite Hu; by case_decide.
  - intros p' Hp'. case_decide; autorewrite with sched; [|done].
    by rewrite tail_of_set_tail, (decide_False (P := p = p')) by (simpl; lia || done).
  - intros j Hj. case_decide; autorewrite with sched; rewrite Hu;
      rewrite decide_False; try done;
      intros ->; apply Hj, elem_of_app; right; by left.
  - intros j. case_decide; autorewrite with sched; rewrite Hu; by case_decide.
Qed.
End unlink.

(** ** [task_set_priority] *)

Lemma unlink_repr st qs p l1 i l2 :
  sched_repr st qs → qs !! p = Some (l1 ++ i :: l2) → no_stale_link st (l1 ++ i :: l2) i →
  sched_repr (unlink p i st) (<[p := l1 ++ l2]> qs) ∧
  ∀ j, unlinked (task_at (unlink p i st) j) = unlinked (task_at st j).
Proof.
  intros R Hq Hns. destruct l1 as [|k l1 _] using rev_ind.
  - destruct (unlink_head_repr st qs p R i l2 Hq) as [R' Ht].
    split; [done|]. intros j. by rewrite Ht.
  - rewrite <-app_assoc in *. by apply (unlink_middle_repr st qs p R).
Qed.

(** Clearing the link of the slot being appended may come after linking it. *)
Lemma set_next_enqueue p i st :
  (head_of st p ≠ 0%nat → tail_of st p ≠ i) →
  upd_task i (set_next 0) (enqueue p i st) = enqueue p i (upd_task i (set_next 0) st).
Proof.
  intros Ht. unfold enqueue. autorewrite with sched. case_decide as H0; [done|].
  unfold upd_task, set_tail; simpl. f_equal. apply list_alter_alter_ne. by apply not_eq_sym, Ht.
Qed.

(** Slot [i] is the one that the scan for [tid] finds. *)
Definition first_with_id (st : sched) (tid : Z) (i : nat) : Prop :=
  (1 <= i < TASK_MAX)%nat ∧ id (task_at st i) = tid ∧
  ∀ j, (1 <= j < i)%nat → id (task_at st j) ≠ tid.

Lemma first_with_id_scan st tid i :
  sized st → first_with_id st tid i →
  first_from (λ t, id t =? tid) (drop 1 st.(tasks)) 1 = Some i.
Proof.
  intros Hs (Hi & He & Hl). apply scan_unique; [done|done|by apply Z.eqb_eq|].
  intros j Hj. by apply Z.eqb_neq, Hl.
Qed.

Lemma task_set_priority_eq st tid prio i :
  sized st → first_with_id st tid i → priority (task_at st i) ≠ clamp prio →
  task_set_priority tid prio st =
    upd_task i (set_next 0) (enqueue (clamp prio) i (upd_task i (set_priority (clamp prio))
      (unlink (priority (task_at st i)) i st))).
Proof.
  intros Hs Hf Hp. unfold task_set_priority. rewrite clamp_decide.
  rewrite (first_with_id_scan _ _ _ Hs Hf). cbv zeta. by rewrite decide_False.
Qed.

Lemma set_priority_repr st qs i p l1 l2 p' :
  sched_repr st qs → prios_ok st → (p' <= TASK_PRIORITY_MAX)%nat → p ≠ p' →
  qs !! p = Some (l1 ++ i :: l2) → no_stale_link st (l1 ++ i :: l2) i →
  let st' := upd_task i (set_next 0) (enqueue p' i (upd_task i (set_priority p')
      (unlink p i st))) in
  sched_repr st' (push p' i (<[p := l1 ++ l2]> qs)) ∧
  ∀ j, unlinked (task_at st' j) =
    if decide (i = j) then set_priority p' (unlinked (task_at st j)) else unlinked (task_at st j).
Proof.
  intros R Hpr Hp' Hne Hq Hns st'.
  destruct (unlink_repr st qs p l1 i l2 R Hq Hns) as [R1 Ht1].
  assert (Hiq : i ∈ l1 ++ i :: l2) by (apply elem_of_app; right; by left).
  destruct (queued_ready _ _ _ _ _ R Hq Hiq) as [Hi Hrd].
  pose proof (sr_at _ _ R p _ Hq) as (_ & _ & _ & Hnd & _).
  rewrite <-Permutation_middle in Hnd. apply NoDup_cons in Hnd as [Hni _].
  assert (Hu : unqueued (<[p := l1 ++ l2]> qs) i).
  { intros r qr. rewrite list_lookup_insert. destruct (decide (_ ∧ _)) as [_|Hr].
    - by intros [= <-].
    - intros Hr' Hin. apply Hr. split; [|by eapply lookup_lt_Some].
      pose proof (queued_prio _ _ _ _ _ R Hr' Hin).
      pose proof (queued_prio _ _ _ _ _ R Hq Hiq). congruence. }
  set (u := upd_task i (set_priority p') (unlink p i st)) in *.
  assert (R2 : sched_repr u (<[p := l1 ++ l2]> qs)).
  { apply sched_repr_upd_unqueued; [done|lia|done]. }
  assert (E : st' = enqueue p' i (upd_task i (set_next 0) u)).
  { apply set_next_enqueue. destruct (queue_exists _ _ _ R2 Hp') as [q Hq'].
    pose proof (sr_at _ _ R2 p' q Hq') as (Hh & Ht & _). intros Hh0 Hti.
    apply (Hu p' q Hq'). rewrite Ht in Hti. rewrite <-Hti. apply last_in.
    intros ->. by rewrite Hh in Hh0. }
  assert (Hv : ∀ j, task_at (upd_task i (set_next 0) u) j =
    if decide (i = j) then set_priority p' (unlinked (task_at st j))
    else task_at (unlink p i st) j).
  { intros j. unfold u. rewrite !task_at_upd; try (simpl; rewrite ?length_alter;
      rewrite (proj1 (sr_sized _ _ R1)); lia).
    case_decide; [subst j|done]. by rewrite <-Ht1. }
  rewrite E. split.
  - apply enqueue_push; rewrite ?Hv, ?decide_True by done; try done.
    apply sched_repr_upd_unqueued; [done|lia|done].
  - intros j. rewrite enqueue_unlinked, Hv. case_decide; [done|apply Ht1].
Qed.

(** C10: [task_set_priority] does nothing when no slot has the identifier or
    when the task already has the (clamped) priority.  For a task in the
    ready queue of its priority, to which no slot outside of that queue has a
    left-over link, it removes the task from wherever it stands in the queue,
    sets the priority and appends the task to the new queue; no other task
    and no other queue changes. *)
Theorem task_set_priority_moves st qs tid prio :
  sched_repr st qs → prios_ok st →
  ((∀ j, (1 <= j < TASK_MAX)%nat → id (task_at st j) ≠ tid) →
     task_set_priority tid prio st = st) ∧
  ∀ i, first_with_id st tid i →
    (priority (task_at st i) = clamp prio → task_set_priority tid prio st = st) ∧
    ∀ l1 l2, priority (task_at st i) ≠ clamp prio →
      qs !! priority (task_at st i) = Some (l1 ++ i :: l2) →
      no_stale_link st (l1 ++ i :: l2) i →
      let st' := task_set_priority tid prio st in
      sched_repr st' (push (clamp prio) i (<[priority (task_at st i) := l1 ++ l2]> qs)) ∧
      ∀ j, unlinked (task_at st' j) =
        if decide (i = j) then set_priority (clamp prio) (unlinked (task_at st j))
        else unlinked (task_at st j).
Proof.
  intros R Hp. pose proof (sr_sized _ _ R) as Hs. split; [|intros i Hf; split].
  - intros Hno. unfold task_set_priority. destruct (first_from _ _ _) as [i|] eqn:E; [|done].
    apply scan_Some in E as (Hi & Hid%Z.eqb_eq & _); [|done]. by apply Hno in Hid.
  - intros E. unfold task_set_priority. rewrite clamp_decide.
    rewrite (first_with_id_scan _ _ _ Hs Hf). cbv zeta. by rewrite decide_True.
  - intros l1 l2 Hne Hq Hns. cbv zeta. rewrite (task_set_priority_eq st tid prio i) by done.
    by apply set_priority_repr; [| |apply clamp_le| | |].
Qed.

Lemma task_set_priority_moves_witness :
  sched_repr (task_set_priority 2 2 demo_created) [[]; [1; 3]; [2]]%nat.
Proof.
  destruct (task_set_priority_moves demo_created [[]; [1; 2; 3]; []]%nat 2 2) as [_ H].
  - apply repr_check_sound. vm_compute. reflexivity.
  - apply prios_ok_check. vm_compute. reflexivity.
  - destruct (H 2%nat) as [_ H2].
    + split_and!; [lia|unfold TASK_MAX; lia|vm_compute; reflexivity|].
      intros j Hj. assert (j = 1)%nat as -> by lia. vm_compute. discriminate.
    + destruct (H2 [1]%nat [3]%nat) as [R _].
      * vm_compute. discriminate.
      * reflexivity.
      * apply no_stale_link_check. vm_compute. reflexivity.
      * exact R.
Defined.

(** ** Tasks that are not ready *)

Lemma unlink_sized p i st : sized st → sized (unlink p i st).
Proof. intros H. unfold unlink. repeat case_match; auto with aegis. Qed.

Lemma unlink_unlinked p i st j :
  unlinked (task_at (unlink p i st) j) = unlinked (task_at st j).
Proof.
  unfold unlink. repeat case_match; autorewrite with sched; try done;
    by apply (task_at_upd_same unlinked).
Qed.

Lemma tail_of_enqueue p i st :
  sized st → (p <= TASK_PRIORITY_MAX)%nat → tail_of (enqueue p i st) p = i.
Proof.
  intros (_ & _ & Hs) Hp. unfold enqueue.
  case_decide; rewrite tail_of_set_tail by (simpl; lia); by rewrite decide_True.
Qed.

(** [task_set_priority] does not look at the task's state: a task that is
    [RUNNING], [BLOCKED] or [TERMINATED] (or, with identifier 0, an [EMPTY]
    slot) and whose priority changes is linked into a ready queue too, and
    the arrays represent no queues of ready tasks any more. *)
Theorem task_set_priority_queues_non_ready st tid prio i :
  sized st → first_with_id st tid i → priority (task_at st i) ≠ clamp prio →
  state (task_at st i) ≠ TASK_STATE_READY →
  let st' := task_set_priority tid prio st in
  tail_of st' (clamp prio) = i ∧ state (task_at st' i) = state (task_at st i) ∧
  ¬ ∃ qs, sched_repr st' qs.
Proof.
  intros Hs Hf Hp Hst st'. assert (Hi : (1 <= i < TASK_MAX)%nat) by apply Hf.
  assert (E : unlinked (task_at st' i) = unlinked (set_priority (clamp prio) (task_at st i))).
  { unfold st'. rewrite (task_set_priority_eq st tid prio i) by done.
    rewrite (task_at_upd_same unlinked) by done. rewrite enqueue_unlinked, task_at_upd.
    - rewrite decide_True by done.
      exact (f_equal (set_priority (clamp prio)) (unlink_unlinked _ i st i)).
    - rewrite (proj1 (unlink_sized _ _ _ Hs)). lia. }
  apply unlinked_fields in E as (_ & E & _). simpl in E.
  assert (Ht : tail_of st' (clamp prio) = i).
  { unfold st'. rewrite (task_set_priority_eq st tid prio i), tail_of_upd_task by done.
    apply tail_of_enqueue; [|apply clamp_le]. by apply sized_upd_task, unlink_sized. }
  split_and!; [done|done|]. intros [qs R].
  destruct (queue_exists _ _ _ R (clamp_le prio)) as [q Hq].
  pose proof (sr_at _ _ R _ _ Hq) as (_ & Ht' & _ & _ & Hs').
  destruct (Hs' i) as (_ & Hr & _); [|congruence].
  rewrite <-Ht, Ht'. apply last_in. intros ->. rewrite Ht in Ht'. simpl in Ht'. lia.
Qed.

Lemma task_set_priority_queues_non_ready_witness :
  tail_of (task_set_priority 1 2 demo_asleep) 2 = 1%nat ∧
  state (task_at (task_set_priority 1 2 demo_asleep) 1) = TASK_STATE_BLOCKED ∧
  ¬ ∃ qs, sched_repr (task_set_priority 1 2 demo_asleep) qs.
Proof.
  apply (task_set_priority_queues_non_ready demo_asleep 1 2 1).
  - split_and!; vm_compute; reflexivity.
  - split_and!; [lia|unfold TASK_MAX; lia|vm_compute; reflexivity|lia].
  - vm_compute. discriminate.
  - vm_compute. discriminate.
Defined.
