(* ===== verification/SchedSafety.v ===== *)
(** * Runs of the scheduler

    The operations of [sched.c] as the steps of a transition system.  Every
    run keeps all array indices in range; every run that respects the
    scheduler's use contract keeps the ready queues well formed; and the
    runs that break them are exhibited. *)

From S2P Require Import Prelude Sched SchedQueue SchedOps SchedPriority.

(** ** Steps *)

(** One call of a function of [sched.c] that changes the state. *)
Inductive sched_op : Type :=
  | OpCreate (entry : Z) (prio : nat)
  | OpSetPriority (tid : Z) (prio : nat)
  | OpYield
  | OpSleep (ms : Z)
  | OpWake (tid : Z)
  | OpTick
  | OpStart.

Definition run_op (o : sched_op) (st : sched) : sched :=
  match o with
  | OpCreate entry prio => snd (task_create_priority entry prio st)
  | OpSetPriority tid prio => task_set_priority tid prio st
  | OpYield => task_yield st
  | OpSleep ms => task_sleep ms st
  | OpWake tid => task_wake tid st
  | OpTick => sched_tick st
  | OpStart => snd (sched_start st)
  end.

Definition run_ops (os : list sched_op) (st : sched) : sched := foldl (λ st o, run_op o st) st os.

Inductive reachable : sched → Prop :=
  | reachable_init addr sp : reachable (sched_init (sched_boot addr sp))
  | reachable_step o st : reachable st → reachable (run_op o st).

Lemma reachable_run os st : reachable st → reachable (run_ops os st).
Proof. revert st. induction os as [|o os IH]; intros st H; simpl; [done|]. by apply IH, reachable_step. Qed.

(** ** Index safety *)

(** Everything that the code uses as an index of [tasks], of
    [ready_queue_head] or of [ready_queue_tail]. *)
Record indices_ok (st : sched) : Prop := {
  ix_sized : sized st;
  ix_current : (current_task st < TASK_MAX)%nat;
  ix_heads : Forall (λ i, i < TASK_MAX)%nat (ready_queue_head st);
  ix_tails : Forall (λ i, i < TASK_MAX)%nat (ready_queue_tail st);
  ix_tasks : Forall (λ t, (next t < TASK_MAX)%nat ∧ (priority t <= TASK_PRIORITY_MAX)%nat)
                    (tasks st)
}.

Lemma TASK_MAX_pos : (0 < TASK_MAX)%nat.
Proof. unfold TASK_MAX. lia. Qed.
#[local] Hint Resolve TASK_MAX_pos : aegis.

Lemma Forall_total {A} `{Inhabited A} (P : A → Prop) (l : list A) i :
  Forall P l → P inhabitant → P (l !!! i).
Proof.
  intros HF H0. rewrite list_lookup_total_alt. destruct (l !! i) eqn:E; simpl; [|done].
  by eapply Forall_lookup_1.
Qed.

Lemma ix_head_of st p : indices_ok st → (head_of st p < TASK_MAX)%nat.
Proof. intros I. apply (Forall_total (λ i, i < TASK_MAX)%nat); [apply I|apply TASK_MAX_pos]. Qed.
Lemma ix_tail_of st p : indices_ok st → (tail_of st p < TASK_MAX)%nat.
Proof. intros I. apply (Forall_total (λ i, i < TASK_MAX)%nat); [apply I|apply TASK_MAX_pos]. Qed.
Lemma ix_task_at st i : indices_ok st →
  (next (task_at st i) < TASK_MAX)%nat ∧ (priority (task_at st i) <= TASK_PRIORITY_MAX)%nat.
Proof.
  intros I. apply (Forall_total (λ t, (next t < TASK_MAX)%nat ∧ (priority t <= TASK_PRIORITY_MAX)%nat)).
  - apply I.
  - split; [apply TASK_MAX_pos|simpl; lia].
Qed.

(** The state updates. *)
Lemma ix_set_head p i st : (i < TASK_MAX)%nat → indices_ok st → indices_ok (set_head p i st).
Proof. intros Hi [? ? ? ? ?]. split; simpl; auto with aegis. by apply Forall_insert. Qed.
Lemma ix_set_tail p i st : (i < TASK_MAX)%nat → indices_ok st → indices_ok (set_tail p i st).
Proof. intros Hi [? ? ? ? ?]. split; simpl; auto with aegis. by apply Forall_insert. Qed.
Lemma ix_set_current i st : (i < TASK_MAX)%nat → indices_ok st → indices_ok (set_current i st).
Proof. intros Hi [? ? ? ? ?]. by split. Qed.
Lemma ix_set_rsp a st : indices_ok st → indices_ok (set_rsp a st).
Proof. intros [? ? ? ? ?]. by split. Qed.
Lemma ix_set_running b st : indices_ok st → indices_ok (set_running b st).
Proof. intros [? ? ? ? ?]. by split. Qed.
Lemma ix_set_counter c st : indices_ok st → indices_ok (set_counter c st).
Proof. intros [? ? ? ? ?]. by split. Qed.
Lemma ix_upd_task i f st :
  (∀ t, (next t < TASK_MAX)%nat → (priority t <= TASK_PRIORITY_MAX)%nat →
     (next (f t) < TASK_MAX)%nat ∧ (priority (f t) <= TASK_PRIORITY_MAX)%nat) →
  indices_ok st → indices_ok (upd_task i f st).
Proof.
  intros Hf [? ? ? ? Ht]. split; simpl; auto with aegis.
  apply Forall_alter; [done|]. intros t Hi [? ?]. by apply Hf.
Qed.
#[local] Hint Resolve ix_set_head ix_set_tail ix_set_current ix_set_rsp ix_set_running
  ix_set_counter ix_head_of ix_tail_of : aegis.

Lemma ix_enqueue p i st : (i < TASK_MAX)%nat → indices_ok st → indices_ok (enqueue p i st).
Proof.
  intros Hi I. unfold enqueue. case_decide; auto with aegis.
  apply ix_set_tail; [done|]. by apply ix_upd_task.
Qed.

Lemma ix_dequeue p st : indices_ok st → indices_ok (dequeue p st).
Proof.
  intros I. unfold dequeue. autorewrite with sched.
  assert (indices_ok (set_head p (next (task_at st (head_of st p)))
    (set_current (head_of st p) st))).
  { apply ix_set_head; [by apply ix_task_at|auto with aegis]. }
  case_decide; auto with aegis.
Qed.

Lemma ix_switch old st : indices_ok st → indices_ok (switch_stack old st).
Proof. intros I. apply ix_set_rsp. by apply ix_upd_task. Qed.
#[local] Hint Resolve ix_enqueue ix_dequeue ix_switch : aegis.

Lemma scan_lt st p i :
  sized st → first_from p (drop 1 (tasks st)) 1 = Some i → (i < TASK_MAX)%nat.
Proof. intros Hs Hf. by apply scan_Some in Hf as [[??] _]. Qed.

Lemma ix_create e p st : indices_ok st → indices_ok (snd (task_create_priority e p st)).
Proof.
  intros I. unfold task_create_priority. rewrite clamp_decide. destruct (e =? 0); [done|].
  destruct (first_from _ _ _) as [i|] eqn:E; [|done]. simpl.
  apply ix_enqueue; [eapply scan_lt; [apply I|done]|].
  apply ix_upd_task; [|auto with aegis]. intros t _ _. simpl.
  split; [apply TASK_MAX_pos|apply clamp_le].
Qed.

Lemma ix_unlink p i st : (i < TASK_MAX)%nat → indices_ok st → indices_ok (unlink p i st).
Proof.
  intros Hi I. unfold unlink. destruct (ix_task_at st i I) as [Hn _]. case_decide.
  - case_decide; auto with aegis.
  - destruct (first_from _ _ _) as [j|] eqn:E; [|done].
    assert (I' : indices_ok (upd_task j (set_next (next (task_at st i))) st)) by by apply ix_upd_task.
    apply scan_lt in E; [|apply I]. case_decide; auto with aegis.
Qed.

Lemma ix_set_priority tid p st : indices_ok st → indices_ok (task_set_priority tid p st).
Proof.
  intros I. unfold task_set_priority. rewrite clamp_decide.
  destruct (first_from _ _ _) as [i|] eqn:E; [|done]. apply scan_lt in E; [|apply I].
  cbv zeta. case_decide; [done|]. apply ix_upd_task.
  { intros t _ ?. split; [apply TASK_MAX_pos|done]. }
  apply ix_enqueue; [done|]. apply ix_upd_task; [|by apply ix_unlink].
  intros t ? _. split; [done|apply clamp_le].
Qed.

Lemma ix_wake tid st : indices_ok st → indices_ok (task_wake tid st).
Proof.
  intros I. unfold task_wake. destruct (first_from _ _ _) as [i|] eqn:E; [|done].
  apply scan_lt in E; [|apply I]. apply ix_enqueue; [done|]. apply ix_upd_task; [|done].
  intros t _ ?. split; [apply TASK_MAX_pos|done].
Qed.

Lemma ix_tick st : indices_ok st → indices_ok (sched_tick st).
Proof.
  unfold sched_tick. generalize (seq 1 (TASK_MAX - 1)) as l. intros l. revert st.
  induction l as [|i l IH]; intros st I; simpl; [done|]. apply IH. unfold tick_slot.
  repeat case_match; auto using ix_wake. by apply ix_upd_task.
Qed.

Lemma ix_yield st : indices_ok st → indices_ok (task_yield st).
Proof.
  intros I. unfold task_yield. case_match; [done|]. destruct (decide (head_of st _ = 0%nat)); [done|]. cbv zeta.
  apply ix_switch. destruct (decide (state _ = _)); [|auto with aegis].
  apply ix_enqueue; [apply I|]. apply ix_upd_task; [|auto with aegis].
  intros t _ ?. split; [apply TASK_MAX_pos|done].
Qed.

Lemma ix_sleep ms st : indices_ok st → indices_ok (task_sleep ms st).
Proof.
  intros I. unfold task_sleep. case_match; [done|]. cbv zeta.
  destruct (decide (head_of _ _ = 0%nat)); [|apply ix_switch, ix_dequeue]; by apply ix_upd_task.
Qed.

Lemma ix_start st : indices_ok st → indices_ok (snd (sched_start st)).
Proof.
  intros I. unfold sched_start. case_match; [done|]. simpl.
  apply ix_set_rsp, ix_upd_task; [done|]. auto with aegis.
Qed.

Lemma ix_init addr sp : indices_ok (sched_init (sched_boot addr sp)).
Proof.
  split; [by split_and!|apply TASK_MAX_pos| | |];
    simpl; repeat constructor; simpl; unfold TASK_MAX; lia.
Qed.

(** C27: in every state that any sequence of calls to the functions of
    [sched.c] reaches after [sched_init], the arrays have their declared
    sizes and everything the code uses as an index ([current_task], the queue
    heads and tails, every task's [next] and [priority]) is in range. *)
Theorem reachable_indices_in_range st : reachable st → indices_ok st.
Proof.
  induction 1 as [addr sp|o st _ IH]; [apply ix_init|].
  destruct o; simpl; auto using ix_create, ix_set_priority, ix_yield, ix_sleep, ix_wake,
    ix_tick, ix_start.
Qed.

Lemma reachable_indices_in_range_witness :
  indices_ok (run_ops [OpCreate 4096 1; OpStart; OpSleep 1; OpTick; OpSleep 1]
                (sched_init (sched_boot 2097152 1048576))).
Proof.
  apply reachable_indices_in_range. apply reachable_run. apply reachable_init.
Defined.

(** ** Runs that respect the use contract

    A call of [task_sleep] needs another ready task of the same priority (an
    idle task), [task_set_priority] is not used, and identifiers do not wrap
    around. *)

Definition allowed (o : sched_op) (st : sched) : Prop :=
  match o with
  | OpCreate _ _ => task_counter st < 2 ^ 64 - 1
  | OpSleep _ => head_of st (priority (task_at st (current_task st))) ≠ 0%nat
  | OpSetPriority _ _ => False
  | _ => True
  end.

Inductive disciplined : sched → Prop :=
  | disciplined_init addr sp : disciplined (sched_init (sched_boot addr sp))
  | disciplined_step o st : disciplined st → allowed o st → disciplined (run_op o st).

(** Every task has its own identifier, given out before. *)
Definition ids_ok (st : sched) : Prop :=
  0 < task_counter st < 2 ^ 64 ∧
  (∀ i, (1 <= i < TASK_MAX)%nat → state (task_at st i) ≠ TASK_STATE_EMPTY →
     0 < id (task_at st i) < task_counter st) ∧
  ∀ i j, (1 <= i < TASK_MAX)%nat → (1 <= j < TASK_MAX)%nat →
    state (task_at st i) ≠ TASK_STATE_EMPTY → state (task_at st j) ≠ TASK_STATE_EMPTY →
    id (task_at st i) = id (task_at st j) → i = j.

(** The current task, if any, is ready or running and in no queue. *)
Definition current_ok (st : sched) (qs : list (list nat)) : Prop :=
  current_task st = 0%nat ∨
  ((1 <= current_task st < TASK_MAX)%nat ∧ unqueued qs (current_task st) ∧
   (state (task_at st (current_task st)) = TASK_STATE_READY ∨
    state (task_at st (current_task st)) = TASK_STATE_RUNNING)).

Record sched_inv (st : sched) (qs : list (list nat)) : Prop := {
  si_repr : sched_repr st qs;
  si_prios : prios_ok st;
  si_ids : ids_ok st;
  si_current : current_ok st qs
}.

Lemma ids_ok_blocked st : ids_ok st → blocked_ids_distinct st.
Proof. intros (_ & _ & H) i j Hi Hj Hbi Hbj. apply H; auto; congruence. Qed.

(** Steps that change no identifier and empty or fill no slot. *)
Lemma ids_ok_frame st st' :
  task_counter st' = task_counter st →
  (∀ j, id (task_at st' j) = id (task_at st j) ∧
        (state (task_at st' j) = TASK_STATE_EMPTY ↔ state (task_at st j) = TASK_STATE_EMPTY)) →
  ids_ok st → ids_ok st'.
Proof.
  intros Hc Ht (H1 & H2 & H3). split_and!; rewrite ?Hc; try apply H1.
  - intros i Hi Hs. destruct (Ht i) as [-> He]. apply H2; tauto.
  - intros i j Hi Hj Hsi Hsj. destruct (Ht i) as [-> ?], (Ht j) as [-> ?]. apply H3; tauto.
Qed.

Lemma prios_ok_frame st st' :
  (∀ j, priority (task_at st' j) = priority (task_at st j)) → prios_ok st → prios_ok st'.
Proof. intros H Hp i. rewrite H. apply Hp. Qed.

Lemma inv_init addr sp : sched_inv (sched_init (sched_boot addr sp)) [[]; []; []].
Proof.
  assert (He : ∀ j, state (task_at (sched_init (sched_boot addr sp)) j) = TASK_STATE_EMPTY).
  { intros j. apply (Forall_total (λ t, state t = TASK_STATE_EMPTY)); [|done].
    simpl. by repeat constructor. }
  split.
  - split; [by split_and!|done|]. intros p q Hq.
    assert (q = []) as -> by (destruct p as [|[|[|p]]]; by simplify_eq/=).
    assert (Hz : head_of (sched_init (sched_boot addr sp)) p = 0%nat ∧
                 tail_of (sched_init (sched_boot addr sp)) p = 0%nat)
      by by destruct p as [|[|[|p]]].
    destruct Hz. split_and!; [done|done|done|apply NoDup_nil_2|].
    intros i Hi. by apply elem_of_nil in Hi.
  - apply prios_ok_check. vm_compute. reflexivity.
  - split_and!; [done|done| |]; intros i; intros; by rewrite He in *.
  - by left.
Qed.

Lemma inv_create st qs e p :
  sched_inv st qs → task_counter st < 2 ^ 64 - 1 →
  ∃ qs', sched_inv (snd (task_create_priority e p st)) qs'.
Proof.
  intros [R Hp Hids Hc] Hcnt. pose proof (sr_sized _ _ R) as Hs.
  destruct (decide (e = 0)) as [->|He].
  { exists qs. by split. }
  destruct (first_from (λ t, bool_decide (state t = TASK_STATE_EMPTY)) (drop 1 (tasks st)) 1)
    as [i|] eqn:E.
  2:{ exists qs. unfold task_create_priority. rewrite (proj2 (Z.eqb_neq _ _)) by done.
      rewrite E. by split. }
  apply scan_lowest_empty in E; [|done]. rewrite (create_eq st e p i) by done. simpl snd.
  destruct (create_repr st qs i e (clamp p) R E (clamp_le _)) as [R' Ht].
  destruct E as (Hi & Hei & _). set (st' := enqueue _ _ _) in *.
  assert (Hcnt' : task_counter st' = task_counter st + 1).
  { unfold st'. autorewrite with sched. simpl. apply u64_small. destruct Hids. lia. }
  assert (Hfld : ∀ j, if decide (i = j)
    then id (task_at st' j) = task_counter st ∧ state (task_at st' j) = TASK_STATE_READY ∧
         priority (task_at st' j) = clamp p
    else id (task_at st' j) = id (task_at st j) ∧ state (task_at st' j) = state (task_at st j) ∧
         priority (task_at st' j) = priority (task_at st j)).
  { intros j. specialize (Ht j). case_decide.
    - assert (E : unlinked (task_at st' j) = unlinked (fresh_task st i e (clamp p))) by done.
      by apply unlinked_fields in E as (-> & -> & _ & -> & _).
    - by apply unlinked_fields in Ht as (-> & -> & _ & -> & _). }
  exists (push (clamp p) i qs). split; [done| | |].
  - intros j. specialize (Hfld j). case_decide; destruct Hfld as (_ & _ & ->).
    + apply clamp_le. + apply Hp.
  - destruct Hids as (H1 & H2 & H3). split; [lia|]. rewrite Hcnt'. split.
    + intros j Hj. specialize (Hfld j). case_decide; destruct Hfld as (-> & -> & _); [lia|].
      intros Hne. specialize (H2 j Hj Hne). lia.
    + intros j k Hj Hk. pose proof (Hfld j) as Fj. pose proof (Hfld k) as Fk.
      destruct (decide (i = j)), (decide (i = k));
        destruct Fj as (-> & -> & _), Fk as (-> & -> & _); intros N1 N2 Eid; [congruence| | |auto].
      * specialize (H2 k Hk N2). lia.
      * specialize (H2 j Hj N1). lia.
  - unfold current_ok, st'. rewrite current_enqueue. simpl current_task. fold st'.
    destruct Hc as [Hc|(Hr & Hu & Hst)]; [by left|right].
    assert (Hne : i ≠ current_task st) by (intros ->; naive_solver congruence).
    split_and!; [lia|lia|by apply push_unqueued|].
    specialize (Hfld (current_task st)). rewrite decide_False in Hfld by done.
    by destruct Hfld as (_ & -> & _).
Qed.

(** The states of other tasks and the identifiers, through [unlinked]. *)
Lemma inv_wake st qs tid : sched_inv st qs → ∃ qs', sched_inv (task_wake tid st) qs'.
Proof.
  intros [R Hp Hids Hc]. pose proof (sr_sized _ _ R) as Hs. rewrite task_wake_scan.
  destruct (first_from _ _ _) as [i|] eqn:E; [|by exists qs].
  apply scan_Some in E as (Hi & Hb & _); [|done].
  apply andb_true_iff in Hb as [_ Hb%bool_decide_eq_true_1].
  assert (Hu : unqueued qs i) by (eapply unqueued_not_ready; [done|]; by rewrite Hb).
  pose proof (wake_slot_push st qs i R Hp Hi Hu) as R'.
  assert (Ht : ∀ j, id (task_at (wake_slot i st) j) = id (task_at st j) ∧
    priority (task_at (wake_slot i st) j) = priority (task_at st j) ∧
    state (task_at (wake_slot i st) j) =
      if decide (i = j) then TASK_STATE_READY else state (task_at st j)).
  { intros j. pose proof (wake_slot_task i st j Hs ltac:(lia)) as E. case_decide.
    - assert (E' : unlinked (task_at (wake_slot i st) j) = unlinked (woken (task_at st j))) by done.
      by apply unlinked_fields in E' as (-> & -> & _ & -> & _).
    - by apply unlinked_fields in E as (-> & -> & _ & -> & _). }
  exists (push (priority (task_at st i)) i qs). split; [done| | |].
  - apply (prios_ok_frame st); [|done]. intros j. apply Ht.
  - apply (ids_ok_frame st); [by unfold wake_slot; autorewrite with sched| |done].
    intros j. destruct (Ht j) as (-> & _ & ->). split; [done|]. case_decide; [|done].
    subst j. rewrite Hb. done.
  - unfold current_ok. assert (E : current_task (wake_slot i st) = current_task st)
      by (unfold wake_slot; by autorewrite with sched). rewrite E.
    destruct Hc as [Hc|(Hr & Hcu & Hst)]; [by left|right].
    assert (Hne : i ≠ current_task st) by (intros ->; destruct Hst; congruence).
    split_and!; [lia|lia|by apply push_unqueued|].
    destruct (Ht (current_task st)) as (_ & _ & ->). by rewrite decide_False.
Qed.

Lemma tick_queues_unexpired st0 visited qs i :
  unqueued qs i → expires (task_at st0 i) = false → unqueued (tick_queues st0 visited qs) i.
Proof.
  intros Hu Hx p q. rewrite tick_queues_lookup.
  destruct (qs !! p) as [q0|] eqn:E; simpl; [|done]. intros [= <-] Hin.
  apply elem_of_app in Hin as [Hin|Hin]; [by apply (Hu p q0)|].
  apply list_elem_of_filter in Hin as [[? _] _]. congruence.
Qed.

Lemma tick_frame st :
  current_task (sched_tick st) = current_task st ∧ task_counter (sched_tick st) = task_counter st.
Proof.
  unfold sched_tick. generalize (seq 1 (TASK_MAX - 1)) as l. intros l. revert st.
  induction l as [|i l IH]; intros st; simpl; [done|].
  destruct (IH (tick_slot st i)) as [-> ->]. unfold tick_slot.
  repeat case_match; try done. rewrite task_wake_scan. case_match; [|done].
  unfold wake_slot. by autorewrite with sched.
Qed.

Lemma inv_tick st qs : sched_inv st qs → ∃ qs', sched_inv (sched_tick st) qs'.
Proof.
  intros [R Hp Hids Hc]. pose proof (ids_ok_blocked _ Hids) as Hd.
  destruct (tick_effect st qs R Hp Hd) as [Hm R']. destruct (tick_frame st) as [Ec Et].
  eexists. split; [exact R'| | |].
  - apply tick_prios_ok; [apply R|done|done].
  - apply (ids_ok_frame st); [done| |done]. intros j. destruct Hm as [_ Hm].
    specialize (Hm j). apply unlinked_fields in Hm as (-> & -> & _).
    case_decide; [|done]. split; [apply ticked_id|].
    unfold ticked. destruct (bool_decide (state (task_at st j) = TASK_STATE_BLOCKED)) eqn:Eb; [|done].
    apply bool_decide_eq_true_1 in Eb. simpl. by repeat case_match; simpl; rewrite ?Eb.
  - unfold current_ok. rewrite Ec. destruct Hc as [Hc|(Hr & Hcu & Hst)]; [by left|right].
    assert (Hnb : state (task_at st (current_task st)) ≠ TASK_STATE_BLOCKED)
      by (destruct Hst; congruence).
    split; [done|]. split.
    + apply tick_queues_unexpired; [done|]. unfold expires. by rewrite bool_decide_false.
    + destruct Hm as [_ Hm]. specialize (Hm (current_task st)).
      apply unlinked_fields in Hm as (_ & -> & _). case_decide; [|done].
      unfold ticked. by rewrite bool_decide_false.
Qed.

(** The switching operations: the slot that becomes current comes off the
    queue of the old one's priority. *)
Lemma inv_switch st st' qs qs' p x q :
  sched_inv st qs → qs !! p = Some (x :: q) → sched_repr st' qs' →
  current_task st' = x → unqueued qs' x → task_counter st' = task_counter st →
  (∀ j, id (task_at st' j) = id (task_at st j) ∧
        priority (task_at st' j) = priority (task_at st j) ∧
        (state (task_at st' j) = TASK_STATE_EMPTY ↔ state (task_at st j) = TASK_STATE_EMPTY)) →
  (state (task_at st' x) = TASK_STATE_READY ∨ state (task_at st' x) = TASK_STATE_RUNNING) →
  sched_inv st' qs'.
Proof.
  intros [R Hp Hids Hc] Hq R' Hcur Hu Hcnt Ht Hx. split; [done| | |].
  - apply (prios_ok_frame st); [|done]. intros j. apply Ht.
  - apply (ids_ok_frame st); [done| |done]. intros j. destruct (Ht j) as (? & _ & ?). done.
  - right. rewrite Hcur. split_and!; try done.
    all: destruct (queued_ready _ _ _ _ x R Hq) as [? _]; [by left|lia].
Qed.

Lemma inv_yield st qs : sched_inv st qs → ∃ qs', sched_inv (task_yield st) qs'.
Proof.
  intros Hinv. pose proof Hinv as [R Hp Hids Hc].
  destruct (decide (scheduler_running st = false ∨ current_task st = 0%nat ∨
    head_of st (priority (task_at st (current_task st))) = 0%nat)) as [Hn|Hn].
  { exists qs. by rewrite yield_stays. }
  apply Decidable.not_or in Hn as [Hrun [Hc0 Hh]%Decidable.not_or].
  apply not_false_is_true in Hrun. destruct Hc as [?|(Hr & Hcu & Hst)]; [done|].
  set (c := current_task st) in *. set (p := priority (task_at st c)) in *.
  destruct (queue_exists _ _ p R (Hp c)) as [[|x q] Hq]; [by rewrite (head_zero st qs) in Hh|].
  destruct (yield_switches st qs x q R Hp Hrun ltac:(fold c; lia) Hq)
    as (H1 & _ & _ & H2 & R' & Ht). fold c p in R', Ht.
  assert (Hxc : c ≠ x) by (intros ->; apply (Hcu p (x :: q) Hq); by left).
  destruct (queued_ready _ _ _ _ x R Hq) as [_ Hxr]; [by left|].
  eexists. eapply (inv_switch st); [exact Hinv|exact Hq|exact R'|done| |done| |].
  - pose proof (pop_head_unqueued st qs p x q R Hq). case_decide; [|done].
    by apply push_unqueued.
  - intros j. specialize (Ht j).
    assert (Ht' : unlinked (task_at (task_yield st) j) =
      unlinked (if decide (c = j) then yielded (rsp st) (task_at st j) else task_at st j)).
    { rewrite Ht. unfold yielded. case_decide; [|done].
      simpl. by destruct (decide (state (task_at st j) = TASK_STATE_RUNNING)). }
    apply unlinked_fields in Ht' as (-> & -> & _ & -> & _). unfold yielded.
    case_decide; [subst j|done]. case_decide as Hs; [|done]. simpl. by rewrite Hs.
  - left. specialize (Ht x). rewrite decide_False in Ht by done.
    by apply unlinked_fields in Ht as (_ & -> & _).
Qed.

Lemma inv_sleep ms st qs :
  sched_inv st qs → head_of st (priority (task_at st (current_task st))) ≠ 0%nat →
  ∃ qs', sched_inv (task_sleep ms st) qs'.
Proof.
  intros Hinv Hh. pose proof Hinv as [R Hp Hids Hc].
  destruct (decide (scheduler_running st = false ∨ current_task st = 0%nat)) as [Hn|Hn].
  { exists qs. by rewrite sleep_inactive. }
  apply Decidable.not_or in Hn as [Hrun%not_false_is_true Hc0].
  destruct Hc as [?|(Hr & Hcu & Hst)]; [done|].
  set (c := current_task st) in *. set (p := priority (task_at st c)) in *.
  destruct (queue_exists _ _ p R (Hp c)) as [[|x q] Hq]; [by rewrite (head_zero st qs) in Hh|].
  destruct (sleep_switches ms st qs x q R Hrun ltac:(fold c; lia) Hcu Hq)
    as (H1 & _ & _ & H2 & R' & Ht). fold c p in R', Ht.
  assert (Hxc : c ≠ x) by (intros ->; apply (Hcu p (x :: q) Hq); by left).
  destruct (queued_ready _ _ _ _ x R Hq) as [_ Hxr]; [by left|].
  eexists. eapply (inv_switch st); [exact Hinv|exact Hq|exact R'|done| |done| |].
  - by eapply pop_head_unqueued.
  - intros j. rewrite Ht. case_decide; [subst j|done]. simpl.
    split_and!; [done|done|]. split; [done|]. intros E. destruct Hst; congruence.
  - left. rewrite Ht. by rewrite decide_False.
Qed.

Lemma filter_highest st qs p l :
  sched_repr st qs → filter (λ p, head_of st p ≠ 0%nat) start_order = p :: l →
  ∃ x q, highest_ready qs p x q.
Proof.
  intros R E.
  rewrite start_order_eq in E. rewrite !filter_cons in E.
  assert (Hz : ∀ r, (r <= 2)%nat → head_of st r = 0%nat → qs !! r = Some []).
  { intros r Hr H0. destruct (queue_exists _ _ r R Hr) as [q Hq].
    by rewrite (queue_at_nil_head _ _ _ (sr_at _ _ R r q Hq) H0) in Hq. }
  assert (Hnz : ∀ r, (r <= 2)%nat → head_of st r ≠ 0%nat → ∃ x q, qs !! r = Some (x :: q)).
  { intros r Hr H0. destruct (queue_exists _ _ r R Hr) as [[|x q] Hq]; [|by eexists _, _].
    by rewrite (head_zero st qs) in H0. }
  destruct (decide (head_of st 2 ≠ 0%nat)) as [N2|N2%dec_stable].
  { injection E as <- _. destruct (Hnz 2%nat ltac:(lia) N2) as (x & q & Hq).
    exists x, q. split; [done|]. unfold TASK_PRIORITY_MAX. lia. }
  destruct (decide (head_of st 1 ≠ 0%nat)) as [N1|N1%dec_stable].
  { injection E as <- _. destruct (Hnz 1%nat ltac:(lia) N1) as (x & q & Hq).
    exists x, q. split; [done|]. unfold TASK_PRIORITY_MAX. intros r Hr.
    assert (r = 2)%nat as -> by lia. by apply Hz; [lia|]. }
  destruct (decide (head_of st 0 ≠ 0%nat)) as [N0|]; [|done].
  injection E as <- _. destruct (Hnz 0%nat ltac:(lia) N0) as (x & q & Hq).
  exists x, q. split; [done|]. unfold TASK_PRIORITY_MAX. intros r Hr.
  assert (r = 1 ∨ r = 2)%nat as [-> | ->] by lia; by apply Hz; [lia|].
Qed.

Lemma inv_start st qs : sched_inv st qs → ∃ qs', sched_inv (snd (sched_start st)) qs'.
Proof.
  intros Hinv. pose proof Hinv as [R Hp Hids Hc].
  destruct (filter (λ p, head_of st p ≠ 0%nat) start_order) as [|p l] eqn:E.
  { exists qs. unfold sched_start. by rewrite E. }
  destruct (filter_highest _ _ _ _ R E) as (x & q & Hh). pose proof (start_runs st qs p x q R Hh) as Hs.
  destruct Hh as [Hq _]. destruct (sched_start st) as [e st'].
  destruct Hs as (_ & _ & H1 & _ & H2 & R' & Ht). simpl snd.
  destruct (queued_ready _ _ _ _ x R Hq) as [_ Hxr]; [by left|].
  eexists. eapply (inv_switch st); [exact Hinv|exact Hq|exact R'|done| |done| |].
  - by eapply pop_head_unqueued.
  - intros j. rewrite Ht. case_decide; [subst j|done]. simpl. by rewrite Hxr.
  - right. by rewrite Ht, decide_True.
Qed.

Lemma inv_step o st qs : sched_inv st qs → allowed o st → ∃ qs', sched_inv (run_op o st) qs'.
Proof.
  intros H Ha. destruct o; simpl in *; [by eapply inv_create|done|by eapply inv_yield|
    by eapply inv_sleep|by eapply inv_wake|by eapply inv_tick|by eapply inv_start].
Qed.

(** C3: in every state of a run that respects the use contract the ready
    queues are well formed: each is a duplicate-free list of ready tasks of
    its own priority, linked from head to tail, so that no task is queued
    twice; the current task is ready or running and in no queue; and all
    tasks have distinct identifiers below the counter. *)
Theorem disciplined_runs_keep_queues st :
  disciplined st → ∃ qs, sched_repr st qs ∧ ids_ok st ∧ current_ok st qs.
Proof.
  intros H. assert (∃ qs, sched_inv st qs) as [qs [R _ Hi Hc]]; [|by exists qs].
  induction H as [addr sp|o st _ [qs IH] Ha]; [eexists; apply inv_init|].
  by eapply inv_step.
Qed.

Lemma disciplined_runs_keep_queues_witness :
  let st := run_op (OpSleep 2) (run_op OpStart (run_op (OpCreate 8192 1)
    (run_op (OpCreate 4096 1) (sched_init (sched_boot 2097152 1048576))))) in
  ∃ qs, sched_repr st qs ∧ ids_ok st ∧ current_ok st qs.
Proof.
  apply disciplined_runs_keep_queues.
  apply disciplined_step; [|vm_compute; discriminate].
  apply disciplined_step; [|exact I].
  apply disciplined_step; [|vm_compute; reflexivity].
  apply disciplined_step; [|vm_compute; reflexivity].
  apply disciplined_init.
Defined.

(** ** Yielding loses tasks

    [task_yield] re-queues the outgoing task only if its state is [RUNNING],
    and never gives that state to the incoming one. *)

Lemma drained_step st qs x q :
  let c := current_task st in
  let p := priority (task_at st c) in
  sched_repr st qs → prios_ok st → scheduler_running st = true → (0 < c < TASK_MAX)%nat →
  state (task_at st c) ≠ TASK_STATE_RUNNING → qs !! p = Some (x :: q) →
  let st' := task_yield st in
  current_task st' = x ∧ scheduler_running st' = true ∧ sched_repr st' (<[p := q]> qs) ∧
  ∀ j, state (task_at st' j) = state (task_at st j) ∧
       priority (task_at st' j) = priority (task_at st j).
Proof.
  intros c p R Hp Hrun Hc Hs Hq st'.
  destruct (yield_switches st qs x q R Hp Hrun Hc Hq) as (H1 & H2 & _ & _ & R' & Ht).
  fold c p in R'. rewrite decide_False in R' by done.
  unfold pop in R'. rewrite (alter_as_insert _ _ _ _ Hq) in R'. simpl in R'. rewrite drop_0 in R'.
  split_and!; [done|done|done|]. unfold st'. intros j. specialize (Ht j). fold c in Ht. case_decide.
  - subst j. unfold yielded in Ht. rewrite decide_False in Ht by done.
    apply (unlinked_fields _ (set_stack_top (rsp st) (task_at st c))) in Ht
      as (_ & -> & _ & -> & _). done.
  - by apply unlinked_fields in Ht as (_ & -> & _ & -> & _).
Qed.

Lemma drained_iter q : ∀ st qs,
  let c := current_task st in
  let p := priority (task_at st c) in
  sched_repr st qs → prios_ok st → scheduler_running st = true → (0 < c < TASK_MAX)%nat →
  state (task_at st c) ≠ TASK_STATE_RUNNING → qs !! p = Some q →
  let st' := Nat.iter (length q) task_yield st in
  current_task st' = default 0%nat (list.last (c :: q)) ∧ scheduler_running st' = true ∧
  sched_repr st' (<[p := []]> qs) ∧
  ∀ j, state (task_at st' j) = state (task_at st j) ∧
       priority (task_at st' j) = priority (task_at st j).
Proof.
  induction q as [|x q IH]; intros st qs c p R Hp Hrun Hc Hs Hq; cbv zeta.
  { simpl. split_and!; [done|done| |done]. by rewrite list_insert_id. }
  destruct (drained_step st qs x q R Hp Hrun Hc Hs Hq) as (H1 & H2 & R' & Ht). fold c p in R'.
  simpl length. rewrite Nat.iter_succ_r.
  destruct (queued_ready _ _ _ _ x R Hq) as [Hx Hxr]; [by left|].
  pose proof (queued_prio _ _ _ _ x R Hq ltac:(by left)) as Hxp.
  assert (Ep : priority (task_at (task_yield st) (current_task (task_yield st))) = p).
  { rewrite H1. destruct (Ht x) as [_ ->]. done. }
  destruct (IH (task_yield st) (<[p := q]> qs)) as (J1 & J2 & J3 & J4); rewrite ?Ep, ?H1; try done.
  - apply (prios_ok_frame st); [|done]. intros j. apply Ht.
  - destruct (Ht x) as [-> _]. by rewrite Hxr.
  - apply list_lookup_insert_eq. by eapply lookup_lt_Some.
  - rewrite Ep, list_insert_insert_eq in J3. rewrite H1 in J1.
    split_and!; [by rewrite last_cons_cons|done|done|].
    intros j. destruct (J4 j) as [-> ->]. apply Ht.
Qed.

(** With an empty queue further yields change nothing. *)
Lemma yield_fixpoint st k : task_yield st = st → Nat.iter k task_yield st = st.
Proof. intros E. induction k as [|k IH]; simpl; [done|]. by rewrite IH. Qed.

(** The first yield of the round: the running task goes to the end. *)
Lemma running_step st qs x q :
  let c := current_task st in
  let p := priority (task_at st c) in
  sched_repr st qs → prios_ok st → scheduler_running st = true → (0 < c < TASK_MAX)%nat →
  state (task_at st c) = TASK_STATE_RUNNING → qs !! p = Some (x :: q) →
  let st' := task_yield st in
  current_task st' = x ∧ scheduler_running st' = true ∧ sched_repr st' (<[p := q ++ [c]]> qs) ∧
  (∀ j, priority (task_at st' j) = priority (task_at st j)) ∧
  ∀ j, state (task_at st j) = TASK_STATE_READY → state (task_at st' j) = TASK_STATE_READY.
Proof.
  intros c p R Hp Hrun Hc Hs Hq st'.
  destruct (yield_switches st qs x q R Hp Hrun Hc Hq) as (H1 & H2 & _ & _ & R1 & Ht).
  fold c p st' in R1, Ht. rewrite decide_True in R1 by done. split_and!; [done|done| | |].
  - assert (Hq1 : push p c (pop p qs) = <[p := q ++ [c]]> qs); [|by rewrite <-Hq1].
    unfold push, pop. rewrite (alter_as_insert (drop 1) _ _ _ Hq). simpl. rewrite drop_0.
    rewrite (alter_as_insert _ _ _ q); [by rewrite list_insert_insert_eq|].
    apply list_lookup_insert_eq. by eapply lookup_lt_Some.
  - intros j. specialize (Ht j). case_decide; [|by apply unlinked_fields in Ht as (_ & _ & _ & -> & _)].
    apply (f_equal priority) in Ht. simpl in Ht. rewrite Ht. unfold yielded. by case_decide.
  - intros j Hj. specialize (Ht j). rewrite decide_False in Ht by congruence.
    by apply unlinked_fields in Ht as (_ & -> & _).
Qed.

(** The rotation among tasks of equal priority happens once only.  When
    the running task [c] and the tasks [q] behind it all do nothing but
    yield, the processor comes back to [c] after one round, and from then on
    the queue is empty, [c] stays current through every further yield, and
    the tasks of [q] are ready but in no queue. *)
Theorem task_yield_runs_dry st qs c p q (n : nat) :
  sched_repr st qs → prios_ok st → scheduler_running st = true →
  c = current_task st → p = priority (task_at st c) → (0 < c < TASK_MAX)%nat →
  state (task_at st c) = TASK_STATE_RUNNING → qs !! p = Some q → q ≠ [] →
  (length q < n)%nat →
  current_task (Nat.iter n task_yield st) = c ∧
  sched_repr (Nat.iter n task_yield st) (<[p := []]> qs) ∧
  ∀ x, x ∈ q → state (task_at (Nat.iter n task_yield st) x) = TASK_STATE_READY ∧
    unqueued (<[p := []]> qs) x.
Proof.
  intros R Hp Hrun Ec Epr Hc Hs Hq Hne Hn. destruct q as [|x q]; [done|]. simpl in Hn.
  subst c p. set (c := current_task st) in *. set (p := priority (task_at st c)) in *.
  destruct (running_step st qs x q R Hp Hrun Hc Hs Hq) as (H1 & H2 & R1 & Hpr & Hst). fold c p in R1.
  destruct (queued_ready _ _ _ _ x R Hq) as [Hx Hxr]; [by left|].
  pose proof (queued_prio _ _ _ _ x R Hq ltac:(by left)) as Hxp.
  destruct (drained_iter (q ++ [c]) (task_yield st) (<[p := q ++ [c]]> qs)) as (J1 & J2 & J3 & J4);
    rewrite ?H1, ?Hpr, ?Hxp; try done.
  { by apply (prios_ok_frame st). }
  { by rewrite Hst. }
  { apply list_lookup_insert_eq. by eapply lookup_lt_Some. }
  rewrite H1, Hpr, Hxp, list_insert_insert_eq in J3.
  rewrite H1, app_comm_cons, last_snoc in J1. simpl default in J1.
  remember (S (S (length q))) as m eqn:Em.
  assert (Ei : Nat.iter (length (q ++ [c])) task_yield (task_yield st) = Nat.iter m task_yield st).
  { rewrite Em, length_app, Nat.add_1_r. by rewrite <-Nat.iter_succ_r. }
  rewrite Ei in J1, J3, J4.
  assert (E : Nat.iter n task_yield st = Nat.iter m task_yield st).
  { replace n with ((n - m) + m)%nat by lia. rewrite Nat.iter_add. apply yield_fixpoint, yield_stays.
    right. right. rewrite J1. destruct (J4 c) as [_ ->]. rewrite Hpr.
    apply (head_zero _ _ _ J3), list_lookup_insert_eq. by eapply lookup_lt_Some. }
  rewrite E. split_and!; [done|done|]. intros y Hy.
  destruct (queued_ready _ _ _ _ y R Hq Hy) as [_ Hyr]. split.
  - destruct (J4 y) as [-> _]. by apply Hst.
  - intros r qr. rewrite list_lookup_insert. destruct (decide (_ ∧ _)) as [_|Hr].
    + intros [= <-]. apply not_elem_of_nil.
    + intros Hqr Hyq. apply Hr. split; [|by eapply lookup_lt_Some].
      pose proof (queued_prio _ _ _ _ _ R Hq Hy). pose proof (queued_prio _ _ _ _ _ R Hqr Hyq).
      congruence.
Qed.

Lemma task_yield_runs_dry_witness :
  current_task (Nat.iter 10 task_yield demo_started) = 1%nat ∧
  sched_repr (Nat.iter 10 task_yield demo_started) [[]; []; []].
Proof.
  destruct (task_yield_runs_dry demo_started [[]; [2; 3]; []]%nat 1 1 [2; 3]%nat 10) as (H1 & H2 & _).
  - apply repr_check_sound. vm_compute. reflexivity.
  - apply prios_ok_check. vm_compute. reflexivity.
  - reflexivity.
  - reflexivity.
  - vm_compute. reflexivity.
  - unfold TASK_MAX. lia.
  - vm_compute. reflexivity.
  - vm_compute. reflexivity.
  - discriminate.
  - simpl. lia.
  - split; [exact H1|exact H2].
Defined.

(** ** Broken queues *)

(** A queue that starts with a slot linked to itself, or to a slot of another
    priority, represents nothing. *)
Lemma self_loop_not_repr st p x :
  (p <= TASK_PRIORITY_MAX)%nat → head_of st p = x → next (task_at st x) = x → x ≠ 0%nat →
  ¬ ∃ qs, sched_repr st qs.
Proof.
  intros Hp Hh Hn Hx [qs R]. destruct (queue_exists _ _ _ R Hp) as [q Hq].
  pose proof (sr_at _ _ R p q Hq) as (Hh' & _ & Hl & Hnd & _).
  destruct q as [|a [|b q]]; simpl in *; [congruence| |].
  - destruct Hl. congruence.
  - destruct Hl as [Ha _]. apply NoDup_cons in Hnd as [Hnd _]. apply Hnd.
    assert (b = a) as -> by congruence. by left.
Qed.

Lemma foreign_link_not_repr st p x y :
  (p <= TASK_PRIORITY_MAX)%nat → head_of st p = x → x ≠ 0%nat → next (task_at st x) = y →
  y ≠ 0%nat → priority (task_at st y) ≠ p → ¬ ∃ qs, sched_repr st qs.
Proof.
  intros Hp Hh Hx Hn Hy Hpy [qs R]. destruct (queue_exists _ _ _ R Hp) as [q Hq].
  pose proof (sr_at _ _ R p q Hq) as (Hh' & _ & Hl & _ & Hs).
  destruct q as [|a [|b q]]; simpl in *; [congruence| |].
  - destruct Hl. congruence.
  - destruct Hl as [Ha _]. assert (b = y) as -> by congruence.
    destruct (Hs y) as (_ & _ & ?); [right; by left|done].
Qed.

(** A task that sleeps while no other task of its priority is ready stays
    current although it is blocked; woken, it is queued while it runs, and
    when it sleeps and is woken again its slot is linked to itself: the ready
    queue of its priority becomes a cycle.  Two tasks that only sleep reach
    such a state. *)
Theorem sleeping_alone_links_a_cycle addr sp :
  let st := run_ops [OpCreate 4096 1; OpCreate 8192 1; OpStart; OpSleep 1; OpSleep 1; OpTick;
                     OpSleep 1; OpTick] (sched_init (sched_boot addr sp)) in
  reachable st ∧ head_of st 1 = 2%nat ∧ next (task_at st 2) = 2%nat ∧
  ¬ ∃ qs, sched_repr st qs.
Proof.
  intros st. assert (Hh : head_of st 1 = 2%nat) by (vm_compute; reflexivity).
  assert (Hn : next (task_at st 2) = 2%nat) by (vm_compute; reflexivity).
  split; [apply reachable_run, reachable_init|].
  split; [exact Hh|]. split; [exact Hn|].
  apply (self_loop_not_repr st 1 2); [unfold TASK_PRIORITY_MAX; lia|exact Hh|exact Hn|discriminate].
Qed.

(** The links that dequeued tasks keep mislead [task_set_priority].  In a
    state with well-formed queues, the ready task in slot 2 stands behind slot
    4, but the sleeping slot 1 still links to it: raising its priority unlinks
    it from slot 1 instead, so that it ends up both in the high-priority
    queue and behind slot 4 in the old one. *)
Theorem stale_link_breaks_set_priority addr sp :
  let st := run_ops [OpCreate 4096 1; OpCreate 8192 1; OpCreate 12288 1; OpStart; OpSleep 5;
                     OpSleep 5; OpCreate 16384 1; OpWake 2] (sched_init (sched_boot addr sp)) in
  let st' := task_set_priority 2 2 st in
  reachable st ∧ sched_repr st [[]; [4; 2]; []]%nat ∧
  head_of st' 2 = 2%nat ∧ head_of st' 1 = 4%nat ∧ next (task_at st' 4) = 2%nat ∧
  ¬ ∃ qs, sched_repr st' qs.
Proof.
  intros st st'. split; [apply reachable_run, reachable_init|].
  split; [apply repr_check_sound; vm_compute; reflexivity|].
  assert (Hh : head_of st' 1 = 4%nat) by (vm_compute; reflexivity).
  assert (Hn : next (task_at st' 4) = 2%nat) by (vm_compute; reflexivity).
  split; [vm_compute; reflexivity|]. split; [exact Hh|]. split; [exact Hn|].
  apply (foreign_link_not_repr st' 1 4 2); [unfold TASK_PRIORITY_MAX; lia|exact Hh|discriminate|
    exact Hn|discriminate|vm_compute; discriminate].
Qed.
