(* ===== verification/Ports.v ===== *)
(** * Port input and output

    The inline [inb] and [outb] of [console.c], [keyboard.c], [timer.c] and
    [idt.c].  What the devices answer is an argument of the code that reads
    it; what the code does on the ports is the trace of these events. *)

From S2P Require Import Prelude.

Inductive io : Type :=
  | In (port val : Z)
  | Out (port val : Z).

#[export] Instance io_eq_dec : EqDecision io.
Proof. solve_decision. Defined.

(** [outb(port, value)]: the value is converted to [uint8_t]. *)
Definition outb (port value : Z) : io := Out port (u8 value).

(** The writes of a trace to one port. *)
Definition written (port : Z) (tr : list io) : list Z :=
  omap (λ e, match e with Out p v => if p =? port then Some v else None | In _ _ => None end) tr.

Lemma written_app port tr1 tr2 : written port (tr1 ++ tr2) = written port tr1 ++ written port tr2.
Proof. apply omap_app. Qed.

(** The interrupt controllers: end-of-interrupt commands. *)
Definition PIC1 : Z := 32.
Definition PIC2 : Z := 160.
Definition EOI : Z := 32.
