(* ===== verification/Keyboard.v ===== *)
(** * Keyboard driver ([kernel/src/keyboard.c])

    The two translation tables, the modifier state and the ring buffer, the
    interrupt handler and the two readers.  [kbd_repr] relates the ring
    buffer to the queue of characters it holds. *)

From S2P Require Import Prelude Ports.
From Stdlib Require Import Ascii.

Definition KEYBOARD_DATA_PORT : Z := 96.
Definition KEYBOARD_STATUS_PORT : Z := 100.
Definition KEYBOARD_BUFFER_SIZE : nat := 256.

Definition KEY_NONE : Z := 0.
Definition KEY_LCTRL : Z := 29.
Definition KEY_LSHIFT : Z := 42.
Definition KEY_RSHIFT : Z := 54.
Definition KEY_LALT : Z := 56.
Definition KEY_CAPSLOCK : Z := 58.

(** A character constant of the source. *)
Definition chr (c : ascii) : Z := Z.of_nat (nat_of_ascii c).

(** A [char] array of 128 elements; missing initialisers are 0. *)
Definition table128 (l : list Z) : list Z := l ++ replicate (128 - length l) 0.

Definition NL : Z := 10.
Definition TAB : Z := 9.
Definition BS : Z := 8.

#[local] Open Scope char_scope.
Definition scancode_to_ascii : list Z := table128
  [0; 0; chr "1"; chr "2"; chr "3"; chr "4"; chr "5"; chr "6"; chr "7"; chr "8"; chr "9";
     chr "0"; chr "-"; chr "="; BS;
   TAB; chr "q"; chr "w"; chr "e"; chr "r"; chr "t"; chr "y"; chr "u"; chr "i"; chr "o";
     chr "p"; chr "["; chr "]"; NL;
   0; chr "a"; chr "s"; chr "d"; chr "f"; chr "g"; chr "h"; chr "j"; chr "k"; chr "l";
     chr ";"; chr "'"; chr "`";
   0; chr "\"; chr "z"; chr "x"; chr "c"; chr "v"; chr "b"; chr "n"; chr "m"; chr ",";
     chr "."; chr "/";
   0; chr "*"; 0; chr " "; 0; 0; 0; 0; 0; 0; 0; 0; 0; 0; 0; 0;
   0; 0; 0; 0; 0; 0; 0; chr "7"; chr "8"; chr "9"; chr "-"; chr "4"; chr "5"; chr "6"; chr "+";
   chr "1"; chr "2"; chr "3"; chr "0"; chr "."; 0; 0; 0; 0; 0; 0; 0; 0; 0; 0; 0;
   0; 0; 0; 0; 0; 0; 0; 0; 0; 0; 0; 0; 0; 0; 0; 0]%Z.

(** The double quote is written by its code. *)
Definition DQUOTE : Z := 34.
Definition scancode_to_ascii_shift : list Z := table128
  [0; 0; chr "!"; chr "@"; chr "#"; chr "$"; chr "%"; chr "^"; chr "&"; chr "*"; chr "(";
     chr ")"; chr "_"; chr "+";
   TAB; chr "Q"; chr "W"; chr "E"; chr "R"; chr "T"; chr "Y"; chr "U"; chr "I"; chr "O";
     chr "P"; chr "{"; chr "}"; NL;
   0; chr "A"; chr "S"; chr "D"; chr "F"; chr "G"; chr "H"; chr "J"; chr "K"; chr "L";
     chr ":"; DQUOTE; chr "~";
   0; chr "|"; chr "Z"; chr "X"; chr "C"; chr "V"; chr "B"; chr "N"; chr "M"; chr "<";
     chr ">"; chr "?";
   0; chr "*"; 0; chr " "; 0; 0; 0; 0; 0; 0; 0; 0; 0; 0; 0; 0;
   0; 0; 0; 0; 0; 0; 0; chr "7"; chr "8"; chr "9"; chr "-"; chr "4"; chr "5"; chr "6"; chr "+";
   chr "1"; chr "2"; chr "3"; chr "0"; chr "."; 0; 0; 0; 0; 0; 0; 0; 0; 0; 0; 0;
   0; 0; 0; 0; 0; 0; 0; 0; 0; 0; 0; 0; 0; 0; 0; 0]%Z.
#[local] Close Scope char_scope.

Record kbd : Type := mk_kbd {
  key_buffer : list Z;
  buffer_head : nat;
  buffer_tail : nat;
  shift_pressed : bool;
  caps_lock : bool;
  ctrl_pressed : bool;
  alt_pressed : bool
}.

Definition kbd0 : kbd :=
  mk_kbd (replicate KEYBOARD_BUFFER_SIZE 0) 0 0 false false false false.

(** [void keyboard_init(void)]: enables the first PS/2 port. *)
Definition keyboard_init : list io := [outb 100 174].

(** The [switch] on the key code. *)
Definition set_modifiers (code : Z) (released : bool) (k : kbd) : kbd :=
  let '(mk_kbd b h t s cl ct al) := k in
  if (code =? KEY_LSHIFT) || (code =? KEY_RSHIFT) then mk_kbd b h t (negb released) cl ct al
  else if code =? KEY_CAPSLOCK then mk_kbd b h t s (if released then cl else negb cl) ct al
  else if code =? KEY_LCTRL then mk_kbd b h t s cl (negb released) al
  else if code =? KEY_LALT then mk_kbd b h t s cl ct (negb released)
  else k.

Definition translate_key (code : Z) (k : kbd) : Z :=
  (if xorb k.(shift_pressed) k.(caps_lock) then scancode_to_ascii_shift else scancode_to_ascii)
    !!! Z.to_nat code.

(** The insertion into the ring buffer, dropped when it is full. *)
Definition buffer_put (c : Z) (k : kbd) : kbd :=
  let next := ((k.(buffer_tail) + 1) mod KEYBOARD_BUFFER_SIZE)%nat in
  if decide (next = k.(buffer_head)) then k else
  mk_kbd (<[k.(buffer_tail) := c]> k.(key_buffer)) k.(buffer_head) next
         k.(shift_pressed) k.(caps_lock) k.(ctrl_pressed) k.(alt_pressed).

(** [void keyboard_handler(void)]: [status] and [scancode] are what the two
    ports answer. *)
Definition keyboard_handler (status scancode : Z) (k : kbd) : kbd * list io :=
  let tr := [In KEYBOARD_STATUS_PORT status] in
  if (status .& 1) =? 0 then (k, tr) else
  let tr := tr ++ [In KEYBOARD_DATA_PORT scancode] in
  let released := negb ((scancode .& 128) =? 0) in
  let code := scancode .& 127 in
  let k1 := set_modifiers code released k in
  let k2 :=
    if negb released && (code <? 128) then
      let c := translate_key code k1 in
      if c =? 0 then k1 else buffer_put c k1
    else k1 in
  (k2, tr ++ [outb PIC1 EOI]).

Definition keyboard_has_key (k : kbd) : bool :=
  negb (bool_decide (k.(buffer_head) = k.(buffer_tail))).

Definition keyboard_get_key (k : kbd) : Z * kbd :=
  if decide (k.(buffer_head) = k.(buffer_tail)) then (KEY_NONE, k) else
  let key := k.(key_buffer) !!! k.(buffer_head) in
  (key, mk_kbd k.(key_buffer) ((k.(buffer_head) + 1) mod KEYBOARD_BUFFER_SIZE)%nat k.(buffer_tail)
               k.(shift_pressed) k.(caps_lock) k.(ctrl_pressed) k.(alt_pressed)).

(** ** The ring buffer as a queue *)

#[local] Arguments Nat.modulo : simpl never.

Record kbd_repr (k : kbd) (l : list Z) : Prop := {
  kr_size : length k.(key_buffer) = KEYBOARD_BUFFER_SIZE;
  kr_head : (k.(buffer_head) < KEYBOARD_BUFFER_SIZE)%nat;
  kr_tail : k.(buffer_tail) = ((k.(buffer_head) + length l) mod KEYBOARD_BUFFER_SIZE)%nat;
  kr_room : (length l < KEYBOARD_BUFFER_SIZE)%nat;
  kr_data : ∀ i c, l !! i = Some c →
    k.(key_buffer) !! ((k.(buffer_head) + i) mod KEYBOARD_BUFFER_SIZE)%nat = Some c
}.

(** Positions of the ring, without the division. *)
Lemma ring_pos (h i : nat) :
  (h < KEYBOARD_BUFFER_SIZE)%nat → (i <= KEYBOARD_BUFFER_SIZE)%nat →
  ((h + i) mod KEYBOARD_BUFFER_SIZE)%nat =
    if decide (h + i < KEYBOARD_BUFFER_SIZE)%nat then (h + i)%nat
    else (h + i - KEYBOARD_BUFFER_SIZE)%nat.
Proof.
  intros Hh Hi. case_decide; [by apply Nat.mod_small|].
  symmetry. apply (Nat.mod_unique _ _ 1); lia.
Qed.

Lemma ring_inj (h i j : nat) :
  (h < KEYBOARD_BUFFER_SIZE)%nat → (i < KEYBOARD_BUFFER_SIZE)%nat →
  (j < KEYBOARD_BUFFER_SIZE)%nat →
  ((h + i) mod KEYBOARD_BUFFER_SIZE = (h + j) mod KEYBOARD_BUFFER_SIZE)%nat → i = j.
Proof. intros Hh Hi Hj. rewrite !ring_pos by lia. repeat case_decide; lia. Qed.

Lemma ring_succ (h i : nat) :
  (((h + i) mod KEYBOARD_BUFFER_SIZE + 1) mod KEYBOARD_BUFFER_SIZE =
   (h + S i) mod KEYBOARD_BUFFER_SIZE)%nat.
Proof. rewrite Nat.Div0.add_mod_idemp_l. f_equal. lia. Qed.

Lemma kbd_repr_empty k l : kbd_repr k l → k.(buffer_head) = k.(buffer_tail) ↔ l = [].
Proof.
  intros [_ Hh Ht Hr _]. rewrite Ht. split.
  - intros E. destruct l as [|c l]; [done|]. exfalso.
    assert (0%nat = length (c :: l)); [|done].
    apply (ring_inj (buffer_head k)); [done|unfold KEYBOARD_BUFFER_SIZE; lia|done|].
    by rewrite <-E, Nat.add_0_r, Nat.mod_small.
  - intros ->. by rewrite Nat.add_0_r, Nat.mod_small.
Qed.

Lemma buffer_put_repr k l c :
  kbd_repr k l →
  kbd_repr (buffer_put c k) (l ++ if decide (S (length l) < KEYBOARD_BUFFER_SIZE)%nat then [c] else []).
Proof.
  intros R. pose proof R as [Hs Hh Ht Hr Hd]. unfold buffer_put.
  rewrite Ht, ring_succ. destruct (decide (S (length l) < KEYBOARD_BUFFER_SIZE)%nat) as [Hl|Hl].
  - rewrite decide_False.
    2:{ intros E. enough (S (length l) = 0%nat) by lia.
        apply (ring_inj (buffer_head k)); [done|lia|unfold KEYBOARD_BUFFER_SIZE; lia|].
        by rewrite Nat.add_0_r, (Nat.mod_small (buffer_head k)). }
    split; simpl; [by rewrite length_insert|done|by rewrite length_app, Nat.add_1_r|
      rewrite length_app; simpl; lia|].
    intros i x Hi. rewrite list_lookup_insert. apply lookup_app_Some in Hi as [Hi|[Hge Hi]].
    + pose proof (lookup_lt_Some _ _ _ Hi). rewrite decide_False; [by apply Hd|].
      intros [E _]. apply ring_inj in E; lia.
    + apply list_lookup_singleton_Some in Hi as [Hi <-].
      assert (i = length l) as -> by lia. rewrite decide_True; [done|]. split; [done|].
      rewrite Hs. by apply Nat.mod_upper_bound.
  - rewrite app_nil_r, decide_True; [done|].
    assert (S (length l) = KEYBOARD_BUFFER_SIZE) as -> by lia.
    rewrite ring_pos by lia. case_decide; lia.
Qed.

Lemma set_modifiers_repr code r k l : kbd_repr k l → kbd_repr (set_modifiers code r k) l.
Proof. destruct k. intros [? ? ? ? ?]. unfold set_modifiers. repeat case_match; by split. Qed.

(** What one interrupt adds to the queue. *)
Definition typed (status scancode : Z) (k : kbd) : option Z :=
  let code := scancode .& 127 in
  let c := translate_key code (set_modifiers code false k) in
  if negb ((status .& 1) =? 0) && ((scancode .& 128) =? 0) && negb (c =? 0) then Some c else None.

Lemma keyboard_handler_repr status scancode k l :
  kbd_repr k l →
  kbd_repr (keyboard_handler status scancode k).1
    (l ++ match typed status scancode k with
          | Some c => if decide (S (length l) < KEYBOARD_BUFFER_SIZE)%nat then [c] else []
          | None => []
          end).
Proof.
  intros R. unfold keyboard_handler, typed.
  destruct ((status .& 1) =? 0); simpl; [by rewrite app_nil_r|].
  destruct ((scancode .& 128) =? 0) eqn:Er; simpl.
  - assert (E : ((scancode .& 127) <? 128) = true).
    { apply Z.ltb_lt. change 127 with (Z.ones 7). rewrite Z.land_ones by lia.
      pose proof (Z.mod_pos_bound scancode (2 ^ 7)). lia. }
    rewrite E. destruct (translate_key _ _ =? 0); simpl.
    + rewrite app_nil_r. by apply set_modifiers_repr.
    + by apply buffer_put_repr, set_modifiers_repr.
  - rewrite app_nil_r. by apply set_modifiers_repr.
Qed.

Lemma keyboard_get_key_repr k l :
  kbd_repr k l →
  match l with
  | [] => keyboard_get_key k = (KEY_NONE, k)
  | c :: l' => ∃ k', keyboard_get_key k = (c, k') ∧ kbd_repr k' l'
  end.
Proof.
  intros R. pose proof (kbd_repr_empty k l R) as He. pose proof R as [Hs Hh Ht Hr Hd].
  unfold keyboard_get_key. destruct l as [|c l'].
  - by rewrite decide_True by tauto.
  - rewrite decide_False by (intros E; by apply He in E). simpl in *.
    assert (Hc : key_buffer k !!! buffer_head k = c).
    { apply list_lookup_total_correct. specialize (Hd 0%nat c eq_refl).
      by rewrite Nat.add_0_r, Nat.mod_small in Hd. }
    rewrite Hc. eexists. split; [done|]. split; simpl.
    + done.
    + by apply Nat.mod_upper_bound.
    + rewrite Ht, Nat.Div0.add_mod_idemp_l. by rewrite <-Nat.add_assoc.
    + lia.
    + intros i x Hi. rewrite Nat.Div0.add_mod_idemp_l.
      replace (buffer_head k + 1 + i)%nat with (buffer_head k + S i)%nat by lia. by apply Hd.
Qed.

(** ** Properties *)

(** C13: the ring buffer is a bounded queue of 255 characters.  [has_key]
    tests it for emptiness, [get_key] removes and returns the oldest
    character ([KEY_NONE] when there is none), and an interrupt appends the
    translation of a pressed key that has one, unless the queue is full, in
    which case the key is dropped; releases, keys without a translation and
    spurious interrupts leave the queue alone. *)
Theorem keyboard_ring_refines_queue k l status scancode :
  kbd_repr k l →
  (keyboard_has_key k = true ↔ l ≠ []) ∧
  match l with
  | [] => keyboard_get_key k = (KEY_NONE, k)
  | c :: l' => ∃ k', keyboard_get_key k = (c, k') ∧ kbd_repr k' l'
  end ∧
  kbd_repr (keyboard_handler status scancode k).1
    match typed status scancode k with
    | Some c => if decide (length l < 255)%nat then l ++ [c] else l
    | None => l
    end.
Proof.
  intros R. split_and!.
  - unfold keyboard_has_key. rewrite negb_true_iff, bool_decide_eq_false.
    by rewrite (kbd_repr_empty k l R).
  - by apply keyboard_get_key_repr.
  - pose proof (keyboard_handler_repr status scancode k l R) as H.
    destruct (typed _ _ _); [|by rewrite app_nil_r in H].
    destruct (decide (S (length l) < KEYBOARD_BUFFER_SIZE)%nat) as [Hl|Hl];
      unfold KEYBOARD_BUFFER_SIZE in Hl.
    + by rewrite decide_True by lia.
    + rewrite decide_False by lia. by rewrite app_nil_r in H.
Qed.

Lemma kbd0_repr : kbd_repr kbd0 [].
Proof. split; [done|vm_compute; lia|done|vm_compute; lia|done]. Qed.

Lemma keyboard_ring_refines_queue_witness :
  kbd_repr (keyboard_handler 1 30 kbd0).1 [97].
Proof.
  destruct (keyboard_ring_refines_queue kbd0 [] 1 30) as (_ & _ & H).
  - apply kbd0_repr.
  - exact H.
Defined.

(** The keys of a US keyboard that stand for characters: the code of
    [keyboard.h], the character without and with Shift.  [KEY_1] to
    [KEY_EQUAL]; then [KEY_TAB] to [KEY_SLASH] (without the modifiers), the
    asterisk of the keypad and [KEY_SPACE]; between them lies
    [KEY_BACKSPACE]. *)
Definition us_digits : list (Z * Z * Z) :=
  [(2, 49, 33); (3, 50, 64); (4, 51, 35); (5, 52, 36); (6, 53, 37); (7, 54, 94); (8, 55, 38);
   (9, 56, 42); (10, 57, 40); (11, 48, 41); (12, 45, 95); (13, 61, 43)].
Definition us_backspace : Z * Z * Z := (14, 8, 8).
Definition us_rest : list (Z * Z * Z) :=
  [(15, 9, 9);
   (16, 113, 81); (17, 119, 87); (18, 101, 69); (19, 114, 82); (20, 116, 84); (21, 121, 89);
   (22, 117, 85); (23, 105, 73); (24, 111, 79); (25, 112, 80); (26, 91, 123); (27, 93, 125);
   (28, 10, 10);
   (30, 97, 65); (31, 115, 83); (32, 100, 68); (33, 102, 70); (34, 103, 71); (35, 104, 72);
   (36, 106, 74); (37, 107, 75); (38, 108, 76); (39, 59, 58); (40, 39, 34); (41, 96, 126);
   (43, 92, 124); (44, 122, 90); (45, 120, 88); (46, 99, 67); (47, 118, 86); (48, 98, 66);
   (49, 110, 78); (50, 109, 77); (51, 44, 60); (52, 46, 62); (53, 47, 63); (55, 42, 42);
   (57, 32, 32)].

(** The keypad keys, [KEY_KP_7] to [KEY_KP_DOT]; Shift makes no difference. *)
Definition us_keypad : list (Z * Z * Z) :=
  [(71, 55, 55); (72, 56, 56); (73, 57, 57); (74, 45, 45); (75, 52, 52); (76, 53, 53);
   (77, 54, 54); (78, 43, 43); (79, 49, 49); (80, 50, 50); (81, 51, 51); (82, 48, 48);
   (83, 46, 46)].

(** The entry of a key in such a list, [(code, 0, 0)] for any other key. *)
Definition us_key (l : list (Z * Z * Z)) (code : Z) : Z * Z * Z :=
  default (code, 0, 0) (snd <$> list_find (λ e, e.1.1 = code) l).
Definition unshifted (e : Z * Z * Z) : Z := e.1.2.
Definition shifted (e : Z * Z * Z) : Z := e.2.

(** A property of all key codes, decided by evaluation. *)
Lemma all_codes (P : Z → bool) :
  forallb (λ n, P (Z.of_nat n)) (seq 0 128) = true → ∀ code, 0 <= code < 128 → P code = true.
Proof.
  rewrite forallb_forall. intros H code Hc. rewrite <-(Z2Nat.id code) by lia.
  apply H, in_seq. lia.
Qed.

(** C37: what each of the 128 key codes is translated to.  Without Shift,
    every key of the main block gives its character, Backspace (14) included,
    but the keypad characters sit six codes late.  With Shift, the digit row
    is right; the entry for Backspace is missing, so that from there on every
    code gives the shifted character of the next key, and no key gives a
    Backspace; the keypad characters sit five codes late.  No other code
    gives a character. *)
Theorem translation_tables k code :
  0 <= code < 128 →
  (shift_pressed k = caps_lock k →
     translate_key code k =
       if decide (code < 71) then unshifted (us_key (us_digits ++ us_backspace :: us_rest) code)
       else unshifted (us_key us_keypad (code - 6))) ∧
  (shift_pressed k ≠ caps_lock k →
     translate_key code k =
       (if decide (code < 14) then shifted (us_key us_digits code)
        else if decide (code < 71) then shifted (us_key us_rest (code + 1))
        else shifted (us_key us_keypad (code - 5))) ∧
     translate_key code k ≠ 8).
Proof.
  intros Hc. unfold translate_key. split.
  - intros ->. rewrite xorb_nilpotent. apply Z.eqb_eq. revert code Hc. apply all_codes.
    vm_compute. reflexivity.
  - intros Hx. assert (xorb (shift_pressed k) (caps_lock k) = true) as ->
      by (destruct (shift_pressed k), (caps_lock k); done).
    split; [apply Z.eqb_eq|apply (bool_decide_unpack _), Is_true_true]; revert code Hc;
      apply all_codes; vm_compute; reflexivity.
Qed.

Lemma translation_tables_witness :
  translate_key 14 kbd0 = 8 ∧ translate_key 30 kbd0 = 97 ∧
  translate_key 30 (set_modifiers KEY_LSHIFT false kbd0) = 83.
Proof.
  split; [|split].
  - destruct (translation_tables kbd0 14) as [H _]; [lia|]. apply H. reflexivity.
  - destruct (translation_tables kbd0 30) as [H _]; [lia|]. apply H. reflexivity.
  - destruct (translation_tables (set_modifiers KEY_LSHIFT false kbd0) 30) as [_ H]; [lia|].
    destruct H as [E _]; [discriminate|]. exact E.
Defined.
