(* ===== verification/Keycode.v ===== *)
(** * Key codes ([kernel/include/keyboard.h])

    The enumeration [keycode_t] of the keys and its numbering, and what
    [keyboard_get_key], which is declared to return it, really returns. *)

From S2P Require Import Prelude Ports Keyboard.

(** The names of the enumeration; [Keyboard] has those that the driver uses
    as numbers. *)
Module Key.
Inductive keycode_t : Type :=
  | KEY_NONE | KEY_ESC | KEY_1 | KEY_2 | KEY_3 | KEY_4 | KEY_5 | KEY_6 | KEY_7 | KEY_8 | KEY_9
  | KEY_0 | KEY_MINUS | KEY_EQUAL | KEY_BACKSPACE | KEY_TAB | KEY_Q | KEY_W | KEY_E | KEY_R
  | KEY_T | KEY_Y | KEY_U | KEY_I | KEY_O | KEY_P | KEY_LBRACKET | KEY_RBRACKET | KEY_ENTER
  | KEY_LCTRL | KEY_A | KEY_S | KEY_D | KEY_F | KEY_G | KEY_H | KEY_J | KEY_K | KEY_L
  | KEY_SEMICOLON | KEY_APOSTROPHE | KEY_GRAVE | KEY_LSHIFT | KEY_BACKSLASH | KEY_Z | KEY_X
  | KEY_C | KEY_V | KEY_B | KEY_N | KEY_M | KEY_COMMA | KEY_DOT | KEY_SLASH | KEY_RSHIFT
  | KEY_KP_ASTERISK | KEY_LALT | KEY_SPACE | KEY_CAPSLOCK | KEY_F1 | KEY_F2 | KEY_F3 | KEY_F4
  | KEY_F5 | KEY_F6 | KEY_F7 | KEY_F8 | KEY_F9 | KEY_F10 | KEY_NUMLOCK | KEY_SCROLLLOCK
  | KEY_KP_7 | KEY_KP_8 | KEY_KP_9 | KEY_KP_MINUS | KEY_KP_4 | KEY_KP_5 | KEY_KP_6
  | KEY_KP_PLUS | KEY_KP_1 | KEY_KP_2 | KEY_KP_3 | KEY_KP_0 | KEY_KP_DOT.

Definition keycode_value (k : keycode_t) : Z :=
  match k with
  | KEY_NONE => 0 | KEY_ESC => 1 | KEY_1 => 2 | KEY_2 => 3 | KEY_3 => 4 | KEY_4 => 5
  | KEY_5 => 6 | KEY_6 => 7 | KEY_7 => 8 | KEY_8 => 9 | KEY_9 => 10 | KEY_0 => 11
  | KEY_MINUS => 12 | KEY_EQUAL => 13 | KEY_BACKSPACE => 14 | KEY_TAB => 15 | KEY_Q => 16
  | KEY_W => 17 | KEY_E => 18 | KEY_R => 19 | KEY_T => 20 | KEY_Y => 21 | KEY_U => 22
  | KEY_I => 23 | KEY_O => 24 | KEY_P => 25 | KEY_LBRACKET => 26 | KEY_RBRACKET => 27
  | KEY_ENTER => 28 | KEY_LCTRL => 29 | KEY_A => 30 | KEY_S => 31 | KEY_D => 32 | KEY_F => 33
  | KEY_G => 34 | KEY_H => 35 | KEY_J => 36 | KEY_K => 37 | KEY_L => 38 | KEY_SEMICOLON => 39
  | KEY_APOSTROPHE => 40 | KEY_GRAVE => 41 | KEY_LSHIFT => 42 | KEY_BACKSLASH => 43
  | KEY_Z => 44 | KEY_X => 45 | KEY_C => 46 | KEY_V => 47 | KEY_B => 48 | KEY_N => 49
  | KEY_M => 50 | KEY_COMMA => 51 | KEY_DOT => 52 | KEY_SLASH => 53 | KEY_RSHIFT => 54
  | KEY_KP_ASTERISK => 55 | KEY_LALT => 56 | KEY_SPACE => 57 | KEY_CAPSLOCK => 58
  | KEY_F1 => 59 | KEY_F2 => 60 | KEY_F3 => 61 | KEY_F4 => 62 | KEY_F5 => 63 | KEY_F6 => 64
  | KEY_F7 => 65 | KEY_F8 => 66 | KEY_F9 => 67 | KEY_F10 => 68 | KEY_NUMLOCK => 69
  | KEY_SCROLLLOCK => 70 | KEY_KP_7 => 71 | KEY_KP_8 => 72 | KEY_KP_9 => 73
  | KEY_KP_MINUS => 74 | KEY_KP_4 => 75 | KEY_KP_5 => 76 | KEY_KP_6 => 77 | KEY_KP_PLUS => 78
  | KEY_KP_1 => 79 | KEY_KP_2 => 80 | KEY_KP_3 => 81 | KEY_KP_0 => 82 | KEY_KP_DOT => 83
  end.

(** The keys in the order of their codes. *)
Definition keycodes : list keycode_t :=
  [KEY_NONE; KEY_ESC; KEY_1; KEY_2; KEY_3; KEY_4; KEY_5; KEY_6; KEY_7; KEY_8; KEY_9; KEY_0;
   KEY_MINUS; KEY_EQUAL; KEY_BACKSPACE; KEY_TAB; KEY_Q; KEY_W; KEY_E; KEY_R; KEY_T; KEY_Y;
   KEY_U; KEY_I; KEY_O; KEY_P; KEY_LBRACKET; KEY_RBRACKET; KEY_ENTER; KEY_LCTRL; KEY_A; KEY_S;
   KEY_D; KEY_F; KEY_G; KEY_H; KEY_J; KEY_K; KEY_L; KEY_SEMICOLON; KEY_APOSTROPHE; KEY_GRAVE;
   KEY_LSHIFT; KEY_BACKSLASH; KEY_Z; KEY_X; KEY_C; KEY_V; KEY_B; KEY_N; KEY_M; KEY_COMMA;
   KEY_DOT; KEY_SLASH; KEY_RSHIFT; KEY_KP_ASTERISK; KEY_LALT; KEY_SPACE; KEY_CAPSLOCK; KEY_F1;
   KEY_F2; KEY_F3; KEY_F4; KEY_F5; KEY_F6; KEY_F7; KEY_F8; KEY_F9; KEY_F10; KEY_NUMLOCK;
   KEY_SCROLLLOCK; KEY_KP_7; KEY_KP_8; KEY_KP_9; KEY_KP_MINUS; KEY_KP_4; KEY_KP_5; KEY_KP_6;
   KEY_KP_PLUS; KEY_KP_1; KEY_KP_2; KEY_KP_3; KEY_KP_0; KEY_KP_DOT].
End Key.
Export Key (keycode_t, keycode_value, keycodes).

(** The key that a value of the enumeration denotes. *)
Definition keycode_of (z : Z) : option keycode_t :=
  if 0 <=? z then keycodes !! Z.to_nat z else None.

Lemma keycode_of_value k : keycode_of (keycode_value k) = Some k.
Proof. by destruct k. Qed.

#[export] Instance keycode_value_inj : Inj (=) (=) keycode_value.
Proof. intros k1 k2 E. pose proof (keycode_of_value k1). rewrite E, keycode_of_value in H. congruence. Qed.

#[export] Instance keycode_eq_dec : EqDecision keycode_t.
Proof.
  intros k1 k2. destruct (decide (keycode_value k1 = keycode_value k2)) as [E|E].
  - left. by apply (inj keycode_value).
  - right. by intros ->.
Defined.

Lemma keycode_of_Some z k : keycode_of z = Some k → keycode_value k = z.
Proof.
  unfold keycode_of. destruct (Z.leb_spec 0 z); [|done]. intros Hk.
  assert (HF : Forall (λ n, keycode_value <$> keycodes !! n = Some (Z.of_nat n)) (seq 0 84)) by
    (vm_compute; repeat constructor).
  pose proof (lookup_lt_Some _ _ _ Hk) as Hl. change (length keycodes) with 84%nat in Hl.
  rewrite Forall_forall in HF. specialize (HF (Z.to_nat z)). rewrite Hk in HF.
  rewrite Z2Nat.id in HF by done. cbn [fmap option_fmap option_map] in HF.
  apply Some_inj, HF. apply elem_of_seq. lia.
Qed.

(** The driver's numbers are those of the enumeration. *)
Lemma driver_codes :
  (KEY_NONE, KEY_LCTRL, KEY_LSHIFT, KEY_RSHIFT, KEY_LALT, KEY_CAPSLOCK) =
  (keycode_value Key.KEY_NONE, keycode_value Key.KEY_LCTRL, keycode_value Key.KEY_LSHIFT,
   keycode_value Key.KEY_RSHIFT, keycode_value Key.KEY_LALT, keycode_value Key.KEY_CAPSLOCK).
Proof. reflexivity. Qed.

(** ** The type of the keys *)

(** The codes of the characters in the translation tables. *)
Definition is_char (c : Z) : Prop := 8 <= c <= 126.

(** The ring buffer holds characters only. *)
Definition char_ring (k : kbd) : Prop := ∃ l, kbd_repr k l ∧ Forall is_char l.

(** Entry [n] of both tables: nothing, or a character whose code is not [n]. *)
Lemma tables_chars (n : nat) (b : bool) :
  (n < 128)%nat →
  let c := (if b then scancode_to_ascii_shift else scancode_to_ascii) !!! n in
  c = 0 ∨ is_char c ∧ c ≠ Z.of_nat n.
Proof.
  intros Hn. assert (HF : forallb (λ n, forallb (λ b : bool,
      let c := (if b then scancode_to_ascii_shift else scancode_to_ascii) !!! n in
      (c =? 0) || ((8 <=? c) && (c <=? 126) && negb (c =? Z.of_nat n))) [true; false]) (seq 0 128) = true)
    by (vm_compute; reflexivity).
  rewrite forallb_forall in HF. assert (Hin : List.In n (seq 0 128)) by (apply in_seq; lia).
  specialize (HF n Hin).
  rewrite forallb_forall in HF. specialize (HF b ltac:(destruct b; simpl; tauto)).
  cbv zeta in HF |- *. unfold is_char. set (c := _ !!! n) in *. clearbody c.
  apply orb_true_iff in HF as [H|[[H1 H2]%andb_true_iff H3]%andb_true_iff]; [left; lia|right].
  apply negb_true_iff, Z.eqb_neq in H3. lia.
Qed.

Lemma typed_char status scancode k c : typed status scancode k = Some c → is_char c ∧ c ≠ scancode .& 127.
Proof.
  unfold typed, translate_key. change 127 with (Z.ones 7). rewrite Z.land_ones by lia.
  pose proof (Z.mod_pos_bound scancode (2 ^ 7) ltac:(lia)) as Hb.
  destruct (_ && _ && _) eqn:E; [|done]. intros [= <-].
  apply andb_true_iff in E as [_ E]. apply negb_true_iff, Z.eqb_neq in E.
  match goal with |- context [xorb ?x ?y] =>
    destruct (tables_chars (Z.to_nat (scancode mod 2 ^ 7)) (xorb x y)) as [H|[H1 H2]]; [lia| |] end.
  - by rewrite H in E.
  - rewrite Z2Nat.id in H2 by lia. by split.
Qed.

(** C20: what [keyboard_get_key] returns is not a [keycode_t].  Handling an
    interrupt and reading a key keep a ring of characters, and a read gives
    [KEY_NONE] or a character with a code from 8 to 126.  In particular,
    pressing a key never makes the value of that key readable: whatever is
    queued for it denotes another key or none. *)
Theorem get_key_returns_characters k status scancode :
  char_ring k →
  char_ring (keyboard_handler status scancode k).1 ∧ char_ring (keyboard_get_key k).2 ∧
  ((keyboard_get_key k).1 = KEY_NONE ∨ is_char (keyboard_get_key k).1) ∧
  ∀ key k0 status' c, kbd_repr k0 [] → typed status' (keycode_value key) k0 = Some c →
    (keyboard_get_key (keyboard_handler status' (keycode_value key) k0).1).1 = c ∧
    keycode_of c ≠ Some key.
Proof.
  intros (l & R & Hl). pose proof (keyboard_get_key_repr k l R) as Hg. split_and!.
  - eexists. split; [by apply keyboard_handler_repr|]. apply Forall_app. split; [done|].
    destruct (typed status scancode k) as [c|] eqn:E; [|done].
    case_decide; [|done]. constructor; [|done]. by apply typed_char in E as [? _].
  - destruct l as [|c l]; [rewrite Hg; by exists []|]. destruct Hg as (k' & -> & R').
    apply Forall_cons_iff in Hl as [_ Hl]. by exists l.
  - destruct l as [|c l]; [rewrite Hg; by left|]. destruct Hg as (k' & -> & R').
    apply Forall_cons_iff in Hl as [Hc _]. by right.
  - intros key k0 status' c R0 E. split.
    + pose proof (keyboard_handler_repr status' (keycode_value key) k0 [] R0) as R1. rewrite E in R1.
      apply (keyboard_get_key_repr _ [c]) in R1 as (k' & -> & _). done.
    + intros Hk%keycode_of_Some. apply typed_char in E as [_ E]. apply E. rewrite <-Hk. by destruct key.
Qed.

Lemma get_key_returns_characters_witness :
  (keyboard_get_key (keyboard_handler 1 (keycode_value Key.KEY_1) kbd0).1).1 = keycode_value Key.KEY_N ∧
  keycode_of (keycode_value Key.KEY_N) ≠ Some Key.KEY_1.
Proof.
  destruct (get_key_returns_characters kbd0 1 2) as (_ & _ & _ & H).
  - exists []. split; [apply kbd0_repr|constructor].
  - apply (H Key.KEY_1 kbd0 1 49); [apply kbd0_repr|vm_compute; reflexivity].
Defined.
