(* ===== verification/Console.v ===== *)
(** * Serial console ([kernel/src/console.c])

    Output over the first serial port.  The line status register answers
    from a stream [lsr]; the transmitter is polled until it is empty, with
    fuel in the model, and the theorems show that the bound of the device's
    delay is enough fuel.  Strings are lists of bytes without the final zero. *)

From S2P Require Import Prelude Ports.

Definition COM1 : Z := 1016.
Definition CR : Z := 13.
Definition LF : Z := 10.

(** The state of the port: how often the status was read, what was sent. *)
Record uart : Type := mk_uart { polls : nat; sent : list Z }.

Section console.
Context (lsr : nat → Z).

(** [inb(COM1 + 5) & 0x20] at the [n]-th poll. *)
Definition serial_is_transmit_empty (n : nat) : bool := negb ((lsr n .& 32) =? 0).

Fixpoint serial_wait (fuel n : nat) : option nat :=
  match fuel with
  | O => None
  | S fuel => if serial_is_transmit_empty n then Some (S n) else serial_wait fuel (S n)
  end.

Definition serial_write_char (fuel : nat) (c : Z) (u : uart) : option uart :=
  n ← serial_wait fuel u.(polls);
  Some (mk_uart n (u.(sent) ++ [u8 c])).

Fixpoint console_write (fuel : nat) (s : list Z) (u : uart) : option uart :=
  match s with
  | [] => Some u
  | c :: s' =>
      u1 ← (if c =? LF then serial_write_char fuel CR u else Some u);
      u2 ← serial_write_char fuel c u1;
      console_write fuel s' u2
  end.

(** [digits[nibble & 0xF]] of the string of hexadecimal digits. *)
Definition digits : list Z :=
  [48; 49; 50; 51; 52; 53; 54; 55; 56; 57; 97; 98; 99; 100; 101; 102].

(** The buffer that [console_write_hex] fills, up to its final zero. *)
Definition hex_buf (value : Z) : list Z :=
  [48; 120] ++
  ((λ i : nat, digits !!! Z.to_nat ((Z.shiftr value (Z.of_nat i * 4) .& 15) .& 15))
     <$> rev (seq 0 16)).

Definition console_write_hex (fuel : nat) (value : Z) (u : uart) : option uart :=
  console_write fuel (hex_buf value) u.

(** The digit loop of [console_write_dec]: [buf] in the order it is filled,
    least significant digit first.  Twenty divisions end it for every
    [uint64_t]. *)
Fixpoint dec_loop (fuel : nat) (value : Z) : option (list Z) :=
  match fuel with
  | O => if 0 <? value then None else Some []
  | S fuel =>
      if 0 <? value then buf ← dec_loop fuel (value / 10); Some (48 + value mod 10 :: buf)
      else Some []
  end.

Definition DEC_FUEL : nat := 20.

Fixpoint serial_write_chars (fuel : nat) (l : list Z) (u : uart) : option uart :=
  match l with
  | [] => Some u
  | c :: l' => u' ← serial_write_char fuel c u; serial_write_chars fuel l' u'
  end.

Definition console_write_dec (fuel : nat) (value : Z) (u : uart) : option uart :=
  if value =? 0 then console_write fuel [48] u else
  buf ← dec_loop DEC_FUEL value;
  serial_write_chars fuel (rev buf) u.
End console.

(** [void console_init(void)]: divisor latch, 8N1, FIFO, modem control. *)
Definition console_init : list io :=
  [outb (COM1 + 1) 0; outb (COM1 + 3) 128; outb (COM1 + 0) 3; outb (COM1 + 1) 0;
   outb (COM1 + 3) 3; outb (COM1 + 2) 199; outb (COM1 + 4) 11].

(** ** The transmitter *)

(** The transmitter is empty again at the latest at the [B]-th poll. *)
Definition ready_within (B : nat) (lsr : nat → Z) : Prop :=
  ∀ n, ∃ d, (d < B)%nat ∧ serial_is_transmit_empty lsr (n + d) = true.

(** What is sent for a string: every newline is preceded by a return. *)
Definition crlf (s : list Z) : list Z :=
  mjoin ((λ c, if c =? LF then [CR; c] else [c]) <$> s).

Section transmit.
Context (lsr : nat → Z) (B : nat) (Hready : ready_within B lsr).

Lemma serial_wait_ready fuel d n :
  (d < fuel)%nat → serial_is_transmit_empty lsr (n + d) = true →
  ∃ n', serial_wait lsr fuel n = Some n'.
Proof.
  revert d n. induction fuel as [|fuel IH]; intros d n Hd Hr; [lia|]. simpl.
  destruct (serial_is_transmit_empty lsr n) eqn:E; [by eexists|].
  destruct d as [|d]; [by rewrite Nat.add_0_r, E in Hr|].
  apply (IH d); [lia|]. by rewrite <-Nat.add_succ_comm in Hr.
Qed.

Lemma serial_write_char_sends c u :
  ∃ n, serial_write_char lsr B c u = Some (mk_uart n (sent u ++ [u8 c])).
Proof.
  destruct (Hready (polls u)) as (d & Hd & Hr).
  destruct (serial_wait_ready B d (polls u) Hd Hr) as [n Hn].
  exists n. unfold serial_write_char. by rewrite Hn.
Qed.

Lemma console_write_sends s u :
  Forall (λ c, 0 <= c < 256) s →
  ∃ n, console_write lsr B s u = Some (mk_uart n (sent u ++ crlf s)).
Proof.
  revert u. induction s as [|c s IH]; intros u HF; simpl.
  { exists (polls u). unfold crlf; simpl. rewrite app_nil_r. by destruct u. }
  apply Forall_cons_iff in HF as [Hc HF]. unfold crlf in *; simpl.
  destruct (Z.eqb_spec c LF) as [->|Hne].
  - destruct (serial_write_char_sends CR u) as [n1 E1]. rewrite E1. simpl.
    destruct (serial_write_char_sends LF (mk_uart n1 (sent u ++ [u8 CR]))) as [n2 E2].
    rewrite E2. simpl. destruct (IH (mk_uart n2 ((sent u ++ [u8 CR]) ++ [u8 LF])) HF) as [n E].
    exists n. rewrite E. simpl. by rewrite <-!app_assoc.
  - simpl. destruct (serial_write_char_sends c u) as [n1 E1]. rewrite E1. simpl.
    destruct (IH (mk_uart n1 (sent u ++ [u8 c])) HF) as [n E].
    exists n. rewrite E. simpl. rewrite u8_small by done. by rewrite <-app_assoc.
Qed.

Lemma serial_write_chars_sends l u :
  Forall (λ c, 0 <= c < 256) l →
  ∃ n, serial_write_chars lsr B l u = Some (mk_uart n (sent u ++ l)).
Proof.
  revert u. induction l as [|c l IH]; intros u HF; simpl.
  { exists (polls u). rewrite app_nil_r. by destruct u. }
  apply Forall_cons_iff in HF as [Hc HF].
  destruct (serial_write_char_sends c u) as [n1 E1]. rewrite E1. simpl.
  destruct (IH (mk_uart n1 (sent u ++ [u8 c])) HF) as [n E].
  exists n. rewrite E. simpl. rewrite u8_small by done. by rewrite <-app_assoc.
Qed.
End transmit.

(** ** Number formats *)

(** The reference readers. *)
Definition digit_value (c : Z) : Z := if c <=? 57 then c - 48 else c - 87.
Definition read_digits (base : Z) (l : list Z) : Z :=
  foldl (λ acc c, acc * base + digit_value c) 0 l.

Definition nibble (v : Z) (i : nat) : Z := (Z.shiftr v (Z.of_nat i * 4) .& 15) .& 15.

Lemma nibble_div v i : 0 <= v → nibble v i = (v / 16 ^ Z.of_nat i) mod 16.
Proof.
  intros Hv. unfold nibble. change 15 with (Z.ones 4).
  rewrite <-Z.land_assoc, Z.land_diag, Z.land_ones, Z.shiftr_div_pow2 by lia.
  change (2 ^ 4) with 16. f_equal. f_equal. change 16 with (2 ^ 4).
  rewrite <-Z.pow_mul_r by lia. f_equal. lia.
Qed.

Lemma digits_value d : 0 <= d < 16 → digit_value (digits !!! Z.to_nat d) = d.
Proof.
  intros Hd. assert (HF : forallb (λ n, digit_value (digits !!! n) =? Z.of_nat n) (seq 0 16) = true)
    by reflexivity.
  rewrite forallb_forall in HF. specialize (HF (Z.to_nat d)).
  rewrite Z.eqb_eq in HF. rewrite HF; [lia|]. apply in_seq. lia.
Qed.

Lemma digits_range d : 0 <= digits !!! d < 256.
Proof.
  rewrite list_lookup_total_alt. destruct (digits !! d) as [c|] eqn:E; simpl; [|lia].
  assert (HF : Forall (λ c, 0 <= c < 256) digits) by (repeat constructor; lia).
  by eapply Forall_lookup_1 in HF.
Qed.

Lemma mod_pow_succ v b (n : nat) :
  0 < b → (v / b ^ Z.of_nat n) mod b * b ^ Z.of_nat n + v mod b ^ Z.of_nat n =
          v mod b ^ Z.of_nat (S n).
Proof.
  intros Hb. rewrite Nat2Z.inj_succ, Z.pow_succ_r by lia.
  rewrite (Z.mul_comm b), Z.rem_mul_r by (try apply Z.pow_nonzero; lia). lia.
Qed.

Lemma read_hex_nibbles v n a :
  0 <= v →
  foldl (λ acc c, acc * 16 + digit_value c) a
    ((λ i : nat, digits !!! Z.to_nat (nibble v i)) <$> rev (seq 0 n)) =
  a * 16 ^ Z.of_nat n + v mod 16 ^ Z.of_nat n.
Proof.
  intros Hv. revert a. induction n as [|n IH]; intros a.
  { simpl. rewrite Z.mod_1_r. lia. }
  rewrite seq_S, rev_app_distr. simpl. rewrite IH.
  rewrite digits_value by (rewrite nibble_div by done; apply Z.mod_pos_bound; lia).
  rewrite nibble_div by done. rewrite <-(mod_pow_succ v 16 n) by lia.
  rewrite Nat2Z.inj_succ, Z.pow_succ_r by lia. lia.
Qed.

Lemma hex_buf_eq v :
  hex_buf v = [48; 120] ++ ((λ i : nat, digits !!! Z.to_nat (nibble v i)) <$> rev (seq 0 16)).
Proof. reflexivity. Qed.

Lemma hex_buf_value v : 0 <= v < 2 ^ 64 → read_digits 16 (drop 2 (hex_buf v)) = v.
Proof.
  intros Hv. rewrite hex_buf_eq, (drop_app_length' [48; 120]) by done. unfold read_digits.
  rewrite read_hex_nibbles by lia. rewrite Z.mul_0_l, Z.add_0_l. apply Z.mod_small.
  change (16 ^ Z.of_nat 16) with (2 ^ 64). lia.
Qed.

Lemma hex_buf_shape v :
  length (hex_buf v) = 18%nat ∧ take 2 (hex_buf v) = [48; 120] ∧
  Forall (λ c, 0 <= c < 256 ∧ c ≠ LF) (hex_buf v).
Proof.
  split_and!; [done|done|]. unfold hex_buf. apply Forall_app. split.
  { repeat constructor; unfold LF; lia. }
  apply Forall_fmap, Forall_forall. intros i _. simpl.
  generalize (Z.to_nat ((Z.shiftr v (Z.of_nat i * 4) .& 15) .& 15)) as d. intros d.
  split; [apply digits_range|]. intros E.
  rewrite list_lookup_total_alt in E. destruct (digits !! d) as [c|] eqn:Ed; simpl in E.
  - assert (HF : Forall (λ c, c ≠ LF) digits) by (repeat constructor; unfold LF; lia).
    eapply Forall_lookup_1 in HF; [|done]. done.
  - unfold LF in E. done.
Qed.

Lemma crlf_plain s : Forall (λ c, c ≠ LF) s → crlf s = s.
Proof.
  induction 1 as [|c s Hc _ IH]; [done|].
  change (crlf (c :: s)) with ((if c =? LF then [CR; c] else [c]) ++ crlf s).
  rewrite IH. by rewrite (proj2 (Z.eqb_neq _ _)) by done.
Qed.

(** The digit loop. *)
Lemma dec_loop_total fuel v :
  0 <= v < 10 ^ Z.of_nat fuel →
  ∃ buf, dec_loop fuel v = Some buf ∧ (length buf <= fuel)%nat ∧
    read_digits 10 (rev buf) = v ∧ Forall (λ c, 48 <= c <= 57) buf ∧
    (0 < v → ∃ c l, rev buf = c :: l ∧ c ≠ 48).
Proof.
  revert v. induction fuel as [|fuel IH]; intros v Hv.
  { assert (v = 0) as -> by (simpl in Hv; lia). exists []. simpl. split_and!; try done; lia. }
  simpl. destruct (Z.ltb_spec 0 v) as [Hpos|Hz].
  2:{ assert (v = 0) as -> by lia. exists []. split_and!; try done; simpl; lia. }
  rewrite Nat2Z.inj_succ, Z.pow_succ_r in Hv by lia.
  destruct (IH (v / 10)) as (buf & E & Hlen & Hval & HF & Hlead).
  { split; [apply Z.div_pos; lia|]. apply Z.div_lt_upper_bound; lia. }
  pose proof (Z.mod_pos_bound v 10). pose proof (Z.div_mod v 10).
  rewrite E. simpl. eexists. split; [done|]. split_and!.
  - simpl. lia.
  - simpl. unfold read_digits in *. rewrite foldl_app, Hval. simpl.
    unfold digit_value. destruct (Z.leb_spec (48 + v mod 10) 57); lia.
  - constructor; [lia|done].
  - intros _. simpl. destruct (decide (0 < v / 10)) as [Hq|Hq].
    + destruct (Hlead Hq) as (c & l & -> & Hc). exists c. eexists. by split.
    + assert (v / 10 = 0) as Hq0 by (pose proof (Z.div_pos v 10); lia).
      assert (buf = []) as ->.
      { destruct fuel; simpl in E; rewrite Hq0 in E; by simplify_eq/=. }
      simpl. eexists _, _. split; [done|]. lia.
Qed.

(** ** Properties *)

(** C35: if the transmitter becomes empty within [B] polls, [console_write]
    returns and has sent the string with every newline turned into a return
    and a newline, in order, after what was sent before. *)
Theorem console_write_sends_crlf lsr B s u :
  ready_within B lsr → Forall (λ c, 0 <= c < 256) s →
  ∃ u', console_write lsr B s u = Some u' ∧ sent u' = sent u ++ crlf s.
Proof.
  intros Hr HF. destruct (console_write_sends lsr B Hr s u HF) as [n E].
  eexists. by rewrite E.
Qed.

(** The transmitter that is busy at every even poll. *)
Definition slow_lsr (n : nat) : Z := if Nat.even n then 0 else 96.

Lemma slow_lsr_ready : ready_within 2 slow_lsr.
Proof.
  intros n. unfold serial_is_transmit_empty, slow_lsr. destruct (Nat.even n) eqn:E.
  - exists 1%nat. split; [lia|]. rewrite Nat.add_1_r, Nat.even_succ, <-Nat.negb_even, E. done.
  - exists 0%nat. split; [lia|]. by rewrite Nat.add_0_r, E.
Qed.

Lemma console_write_sends_crlf_witness :
  ∃ u', console_write slow_lsr 2 [104; 105; 10] (mk_uart 0 []) = Some u' ∧
        sent u' = [104; 105; 13; 10].
Proof.
  destruct (console_write_sends_crlf slow_lsr 2 [104; 105; 10] (mk_uart 0 [])) as (u' & E & Hs).
  - apply slow_lsr_ready.
  - repeat constructor; lia.
  - exists u'. split; [exact E|exact Hs].
Defined.

(** C34: [console_write_hex] sends "0x" and the sixteen hexadecimal digits of
    its argument; [console_write_dec] sends its decimal digits, at most
    twenty and without leading zeros, so its buffer of 21 bytes is never
    exceeded.  Read back, the digits give the argument. *)
Theorem console_numbers_roundtrip lsr B value u :
  ready_within B lsr → 0 <= value < 2 ^ 64 →
  (∃ u' ds, console_write_hex lsr B value u = Some u' ∧ sent u' = sent u ++ [48; 120] ++ ds ∧
     length ds = 16%nat ∧ read_digits 16 ds = value) ∧
  (∃ u' ds, console_write_dec lsr B value u = Some u' ∧ sent u' = sent u ++ ds ∧
     (length ds <= 20)%nat ∧ read_digits 10 ds = value ∧
     (0 < value → ∃ c l, ds = c :: l ∧ c ≠ 48)).
Proof.
  intros Hr Hv. split.
  - destruct (hex_buf_shape value) as (Hlen & Htk & HF). unfold console_write_hex.
    destruct (console_write_sends lsr B Hr (hex_buf value) u) as [n E].
    { eapply Forall_impl; [exact HF|]. by intros c [? _]. }
    rewrite crlf_plain in E by (eapply Forall_impl; [exact HF|]; by intros c [_ ?]).
    eexists _, (drop 2 (hex_buf value)). split; [exact E|]. split_and!.
    + cbn [sent]. rewrite <-Htk. by rewrite take_drop.
    + by rewrite length_drop, Hlen.
    + by apply hex_buf_value.
  - unfold console_write_dec. destruct (Z.eqb_spec value 0) as [->|Hne].
    { destruct (console_write_sends lsr B Hr [48] u) as [n E]; [repeat constructor; lia|].
      eexists _, [48]. split; [exact E|]. split_and!; try done; simpl; lia. }
    destruct (dec_loop_total DEC_FUEL value) as (buf & E & Hlen & Hval & HF & Hlead).
    { split; [lia|]. apply Z.lt_trans with (2 ^ 64); [lia|]. reflexivity. }
    rewrite E. simpl. destruct (serial_write_chars_sends lsr B Hr (rev buf) u) as [n En].
    { apply Forall_forall. intros c Hc. rewrite Forall_forall in HF.
      assert (c ∈ buf) as Hin by (apply list_elem_of_In, in_rev, list_elem_of_In, Hc).
      apply HF in Hin. lia. }
    eexists _, (rev buf). split; [exact En|]. split_and!; try done.
    rewrite length_rev. exact Hlen.
Qed.

Lemma console_numbers_roundtrip_witness :
  ∃ u', console_write_dec slow_lsr 2 1000 (mk_uart 0 []) = Some u' ∧
        read_digits 10 (sent u') = 1000.
Proof.
  destruct (console_numbers_roundtrip slow_lsr 2 1000 (mk_uart 0 [])) as [_ (u' & ds & E & Hs & _ & Hv & _)].
  - apply slow_lsr_ready.
  - lia.
  - exists u'. split; [exact E|]. rewrite Hs. exact Hv.
Defined.
