(* ===== verification/Interrupts.v ===== *)
(** * Timer and interrupt dispatch

    [kernel/src/timer.c], [kernel/src/idt.c] and the part of
    [kernel/arch/x86_64/isr.asm] that lays out the stub tables and the
    register frame.  The scheduler and the keyboard are called as components
    of the machine state. *)

From Stdlib Require Import String.
From S2P Require Import Prelude Cstring Ports Sched SchedQueue SchedOps SchedPriority SchedSafety.
From S2P Require Import Keyboard Console.

(** ** Timer *)

Definition PIT_FREQUENCY : Z := 1193182.

(** The state that interrupts change. *)
Record machine : Type := mk_machine {
  m_sched : sched;
  m_kbd : kbd;
  tick_count : Z
}.

(** [void timer_init(uint32_t frequency)] *)
Definition timer_init (frequency : Z) : list io :=
  let frequency := if frequency =? 0 then 1000 else frequency in
  let divisor := u32 (PIT_FREQUENCY / frequency) in
  [outb 67 54; outb 64 (divisor .& 255); outb 64 (Z.shiftr divisor 8 .& 255)].

Definition timer_handler (m : machine) : machine :=
  mk_machine (task_yield (sched_tick m.(m_sched))) m.(m_kbd) (m.(tick_count) ⊞ 1).

Definition timer_ticks (m : machine) : Z := m.(tick_count).

(** ** Interrupt descriptor table *)

Definition IDT_ENTRIES : nat := 256.
Definition IRQ_TIMER : nat := 0.
Definition IRQ_KEYBOARD : nat := 1.

Record idt_entry_t : Type := mk_gate {
  offset_low : Z;
  selector : Z;
  ist : Z;
  type_attr : Z;
  offset_mid : Z;
  offset_high : Z;
  zero : Z
}.

Definition idt0 : list idt_entry_t := replicate IDT_ENTRIES (mk_gate 0 0 0 0 0 0 0).
#[export] Instance gate_inhabited : Inhabited idt_entry_t := populate (mk_gate 0 0 0 0 0 0 0).

Definition idt_set_gate (num : nat) (handler sel flags : Z) (idt : list idt_entry_t)
    : list idt_entry_t :=
  <[num := mk_gate (handler .& 65535) sel 0 flags (Z.shiftr handler 16 .& 65535)
                   (Z.shiftr handler 32 .& 4294967295) 0]> idt.

(** The initialisation of the two interrupt controllers. *)
Definition pic_remap : list io :=
  [outb 32 17; outb 160 17; outb 33 32; outb 161 40; outb 33 4; outb 161 2;
   outb 33 1; outb 161 1; outb 33 0; outb 161 0].

(** [void idt_init(void)].  [isr_words] are the 64-bit words in memory from
    [isr_stub_table] on; the loop reads 256 of them. *)
Definition idt_init (isr_words irq_stub_table : list Z) (idt : list idt_entry_t)
    : list idt_entry_t * list io :=
  let idt1 := foldl (λ idt i, idt_set_gate i (isr_words !!! i) 8 142 idt) idt
                    (seq 0 IDT_ENTRIES) in
  let idt2 := idt_set_gate (IRQ_TIMER + 32) (irq_stub_table !!! IRQ_TIMER) 8 142 idt1 in
  let idt3 := idt_set_gate (IRQ_KEYBOARD + 32) (irq_stub_table !!! IRQ_KEYBOARD) 8 142 idt2 in
  (idt3, pic_remap ++ timer_init 1000 ++ keyboard_init).

(** [isr.asm] places [irq_stub_table] (16 words) right behind
    [isr_stub_table] (32 words) in the data section; [behind] is what the
    linker puts after it. *)
Definition isr_words_of (isr irq behind : list Z) : list Z := isr ++ irq ++ behind.

(** ** Dispatch *)

(** The words from the stack pointer on when [irq_common] calls
    [irq_handler]: the registers it pushed, last one first, then the number
    and the zero pushed by the stub.  [saved] lists the fourteen registers in
    the order of the pushes, [rax] to [r15]. *)
Definition irq_frame (n : Z) (saved : list Z) : list Z := rev saved ++ [n; 0].

(** [void isr_handler(void *regs)]: what is sent before it halts for ever. *)
Definition isr_handler (lsr : nat → Z) (fuel : nat) (regs : list Z) (u : uart) : option uart :=
  u1 ← console_write lsr fuel (bytes "[isr] interrupt ") u;
  u2 ← console_write_hex lsr fuel (regs !!! 0%nat) u1;
  console_write lsr fuel [10] u2.

(** [void irq_handler(void *regs)]; [status] and [scancode] are what the
    keyboard ports answer if it is asked. *)
Definition irq_handler (regs : list Z) (status scancode : Z) (m : machine) : machine * list io :=
  let irq := regs !!! 0%nat in
  let '(m1, tr) :=
    if irq =? Z.of_nat IRQ_TIMER then (timer_handler m, [])
    else if irq =? Z.of_nat IRQ_KEYBOARD then
      let '(k, tr) := keyboard_handler status scancode m.(m_kbd) in
      (mk_machine m.(m_sched) k m.(tick_count), tr)
    else (m, []) in
  (m1, tr ++ [outb PIC1 EOI] ++ if 8 <=? irq then [outb PIC2 EOI] else []).

(** ** Properties *)

(** The address a gate leads to, as the processor reads it. *)
Definition gate_target (e : idt_entry_t) : Z :=
  e.(offset_low) .| Z.shiftl e.(offset_mid) 16 .| Z.shiftl e.(offset_high) 32.

Lemma gate_target_set h sel fl :
  0 <= h < 2 ^ 64 →
  gate_target (mk_gate (h .& 65535) sel 0 fl (Z.shiftr h 16 .& 65535)
                       (Z.shiftr h 32 .& 4294967295) 0) = h.
Proof.
  intros Hh. unfold gate_target; simpl. apply Z.bits_inj'. intros n Hn.
  change 65535 with (Z.ones 16). change 4294967295 with (Z.ones 32).
  rewrite !Z.lor_spec, !Z.shiftl_spec, (Z.land_spec h) by lia.
  assert (Hhi : 64 <= n → Z.testbit h n = false).
  { intros. destruct (decide (h = 0)) as [->|]; [apply Z.bits_0|]. apply Z.bits_above_log2; [lia|].
    assert (Z.log2 h < 64) by (apply Z.log2_lt_pow2; lia). lia. }
  destruct (decide (n < 16)) as [H1|H1].
  - rewrite (Z.ones_spec_low 16), (Z.testbit_neg_r _ (n - 16)), (Z.testbit_neg_r _ (n - 32)) by lia.
    by rewrite andb_true_r, !orb_false_r.
  - rewrite (Z.ones_spec_high 16 n) by lia. rewrite andb_false_r. simpl.
    destruct (decide (n < 32)) as [H2|H2].
    + rewrite Z.land_spec, Z.shiftr_spec, (Z.ones_spec_low 16), (Z.testbit_neg_r _ (n - 32)) by lia.
      rewrite andb_true_r, orb_false_r. f_equal. lia.
    + rewrite !Z.land_spec, !Z.shiftr_spec, (Z.ones_spec_high 16) by lia.
      rewrite andb_false_r. simpl. destruct (decide (n < 64)) as [H3|H3].
      * rewrite Z.ones_spec_low, andb_true_r by lia. f_equal. lia.
      * rewrite Z.ones_spec_high, andb_false_r by lia. by rewrite Hhi by lia.
Qed.

Lemma set_gates_lookup (f : nat → idt_entry_t) idt n j :
  (n <= length idt)%nat →
  foldl (λ idt i, <[i := f i]> idt) idt (seq 0 n) !! j =
    if decide (j < n)%nat then Some (f j) else idt !! j.
Proof.
  induction n as [|n IH]; intros Hn; [done|].
  rewrite seq_S, foldl_app. simpl. rewrite list_lookup_insert.
  assert (Hlen : ∀ l, length (foldl (λ idt i, <[i := f i]> idt) idt l) = length idt).
  { clear. intros l. revert idt. induction l as [|i l IH]; intros idt; simpl; [done|].
    by rewrite IH, length_insert. }
  rewrite Hlen, IH by lia.
  destruct (decide (n = j ∧ (n < length idt)%nat)) as [[<- _]|E].
  - by rewrite decide_True by lia.
  - destruct (decide (j < n)%nat), (decide (j < S n)%nat); try done; lia.
Qed.

(** C36: after [idt_init] the gates 0 to 31 lead to the exception stubs and
    the gates 32 to 47 to the interrupt stubs, all in the kernel code segment
    as interrupt gates; the remaining gates hold whatever words the linker
    placed behind the two tables, since the loop reads 256 words of a table
    of 32.  The controllers are remapped to the vectors 32 and 40. *)
Theorem idt_init_gates isr irq behind idt i h :
  length isr = 32%nat → length irq = 16%nat → length idt = IDT_ENTRIES →
  0 <= h < 2 ^ 64 →
  (isr ++ irq ++ behind) !! i = Some h → (i < IDT_ENTRIES)%nat →
  let '(idt', tr) := idt_init (isr_words_of isr irq behind) irq idt in
  gate_target (idt' !!! i) = h ∧ selector (idt' !!! i) = 8 ∧ type_attr (idt' !!! i) = 142 ∧
  ist (idt' !!! i) = 0 ∧
  take 2 (written 33 tr) = [32; 4] ∧ take 2 (written 161 tr) = [40; 2].
Proof.
  intros Hisr Hirq Hidt Hh Hi Hlt. unfold idt_init.
  set (f j := mk_gate ((isr_words_of isr irq behind !!! j) .& 65535) 8 0 142
    (Z.shiftr (isr_words_of isr irq behind !!! j) 16 .& 65535)
    (Z.shiftr (isr_words_of isr irq behind !!! j) 32 .& 4294967295) 0).
  change (foldl _ idt (seq 0 IDT_ENTRIES)) with
    (foldl (λ idt i, <[i := f i]> idt) idt (seq 0 IDT_ENTRIES)).
  assert (Hirqw : ∀ n, (n < 16)%nat → isr_words_of isr irq behind !!! (n + 32)%nat = irq !!! n).
  { intros n Hn. unfold isr_words_of. rewrite !list_lookup_total_alt.
    rewrite lookup_app_r by lia. rewrite Hisr. replace (n + 32 - 32)%nat with n by lia.
    by rewrite lookup_app_l by lia. }
  assert (E : idt_set_gate (IRQ_KEYBOARD + 32) (irq !!! IRQ_KEYBOARD) 8 142
     (idt_set_gate (IRQ_TIMER + 32) (irq !!! IRQ_TIMER) 8 142
       (foldl (λ idt i, <[i := f i]> idt) idt (seq 0 IDT_ENTRIES))) !!! i = f i).
  { apply list_lookup_total_correct. unfold idt_set_gate. rewrite !list_lookup_insert.
    rewrite set_gates_lookup, (decide_True (P := (i < IDT_ENTRIES)%nat)) by lia.
    destruct (decide (_ ∧ _)) as [[<- _]|_].
    { unfold f. rewrite Hirqw by (unfold IRQ_KEYBOARD; lia). done. }
    destruct (decide (_ ∧ _)) as [[<- _]|_]; [|done].
    unfold f. rewrite Hirqw by (unfold IRQ_TIMER; lia). done. }
  rewrite E. unfold f. rewrite (list_lookup_total_correct _ _ _ Hi). split_and!; try done.
  by apply gate_target_set.
Qed.

Lemma idt_init_gates_witness :
  let isr := (λ n, 4096 + 16 * Z.of_nat n) <$> seq 0 32 in
  let irq := (λ n, 8192 + 16 * Z.of_nat n) <$> seq 0 16 in
  gate_target ((idt_init (isr_words_of isr irq (replicate 208 0)) irq idt0).1 !!! 32%nat) = 8192.
Proof.
  intros isr irq.
  pose proof (idt_init_gates isr irq (replicate 208 0) idt0 32 8192 eq_refl eq_refl eq_refl
    ltac:(lia) eq_refl ltac:(unfold IDT_ENTRIES; lia)) as H.
  exact (proj1 H).
Defined.

(** The divisor that the timer chip receives: low byte first. *)
Definition programmed_divisor (tr : list io) : Z :=
  match written 64 tr with [lo; hi] => lo + 256 * hi | _ => 0 end.

Lemma bytes_of_divisor d :
  0 <= d < 2 ^ 32 → u8 (d .& 255) + 256 * u8 (Z.shiftr d 8 .& 255) = d mod 65536.
Proof.
  intros Hd. change 255 with (Z.ones 8). rewrite !Z.land_ones, Z.shiftr_div_pow2 by lia.
  unfold u8. rewrite !Z.mod_mod by lia. change (2 ^ 8) with 256.
  change 65536 with (256 * 256). rewrite (Z.rem_mul_r d 256 256) by lia. lia.
Qed.

(** For a frequency from 19 Hz to the input clock, [timer_init] programs
    the divisor that gives it, rounded down; a frequency of 0 stands for
    1000 Hz.  From 1 to 18 Hz the divisor does not fit the sixteen bits of the
    chip and is truncated to a different one. *)
Theorem timer_init_divisor f :
  0 <= f < 2 ^ 32 →
  let d := programmed_divisor (timer_init f) in
  (f = 0 → d = PIT_FREQUENCY / 1000) ∧
  (19 <= f <= PIT_FREQUENCY → d = PIT_FREQUENCY / f ∧ f * d <= PIT_FREQUENCY < f * (d + 1)) ∧
  (1 <= f <= 18 → d ≠ PIT_FREQUENCY / f ∧ d = (PIT_FREQUENCY / f) mod 65536).
Proof.
  intros Hf d.
  assert (Hd : f ≠ 0 → d = (PIT_FREQUENCY / f) mod 65536).
  { intros H0. unfold d, timer_init. rewrite (proj2 (Z.eqb_neq _ _)) by done.
    assert (Hr : 0 <= PIT_FREQUENCY / f < 2 ^ 32).
    { split; [apply Z.div_pos; unfold PIT_FREQUENCY; lia|].
      apply Z.div_lt_upper_bound; unfold PIT_FREQUENCY; lia. }
    rewrite u32_small by done. by apply bytes_of_divisor. }
  split_and!.
  - intros ->. reflexivity.
  - intros Hr. assert (Hq : 0 <= PIT_FREQUENCY / f < 65536).
    { split; [apply Z.div_pos; unfold PIT_FREQUENCY; lia|].
      apply Z.div_lt_upper_bound; unfold PIT_FREQUENCY; lia. }
    rewrite Hd, Z.mod_small by lia. split; [done|].
    pose proof (Z.div_mod PIT_FREQUENCY f). pose proof (Z.mod_pos_bound PIT_FREQUENCY f). lia.
  - intros Hr. rewrite Hd by lia. split; [|done].
    assert (Hq : 65536 <= PIT_FREQUENCY / f).
    { apply Z.div_le_lower_bound; unfold PIT_FREQUENCY; lia. }
    pose proof (Z.mod_pos_bound (PIT_FREQUENCY / f) 65536). lia.
Qed.

Lemma timer_init_divisor_witness : programmed_divisor (timer_init 1000) = 1193.
Proof.
  destruct (timer_init_divisor 1000) as (_ & H & _); [lia|].
  apply H. unfold PIT_FREQUENCY. lia.
Defined.

(** ** Timer interrupts and sleeping tasks *)

(** Yielding touches the current task only. *)
Lemma yield_other st qs j :
  sched_inv st qs → j ≠ current_task st →
  unlinked (task_at (task_yield st) j) = unlinked (task_at st j).
Proof.
  intros [R Hp Hids Hc] Hj.
  destruct (decide (scheduler_running st = false ∨ current_task st = 0%nat ∨
    head_of st (priority (task_at st (current_task st))) = 0%nat)) as [Hn|Hn].
  { by rewrite yield_stays. }
  apply Decidable.not_or in Hn as [Hrun%not_false_is_true [Hc0 Hh]%Decidable.not_or].
  destruct Hc as [?|(Hr & _)]; [done|].
  destruct (queue_exists _ _ _ R (Hp (current_task st))) as [[|x q] Hq];
    [by rewrite (head_zero st qs) in Hh|].
  destruct (yield_switches st qs x q R Hp Hrun ltac:(lia) Hq) as (_ & _ & _ & _ & _ & Ht).
  rewrite Ht. by rewrite decide_False by done.
Qed.

Definition sched_good (st : sched) : Prop := ∃ qs, sched_inv st qs.

Lemma timer_good st : sched_good st → sched_good (task_yield (sched_tick st)).
Proof. intros [qs H]. apply inv_tick in H as [qs' H]. by apply inv_yield in H. Qed.

(** One timer interrupt, seen by a blocked task. *)
Lemma timer_blocked st i :
  sched_good st → (1 <= i < TASK_MAX)%nat → state (task_at st i) = TASK_STATE_BLOCKED →
  unlinked (task_at (task_yield (sched_tick st)) i) = unlinked (ticked (task_at st i)).
Proof.
  intros [qs Hinv] Hi Hb. pose proof Hinv as [R Hp Hids Hc].
  assert (Ht : unlinked (task_at (sched_tick st) i) = unlinked (ticked (task_at st i))).
  { apply tick_task; [done|]. split_and!; [by eexists|done|by apply ids_ok_blocked]. }
  destruct (inv_tick _ _ Hinv) as [qs' Hinv']. rewrite (yield_other _ qs'); [done|done|].
  destruct (tick_frame st) as [-> _]. intros ->.
  destruct Hc as [Hc|(_ & _ & [Hs|Hs])]; [lia|congruence|congruence].
Qed.

Lemma timer_handler_sched m : m_sched (timer_handler m) = task_yield (sched_tick (m_sched m)).
Proof. reflexivity. Qed.

Lemma timer_countdown m i (n k : nat) :
  sched_good (m_sched m) → (1 <= i < TASK_MAX)%nat →
  state (task_at (m_sched m) i) = TASK_STATE_BLOCKED →
  wake_time (task_at (m_sched m) i) = Z.of_nat n → (k < n)%nat →
  let st := m_sched (Nat.iter k timer_handler m) in
  sched_good st ∧ state (task_at st i) = TASK_STATE_BLOCKED ∧
  wake_time (task_at st i) = Z.of_nat (n - k).
Proof.
  intros Hg Hi Hb Hw. induction k as [|k IH]; intros Hk st.
  { replace (n - 0)%nat with n by lia. exact (conj Hg (conj Hb Hw)). }
  destruct IH as (Hg' & Hb' & Hw'); [lia|]. unfold st.
  rewrite Nat.iter_succ, timer_handler_sched.
  split; [by apply timer_good|].
  pose proof (timer_blocked _ i Hg' Hi Hb') as E.
  apply unlinked_fields in E as (_ & -> & -> & _). unfold ticked.
  rewrite Hw', bool_decide_true by done. rewrite (proj2 (Z.ltb_lt _ _)) by lia.
  rewrite (proj2 (Z.eqb_neq _ _)) by lia. simpl. split; [done|lia].
Qed.

Lemma timer_handler_ticks m : tick_count (timer_handler m) = tick_count m ⊞ 1.
Proof. reflexivity. Qed.

Lemma ticks_iter m (n : nat) :
  tick_count (Nat.iter (S n) timer_handler m) = u64 (tick_count m + Z.of_nat (S n)).
Proof.
  induction n as [|n IH]; [apply timer_handler_ticks|].
  rewrite Nat.iter_succ, timer_handler_ticks, IH.
  unfold u64. rewrite Zplus_mod_idemp_l. f_equal. lia.
Qed.

(** ** Sequences of interrupts *)

(** One interrupt: its number, the registers it finds ([r15] last), and what
    the keyboard ports answer. *)
Record interrupt : Type := mk_interrupt {
  int_number : Z; int_saved : list Z; int_r15 : Z; int_status : Z; int_scancode : Z
}.

Definition handle_interrupt (m : machine) (e : interrupt) : machine :=
  (irq_handler (irq_frame (int_number e) (int_saved e ++ [int_r15 e]))
               (int_status e) (int_scancode e) m).1.

(** How many of them reach the timer handler. *)
Definition timer_count (es : list interrupt) : nat := length (filter (λ e, int_r15 e = 0) es).

Lemma handle_interrupt_sched m e :
  m_sched (handle_interrupt m e) = m_sched (if decide (int_r15 e = 0) then timer_handler m else m) ∧
  tick_count (handle_interrupt m e) = tick_count (if decide (int_r15 e = 0) then timer_handler m else m).
Proof.
  unfold handle_interrupt, irq_handler, irq_frame. rewrite rev_app_distr. simpl.
  change (Z.of_nat IRQ_TIMER) with 0. change (Z.of_nat IRQ_KEYBOARD) with 1.
  destruct (Z.eqb_spec (int_r15 e) 0) as [E|H0].
  { by rewrite decide_True. }
  rewrite decide_False by done. destruct (int_r15 e =? 1); [|done].
  by destruct (keyboard_handler _ _ _).
Qed.

(** A sequence of interrupts does to the scheduler and the tick counter what
    the handler does as often as it is reached. *)
Lemma interrupts_iterate m es :
  m_sched (foldl handle_interrupt m es) = m_sched (Nat.iter (timer_count es) timer_handler m) ∧
  tick_count (foldl handle_interrupt m es) = tick_count (Nat.iter (timer_count es) timer_handler m).
Proof.
  induction es as [|e es [IHs IHt]] using rev_ind; [done|].
  unfold timer_count in *. rewrite foldl_app, filter_app, length_app. cbn [foldl].
  destruct (handle_interrupt_sched (foldl handle_interrupt m es) e) as [-> ->].
  rewrite filter_cons, filter_nil. destruct (decide (int_r15 e = 0)).
  - cbn [length]. rewrite Nat.add_1_r, Nat.iter_succ, !timer_handler_sched, !timer_handler_ticks.
    by rewrite IHs, IHt.
  - cbn [length]. by rewrite Nat.add_0_r.
Qed.

(** C5: a task that went to sleep for [n > 0] ticks, under any sequence of
    interrupts (with no call of the scheduler in between).  Only those
    interrupts count that reach the timer handler, and these are the ones
    that find 0 in [r15], whatever their number: while fewer than [n] of them
    have come, the task stays blocked and its time has been counted down by
    as many; when exactly [n] have come it is ready.  The tick counter
    advances by the same number modulo [2^64], and the scheduler's invariant
    still holds.  The switches that the handler makes do not disturb the
    count. *)
Theorem timer_interrupts_wake_sleepers m i (n : nat) es :
  sched_good (m_sched m) → (1 <= i < TASK_MAX)%nat →
  state (task_at (m_sched m) i) = TASK_STATE_BLOCKED →
  wake_time (task_at (m_sched m) i) = Z.of_nat n → (0 < n)%nat → 0 <= tick_count m < 2 ^ 64 →
  let m' := foldl handle_interrupt m es in
  ((timer_count es < n)%nat → state (task_at (m_sched m') i) = TASK_STATE_BLOCKED ∧
     wake_time (task_at (m_sched m') i) = Z.of_nat (n - timer_count es)) ∧
  (timer_count es = n → state (task_at (m_sched m') i) = TASK_STATE_READY) ∧
  sched_good (m_sched m') ∧
  timer_ticks m' = u64 (tick_count m + Z.of_nat (timer_count es)).
Proof.
  intros Hg Hi Hb Hw Hn Ht m'. unfold timer_ticks, m'. destruct (interrupts_iterate m es) as [-> ->].
  set (k := timer_count es). split_and!.
  - intros Hk. by destruct (timer_countdown m i n k Hg Hi Hb Hw Hk) as (_ & ? & ?).
  - intros ->. destruct n as [|n]; [lia|]. destruct (timer_countdown m i (S n) n) as (Hg' & Hb' & Hw');
      [done|done|done|done|lia|]. rewrite Nat.iter_succ, timer_handler_sched.
    pose proof (timer_blocked _ i Hg' Hi Hb') as E.
    apply unlinked_fields in E as (_ & -> & _). unfold ticked.
    rewrite Hw', bool_decide_true by done. by replace (Z.of_nat (S n - n)) with 1 by lia.
  - clear -Hg. induction k as [|k IH]; [exact Hg|].
    rewrite Nat.iter_succ, timer_handler_sched. by apply timer_good.
  - destruct k as [|k]; [|apply ticks_iter]. simpl. by rewrite Z.add_0_r, u64_small.
Qed.

(** Two interrupts that find 0 in [r15], and one of the timer that does not. *)
Definition demo_interrupts : list interrupt :=
  [mk_interrupt 0 (replicate 13 7) 0 0 0; mk_interrupt 0 (replicate 13 7) 5 0 0;
   mk_interrupt 1 (replicate 13 7) 0 0 0].

Lemma timer_interrupts_wake_sleepers_witness :
  state (task_at (m_sched (foldl handle_interrupt (mk_machine demo_asleep kbd0 0) demo_interrupts)) 1)
    = TASK_STATE_READY.
Proof.
  apply (timer_interrupts_wake_sleepers (mk_machine demo_asleep kbd0 0) 1 2 demo_interrupts).
  - destruct (inv_init 2097152 1048576) as [R P J C].
    destruct (inv_create _ _ 4096 1 (Build_sched_inv _ _ R P J C)) as [q1 I1]; [vm_compute; reflexivity|].
    destruct (inv_create _ _ 8192 1 I1) as [q2 I2]; [vm_compute; reflexivity|].
    destruct (inv_create _ _ 12288 1 I2) as [q3 I3]; [vm_compute; reflexivity|].
    destruct (inv_start _ _ I3) as [q4 I4].
    apply (inv_sleep 2 _ _ I4). vm_compute. discriminate.
  - unfold TASK_MAX. lia.
  - vm_compute. reflexivity.
  - vm_compute. reflexivity.
  - lia.
  - simpl. lia.
  - reflexivity.
Defined.

(** The handler of the exceptions has the same frame ([isr_common] pushes what
    [irq_common] pushes): the number it prints is the interrupted [r15]. *)
Lemma isr_handler_prints_r15 lsr B n saved r15 u :
  ready_within B lsr →
  ∃ k, isr_handler lsr B (irq_frame n (saved ++ [r15])) u =
    Some (mk_uart k (sent u ++ bytes "[isr] interrupt " ++ hex_buf r15 ++ [CR; LF])).
Proof.
  intros Hr. unfold isr_handler, irq_frame. rewrite rev_app_distr.
  destruct (console_write_sends lsr B Hr (bytes "[isr] interrupt ") u) as [k1 ->].
  { apply (bool_decide_unpack _). vm_compute. exact I. }
  cbn [mbind option_bind app rev lookup_total list_lookup_total].
  destruct (hex_buf_shape r15) as (_ & _ & HF).
  destruct (console_write_sends lsr B Hr (hex_buf r15)
    (mk_uart k1 (sent u ++ crlf (bytes "[isr] interrupt ")))) as [k2 E2].
  { eapply Forall_impl; [exact HF|]. by intros c [? _]. }
  unfold console_write_hex. rewrite E2. cbn [mbind option_bind].
  match goal with |- context [console_write lsr B [10] ?v] =>
    destruct (console_write_sends lsr B Hr [10] v) as [k3 E3] end.
  { repeat constructor; lia. }
  rewrite E3. exists k3. cbn [sent]. rewrite <-!app_assoc.
  rewrite (crlf_plain (hex_buf r15)); [done|]. eapply Forall_impl; [exact HF|]. by intros c [_ ?].
Qed.

(** [irq_handler] takes the word at the stack pointer for the interrupt
    number, but [irq_common] pushes the registers after the number: the word
    is the interrupted [r15].  The number of the interrupt has no influence
    on what happens; a timer interrupt that arrives while [r15] is neither 0
    nor 1 is lost, one that arrives while it is 1 runs the keyboard handler,
    and any interrupt that arrives while it is 0 counts as a timer tick.  The
    first controller always gets its end-of-interrupt command. *)
Theorem irq_handler_dispatches_on_r15 n saved r15 status scancode m :
  let '(m', tr) := irq_handler (irq_frame n (saved ++ [r15])) status scancode m in
  (∀ n', irq_handler (irq_frame n' (saved ++ [r15])) status scancode m = (m', tr)) ∧
  (r15 = 0 → m' = timer_handler m) ∧
  (r15 = 1 → m_kbd m' = (keyboard_handler status scancode (m_kbd m)).1 ∧
             m_sched m' = m_sched m ∧ tick_count m' = tick_count m) ∧
  (r15 ≠ 0 → r15 ≠ 1 → m' = m) ∧
  EOI ∈ written PIC1 tr ∧ (EOI ∈ written PIC2 tr ↔ 8 <= r15).
Proof.
  unfold irq_handler, irq_frame. rewrite rev_app_distr.
  change (Z.of_nat IRQ_TIMER) with 0. change (Z.of_nat IRQ_KEYBOARD) with 1. simpl.
  assert (Hk : written PIC2 (keyboard_handler status scancode (m_kbd m)).2 = []).
  { unfold keyboard_handler. by case_match. }
  destruct (Z.eqb_spec r15 0) as [->|H0].
  { split_and!; try done; [by left|]. split; [|lia]. intros H. by apply elem_of_nil in H. }
  destruct (Z.eqb_spec r15 1) as [->|H1].
  - destruct (keyboard_handler status scancode (m_kbd m)) as [k tr] eqn:Ek. simpl in Hk |- *.
    split_and!; try done.
    + rewrite written_app. apply elem_of_app. right. by left.
    + rewrite written_app, Hk. split; [|lia]. intros H. by apply elem_of_nil in H.
  - split_and!; try done; [by left|]. destruct (Z.leb_spec 8 r15) as [Hle|Hlt].
    + split; [done|]. intros _. by left.
    + split; [|lia]. intros H. by apply elem_of_nil in H.
Qed.
