(* ===== verification/Ramdisk.v ===== *)
(** * Ramdisk lookup ([kernel/src/ramdisk.c])

    The ramdisk is a packed image in memory: a header, an array of entries
    and the file contents.  File names given by the caller are string
    literals, lists of non-zero bytes here. *)

From S2P Require Import Prelude Memory.

Definition RAMDISK_MAGIC : Z := 1145785682.

(** Field offsets of the packed [ramdisk_header_t] and [ramdisk_entry_t]. *)
Definition HEADER_SIZE : Z := 16.
Definition hdr_magic (m : memory) (h : Z) : Z := load32 m h.
Definition hdr_file_count (m : memory) (h : Z) : Z := load32 m (h + 4).
Definition hdr_total_size (m : memory) (h : Z) : Z := load64 m (h + 8).
Definition ENTRY_SIZE : Z := 84.
Definition ent_name (e : Z) : Z := e.
Definition ent_offset (m : memory) (e : Z) : Z := load64 m (e + 64).
Definition ent_size (m : memory) (e : Z) : Z := load64 m (e + 72).

(** [ramdisk_header] and [ramdisk_entries]; 0 is [NULL]. *)
Record ramdisk : Type := mk_rd { ramdisk_header : Z; ramdisk_entries : Z }.
Definition ramdisk0 : ramdisk := mk_rd 0 0.

(** [strcmp(a, s)] for a string [a] in memory and a literal [s]. *)
Fixpoint strcmp_mem (m : memory) (a : Z) (s : list Z) : Z :=
  match s with
  | [] => load8 m a
  | c :: s' =>
      if negb (load8 m a =? 0) && (load8 m a =? c) then strcmp_mem m (a + 1) s'
      else load8 m a - c
  end.

Definition ramdisk_init (m : memory) (ramdisk_data : Z) (rd : ramdisk) : ramdisk :=
  let rd1 := mk_rd ramdisk_data rd.(ramdisk_entries) in
  if hdr_magic m ramdisk_data =? RAMDISK_MAGIC
  then mk_rd ramdisk_data (ramdisk_data + HEADER_SIZE) else rd1.

(** The entry loop: [n] entries are left, [i] is the index. *)
Fixpoint find_loop (m : memory) (entries : Z) (name : list Z) (n : nat) (i : Z) : option Z :=
  match n with
  | O => None
  | S n' =>
      let entry := entries + i * ENTRY_SIZE in
      if strcmp_mem m (ent_name entry) name =? 0 then Some entry
      else find_loop m entries name n' (i + 1)
  end.

(** [void *ramdisk_find_file(const char *name, uint64_t *size)]: the pointer
    and, when a file was found, the size stored through [size]. *)
Definition ramdisk_find_file (m : memory) (name : list Z) (rd : ramdisk) : Z * option Z :=
  if (rd.(ramdisk_header) =? 0) || (rd.(ramdisk_entries) =? 0) then (0, None) else
  match find_loop m rd.(ramdisk_entries) name
          (Z.to_nat (hdr_file_count m rd.(ramdisk_header))) 0 with
  | Some entry => (rd.(ramdisk_header) ⊞ ent_offset m entry, Some (ent_size m entry))
  | None => (0, None)
  end.

(** [int ramdisk_load_file(...)]: the result and what is stored through
    [data] and [size]. *)
Definition ramdisk_load_file (m : memory) (name : list Z) (rd : ramdisk)
    : Z * option Z * option Z :=
  let '(file_data, size) := ramdisk_find_file m name rd in
  if file_data =? 0 then (-1, None, size) else (0, Some file_data, size).

(** ** Images *)

Record file : Type := mk_file { f_name : list Z; f_offset : Z; f_size : Z }.

Definition plain_name (s : list Z) : Prop := Forall (λ c, 0 < c < 256) s.

(** A terminated string at address [a]. *)
Definition name_at (m : memory) (a : Z) (s : list Z) : Prop :=
  plain_name s ∧ (∀ i c, s !! i = Some c → load8 m (a + Z.of_nat i) = c) ∧
  load8 m (a + Z.of_nat (length s)) = 0.

(** The memory at [base] holds a ramdisk image with these files. *)
Record image_at (m : memory) (base : Z) (fs : list file) : Prop := {
  ia_base : 0 < base;
  ia_magic : hdr_magic m base = RAMDISK_MAGIC;
  ia_count : hdr_file_count m base = Z.of_nat (length fs);
  ia_files : ∀ i f, fs !! i = Some f →
    let e := base + HEADER_SIZE + Z.of_nat i * ENTRY_SIZE in
    name_at m (ent_name e) f.(f_name) ∧ ent_offset m e = f.(f_offset) ∧ ent_size m e = f.(f_size)
}.

Lemma name_at_tail m a c s : name_at m a (c :: s) → name_at m (a + 1) s.
Proof.
  intros (Hp & Hs & He). apply Forall_cons_iff in Hp as [_ Hp]. split_and!; [done| |].
  - intros i x Hi. specialize (Hs (S i) x Hi). rewrite <-Hs. f_equal. lia.
  - rewrite <-He. f_equal. simpl. lia.
Qed.

(** [strcmp] decides equality of strings. *)
Lemma strcmp_mem_eq m a s t :
  name_at m a s → plain_name t → strcmp_mem m a t = 0 ↔ s = t.
Proof.
  revert a s. induction t as [|c t IH]; intros a s Hs Ht; simpl.
  - destruct s as [|x s].
    + destruct Hs as (_ & _ & He). simpl in He. by rewrite Z.add_0_r in He.
    + destruct Hs as (Hp & Hs & _). apply Forall_cons_iff in Hp as [Hx _].
      specialize (Hs 0%nat x eq_refl). rewrite Z.add_0_r in Hs. rewrite Hs. split; [lia|done].
  - apply Forall_cons_iff in Ht as [Hc Ht]. destruct s as [|x s].
    + destruct Hs as (_ & _ & He). simpl in He. rewrite Z.add_0_r in He. rewrite He. simpl.
      split; [lia|done].
    + pose proof Hs as (Hp & Hl & _). apply Forall_cons_iff in Hp as [Hx _].
      specialize (Hl 0%nat x eq_refl). rewrite Z.add_0_r in Hl. rewrite Hl.
      rewrite (proj2 (Z.eqb_neq x 0)) by lia. simpl. destruct (Z.eqb_spec x c) as [->|Hne].
      * rewrite (IH (a + 1) s) by (done || by eapply name_at_tail). naive_solver.
      * split; [lia|naive_solver].
Qed.

(** The first entry with the name, from index [k] on. *)
Lemma find_loop_spec m base fs name k n :
  image_at m base fs → plain_name name → (k + n = length fs)%nat →
  find_loop m (base + HEADER_SIZE) name n (Z.of_nat k) =
    (λ i, base + HEADER_SIZE + Z.of_nat i * ENTRY_SIZE) <$>
      first_from (λ f, bool_decide (f_name f = name)) (drop k fs) k.
Proof.
  intros Hi Hn. revert k. induction n as [|n IH]; intros k Hk; simpl.
  { by rewrite drop_ge by lia. }
  destruct (lookup_lt_is_Some_2 fs k) as [f Hf]; [lia|].
  rewrite (drop_S _ _ _ Hf). unfold first_from; fold (@first_from file).
  destruct (ia_files _ _ _ Hi k f Hf) as (Hname & _).
  pose proof (strcmp_mem_eq _ _ _ _ Hname Hn) as Hcmp.
  destruct (Z.eqb_spec (strcmp_mem m (ent_name (base + HEADER_SIZE + Z.of_nat k * ENTRY_SIZE)) name) 0)
    as [E|E].
  - by rewrite bool_decide_true by tauto.
  - rewrite bool_decide_false by tauto.
    replace (Z.of_nat k + 1) with (Z.of_nat (S k)) by lia. apply IH. lia.
Qed.

(** Loading from an image. *)
Lemma load_image m base fs name rd :
  plain_name name → image_at m base fs → Forall (λ f, base + f_offset f < 2 ^ 64) fs →
  ramdisk_load_file m name (ramdisk_init m base rd) =
    match first_from (λ f, bool_decide (f_name f = name)) fs 0 with
    | Some i => match fs !! i with
                | Some f => (0, Some (base + f_offset f), Some (f_size f))
                | None => (-1, None, None)
                end
    | None => (-1, None, None)
    end.
Proof.
  intros Hn Hi Hb. pose proof (ia_base _ _ _ Hi) as Hbase.
  unfold ramdisk_load_file, ramdisk_find_file, ramdisk_init.
  rewrite (ia_magic _ _ _ Hi), Z.eqb_refl. cbn [ramdisk_header ramdisk_entries].
  rewrite !(proj2 (Z.eqb_neq _ 0)) by (unfold HEADER_SIZE; lia). cbn [orb].
  rewrite (ia_count _ _ _ Hi), Nat2Z.id.
  pose proof (find_loop_spec m base fs name 0 (length fs) Hi Hn eq_refl) as Hfl.
  rewrite drop_0 in Hfl. change (Z.of_nat 0) with 0 in Hfl. rewrite Hfl.
  destruct (first_from _ fs 0) as [i|] eqn:E; [|done]. simpl.
  apply first_from_Some in E as (_ & (f & Hf & _) & _). rewrite Nat.sub_0_r in Hf.
  destruct (ia_files _ _ _ Hi i f Hf) as (_ & Hoff & Hsz). rewrite Hf, Hoff, Hsz.
  rewrite Forall_lookup in Hb. specialize (Hb i f Hf).
  assert (0 <= f_offset f) by (rewrite <-Hoff; apply load64_range).
  rewrite u64_small by lia. by rewrite (proj2 (Z.eqb_neq _ 0)) by lia.
Qed.

(** ** Properties *)

(** C33: on an image with the right magic number, loading by name gives the
    address and the size of the first file of that name, and -1 when there
    is none.  On an image with another magic number, every lookup after the
    first initialisation fails; but a later one keeps the entries of the
    image before, while the header already points to the new one. *)
Theorem ramdisk_load_refines m base fs name rd :
  plain_name name →
  (image_at m base fs → Forall (λ f, base + f_offset f < 2 ^ 64) fs →
     ramdisk_load_file m name (ramdisk_init m base rd) =
       match first_from (λ f, bool_decide (f_name f = name)) fs 0 with
       | Some i => match fs !! i with
                   | Some f => (0, Some (base + f_offset f), Some (f_size f))
                   | None => (-1, None, None)
                   end
       | None => (-1, None, None)
       end) ∧
  (hdr_magic m base ≠ RAMDISK_MAGIC →
     ramdisk_load_file m name (ramdisk_init m base ramdisk0) = (-1, None, None) ∧
     ramdisk_init m base rd = mk_rd base (ramdisk_entries rd)).
Proof.
  intros Hn. split; [by apply load_image|].
  intros Hm. unfold ramdisk_load_file, ramdisk_find_file, ramdisk_init.
  rewrite (proj2 (Z.eqb_neq (hdr_magic m base) RAMDISK_MAGIC)) by done. simpl. by rewrite orb_true_r.
Qed.

(** An image with the one file [a], of three bytes behind the entry. *)
Definition demo_image : memory :=
  mk_memory (list_to_map (imap (λ i c, (4096 + Z.of_nat i, c))
    ([82; 77; 75; 68; 1; 0; 0; 0] ++ replicate 8 0 ++ [97] ++ replicate 63 0 ++
     [100; 0; 0; 0; 0; 0; 0; 0] ++ [3; 0; 0; 0; 0; 0; 0; 0] ++ replicate 4 0 ++ [7; 8; 9])))
    (λ _, 0).

Lemma ramdisk_load_refines_witness :
  ramdisk_load_file demo_image [97] (ramdisk_init demo_image 4096 ramdisk0) =
    (0, Some 4196, Some 3).
Proof.
  destruct (ramdisk_load_refines demo_image 4096 [mk_file [97] 100 3] [97] ramdisk0) as [H _].
  - repeat constructor; lia.
  - apply H.
    + split; [lia|vm_compute; reflexivity|vm_compute; reflexivity|].
      intros [|i] f Hf; [|done]. injection Hf as <-.
      split; [|split; vm_compute; reflexivity].
      split; [repeat constructor; simpl; lia|]. split; [|vm_compute; reflexivity].
      intros [|i] c Hc; [|done]. injection Hc as <-. vm_compute. reflexivity.
    + repeat constructor.
Defined.
