(* ===== verification/Kstring.v ===== *)
(** * String functions over memory ([kernel/src/string.c], [servers/string.c])

    The loops of [strcmp] and [strlen] on addresses, next to the [memcpy] and
    [memset] of [Memory], and their agreement with the versions on arrays
    that the models of the servers use ([Cstring]) and with the comparison
    against a literal of [Ramdisk].  A string need not end, so both loops
    have fuel. *)

From S2P Require Import Prelude Memory Ramdisk Cstring.

(** [while ( *s1 && ( *s1 == *s2)) { s1++; s2++; }] and the difference. *)
Fixpoint strcmp (fuel : nat) (m : memory) (s1 s2 : Z) : option Z :=
  match fuel with
  | O => None
  | S fuel =>
      if negb (load8 m s1 =? 0) && (load8 m s1 =? load8 m s2) then strcmp fuel m (s1 + 1) (s2 + 1)
      else Some (load8 m s1 - load8 m s2)
  end.

(** [while ( *s++) len++;] *)
Fixpoint strlen_loop (fuel : nat) (m : memory) (s len : Z) : option Z :=
  match fuel with
  | O => None
  | S fuel => if load8 m s =? 0 then Some len else strlen_loop fuel m (s + 1) (len ⊞ 1)
  end.
Definition strlen (fuel : nat) (m : memory) (s : Z) : option Z := strlen_loop fuel m s 0.

(** ** Lemmas *)

Lemma strcmp_agrees m s t a b r :
  loaded m a s → loaded m b t → Cstring.strcmp s t = Ok r → strcmp (length s) m a b = Some r.
Proof.
  revert t a b. induction s as [|c s IH]; intros [|d t] a b Ha Hb; try done.
  apply loaded_cons in Ha as [Hc Ha], Hb as [Hd Hb].
  cbn [Cstring.strcmp strcmp length]. rewrite Hc, Hd.
  destruct (negb (c =? 0) && (c =? d)); [by apply IH|]. by intros [= <-].
Qed.

Lemma strlen_loop_agrees m s a n len :
  loaded m a s → Cstring.strlen s = Ok n → 0 <= len → len + Z.of_nat n < 2 ^ 64 →
  strlen_loop (length s) m a len = Some (len + Z.of_nat n).
Proof.
  revert a n len. induction s as [|c s IH]; intros a n len Ha Hn Hl Hb; [done|].
  apply loaded_cons in Ha as [Hc Ha]. cbn [Cstring.strlen strlen_loop length] in *. rewrite Hc.
  destruct (c =? 0); [injection Hn as <-; f_equal; lia|].
  destruct (Cstring.strlen s) as [k|] eqn:E; [|done]. injection Hn as <-.
  rewrite u64_small by lia. rewrite (IH _ k) by (done || lia). f_equal. lia.
Qed.

Lemma strcmp_literal m s t a r :
  loaded m a s → Cstring.strcmp s (t ++ [0]) = Ok r → strcmp_mem m a t = r.
Proof.
  revert s a. induction t as [|d t IH]; intros [|c s] a Ha Hr; try done.
  - apply loaded_cons in Ha as [Hc Ha]. cbn [app Cstring.strcmp strcmp_mem] in *. rewrite Hc.
    destruct (Z.eqb_spec c 0) as [->|Hne]; cbn [negb andb] in Hr; injection Hr as <-; lia.
  - apply loaded_cons in Ha as [Hc Ha]. cbn [app Cstring.strcmp strcmp_mem] in *. rewrite Hc.
    destruct (negb (c =? 0) && (c =? d)); [by apply (IH s)|]. by injection Hr.
Qed.

(** A range of a loaded list that is overwritten. *)
Lemma loaded_store m m' a (s bs : list Z) (off : nat) :
  loaded m a s → (off + length bs <= length s)%nat →
  loaded m' (a + Z.of_nat off) bs →
  (∀ x, ¬ (a + Z.of_nat off <= x < a + Z.of_nat off + Z.of_nat (length bs)) → load8 m' x = load8 m x) →
  loaded m' a (take off s ++ bs ++ drop (off + length bs) s).
Proof.
  intros Hs Hl Hb Hf.
  rewrite <-(take_drop off s), <-(take_drop (length bs) (drop off s)), drop_drop in Hs.
  apply loaded_app in Hs as [H1 Hs]. apply loaded_app in Hs as [_ H2].
  rewrite !length_take, length_drop in *.
  replace (off `min` length s)%nat with off in * by lia.
  replace (length bs `min` (length s - off))%nat with (length bs) in H2 by lia.
  apply loaded_app. rewrite length_take. replace (off `min` length s)%nat with off by lia.
  split; [|apply loaded_app; split; [exact Hb|]].
  - unfold loaded in *. rewrite <-H1 at 2. apply bytes_at_ext. intros i Hi. apply Hf.
    rewrite length_take in Hi. lia.
  - unfold loaded in *. rewrite <-H2 at 2. apply bytes_at_ext. intros i Hi. apply Hf. lia.
Qed.

Lemma store_bytes_loaded m m' a s off bs s' :
  loaded m a s → store_bytes s off bs = Ok s' →
  loaded m' (a + off) bs →
  (∀ x, ¬ (a + off <= x < a + off + Z.of_nat (length bs)) → load8 m' x = load8 m x) →
  loaded m' a s'.
Proof.
  intros Hs Hst Hb Hf. destruct bs as [|c bs].
  { injection Hst as <-. unfold loaded in *. rewrite <-Hs at 2. apply bytes_at_ext.
    intros i Hi. apply Hf. simpl. lia. }
  unfold store_bytes in Hst. destruct (_ && _) eqn:E; [|done].
  apply andb_true_iff in E as [H1%Z.leb_le H2%Z.leb_le]. injection Hst as <-.
  apply (loaded_store m m' a s (c :: bs)); rewrite ?Z2Nat.id by done; [exact Hs|lia|exact Hb|exact Hf].
Qed.

(** The bytes that are fetched, where they lie. *)
Lemma fetch_bytes_loaded m b t off n bs :
  loaded m b t → fetch_bytes t off n = Ok bs → 0 <= n →
  length bs = Z.to_nat n ∧ loaded m (b + off) bs.
Proof.
  intros Ht Hf Hn. unfold fetch_bytes in Hf. destruct (Z.eqb_spec n 0) as [->|Hne].
  { by injection Hf as <-. }
  destruct (_ && _) eqn:E; [|done]. apply andb_true_iff in E as [H1%Z.leb_le H2%Z.leb_le].
  injection Hf as <-. split; [rewrite length_take, length_drop; lia|].
  rewrite <-(take_drop (Z.to_nat off) t), <-(take_drop (Z.to_nat n) (drop (Z.to_nat off) t)) in Ht.
  apply loaded_app in Ht as [_ Ht]. apply loaded_app in Ht as [Ht _].
  rewrite length_take in Ht. replace (Z.of_nat (Z.to_nat off `min` length t)) with off in Ht by lia.
  exact Ht.
Qed.

Lemma memcpy_agrees m a b s t doff soff n s' :
  loaded m a s → loaded m b t →
  a + Z.of_nat (length s) <= b ∨ b + Z.of_nat (length t) <= a → 0 <= n →
  copy_bytes s doff t soff n = Ok s' → loaded (memcpy (Z.to_nat n) (a + doff) (b + soff) m) a s'.
Proof.
  intros Hs Ht Hd Hn Hc. unfold copy_bytes in Hc.
  destruct (fetch_bytes t soff n) as [bs|] eqn:Ef; [|done]. cbn [mbind outcome_bind] in Hc.
  destruct (fetch_bytes_loaded m b t soff n bs Ht Ef Hn) as [Hl Hb].
  assert (Hr : n = 0 ∨ 0 <= soff ∧ soff + n <= Z.of_nat (length t) ∧
               0 <= doff ∧ doff + n <= Z.of_nat (length s)).
  { destruct (Z.eqb_spec n 0) as [->|Hne]; [by left|right]. unfold fetch_bytes in Ef.
    rewrite (proj2 (Z.eqb_neq n 0) Hne) in Ef. destruct (_ && _) eqn:E; [|done].
    apply andb_true_iff in E as [H1%Z.leb_le H2%Z.leb_le].
    unfold store_bytes in Hc. destruct bs as [|c bs]; [simpl in Hl; lia|].
    destruct (_ && _) eqn:E; [|done]. apply andb_true_iff in E as [H3%Z.leb_le H4%Z.leb_le]. lia. }
  eapply store_bytes_loaded; [exact Hs|exact Hc| |].
  - unfold loaded in *. rewrite <-Hb at 2. apply bytes_at_ext. intros i Hi.
    rewrite load8_memcpy by lia. rewrite decide_True by lia. f_equal. lia.
  - intros x Hx. rewrite load8_memcpy by lia. by rewrite decide_False by lia.
Qed.

Lemma memset_agrees m a s off c n s' :
  loaded m a s → 0 <= n → fill_bytes s off c n = Ok s' →
  loaded (memset (Z.to_nat n) (a + off) c m) a s'.
Proof.
  intros Hs Hn Hf. unfold fill_bytes in Hf. destruct (Z.eqb_spec n 0) as [->|Hne].
  { by injection Hf as <-. }
  destruct (_ && _) eqn:E; [|done]. apply andb_true_iff in E as [H1%Z.leb_le H2%Z.leb_le].
  injection Hf as <-.
  replace (Z.to_nat off + Z.to_nat n)%nat with (Z.to_nat off + length (replicate (Z.to_nat n) (u8 c)))%nat
    by by rewrite length_replicate.
  apply (loaded_store m); rewrite ?length_replicate, ?Z2Nat.id by lia; [exact Hs|lia| |].
  - unfold loaded. rewrite length_replicate. apply list_eq. intros i. rewrite bytes_at_lookup.
    case_decide as Hi; [|by rewrite lookup_ge_None_2 by (rewrite length_replicate; lia)].
    rewrite lookup_replicate_2 by done. rewrite load8_memset. by rewrite decide_True by lia.
  - intros x Hx. rewrite load8_memset. by rewrite decide_False by lia.
Qed.

(** ** Properties *)

(** C19: the string functions on memory and those on arrays are the same
    functions.  For two arrays that lie in memory without overlapping,
    whenever a call on the arrays stays inside of them, the loop on memory
    ends within as many turns as the array has bytes and gives the same
    result; [memcpy] and [memset] leave the array with the contents computed
    for it; and the comparison with a literal of the ramdisk gives the same
    number. *)
Theorem string_functions_agree m a b s t :
  loaded m a s → loaded m b t → a + Z.of_nat (length s) <= b ∨ b + Z.of_nat (length t) <= a →
  (∀ r, Cstring.strcmp s t = Ok r → strcmp (length s) m a b = Some r) ∧
  (∀ n, Cstring.strlen s = Ok n → Z.of_nat n < 2 ^ 64 → strlen (length s) m a = Some (Z.of_nat n)) ∧
  (∀ doff soff n s', 0 <= n → copy_bytes s doff t soff n = Ok s' →
     loaded (memcpy (Z.to_nat n) (a + doff) (b + soff) m) a s') ∧
  (∀ off c n s', 0 <= n → fill_bytes s off c n = Ok s' →
     loaded (memset (Z.to_nat n) (a + off) c m) a s') ∧
  (∀ l r, t = l ++ [0] → Cstring.strcmp s t = Ok r → strcmp_mem m a l = r).
Proof.
  intros Hs Ht Hd. split_and!.
  - intros r. by apply strcmp_agrees.
  - intros n Hn Hb. unfold strlen. by rewrite (strlen_loop_agrees m s a n 0) by (done || lia).
  - intros doff soff n s' Hn. by apply memcpy_agrees with (t := t).
  - intros off c n s' Hn. by apply memset_agrees.
  - intros l r -> Hr. by apply (strcmp_literal m s l).
Qed.

(** The strings "ab" and "ac", sixteen bytes apart. *)
Definition demo_strings : memory :=
  mk_memory (list_to_map [(4096, 97); (4097, 98); (4098, 0); (4112, 97); (4113, 99); (4114, 0)]) (λ _, 0).

Lemma string_functions_agree_witness :
  strcmp 3 demo_strings 4096 4112 = Some (-1) ∧ strlen 3 demo_strings 4096 = Some 2 ∧
  loaded (memcpy 2 4097 4112 demo_strings) 4096 [97; 97; 99] ∧
  loaded (memset 1 4096 120 demo_strings) 4096 [120; 98; 0] ∧
  strcmp_mem demo_strings 4096 [97; 99] = -1.
Proof.
  destruct (string_functions_agree demo_strings 4096 4112 [97; 98; 0] [97; 99; 0])
    as (H1 & H2 & H3 & H4 & H5).
  - vm_compute. reflexivity.
  - vm_compute. reflexivity.
  - simpl. lia.
  - split; [apply H1; reflexivity|]. split; [apply (H2 2%nat); [reflexivity|lia]|].
    split; [apply (H3 1 0 2); [lia|reflexivity]|].
    split; [apply (H4 0 120 1); [lia|reflexivity]|]. apply H5; reflexivity.
Defined.
