(* ===== verification/Elf.v ===== *)
(** * Program loader ([kernel/src/elf.c])

    [elf_load] checks the header of an executable in memory and copies its
    loadable segments to their addresses.  The code is modelled against the
    allocator interface of [Heap]; it reads the headers through pointers, so
    the model reads them again from the current memory wherever the code
    does. *)

From S2P Require Import Prelude Memory Heap.

Definition ELF_CLASS_64 : Z := 2.
Definition ELF_DATA_LSB : Z := 1.
Definition ELF_TYPE_EXEC : Z := 2.
Definition ELF_MACHINE_X86_64 : Z := 62.
Definition ELF_PT_LOAD : Z := 1.

(** Fields of the packed [elf64_ehdr_t] at address [e]. *)
Definition e_ident (m : memory) (e : Z) (i : Z) : Z := load8 m (e + i).
Definition e_type (m : memory) (e : Z) : Z := load16 m (e + 16).
Definition e_machine (m : memory) (e : Z) : Z := load16 m (e + 18).
Definition e_entry (m : memory) (e : Z) : Z := load64 m (e + 24).
Definition e_phoff (m : memory) (e : Z) : Z := load64 m (e + 32).
Definition e_phnum (m : memory) (e : Z) : Z := load16 m (e + 56).
Definition EHDR_SIZE : Z := 64.

(** Fields of the packed [elf64_phdr_t] at address [p]. *)
Definition p_type (m : memory) (p : Z) : Z := load32 m p.
Definition p_offset (m : memory) (p : Z) : Z := load64 m (p + 8).
Definition p_vaddr (m : memory) (p : Z) : Z := load64 m (p + 16).
Definition p_filesz (m : memory) (p : Z) : Z := load64 m (p + 32).
Definition p_memsz (m : memory) (p : Z) : Z := load64 m (p + 40).
Definition PHDR_SIZE : Z := 56.

Section elf.
Context {S : Type} `{Allocator S}.

(** The five checks, in the order of the code. *)
Definition elf_header_ok (m : memory) (e : Z) : bool :=
  negb (negb (e_ident m e 0 =? 127) || negb (e_ident m e 1 =? 69) ||
        negb (e_ident m e 2 =? 76) || negb (e_ident m e 3 =? 70)) &&
  (e_ident m e 4 =? ELF_CLASS_64) && (e_ident m e 5 =? ELF_DATA_LSB) &&
  (e_machine m e =? ELF_MACHINE_X86_64) && (e_type m e =? ELF_TYPE_EXEC).

(** The loop body for a loadable segment with its header at [phdr]; the
    result of [mm_alloc] is not used. *)
Definition load_segment (elf phdr : Z) (s : S) : S :=
  let m := mem_of s in
  let dst := p_vaddr m phdr in
  let src := elf ⊞ p_offset m phdr in
  let s1 := (alloc (p_memsz m phdr) 4096 s).2 in
  let m1 := memcpy (Z.to_nat (p_filesz (mem_of s1) phdr)) dst src (mem_of s1) in
  let m2 :=
    if p_filesz m1 phdr <? p_memsz m1 phdr then
      memset (Z.to_nat (p_memsz m1 phdr - p_filesz m1 phdr)) (dst ⊞ p_filesz m1 phdr) 0 m1
    else m1 in
  set_mem m2 s1.

(** The loop over the program headers; [i] is a [uint16_t]. *)
Fixpoint elf_segments (fuel : nat) (elf phdrs i : Z) (s : S) : option S :=
  match fuel with
  | O => None
  | Datatypes.S fuel =>
      if i <? e_phnum (mem_of s) elf then
        let phdr := phdrs ⊞ i * PHDR_SIZE in
        let s1 := if p_type (mem_of s) phdr =? ELF_PT_LOAD then load_segment elf phdr s else s in
        elf_segments fuel elf phdrs (u16 (i + 1)) s1
      else Some s
  end.

(** [e_phnum] is at most 65535. *)
Definition ELF_FUEL : nat := Z.to_nat 65536.

(** [int elf_load(const void *elf_data, uint64_t *entry_point)]: the result,
    what is stored through [entry_point], and the state. *)
Definition elf_load (elf : Z) (s : S) : option (Z * option Z * S) :=
  let m := mem_of s in
  if elf_header_ok m elf then
    s' ← elf_segments ELF_FUEL elf (elf ⊞ e_phoff m elf) 0 s;
    Some (0, Some (e_entry m elf), s')
  else Some (-1, None, s).

(** [void *elf_load_segment(...)]: the address of the contents, and the
    virtual address stored through [vaddr]. *)
Definition elf_load_segment (m : memory) (elf phdr : Z) : Z * Z :=
  (elf ⊞ p_offset m phdr, p_vaddr m phdr).
End elf.

(** ** What loading means *)

Record segment : Type := mk_segment {
  seg_offset : Z; seg_vaddr : Z; seg_filesz : Z; seg_memsz : Z
}.

Definition read_segment (m : memory) (p : Z) : segment :=
  mk_segment (p_offset m p) (p_vaddr m p) (p_filesz m p) (p_memsz m p).

(** The loadable segments among the first [n] program headers, in order. *)
Definition loadable (m : memory) (elf : Z) (n : nat) : list segment :=
  (λ i, read_segment m (elf + e_phoff m elf + Z.of_nat i * PHDR_SIZE)) <$>
    filter (λ i, p_type m (elf + e_phoff m elf + Z.of_nat i * PHDR_SIZE) = ELF_PT_LOAD) (seq 0 n).

(** The byte at address [b] once the segments are in place: file contents,
    then zeros, for the last segment that covers [b]. *)
Definition overlay (m : memory) (elf : Z) (segs : list segment) (b : Z) : Z :=
  foldl (λ v sg, if decide (seg_vaddr sg <= b < seg_vaddr sg + seg_memsz sg)
                 then if decide (b < seg_vaddr sg + seg_filesz sg)
                      then load8 m (elf + seg_offset sg + (b - seg_vaddr sg)) else 0
                 else v) (load8 m b) segs.

(** The image of [len] bytes at [elf] is self-contained and its segments are
    loaded outside of it. *)
Record image_ok (m : memory) (elf len : Z) : Prop := {
  im_range : 0 <= elf ∧ elf + len < 2 ^ 64;
  im_headers : EHDR_SIZE <= len ∧ e_phoff m elf + e_phnum m elf * PHDR_SIZE <= len;
  im_segments : ∀ sg, sg ∈ loadable m elf (Z.to_nat (e_phnum m elf)) →
    seg_offset sg + seg_filesz sg <= len ∧
    0 <= seg_offset sg ∧ 0 <= seg_vaddr sg ∧ 0 <= seg_filesz sg <= seg_memsz sg ∧
    seg_memsz sg <= 2 ^ 32 ∧ seg_vaddr sg + seg_memsz sg < 2 ^ 64 ∧
    (seg_vaddr sg + seg_memsz sg <= elf ∨ elf + len <= seg_vaddr sg)
}.

Lemma load_le_agree n m m' a lo hi :
  (∀ b, lo <= b < hi → load8 m' b = load8 m b) → lo <= a → a + Z.of_nat n <= hi →
  load_le n m' a = load_le n m a.
Proof. intros Hag Hlo Hhi. apply load_le_ext. intros b Hb. apply Hag. lia. Qed.

(** Two memories that agree on the image have the same headers. *)
Definition agree (elf len : Z) (m m' : memory) : Prop :=
  ∀ b, elf <= b < elf + len → load8 m' b = load8 m b.

Lemma agree_segment elf len m m' p :
  agree elf len m m' → elf <= p → p + PHDR_SIZE <= elf + len →
  read_segment m' p = read_segment m p ∧ p_type m' p = p_type m p.
Proof.
  unfold PHDR_SIZE. intros Ha Hlo Hhi.
  assert (Hl : ∀ n a, elf <= a → a + Z.of_nat n <= elf + len → load_le n m' a = load_le n m a).
  { intros n a H1 H2. by apply (load_le_agree n m m' a elf (elf + len)). }
  unfold read_segment, p_offset, p_vaddr, p_filesz, p_memsz, p_type, load64, load32.
  rewrite !Hl by lia. done.
Qed.

Lemma agree_header elf len m m' :
  agree elf len m m' → EHDR_SIZE <= len →
  e_phnum m' elf = e_phnum m elf ∧ e_phoff m' elf = e_phoff m elf ∧ e_entry m' elf = e_entry m elf.
Proof.
  unfold EHDR_SIZE, e_phnum, e_phoff, e_entry, load16, load64. intros Ha Hl.
  assert (Hr : ∀ n a, elf <= a → a + Z.of_nat n <= elf + len → load_le n m' a = load_le n m a).
  { intros n a H1 H2. by apply (load_le_agree n m m' a elf (elf + len)). }
  rewrite !Hr by lia. done.
Qed.

Section loading.
Context {S : Type} `{AllocatorLaws S}.

Lemma pow2_page : pow2 4096.
Proof. exists 12. split; [lia|done]. Qed.

(** One segment. *)
Lemma load_segment_mem elf len p (s : S) :
  let sg := read_segment (mem_of s) p in
  alloc_inv s → 0 <= elf → elf + len < 2 ^ 64 → elf <= p → p + PHDR_SIZE <= elf + len →
  seg_offset sg + seg_filesz sg <= len → 0 <= seg_offset sg → 0 <= seg_vaddr sg →
  0 <= seg_filesz sg <= seg_memsz sg → seg_memsz sg <= 2 ^ 32 →
  seg_vaddr sg + seg_memsz sg < 2 ^ 64 →
  seg_vaddr sg + seg_memsz sg <= elf ∨ elf + len <= seg_vaddr sg →
  alloc_inv (load_segment elf p s) ∧
  (∀ b, load8 (mem_of (load_segment elf p s)) b =
    if decide (seg_vaddr sg <= b < seg_vaddr sg + seg_memsz sg)
    then if decide (b < seg_vaddr sg + seg_filesz sg)
         then load8 (mem_of s) (elf + seg_offset sg + (b - seg_vaddr sg)) else 0
    else load8 (mem_of s) b).
Proof.
  intros sg Hinv He1 He2 Hp1 Hp2 Hof Ho Hv Hf Hms Hvm Hd. unfold load_segment.
  assert (Hmz : 0 <= seg_memsz sg <= 2 ^ 32) by (clear -Hf Hms; lia).
  destruct (alloc_spec (p_memsz (mem_of s) p) 4096 s Hinv Hmz pow2_page) as [Ri Rm _ _ _ _].
  set (s1 := (alloc (p_memsz (mem_of s) p) 4096 s).2) in *. rewrite Rm.
  set (m := mem_of s) in *. change (p_filesz m p) with (seg_filesz sg).
  change (p_vaddr m p) with (seg_vaddr sg). change (p_offset m p) with (seg_offset sg).
  rewrite (u64_small (elf + seg_offset sg)) by lia.
  set (m1 := memcpy (Z.to_nat (seg_filesz sg)) (seg_vaddr sg) (elf + seg_offset sg) m).
  assert (Hm1 : ∀ b, load8 m1 b =
    if decide (seg_vaddr sg <= b < seg_vaddr sg + seg_filesz sg)
    then load8 m (elf + seg_offset sg + (b - seg_vaddr sg)) else load8 m b).
  { intros b. unfold m1. rewrite load8_memcpy by lia. rewrite Z2Nat.id by lia. done. }
  assert (Hag : agree elf len m m1).
  { intros b Hb. rewrite Hm1. by rewrite decide_False by lia. }
  destruct (agree_segment elf len m m1 p Hag Hp1 Hp2) as [Hsg _].
  change (p_filesz m1 p) with (seg_filesz (read_segment m1 p)).
  change (p_memsz m1 p) with (seg_memsz (read_segment m1 p)). rewrite Hsg. fold sg.
  rewrite mem_set_mem. split; [by apply inv_set_mem|]. intros b.
  rewrite (u64_small (seg_vaddr sg + seg_filesz sg)) by lia.
  destruct (Z.ltb_spec (seg_filesz sg) (seg_memsz sg)) as [Hlt|Hge].
  - rewrite load8_memset, Hm1, Z2Nat.id by lia. repeat case_decide; try lia; done.
  - rewrite Hm1. repeat case_decide; try lia; done.
Qed.

Lemma overlay_snoc m elf segs sg b :
  overlay m elf (segs ++ [sg]) b =
    if decide (seg_vaddr sg <= b < seg_vaddr sg + seg_memsz sg)
    then if decide (b < seg_vaddr sg + seg_filesz sg)
         then load8 m (elf + seg_offset sg + (b - seg_vaddr sg)) else 0
    else overlay m elf segs b.
Proof. unfold overlay. by rewrite foldl_app. Qed.

(** Segments that stay outside of the image leave it alone. *)
Lemma overlay_image m elf len segs b :
  (∀ sg, sg ∈ segs → seg_vaddr sg + seg_memsz sg <= elf ∨ elf + len <= seg_vaddr sg) →
  elf <= b < elf + len → overlay m elf segs b = load8 m b.
Proof.
  intros Hd Hb. induction segs as [|sg segs IH] using rev_ind; [done|].
  rewrite overlay_snoc, decide_False.
  - apply IH. intros sg' Hin. apply Hd, elem_of_app. by left.
  - destruct (Hd sg); [apply elem_of_app; right; by left|lia|lia].
Qed.

Lemma loadable_S m elf n :
  loadable m elf (Datatypes.S n) =
    loadable m elf n ++
    if decide (p_type m (elf + e_phoff m elf + Z.of_nat n * PHDR_SIZE) = ELF_PT_LOAD)
    then [read_segment m (elf + e_phoff m elf + Z.of_nat n * PHDR_SIZE)] else [].
Proof.
  unfold loadable. rewrite seq_S, filter_app, fmap_app. simpl. rewrite filter_cons, filter_nil.
  by case_decide.
Qed.

Lemma loadable_prefix m elf n k sg :
  (n <= k)%nat → sg ∈ loadable m elf n → sg ∈ loadable m elf k.
Proof.
  intros Hle. induction Hle as [|k _ IH]; [done|]. intros Hin. rewrite loadable_S.
  apply elem_of_app. left. by apply IH.
Qed.

Lemma elf_segments_overlay m elf len : image_ok m elf len →
  ∀ (j k fuel : nat) (s : S), (Z.of_nat (k + j) = e_phnum m elf) → (j < fuel)%nat → alloc_inv s →
  (∀ b, load8 (mem_of s) b = overlay m elf (loadable m elf k) b) →
  ∃ s', elf_segments fuel elf (elf ⊞ e_phoff m elf) (Z.of_nat k) s = Some s' ∧ alloc_inv s' ∧
    ∀ b, load8 (mem_of s') b = overlay m elf (loadable m elf (Z.to_nat (e_phnum m elf))) b.
Proof.
  intros [[Hr1 Hr2] [Hh1 Hh2] Hsegs]. assert (Hn : 0 <= e_phnum m elf < 65536) by apply (load_le_range 2).
  assert (Hoff : 0 <= e_phoff m elf) by apply load64_range. unfold PHDR_SIZE in Hh2.
  induction j as [|j IH]; intros k [|fuel] s Hk Hfuel Hinv Hov; try lia; simpl.
  all: assert (Hag : agree elf len m (mem_of s)).
  1, 3: intros b Hb; rewrite Hov; apply (overlay_image _ _ len); [|done]; intros sg Hin;
    apply (Hsegs sg); apply (loadable_prefix _ _ k); [lia|done].
  all: destruct (agree_header elf len m _ Hag Hh1) as (Ephnum & _ & _); rewrite Ephnum.
  - rewrite (proj2 (Z.ltb_ge _ _)) by lia. exists s. split_and!; [done|done|].
    intros b. rewrite Hov. f_equal. f_equal. lia.
  - rewrite (proj2 (Z.ltb_lt _ _)) by lia.
    set (p := elf + e_phoff m elf + Z.of_nat k * PHDR_SIZE).
    assert (Ep : (elf ⊞ e_phoff m elf) ⊞ Z.of_nat k * PHDR_SIZE = p).
    { unfold p, PHDR_SIZE. rewrite (u64_small (elf + _)) by lia. apply u64_small. lia. }
    rewrite Ep. assert (Hp : elf <= p ∧ p + PHDR_SIZE <= elf + len) by (unfold p, PHDR_SIZE; lia).
    destruct (agree_segment elf len m _ p Hag (proj1 Hp) (proj2 Hp)) as [Esg Ety].
    rewrite Ety, (u16_small (Z.of_nat k + 1)) by lia.
    replace (Z.of_nat k + 1) with (Z.of_nat (Datatypes.S k)) by lia.
    pose proof (loadable_S m elf k) as HS. fold p in HS.
    destruct (Z.eqb_spec (p_type m p) ELF_PT_LOAD) as [Ht|Ht].
    + rewrite decide_True in HS by done.
      destruct (Hsegs (read_segment m p)) as (G1 & G2 & G3 & G4 & G5 & G6 & G7).
      { apply (loadable_prefix _ _ (Datatypes.S k)); [lia|]. rewrite HS. apply elem_of_app. right. by left. }
      rewrite <-Esg in G1, G2, G3, G4, G5, G6, G7.
      destruct (load_segment_mem elf len p s Hinv Hr1 Hr2 (proj1 Hp) (proj2 Hp) G1 G2 G3 G4 G5 G6 G7)
        as [Hinv' Hmem].
      apply IH; [lia|lia|done|]. intros b. rewrite HS, overlay_snoc, Hmem, Esg.
      case_decide as Hc; [|done]. case_decide; [|done].
      apply Hag. rewrite Esg in G1, G2, G4. lia.
    + rewrite decide_False, app_nil_r in HS by done.
      apply IH; [lia|lia|done|]. intros b. by rewrite HS.
Qed.
End loading.

(** What the header of an executable for this machine looks like: the magic
    bytes (127, then "ELF"), class 64-bit (2), little-endian (1), type
    executable (2) and machine x86-64 (62). *)
Definition x86_64_executable (m : memory) (elf : Z) : Prop :=
  load8 m elf = 127 ∧ load8 m (elf + 1) = 69 ∧ load8 m (elf + 2) = 76 ∧ load8 m (elf + 3) = 70 ∧
  load8 m (elf + 4) = 2 ∧ load8 m (elf + 5) = 1 ∧
  load16 m (elf + 16) = 2 ∧ load16 m (elf + 18) = 62.

Lemma elf_header_ok_iff m elf : elf_header_ok m elf = true ↔ x86_64_executable m elf.
Proof.
  unfold elf_header_ok, x86_64_executable, e_ident, e_machine, e_type.
  unfold ELF_CLASS_64, ELF_DATA_LSB, ELF_MACHINE_X86_64, ELF_TYPE_EXEC. rewrite Z.add_0_r.
  rewrite !andb_true_iff, negb_true_iff, !orb_false_iff, !negb_false_iff, !Z.eqb_eq. tauto.
Qed.

(** ** Properties *)

(** C12: [elf_load] returns -1 and changes nothing unless the header has the
    magic bytes of the format and says 64-bit, little-endian, executable and
    x86-64.  With such a header, and for a self-contained image whose segments
    are loaded outside of it ([image_ok]), it returns 0 and the entry point
    of the header, and memory holds every loadable segment: its file contents
    at its address, zeros up to its memory size, everything else as before.
    The loop over the headers ends within the fuel, and the allocator's
    invariant is kept. *)
Theorem elf_load_places_segments {S} `{AllocatorLaws S} elf len (s : S) :
  let m := mem_of s in
  (¬ x86_64_executable m elf → elf_load elf s = Some (-1, None, s)) ∧
  (x86_64_executable m elf → image_ok m elf len → alloc_inv s →
     ∃ s', elf_load elf s = Some (0, Some (e_entry m elf), s') ∧ alloc_inv s' ∧
       ∀ b, load8 (mem_of s') b = overlay m elf (loadable m elf (Z.to_nat (e_phnum m elf))) b).
Proof.
  intros m. unfold elf_load. fold m. rewrite <-elf_header_ok_iff. split.
  { intros Hh%not_true_is_false. by rewrite Hh. }
  intros -> Him Hinv.
  assert (Hn : 0 <= e_phnum m elf < 65536) by apply (load_le_range 2).
  destruct (elf_segments_overlay m elf len Him (Z.to_nat (e_phnum m elf)) 0 ELF_FUEL s)
    as (s' & E & Hinv' & Hov).
  - lia.
  - unfold ELF_FUEL. lia.
  - done.
  - done.
  - exists s'. change (Z.of_nat 0) with 0 in E. rewrite E. done.
Qed.

(** An executable with one segment of two bytes and a zero. *)
Definition demo_elf_bytes : list Z :=
  [127; 69; 76; 70; 2; 1] ++ replicate 10 0 ++ [2; 0; 62; 0] ++ replicate 4 0 ++
  [0; 16; 0; 0; 0; 0; 0; 0] ++ [64; 0; 0; 0; 0; 0; 0; 0] ++ replicate 16 0 ++
  [1; 0] ++ replicate 6 0 ++
  [1; 0; 0; 0; 0; 0; 0; 0] ++ [120; 0; 0; 0; 0; 0; 0; 0] ++ [0; 16; 0; 0; 0; 0; 0; 0] ++
  replicate 8 0 ++ [2; 0; 0; 0; 0; 0; 0; 0] ++ [3; 0; 0; 0; 0; 0; 0; 0] ++ replicate 8 0 ++
  [77; 78].

(** It lies at 64 KiB. *)
Definition demo_elf : mm_state :=
  set_mm_mem (mk_memory (list_to_map (imap (λ i c, (65536 + Z.of_nat i, c)) demo_elf_bytes))
                        (λ _, 0)) (mm_boot 4194304 (λ _, 0)).

Lemma elf_load_places_segments_witness :
  ∃ s', elf_load 65536 demo_elf = Some (0, Some 4096, s') ∧
    load8 (mem s') 4096 = 77 ∧ load8 (mem s') 4097 = 78 ∧ load8 (mem s') 4098 = 0.
Proof.
  destruct (elf_load_places_segments 65536 122 demo_elf) as [_ H].
  destruct H as (s' & E & _ & Hov).
  - unfold x86_64_executable. vm_compute. repeat split.
  - split.
    + split; [lia|]. reflexivity.
    + split; vm_compute; discriminate.
    + intros sg Hsg.
      assert (HF : Forall (λ sg, sg = mk_segment 120 4096 2 3)
        (loadable (mem_of demo_elf) 65536 (Z.to_nat (e_phnum (mem_of demo_elf) 65536))))
        by (vm_compute; repeat constructor).
      rewrite Forall_forall in HF. rewrite (HF sg Hsg). clear HF Hsg. cbn [seg_offset seg_vaddr seg_filesz seg_memsz]. lia.
  - split; [reflexivity|]. split; [reflexivity|]. split; discriminate.
  - exists s'. split; [rewrite E; do 2 f_equal; vm_compute; reflexivity|].
    change (mem s') with (mem_of s'). rewrite !Hov. vm_compute. split; [reflexivity|split; reflexivity].
Defined.
