(* ===== verification/Vfs.v ===== *)
(** * File server ([servers/vfs/vfs.c])

    The file table, one definition per request handler, and the server's
    dispatch.  A handler maps a request to the reply it sends and the new
    table; an access outside of an array is a [Fault].  The system calls
    that receive the request and send the reply are outside of the model:
    the reply goes to [m_sender] of the request. *)

From Stdlib Require Import String.
From S2P Require Import Prelude Cstring.

Definition VFS_READ : Z := 100.
Definition VFS_WRITE : Z := 101.
Definition VFS_CREATE : Z := 102.
Definition VFS_DELETE : Z := 103.
Definition VFS_TRUNCATE : Z := 104.
Definition VFS_OPEN : Z := 105.
Definition VFS_CLOSE : Z := 106.
Definition VFS_SEEK : Z := 107.
Definition VFS_STAT : Z := 108.
Definition VFS_READDIR : Z := 109.
Definition VFS_REPLY : Z := 200.

Definition MAX_FILES : nat := 64.
Definition MAX_FILE_SIZE : Z := 4096.
Definition MSG_DATA : nat := 512.

(** [aegis_msg_t] of the server. *)
Record vmsg : Type := mk_vmsg {
  m_type : Z; m_sender : Z; m_arg0 : Z; m_arg1 : Z; m_arg2 : Z; m_arg3 : Z; m_data : list Z
}.

(** [{0}] *)
Definition vmsg0 : vmsg := mk_vmsg 0 0 0 0 0 0 (replicate MSG_DATA 0).

Record file_entry : Type := mk_entry {
  name : list Z; data : list Z; size : Z; flags : Z; used : Z
}.
Definition entry0 : file_entry :=
  mk_entry (replicate 64 0) (replicate (Z.to_nat MAX_FILE_SIZE) 0) 0 0 0.
Definition file_table0 : list file_entry := replicate MAX_FILES entry0.

(** [(uint64_t)-1] *)
Definition MINUS1 : Z := 2 ^ 64 - 1.

(** A reply with [type = VFS_REPLY], the first two arguments, the third and
    the data. *)
Definition reply_msg (a0 a1 a2 : Z) (d : list Z) : vmsg := mk_vmsg VFS_REPLY 0 a0 a1 a2 0 d.
Definition simple_reply (a0 a1 : Z) : vmsg := reply_msg a0 a1 0 (replicate MSG_DATA 0).
Definition error_reply : vmsg := simple_reply MINUS1 MINUS1.

(** ** The table *)

(** The loop of [file_find] from index [i] on. *)
Fixpoint find_from (path : list Z) (tbl : list file_entry) (i : nat) : outcome (option nat) :=
  match tbl with
  | [] => Ok None
  | f :: tbl' =>
      if negb (used f =? 0) then
        r ← strcmp (name f) path;
        if r =? 0 then Ok (Some i) else find_from path tbl' (S i)
      else find_from path tbl' (S i)
  end.

Definition file_find (path : list Z) (tbl : list file_entry) : outcome (option nat) :=
  find_from path tbl 0.

Definition file_find_free (tbl : list file_entry) : option nat :=
  first_from (λ f, used f =? 0) tbl 0.

Definition upd_file (i : nat) (f : file_entry → file_entry) (tbl : list file_entry) :=
  alter f i tbl.
Definition file_at (tbl : list file_entry) (i : nat) : file_entry := default entry0 (tbl !! i).

(** ** Handlers *)

Section handlers.
Implicit Types (msg : vmsg) (tbl : list file_entry).

Definition handle_read msg tbl : outcome (vmsg * list file_entry) :=
  idx ← file_find (m_data msg) tbl;
  match idx with
  | Some i =>
      let f := file_at tbl i in
      let offset := m_arg0 msg in
      let sz := if size f <? offset ⊞ m_arg1 msg then size f ⊟ offset else m_arg1 msg in
      d ← copy_bytes (replicate MSG_DATA 0) 0 (data f) offset sz;
      Ok (reply_msg sz 0 0 d, tbl)
  | None => Ok (error_reply, tbl)
  end.

Definition handle_write msg tbl : outcome (vmsg * list file_entry) :=
  idx ← file_find (m_data msg) tbl;
  match idx with
  | Some i =>
      let f := file_at tbl i in
      let offset := m_arg0 msg in
      let sz := if MAX_FILE_SIZE <? offset ⊞ m_arg1 msg then MAX_FILE_SIZE ⊟ offset
                else m_arg1 msg in
      d ← copy_bytes (data f) offset (m_data msg) 0 sz;
      let size' := if size f <? offset ⊞ sz then offset ⊞ sz else size f in
      Ok (simple_reply sz 0,
          upd_file i (λ f, mk_entry (name f) d size' (flags f) (used f)) tbl)
  | None => Ok (error_reply, tbl)
  end.

Definition handle_create msg tbl : outcome (vmsg * list file_entry) :=
  idx ← file_find (m_data msg) tbl;
  match idx with
  | Some _ => Ok (error_reply, tbl)
  | None =>
      match file_find_free tbl with
      | None => Ok (error_reply, tbl)
      | Some i =>
          n ← strncpy (name (file_at tbl i)) (m_data msg) 63;
          Ok (simple_reply 0 0,
              upd_file i (λ f, mk_entry (<[63%nat := 0]> n) (data f) 0 (u32 (m_arg0 msg)) 1) tbl)
      end
  end.

Definition handle_delete msg tbl : outcome (vmsg * list file_entry) :=
  idx ← file_find (m_data msg) tbl;
  match idx with
  | Some i =>
      Ok (simple_reply 0 0, upd_file i (λ f, mk_entry (name f) (data f) 0 (flags f) 0) tbl)
  | None => Ok (error_reply, tbl)
  end.

Definition handle_truncate msg tbl : outcome (vmsg * list file_entry) :=
  idx ← file_find (m_data msg) tbl;
  match idx with
  | Some i =>
      let f := file_at tbl i in
      let new_size := if MAX_FILE_SIZE <? m_arg0 msg then MAX_FILE_SIZE else m_arg0 msg in
      d ← (if new_size <? size f then fill_bytes (data f) new_size 0 (size f - new_size)
           else Ok (data f));
      Ok (simple_reply 0 0,
          upd_file i (λ f, mk_entry (name f) d new_size (flags f) (used f)) tbl)
  | None => Ok (error_reply, tbl)
  end.

Definition handle_stat msg tbl : outcome (vmsg * list file_entry) :=
  idx ← file_find (m_data msg) tbl;
  match idx with
  | Some i =>
      let f := file_at tbl i in
      d ← copy_bytes (replicate MSG_DATA 0) 0 (name f) 0 64;
      Ok (reply_msg 0 (size f) (flags f) d, tbl)
  | None => Ok (error_reply, tbl)
  end.

(** The listing loop: [written] bytes of [out] are in use. *)
Fixpoint readdir_loop tbl (out : list Z) (written : Z) : outcome (list Z * Z) :=
  match tbl with
  | [] => Ok (out, written)
  | f :: tbl' =>
      if negb (used f =? 0) then
        len ← strlen (name f);
        if 512 <=? written + Z.of_nat len + 2 then Ok (out, written) else
        out1 ← copy_bytes out written (name f) 0 (Z.of_nat len);
        out2 ← store_bytes out1 (written + Z.of_nat len) [10];
        readdir_loop tbl' out2 (written + Z.of_nat len + 1)
      else readdir_loop tbl' out written
  end.

Definition handle_readdir msg tbl : outcome (vmsg * list file_entry) :=
  '(out, written) ← readdir_loop tbl (replicate MSG_DATA 0) 0;
  out' ← store_bytes out written [0];
  Ok (reply_msg written 0 0 out', tbl).

Definition handle_open msg tbl : outcome (vmsg * list file_entry) :=
  idx ← file_find (m_data msg) tbl;
  match idx with
  | Some i => Ok (simple_reply (Z.of_nat i) 0, tbl)
  | None => Ok (error_reply, tbl)
  end.

Definition handle_close msg tbl : outcome (vmsg * list file_entry) := Ok (simple_reply 0 0, tbl).

Definition handle_seek msg tbl : outcome (vmsg * list file_entry) := Ok (error_reply, tbl).

(** The [switch] of the server loop. *)
Definition vfs_dispatch msg tbl : outcome (vmsg * list file_entry) :=
  if m_type msg =? VFS_READ then handle_read msg tbl
  else if m_type msg =? VFS_WRITE then handle_write msg tbl
  else if m_type msg =? VFS_CREATE then handle_create msg tbl
  else if m_type msg =? VFS_DELETE then handle_delete msg tbl
  else if m_type msg =? VFS_TRUNCATE then handle_truncate msg tbl
  else if m_type msg =? VFS_STAT then handle_stat msg tbl
  else if m_type msg =? VFS_READDIR then handle_readdir msg tbl
  else if m_type msg =? VFS_OPEN then handle_open msg tbl
  else if m_type msg =? VFS_CLOSE then handle_close msg tbl
  else if m_type msg =? VFS_SEEK then handle_seek msg tbl
  else Ok (error_reply, tbl).
End handlers.

(** One iteration of the server loop: the result of [ipc_recv] is not looked
    at, so that a failed receive handles the zeroed message. *)
Definition vfs_iteration (received : option vmsg) (tbl : list file_entry)
    : outcome (Z * vmsg * list file_entry) :=
  let msg := default vmsg0 received in
  '(r, tbl') ← vfs_dispatch msg tbl;
  Ok (m_sender msg, r, tbl').

(** One of the three blocks of [vfs_init_ramfs]. *)
Definition add_default (path content : list Z) (tbl : list file_entry)
    : outcome (list file_entry) :=
  match file_find_free tbl with
  | None => Ok tbl
  | Some i =>
      n ← strncpy (name (file_at tbl i)) (path ++ [0]) 63;
      let len := Z.of_nat (length content) in
      d ← copy_bytes (data (file_at tbl i)) 0 content 0 len;
      Ok (upd_file i (λ f, mk_entry n d len 0 1) tbl)
  end.

Definition vfs_init_ramfs (tbl : list file_entry) : outcome (list file_entry) :=
  t1 ← add_default (bytes "/hello.txt") (bytes "Hello from Aegis RAM filesystem!" ++ [10]) tbl;
  t2 ← add_default (bytes "/readme.md")
         (bytes "# Aegis OS" ++ [10; 10] ++
          bytes "A microkernel-based operating system." ++ [10]) t1;
  add_default (bytes "/version") (bytes "Aegis OS 0.1.0" ++ [10]) t2.
