(* ===== verification/VfsProps.v ===== *)
(** * Correctness of the file server

    The table invariant, the meaning of a path, and what the handlers of
    [Vfs] do to both. *)

From Stdlib Require Import String.
From S2P Require Import Prelude Cstring Vfs.

#[local] Arguments replicate : simpl never.
#[local] Arguments store_bytes : simpl never.
#[local] Arguments fetch_bytes : simpl never.

(** ** Invariant *)

Record file_ok (f : file_entry) : Prop := {
  fo_name : length (name f) = 64%nat;
  fo_data : length (data f) = Z.to_nat MAX_FILE_SIZE;
  fo_size : 0 <= size f <= MAX_FILE_SIZE;
  fo_term : used f ≠ 0 → terminated (name f)
}.

Definition table_ok (tbl : list file_entry) : Prop :=
  length tbl = MAX_FILES ∧ Forall file_ok tbl.

Record msg_ok (msg : vmsg) : Prop := {
  mo_len : length (m_data msg) = MSG_DATA;
  mo_term : terminated (m_data msg);
  mo_arg0 : 0 <= m_arg0 msg < 2 ^ 64;
  mo_arg1 : 0 <= m_arg1 msg < 2 ^ 64
}.

(** The path of a request. *)
Definition path_of (msg : vmsg) : list Z := cstr (m_data msg).

(** Entry [f] is the file named [p]; the slot of a path. *)
Definition named (p : list Z) (f : file_entry) : bool :=
  negb (used f =? 0) && bool_decide (cstr (name f) = p).
Definition slot_of (tbl : list file_entry) (p : list Z) : option nat := first_from (named p) tbl 0.

Lemma file_find_slot a tbl :
  Forall file_ok tbl → terminated a → file_find a tbl = Ok (slot_of tbl (cstr a)).
Proof.
  intros HF Ha. unfold file_find, slot_of. generalize 0%nat as k.
  induction HF as [|f tbl Hf _ IH]; intros k; [done|]. simpl.
  unfold first_from; fold (@first_from file_entry). unfold named at 1.
  destruct (Z.eqb_spec (used f) 0) as [Hu|Hu]; simpl; [apply IH|].
  destruct (strcmp_total (name f) a) as (r & -> & Hr); [by apply (fo_term f Hf)|done|]. simpl.
  destruct (Z.eqb_spec r 0) as [Er|Er].
  - by rewrite bool_decide_true by tauto.
  - rewrite bool_decide_false by tauto. apply IH.
Qed.

Lemma slot_of_Some tbl p i :
  slot_of tbl p = Some i → ∃ f, tbl !! i = Some f ∧ used f ≠ 0 ∧ cstr (name f) = p.
Proof.
  intros (_ & (f & Hf & Hn) & _)%first_from_Some. rewrite Nat.sub_0_r in Hf.
  exists f. unfold named in Hn. apply andb_true_iff in Hn as [Hu Hb].
  apply negb_true_iff, Z.eqb_neq in Hu. apply bool_decide_eq_true_1 in Hb. done.
Qed.

Lemma file_at_lookup tbl i f : tbl !! i = Some f → file_at tbl i = f.
Proof. unfold file_at. by intros ->. Qed.

Lemma table_lookup tbl i f : table_ok tbl → tbl !! i = Some f → file_ok f.
Proof. intros [_ HF] Hf. by eapply Forall_lookup_1. Qed.

Lemma upd_file_ok tbl i g :
  table_ok tbl → (∀ f, tbl !! i = Some f → file_ok f → file_ok (g f)) → table_ok (upd_file i g tbl).
Proof.
  intros [Hl HF] Hg. split; [unfold upd_file; by rewrite length_alter|].
  apply Forall_alter; [done|]. intros f Hf. by apply Hg.
Qed.

Lemma upd_file_lookup tbl i g j :
  upd_file i g tbl !! j = if decide (i = j) then g <$> tbl !! j else tbl !! j.
Proof. unfold upd_file. rewrite list_lookup_alter. by case_decide; subst. Qed.

(** How an update of one entry changes the meaning of paths. *)
Lemma slot_of_upd_other tbl i g p :
  (∀ f, tbl !! i = Some f → named p (g f) = named p f) →
  slot_of (upd_file i g tbl) p = slot_of tbl p.
Proof.
  intros Hg. apply first_from_Forall2, Forall2_same_length_lookup.
  split; [unfold upd_file; by rewrite length_alter|].
  intros j x y Hx Hy. rewrite upd_file_lookup in Hx. case_decide as E; [subst j|congruence].
  rewrite Hy in Hx. simpl in Hx. injection Hx as <-. by apply Hg.
Qed.

(** ** The handlers on a file that exists *)

Section found.
Context (tbl : list file_entry) (msg : vmsg) (i : nat) (f : file_entry).
Context (Ht : table_ok tbl) (Hm : msg_ok msg).
Context (Hs : slot_of tbl (path_of msg) = Some i) (Hf : tbl !! i = Some f).

Lemma find_found : file_find (m_data msg) tbl = Ok (Some i).
Proof. rewrite file_find_slot; [by rewrite <-Hs|apply Ht|apply Hm]. Qed.

(** The length that a read or write is cut to. *)
Definition clamp_to (limit offset n : Z) : Z :=
  if limit <? offset + n then limit - offset else n.

Lemma clamp_eq limit offset n :
  0 <= offset <= limit → 0 <= n <= 2 ^ 63 → limit <= MAX_FILE_SIZE →
  (if limit <? offset ⊞ n then limit ⊟ offset else n) = clamp_to limit offset n.
Proof.
  unfold clamp_to, MAX_FILE_SIZE. intros Ho Hn Hl. rewrite (u64_small (offset + n)) by lia.
  destruct (Z.ltb_spec limit (offset + n)); [|done]. apply u64_small. lia.
Qed.

Lemma clamp_range limit offset n :
  0 <= offset <= limit → 0 <= n → 0 <= clamp_to limit offset n <= n ∧
  offset + clamp_to limit offset n <= limit.
Proof. unfold clamp_to. intros. destruct (Z.ltb_spec limit (offset + n)); lia. Qed.

Lemma read_found :
  m_arg0 msg <= size f → m_arg1 msg <= 512 →
  let sz := clamp_to (size f) (m_arg0 msg) (m_arg1 msg) in
  let got := take (Z.to_nat sz) (drop (Z.to_nat (m_arg0 msg)) (data f)) in
  handle_read msg tbl =
    Ok (reply_msg sz 0 0 (got ++ replicate (MSG_DATA - Z.to_nat sz) 0), tbl) ∧
  length got = Z.to_nat sz.
Proof.
  intros Ho Hn sz got. destruct (table_lookup _ _ _ Ht Hf) as [Hna Hd Hsz _]. destruct Hm as [_ _ H0 H1].
  pose proof (clamp_range (size f) (m_arg0 msg) (m_arg1 msg) ltac:(lia) ltac:(lia)) as Hc. fold sz in Hc.
  assert (Hl : length got = Z.to_nat sz).
  { unfold got. rewrite length_take, length_drop, Hd. unfold MAX_FILE_SIZE in *. lia. }
  split; [|done]. unfold handle_read. rewrite find_found. simpl. rewrite (file_at_lookup _ _ _ Hf).
  rewrite clamp_eq by (unfold MAX_FILE_SIZE in *; lia). fold sz.
  unfold copy_bytes. rewrite fetch_bytes_ok by (rewrite ?Hd; unfold MAX_FILE_SIZE in *; lia). simpl.
  fold got. rewrite store_bytes_ok by (rewrite ?length_replicate, ?Hl; unfold MSG_DATA; lia).
  simpl. rewrite drop_replicate. by rewrite Hl.
Qed.

Lemma write_found :
  m_arg0 msg <= MAX_FILE_SIZE → m_arg1 msg <= 512 →
  let o := m_arg0 msg in
  let sz := clamp_to MAX_FILE_SIZE o (m_arg1 msg) in
  let d := take (Z.to_nat o) (data f) ++ take (Z.to_nat sz) (m_data msg) ++
           drop (Z.to_nat o + Z.to_nat sz) (data f) in
  handle_write msg tbl =
    Ok (simple_reply sz 0,
        upd_file i (λ f, mk_entry (name f) d (Z.max (size f) (o + sz)) (flags f) (used f)) tbl) ∧
  length d = Z.to_nat MAX_FILE_SIZE.
Proof.
  intros Ho Hn o sz d. destruct (table_lookup _ _ _ Ht Hf) as [Hna Hd Hsz _]. destruct Hm as [Hml _ H0 H1].
  pose proof (clamp_range MAX_FILE_SIZE o (m_arg1 msg) ltac:(unfold o; lia) ltac:(lia)) as Hc. fold sz in Hc.
  assert (Hl : length (take (Z.to_nat sz) (m_data msg)) = Z.to_nat sz).
  { rewrite length_take, Hml. unfold MSG_DATA. lia. }
  split.
  - unfold handle_write. rewrite find_found. simpl. rewrite (file_at_lookup _ _ _ Hf).
    rewrite clamp_eq by (unfold o, MAX_FILE_SIZE in *; lia). fold o sz.
    unfold copy_bytes. rewrite fetch_bytes_ok by (rewrite ?Hml; unfold MSG_DATA, o in *; lia). simpl.
    change (drop (Z.to_nat 0) (m_data msg)) with (m_data msg).
    rewrite store_bytes_ok by (rewrite ?Hl, ?Hd; unfold o, MAX_FILE_SIZE in *; lia). simpl.
    rewrite Hl, (u64_small (o + sz)) by (unfold o, MAX_FILE_SIZE in *; lia).
    apply (f_equal (λ t, Ok (simple_reply sz 0, t))). unfold upd_file. apply list_eq. intros j. rewrite !list_lookup_alter.
    case_decide; [subst j|done]. rewrite Hf. simpl. apply (f_equal Some).
    destruct (Z.ltb_spec (size f) (o + sz)); f_equal; lia.
  - unfold d. rewrite !length_app, Hl, length_take, length_drop, Hd. unfold o, MAX_FILE_SIZE in *. lia.
Qed.

Lemma truncate_found :
  let n := Z.min (m_arg0 msg) MAX_FILE_SIZE in
  ∃ d, handle_truncate msg tbl =
      Ok (simple_reply 0 0, upd_file i (λ f, mk_entry (name f) d n (flags f) (used f)) tbl) ∧
    length d = Z.to_nat MAX_FILE_SIZE ∧
    (size f <= n → d = data f) ∧ (n < size f → take (Z.to_nat n) d = take (Z.to_nat n) (data f)).
Proof.
  intros n. destruct (table_lookup _ _ _ Ht Hf) as [Hna Hd Hsz _]. destruct Hm as [Hml _ H0 H1].
  unfold handle_truncate. rewrite find_found. simpl. rewrite (file_at_lookup _ _ _ Hf).
  assert (En : (if MAX_FILE_SIZE <? m_arg0 msg then MAX_FILE_SIZE else m_arg0 msg) = n).
  { unfold n. destruct (Z.ltb_spec MAX_FILE_SIZE (m_arg0 msg)); lia. }
  rewrite En. assert (Hn : 0 <= n <= MAX_FILE_SIZE) by (unfold n, MAX_FILE_SIZE in *; lia).
  destruct (Z.ltb_spec n (size f)) as [Hlt|Hge].
  - unfold fill_bytes. rewrite (proj2 (Z.eqb_neq _ 0)) by lia.
    rewrite (proj2 (Z.leb_le _ _)), (proj2 (Z.leb_le _ _)) by (rewrite ?Hd; unfold MAX_FILE_SIZE in *; lia).
    simpl. eexists. split; [done|]. split_and!; [|lia|].
    + rewrite !length_app, length_take, length_replicate, length_drop, Hd.
      unfold MAX_FILE_SIZE in *. lia.
    + intros _. rewrite take_app_le by (rewrite length_take, Hd; unfold MAX_FILE_SIZE in *; lia).
      rewrite take_take. f_equal. lia.
  - simpl. exists (data f). split_and!; try done; lia.
Qed.
End found.

(** ** Creation *)

Lemma file_find_free_Some tbl i :
  file_find_free tbl = Some i → ∃ f, tbl !! i = Some f ∧ used f = 0.
Proof.
  intros (_ & (f & Hf & Hu%Z.eqb_eq) & _)%first_from_Some. rewrite Nat.sub_0_r in Hf. by exists f.
Qed.

Lemma create_new tbl msg i :
  table_ok tbl → msg_ok msg → slot_of tbl (path_of msg) = None → file_find_free tbl = Some i →
  ∃ n, handle_create msg tbl =
      Ok (simple_reply 0 0, upd_file i (λ f, mk_entry n (data f) 0 (u32 (m_arg0 msg)) 1) tbl) ∧
    length n = 64%nat ∧ terminated n ∧ cstr n = take 63 (path_of msg).
Proof.
  intros Ht Hm Hs Hfree. destruct (file_find_free_Some _ _ Hfree) as (f & Hf & Hu).
  destruct (table_lookup _ _ _ Ht Hf) as [Hn _ _ _].
  unfold handle_create. rewrite file_find_slot by (apply Ht || apply Hm).
  fold (path_of msg). rewrite Hs. simpl. rewrite Hfree, (file_at_lookup _ _ _ Hf).
  destruct (strncpy_name 63 (name f) (m_data msg)) as (d & E & Hl & Hc & Htm); [done|apply Hm|].
  rewrite E. simpl. eexists. split; [done|]. split_and!; [by rewrite length_insert|done|done].
Qed.

(** ** Listing *)

Lemma fetch_bytes_length a off n bs :
  0 <= n → fetch_bytes a off n = Ok bs → length bs = Z.to_nat n.
Proof.
  intros Hn. unfold fetch_bytes. destruct (Z.eqb_spec n 0) as [->|]; [by intros [= <-]|].
  destruct (_ && _) eqn:E; [|done]. intros [= <-].
  apply andb_true_iff in E as [H1%Z.leb_le H2%Z.leb_le]. rewrite length_take, length_drop. lia.
Qed.

Lemma readdir_loop_ok tbl out w :
  Forall file_ok tbl → length out = MSG_DATA → 0 <= w < 511 →
  ∃ out' w', readdir_loop tbl out w = Ok (out', w') ∧ length out' = MSG_DATA ∧ w <= w' < 511.
Proof.
  intros HF. revert out w. induction HF as [|f tbl Hf _ IH]; intros out w Hl Hw; simpl.
  { exists out, w. split_and!; try done; lia. }
  destruct (Z.eqb_spec (used f) 0) as [Hu|Hu]; simpl; [by apply IH|].
  pose proof (fo_term f Hf Hu) as Htm. pose proof (strlen_total _ Htm) as [-> Hlen].
  pose proof (fo_name f Hf) as Hn. simpl.
  destruct (Z.leb_spec 512 (w + Z.of_nat (length (cstr (name f))) + 2)) as [Hbig|Hsmall].
  { exists out, w. split_and!; try done; lia. }
  unfold copy_bytes. rewrite fetch_bytes_ok by lia. simpl.
  change (drop (Z.to_nat 0) (name f)) with (name f). rewrite Nat2Z.id.
  set (bs := take (length (cstr (name f))) (name f)).
  assert (Hbs : length bs = length (cstr (name f))) by (unfold bs; rewrite length_take; lia).
  rewrite store_bytes_ok by (rewrite ?Hbs, ?Hl; unfold MSG_DATA; lia). simpl.
  set (out1 := take (Z.to_nat w) out ++ bs ++ drop (Z.to_nat w + length bs) out).
  assert (Hl1 : length out1 = MSG_DATA).
  { unfold out1. rewrite !length_app, length_take, length_drop, Hl, Hbs. unfold MSG_DATA. lia. }
  rewrite (store_bytes_ok out1) by (rewrite ?Hl1; unfold MSG_DATA; simpl; lia). simpl.
  destruct (IH (take (Z.to_nat (w + Z.of_nat (length (cstr (name f))))) out1 ++
     10 :: drop (Z.to_nat (w + Z.of_nat (length (cstr (name f)))) + 1) out1)
     (w + Z.of_nat (length (cstr (name f))) + 1)) as (out' & w' & E & Hl' & Hw').
  - rewrite length_app, length_take. simpl. rewrite length_drop, Hl1. unfold MSG_DATA. lia.
  - lia.
  - exists out', w'. rewrite E. split_and!; [done|done|lia|lia].
Qed.

(** ** Safety *)

(** The requests that stay inside of the arrays: a read starts inside of the
    file and asks for at most 512 bytes, a write starts inside of the
    largest file and brings at most 512 bytes. *)
Definition in_bounds (msg : vmsg) (tbl : list file_entry) : Prop :=
  (m_type msg = VFS_READ → ∀ i f, slot_of tbl (path_of msg) = Some i → tbl !! i = Some f →
     m_arg0 msg <= size f ∧ m_arg1 msg <= 512) ∧
  (m_type msg = VFS_WRITE → m_arg0 msg <= MAX_FILE_SIZE ∧ m_arg1 msg <= 512).

(** A handler that answered and kept the invariant. *)
Definition good_result (o : outcome (vmsg * list file_entry)) : Prop :=
  ∃ r tbl', o = Ok (r, tbl') ∧ table_ok tbl' ∧ m_type r = VFS_REPLY ∧ length (m_data r) = MSG_DATA.

Lemma good_simple a b tbl : table_ok tbl → good_result (Ok (simple_reply a b, tbl)).
Proof. intros H. eexists _, _. split; [done|]. split_and!; [done|done|apply length_replicate]. Qed.

Section safety.
Context (tbl : list file_entry) (msg : vmsg) (Ht : table_ok tbl) (Hm : msg_ok msg).

Lemma find_eq : file_find (m_data msg) tbl = Ok (slot_of tbl (path_of msg)).
Proof. apply file_find_slot; [apply Ht|apply Hm]. Qed.

Lemma missing_error g :
  slot_of tbl (path_of msg) = None →
  (mbind (M := outcome) (λ idx, match idx with Some i => g i | None => Ok (error_reply, tbl) end)
     (file_find (m_data msg) tbl)) = Ok (error_reply, tbl).
Proof. intros Hs. rewrite find_eq, Hs. done. Qed.

Lemma read_good : m_type msg = VFS_READ → in_bounds msg tbl → good_result (handle_read msg tbl).
Proof.
  intros Hty [Hb _]. destruct (slot_of tbl (path_of msg)) as [i|] eqn:Hs.
  - destruct (slot_of_Some _ _ _ Hs) as (f & Hf & _). destruct (Hb Hty i f eq_refl Hf) as [H0 H1].
    destruct (read_found tbl msg i f Ht Hm Hs Hf H0 H1) as [-> Hl].
    eexists _, _. split; [done|]. split_and!; [done|done|]. simpl.
    rewrite length_app, Hl, length_replicate.
    destruct (table_lookup _ _ _ Ht Hf) as [_ _ Hsz _]. destruct Hm as [_ _ G0 G1].
    pose proof (clamp_range (size f) (m_arg0 msg) (m_arg1 msg) ltac:(lia) ltac:(lia)).
    unfold MSG_DATA. lia.
  - unfold handle_read. rewrite missing_error by done. by apply good_simple.
Qed.

Lemma write_good : m_type msg = VFS_WRITE → in_bounds msg tbl → good_result (handle_write msg tbl).
Proof.
  intros Hty [_ Hb]. destruct (Hb Hty) as [H0 H1].
  destruct (slot_of tbl (path_of msg)) as [i|] eqn:Hs.
  - destruct (slot_of_Some _ _ _ Hs) as (f & Hf & _).
    destruct (write_found tbl msg i f Ht Hm Hs Hf H0 H1) as [-> Hl].
    apply good_simple, upd_file_ok; [done|]. intros f' _ [? ? ? ?]. destruct Hm as [_ _ G0 G1].
    pose proof (clamp_range MAX_FILE_SIZE (m_arg0 msg) (m_arg1 msg) ltac:(lia) ltac:(lia)).
    split; simpl; try done; lia.
  - unfold handle_write. rewrite missing_error by done. by apply good_simple.
Qed.

Lemma truncate_good : good_result (handle_truncate msg tbl).
Proof.
  destruct (slot_of tbl (path_of msg)) as [i|] eqn:Hs.
  - destruct (slot_of_Some _ _ _ Hs) as (f & Hf & _).
    destruct (truncate_found tbl msg i f Ht Hm Hs Hf) as (d & -> & Hl & _).
    apply good_simple, upd_file_ok; [done|]. intros f' _ [? ? ? ?]. destruct Hm as [_ _ G0 G1].
    split; simpl; try done; unfold MAX_FILE_SIZE in *; lia.
  - unfold handle_truncate. rewrite missing_error by done. by apply good_simple.
Qed.

Lemma create_good : good_result (handle_create msg tbl).
Proof.
  destruct (slot_of tbl (path_of msg)) as [i|] eqn:Hs.
  { unfold handle_create. rewrite find_eq, Hs. by apply good_simple. }
  destruct (file_find_free tbl) as [i|] eqn:Hfree.
  - destruct (create_new tbl msg i Ht Hm Hs Hfree) as (n & -> & Hl & Htm & _).
    apply good_simple, upd_file_ok; [done|]. intros f _ [? ? ? ?].
    split; simpl; try done; unfold MAX_FILE_SIZE; lia.
  - unfold handle_create. rewrite find_eq, Hs. simpl. rewrite Hfree. by apply good_simple.
Qed.

Lemma delete_good : good_result (handle_delete msg tbl).
Proof.
  unfold handle_delete. rewrite find_eq. simpl. destruct (slot_of tbl (path_of msg)) as [i|].
  - apply good_simple, upd_file_ok; [done|]. intros f _ [? ? ? ?].
    split; simpl; try done; unfold MAX_FILE_SIZE; lia.
  - by apply good_simple.
Qed.

Lemma stat_good : good_result (handle_stat msg tbl).
Proof.
  unfold handle_stat. rewrite find_eq. simpl. destruct (slot_of tbl (path_of msg)) as [i|] eqn:Hs.
  - destruct (slot_of_Some _ _ _ Hs) as (f & Hf & _). rewrite (file_at_lookup _ _ _ Hf).
    pose proof (fo_name f (table_lookup _ _ _ Ht Hf)) as Hn.
    unfold copy_bytes. rewrite fetch_bytes_ok by lia. simpl.
    rewrite store_bytes_ok by (rewrite ?length_take, ?length_replicate, ?Hn; unfold MSG_DATA; lia).
    eexists _, _. split; [done|]. split_and!; [done|done|]. simpl.
    rewrite length_app, !length_take, !length_drop, length_replicate, Hn. unfold MSG_DATA.
    lia.
  - by apply good_simple.
Qed.

Lemma readdir_good : good_result (handle_readdir msg tbl).
Proof.
  unfold handle_readdir. destruct (readdir_loop_ok tbl (replicate MSG_DATA 0) 0) as (out & w & -> & Hl & Hw).
  - apply Ht.
  - apply length_replicate.
  - lia.
  - simpl. rewrite store_bytes_ok by (rewrite ?Hl; unfold MSG_DATA; simpl; lia). simpl.
    eexists _, _. split; [done|]. split_and!; [done|done|]. simpl.
    rewrite length_app, length_take. simpl. rewrite length_drop, Hl. unfold MSG_DATA. lia.
Qed.
End safety.

(** ** Properties *)

(** A request of type [ty] for [path] with two arguments. *)
Definition request (ty : Z) (path : list Z) (a0 a1 : Z) : vmsg :=
  mk_vmsg ty 9 a0 a1 0 0 (path ++ replicate (MSG_DATA - length path) 0).

Lemma request_ok ty path a0 a1 :
  (length path < MSG_DATA)%nat → 0 <= a0 < 2 ^ 64 → 0 <= a1 < 2 ^ 64 →
  msg_ok (request ty path a0 a1).
Proof.
  intros Hp H0 H1. split; [|simpl|done|done].
  - simpl. rewrite length_app, length_replicate. lia.
  - unfold terminated. apply elem_of_app. right. apply elem_of_replicate. split; [done|lia].
Qed.

Lemma request_path ty path a0 a1 :
  (length path < MSG_DATA)%nat → Forall (λ c, c ≠ 0) path → path_of (request ty path a0 a1) = path.
Proof.
  intros Hp HF. unfold path_of; simpl. destruct (MSG_DATA - length path)%nat eqn:E; [lia|].
  by apply cstr_app_zero.
Qed.

Lemma table0_ok : table_ok file_table0.
Proof.
  split; [apply length_replicate|]. apply Forall_replicate.
  split; [apply length_replicate|apply length_replicate| |done].
  cbn [size entry0]. unfold MAX_FILE_SIZE. lia.
Qed.

(** The table that the server starts with. *)
Definition ramfs : list file_entry :=
  match vfs_init_ramfs file_table0 with Ok t => t | Fault _ => file_table0 end.

Lemma ramfs_ok : table_ok ramfs.
Proof.
  split; [vm_compute; reflexivity|].
  assert (HF : forallb (λ f, bool_decide (length (name f) = 64%nat ∧
      length (data f) = Z.to_nat MAX_FILE_SIZE ∧ 0 <= size f ∧ size f <= MAX_FILE_SIZE ∧
      terminated (name f))) ramfs = true) by (vm_compute; reflexivity).
  apply Forall_forall. intros f Hf. rewrite forallb_forall in HF.
  assert (Hin : In f ramfs) by (by apply list_elem_of_In).
  apply HF, bool_decide_eq_true_1 in Hin as (H1 & H2 & H3 & H4 & H5).
  exact (Build_file_ok f H1 H2 (conj H3 H4) (λ _, H5)).
Qed.

(** C14: for a request whose path is terminated inside of the message and
    whose range stays inside of the file and the message, the dispatcher of
    the file server always answers with a reply of the right type, makes no
    access outside of an array, and keeps the table well formed (sizes within
    bounds, names terminated). *)
Theorem vfs_dispatch_safe msg tbl :
  table_ok tbl → msg_ok msg → in_bounds msg tbl →
  ∃ r tbl', vfs_dispatch msg tbl = Ok (r, tbl') ∧ table_ok tbl' ∧
    m_type r = VFS_REPLY ∧ length (m_data r) = MSG_DATA.
Proof.
  intros Ht Hm Hb. change (good_result (vfs_dispatch msg tbl)). unfold vfs_dispatch.
  destruct (Z.eqb_spec (m_type msg) VFS_READ); [by apply read_good|].
  destruct (Z.eqb_spec (m_type msg) VFS_WRITE); [by apply write_good|].
  destruct (_ =? VFS_CREATE); [by apply create_good|].
  destruct (_ =? VFS_DELETE); [by apply delete_good|].
  destruct (_ =? VFS_TRUNCATE); [by apply truncate_good|].
  destruct (_ =? VFS_STAT); [by apply stat_good|].
  destruct (_ =? VFS_READDIR); [by apply readdir_good|].
  destruct (_ =? VFS_OPEN).
  { unfold handle_open. rewrite find_eq by done. simpl. destruct (slot_of _ _); by apply good_simple. }
  destruct (_ =? VFS_CLOSE); [by apply good_simple|].
  destruct (_ =? VFS_SEEK); by apply good_simple.
Qed.

Lemma vfs_dispatch_safe_witness :
  ∃ r tbl', vfs_dispatch (request VFS_READ (bytes "/version") 6 200) ramfs = Ok (r, tbl') ∧
    table_ok tbl' ∧ m_type r = VFS_REPLY ∧ length (m_data r) = MSG_DATA.
Proof.
  apply vfs_dispatch_safe.
  - apply ramfs_ok.
  - apply request_ok; [vm_compute; lia|lia|lia].
  - split; [|vm_compute; discriminate]. intros _ i f Hs Hf.
    assert (E : slot_of ramfs (path_of (request VFS_READ (bytes "/version") 6 200)) = Some 2%nat)
      by (vm_compute; reflexivity).
    rewrite E in Hs. injection Hs as <-.
    assert (Es : size <$> ramfs !! 2%nat = Some 15) by (vm_compute; reflexivity).
    rewrite Hf in Es. injection Es as ->. cbn [m_arg0 m_arg1 request]. lia.
Defined.

(** No two files of the table have the same name. *)
Definition names_distinct (tbl : list file_entry) : Prop :=
  ∀ i j f g, tbl !! i = Some f → tbl !! j = Some g → used f ≠ 0 → used g ≠ 0 →
    cstr (name f) = cstr (name g) → i = j.

Lemma names_distinct_slot tbl i f :
  names_distinct tbl → tbl !! i = Some f → used f ≠ 0 → slot_of tbl (cstr (name f)) = Some i.
Proof.
  intros Hd Hf Hu. destruct (slot_of tbl (cstr (name f))) as [j|] eqn:E.
  - destruct (slot_of_Some _ _ _ E) as (g & Hg & Hug & Hn). f_equal.
    by apply (Hd j i g f).
  - apply first_from_None in E. rewrite Forall_lookup in E. specialize (E i f Hf).
    unfold named in E. rewrite (proj2 (Z.eqb_neq _ _)), bool_decide_true in E by done. done.
Qed.

Lemma slot_of_None tbl p :
  (∀ i f, tbl !! i = Some f → used f ≠ 0 → cstr (name f) ≠ p) → slot_of tbl p = None.
Proof.
  intros H. apply first_from_None, Forall_lookup. intros i f Hf. unfold named.
  destruct (Z.eqb_spec (used f) 0); [done|]. simpl. apply bool_decide_eq_false. by apply (H i f).
Qed.

Section create_delete.
Context (tbl : list file_entry) (msg : vmsg).
Context (Ht : table_ok tbl) (Hm : msg_ok msg) (Hd : names_distinct tbl).

(** A new entry of name [p] in a free slot. *)
Lemma fresh_entry i f n g p :
  tbl !! i = Some f → used f = 0 → slot_of tbl p = None → cstr n = p → name (g f) = n →
  used (g f) = 1 →
  names_distinct (upd_file i g tbl) ∧ slot_of (upd_file i g tbl) p = Some i ∧
  ∀ p', p' ≠ p → slot_of (upd_file i g tbl) p' = slot_of tbl p'.
Proof.
  intros Hf Hu Hs Hc Hn Hug.
  assert (Hother : ∀ j h, tbl !! j = Some h → used h ≠ 0 → cstr (name h) ≠ p).
  { intros j h Hj Huh <-. by rewrite (names_distinct_slot _ _ _ Hd Hj Huh) in Hs. }
  assert (Hi : upd_file i g tbl !! i = Some (g f)).
  { rewrite upd_file_lookup, decide_True by done. by rewrite Hf. }
  assert (Hdist : names_distinct (upd_file i g tbl)).
  { intros a b x y Ha Hb Hx Hy E. rewrite upd_file_lookup in Ha, Hb.
    destruct (decide (i = a)) as [<-|Hia], (decide (i = b)) as [<-|Hib]; [done| | |by eapply Hd].
    - rewrite Hf in Ha. injection Ha as <-. exfalso. apply (Hother b y Hb Hy). congruence.
    - rewrite Hf in Hb. injection Hb as <-. exfalso. apply (Hother a x Ha Hx). congruence. }
  split; [done|]. split.
  - rewrite <-Hc, <-Hn. by apply names_distinct_slot; [| |rewrite Hug].
  - intros p' Hp. apply slot_of_upd_other. intros f' Hf'. rewrite Hf in Hf'. injection Hf' as <-.
    unfold named. rewrite Hu, Hug, Hn, bool_decide_false by congruence. done.
Qed.

(** Marking an entry unused. *)
Lemma removed_entry i f g :
  tbl !! i = Some f → used f ≠ 0 → used (g f) = 0 →
  names_distinct (upd_file i g tbl) ∧ slot_of (upd_file i g tbl) (cstr (name f)) = None ∧
  ∀ p', p' ≠ cstr (name f) → slot_of (upd_file i g tbl) p' = slot_of tbl p'.
Proof.
  intros Hf Hu Hug. split_and!.
  - intros a b x y Ha Hb Hx Hy E. rewrite upd_file_lookup in Ha, Hb.
    destruct (decide (i = a)) as [<-|Hia]; [rewrite Hf in Ha; by injection Ha as <-|].
    destruct (decide (i = b)) as [<-|Hib]; [rewrite Hf in Hb; by injection Hb as <-|].
    by eapply Hd.
  - apply slot_of_None. intros j h Hj Huh E. rewrite upd_file_lookup in Hj. case_decide as Eij.
    + subst j. rewrite Hf in Hj. by injection Hj as <-.
    + apply Eij. by apply (Hd i j f h).
  - intros p' Hp. apply slot_of_upd_other. intros f' Hf'. rewrite Hf in Hf'. injection Hf' as <-.
    unfold named. rewrite Hug, (bool_decide_false (cstr (name f) = p')) by congruence.
    by rewrite andb_false_r.
Qed.
End create_delete.

(** One slot of the table is replaced, the others stay. *)
Lemma upd_file_insert tbl i f g : tbl !! i = Some f → upd_file i g tbl = <[i := g f]> tbl.
Proof.
  intros Hf. apply list_eq. intros j. rewrite upd_file_lookup, list_lookup_insert.
  pose proof (lookup_lt_Some _ _ _ Hf). destruct (decide (i = j)) as [<-|Hne].
  - rewrite decide_True by done. by rewrite Hf.
  - rewrite decide_False; [done|]. by intros [? _].
Qed.

(** C11: with distinct names and a path of at most 63 bytes, creation and
    removal act on the path as on a finite map.  Creating an existing path,
    or with a full table, fails and changes nothing; otherwise exactly the
    lowest free slot changes: it is in use, its name is the path, its size is
    0, its flags are those requested, and its data are what the slot held.
    Deleting an unknown path fails and changes nothing; otherwise exactly the
    slot of the path changes: its size becomes 0 and it is free.  So the path
    is known, or unknown, afterwards, every other path names what it named
    before, and names stay distinct. *)
Theorem vfs_create_delete_refine msg tbl :
  table_ok tbl → msg_ok msg → names_distinct tbl → (length (path_of msg) <= 63)%nat →
  let p := path_of msg in
  (slot_of tbl p ≠ None ∨ file_find_free tbl = None → handle_create msg tbl = Ok (error_reply, tbl)) ∧
  (∀ i, slot_of tbl p = None → file_find_free tbl = Some i →
     ∃ n tbl', handle_create msg tbl = Ok (simple_reply 0 0, tbl') ∧
       tbl' = <[i := mk_entry n (data (file_at tbl i)) 0 (u32 (m_arg0 msg)) 1]> tbl ∧
       length n = 64%nat ∧ cstr n = p ∧ names_distinct tbl' ∧
       slot_of tbl' p = Some i ∧ ∀ p', p' ≠ p → slot_of tbl' p' = slot_of tbl p') ∧
  (slot_of tbl p = None → handle_delete msg tbl = Ok (error_reply, tbl)) ∧
  (∀ i, slot_of tbl p = Some i →
     ∃ tbl', handle_delete msg tbl = Ok (simple_reply 0 0, tbl') ∧
       tbl' = <[i := mk_entry (name (file_at tbl i)) (data (file_at tbl i)) 0
                       (flags (file_at tbl i)) 0]> tbl ∧
       names_distinct tbl' ∧
       slot_of tbl' p = None ∧ ∀ p', p' ≠ p → slot_of tbl' p' = slot_of tbl p').
Proof.
  intros Ht Hm Hd Hlen p. split_and!.
  - intros Hor. unfold handle_create. rewrite find_eq by done. fold p. simpl.
    destruct (slot_of tbl p) as [j|]; [done|]. destruct Hor as [?|Hfree]; [done|]. by rewrite Hfree.
  - intros i Hs Hfree. destruct (create_new tbl msg i Ht Hm Hs Hfree) as (n & E & Hl & _ & Hc).
    rewrite take_ge in Hc by done. destruct (file_find_free_Some _ _ Hfree) as (f & Hf & Hu).
    set (g := λ f, mk_entry n (data f) 0 (u32 (m_arg0 msg)) 1) in E.
    destruct (fresh_entry tbl Hd i f n g p) as (H1 & H2 & H3); try done.
    rewrite (file_at_lookup _ _ _ Hf). pose proof (upd_file_insert tbl i f g Hf).
    by exists n, (upd_file i g tbl).
  - intros Hs. unfold handle_delete. rewrite find_eq by done. fold p. by rewrite Hs.
  - intros i Hs. destruct (slot_of_Some _ _ _ Hs) as (f & Hf & Hu & Hn).
    unfold handle_delete. rewrite find_eq by done. fold p. rewrite Hs. simpl.
    set (g := λ f, mk_entry (name f) (data f) 0 (flags f) 0).
    destruct (removed_entry tbl Hd i f g Hf Hu eq_refl) as (H1 & H2 & H3).
    rewrite Hn in H2, H3. rewrite (file_at_lookup _ _ _ Hf).
    pose proof (upd_file_insert tbl i f g Hf). by exists (upd_file i g tbl).
Qed.

Lemma ramfs_distinct : names_distinct ramfs.
Proof.
  assert (HF : forallb (λ i, forallb (λ j, bool_decide (used (file_at ramfs i) ≠ 0 →
      used (file_at ramfs j) ≠ 0 → cstr (name (file_at ramfs i)) = cstr (name (file_at ramfs j)) →
      i = j)) (seq 0 64)) (seq 0 64) = true) by (vm_compute; reflexivity).
  intros i j f g Hf Hg Hu Hv E. rewrite forallb_forall in HF.
  pose proof (lookup_lt_Some _ _ _ Hf) as Hi. pose proof (lookup_lt_Some _ _ _ Hg) as Hj.
  rewrite (proj1 ramfs_ok) in Hi, Hj. unfold MAX_FILES in Hi, Hj.
  specialize (HF i ltac:(apply in_seq; lia)). rewrite forallb_forall in HF.
  specialize (HF j ltac:(apply in_seq; lia)). apply bool_decide_eq_true_1 in HF.
  rewrite (file_at_lookup _ _ _ Hf), (file_at_lookup _ _ _ Hg) in HF. by apply HF.
Qed.

Lemma vfs_create_delete_refine_witness :
  ∃ tbl', handle_create (request VFS_CREATE (bytes "/new") 7 0) ramfs = Ok (simple_reply 0 0, tbl') ∧
    slot_of tbl' (bytes "/new") = Some 3%nat.
Proof.
  destruct (vfs_create_delete_refine (request VFS_CREATE (bytes "/new") 7 0) ramfs) as (_ & H & _).
  - exact ramfs_ok.
  - apply request_ok; [vm_compute; lia|lia|lia].
  - exact ramfs_distinct.
  - vm_compute. lia.
  - destruct (H 3%nat) as (n & tbl' & E & _ & _ & _ & _ & Hs & _).
    + vm_compute. reflexivity.
    + vm_compute. reflexivity.
    + exists tbl'. split; [exact E|exact Hs].
Defined.

(** C25: what a write request stores is read back: after a write of [n] bytes
    at offset [o] of an existing file (at most 512 bytes, inside of the
    largest file, starting inside of the file), a read of the same range
    returns the first [n] bytes of the write request's data.  As the data
    starts with the path, that is where the stored bytes start too. *)
Theorem vfs_write_read_roundtrip w r tbl i f :
  table_ok tbl → msg_ok w → msg_ok r → path_of r = path_of w →
  slot_of tbl (path_of w) = Some i → tbl !! i = Some f →
  m_arg0 w <= size f → m_arg1 w <= 512 → m_arg0 w + m_arg1 w <= MAX_FILE_SIZE →
  m_arg0 r = m_arg0 w → m_arg1 r = m_arg1 w →
  ∃ tbl' rep, handle_write w tbl = Ok (simple_reply (m_arg1 w) 0, tbl') ∧
    handle_read r tbl' = Ok (rep, tbl') ∧ m_arg0 rep = m_arg1 w ∧
    take (Z.to_nat (m_arg1 w)) (m_data rep) = take (Z.to_nat (m_arg1 w)) (m_data w) ∧
    (Z.of_nat (length (path_of w)) <= m_arg1 w →
       take (length (path_of w)) (m_data rep) = path_of w).
Proof.
  intros Ht Hw Hr Hp Hs Hf Ho Hn Hon E0 E1.
  pose proof (table_lookup _ _ _ Ht Hf) as [_ Hdl Hsz Htm]. destruct (mo_arg0 _ Hw), (mo_arg1 _ Hw).
  destruct (write_found tbl w i f Ht Hw Hs Hf) as [Ew Hld]; [unfold MAX_FILE_SIZE in *; lia|done|].
  assert (Hcl : clamp_to MAX_FILE_SIZE (m_arg0 w) (m_arg1 w) = m_arg1 w).
  { unfold clamp_to. destruct (Z.ltb_spec MAX_FILE_SIZE (m_arg0 w + m_arg1 w)); lia. }
  rewrite Hcl in Ew, Hld. set (o := Z.to_nat (m_arg0 w)) in *. set (n := Z.to_nat (m_arg1 w)) in *.
  set (d := take o (data f) ++ take n (m_data w) ++ drop (o + n) (data f)) in *.
  set (f' := mk_entry (name f) d (Z.max (size f) (m_arg0 w + m_arg1 w)) (flags f) (used f)).
  set (g := λ f, mk_entry (name f) d (Z.max (size f) (m_arg0 w + m_arg1 w)) (flags f) (used f)) in *.
  assert (Hf' : upd_file i g tbl !! i = Some f').
  { rewrite upd_file_lookup, decide_True by done. by rewrite Hf. }
  assert (Ht' : table_ok (upd_file i g tbl)).
  { apply upd_file_ok; [done|]. intros h Hh [? ? ? ?]. rewrite Hf in Hh. injection Hh as <-.
    split; simpl; [done|done|unfold MAX_FILE_SIZE in *; lia|done]. }
  assert (Hs' : slot_of (upd_file i g tbl) (path_of r) = Some i).
  { rewrite Hp, <-Hs. by apply slot_of_upd_other. }
  destruct (read_found _ r i f' Ht' Hr Hs' Hf') as [Er Hlr]; [simpl; lia|lia|].
  assert (Hcr : clamp_to (size f') (m_arg0 r) (m_arg1 r) = m_arg1 w).
  { unfold clamp_to, f'; simpl. rewrite E0, E1.
    destruct (Z.ltb_spec (Z.max (size f) (m_arg0 w + m_arg1 w)) (m_arg0 w + m_arg1 w)); lia. }
  rewrite Hcr in Er, Hlr. rewrite E0 in Er, Hlr. fold o n in Er, Hlr.
  assert (Hgot : take n (drop o (data f')) = take n (m_data w)).
  { simpl. unfold d. assert (Lo : length (take o (data f)) = o).
    { rewrite length_take, Hdl. unfold o, MAX_FILE_SIZE in *. lia. }
    rewrite drop_app_length' by done. rewrite take_app_le.
    - rewrite take_take. f_equal. lia.
    - rewrite length_take, (mo_len _ Hw). unfold n, MSG_DATA. lia. }
  rewrite Hgot in Er, Hlr. eexists _, _. split; [exact Ew|]. split; [exact Er|]. cbn [m_arg0 m_data reply_msg].
  split; [done|]. split; [by rewrite take_app_length'|]. intros Hpl.
  rewrite take_app_le by (rewrite Hlr; unfold n; lia). rewrite take_take.
  replace (length (path_of w) `min` n)%nat with (length (path_of w)) by (unfold n; lia).
  unfold path_of. generalize (m_data w). induction l as [|c l IH]; simpl; [done|].
  destruct (c =? 0); simpl; [done|]. by rewrite IH.
Qed.

Lemma vfs_write_read_roundtrip_witness :
  ∃ tbl' rep,
    handle_read (request VFS_READ (bytes "/version") 0 8) tbl' = Ok (rep, tbl') ∧
    take 8 (m_data rep) = bytes "/version".
Proof.
  assert (E : ∃ f, ramfs !! 2%nat = Some f ∧ size f = 15) by (eexists; split; vm_compute; reflexivity).
  destruct E as (f & Hf & Hsz).
  destruct (vfs_write_read_roundtrip (request VFS_WRITE (bytes "/version") 0 8)
    (request VFS_READ (bytes "/version") 0 8) ramfs 2 f) as (tbl' & rep & _ & Er & _ & Hd & _).
  - exact ramfs_ok.
  - apply request_ok; [vm_compute; lia|lia|lia].
  - apply request_ok; [vm_compute; lia|lia|lia].
  - vm_compute. reflexivity.
  - vm_compute. reflexivity.
  - exact Hf.
  - rewrite Hsz. cbn [m_arg0 request]. lia.
  - cbn [m_arg1 request]. lia.
  - cbn [m_arg0 m_arg1 request]. unfold MAX_FILE_SIZE. lia.
  - reflexivity.
  - reflexivity.
  - exists tbl', rep. split; [exact Er|]. exact Hd.
Defined.

(** Ranges that leave the arrays. *)
Lemma fetch_bytes_fault a off n :
  0 <= off → 0 < n → Z.of_nat (length a) < off + n → fetch_bytes a off n = Fault OutOfBounds.
Proof.
  intros Ho Hn Hl. unfold fetch_bytes. rewrite (proj2 (Z.eqb_neq _ _)) by lia.
  by rewrite (proj2 (Z.leb_le 0 off)), (proj2 (Z.leb_gt _ _)) by lia.
Qed.

Lemma store_bytes_fault a off bs :
  bs ≠ [] → Z.of_nat (length a) < off + Z.of_nat (length bs) →
  store_bytes a off bs = Fault OutOfBounds.
Proof.
  intros Hb Hl. destruct bs as [|b bs]; [done|]. unfold store_bytes.
  rewrite (proj2 (Z.leb_gt (off + _) _)) by exact Hl. by rewrite andb_false_r.
Qed.

(** C40: a read leaves its arrays in two cases that the handler does not
    exclude: when the offset lies behind the end of the file, the remaining
    size wraps around to almost [2^64] bytes; and when more than 512 bytes
    are asked for and available, the copy runs over the end of the reply. *)
Theorem vfs_read_out_of_bounds msg tbl i f :
  table_ok tbl → msg_ok msg → slot_of tbl (path_of msg) = Some i → tbl !! i = Some f →
  (size f < m_arg0 msg → m_arg0 msg + m_arg1 msg < 2 ^ 64 →
     handle_read msg tbl = Fault OutOfBounds) ∧
  (m_arg0 msg + 512 < size f → 512 < m_arg1 msg → m_arg0 msg + m_arg1 msg < 2 ^ 64 →
     handle_read msg tbl = Fault OutOfBounds).
Proof.
  intros Ht Hm Hs Hf. destruct (table_lookup _ _ _ Ht Hf) as [_ Hd Hsz _].
  destruct (mo_arg0 _ Hm), (mo_arg1 _ Hm).
  unfold handle_read. rewrite find_eq by done. rewrite Hs. simpl. rewrite (file_at_lookup _ _ _ Hf).
  unfold copy_bytes. split.
  - intros Ho Hw. rewrite (u64_small (m_arg0 msg + m_arg1 msg)) by lia.
    rewrite (proj2 (Z.ltb_lt _ _)) by lia.
    assert (E : size f ⊟ m_arg0 msg = size f - m_arg0 msg + 2 ^ 64).
    { unfold u64. symmetry. apply (Z.mod_unique _ _ (-1)); [left|]; lia. }
    rewrite E. rewrite fetch_bytes_fault; [done|lia|lia|].
    rewrite Hd. unfold MAX_FILE_SIZE in *. lia.
  - intros Ho Hn Hw. set (sz := if size f <? m_arg0 msg ⊞ m_arg1 msg then size f ⊟ m_arg0 msg
      else m_arg1 msg).
    assert (Hr : 512 < sz ∧ m_arg0 msg + sz <= size f).
    { unfold sz. rewrite (u64_small (m_arg0 msg + m_arg1 msg)) by lia.
      destruct (Z.ltb_spec (size f) (m_arg0 msg + m_arg1 msg)); [|lia].
      rewrite u64_small by (unfold MAX_FILE_SIZE in *; lia). lia. }
    rewrite fetch_bytes_ok by (rewrite ?Hd; unfold MAX_FILE_SIZE in *; lia). simpl.
    assert (Hl : length (take (Z.to_nat sz) (drop (Z.to_nat (m_arg0 msg)) (data f))) = Z.to_nat sz).
    { rewrite length_take, length_drop, Hd. unfold MAX_FILE_SIZE in *. lia. }
    rewrite store_bytes_fault; [done| |].
    + intros E. rewrite E in Hl. simpl in Hl. lia.
    + rewrite Hl, length_replicate. unfold MSG_DATA. lia.
Qed.

Lemma vfs_read_out_of_bounds_witness :
  handle_read (request VFS_READ (bytes "/version") 100 10) ramfs = Fault OutOfBounds.
Proof.
  assert (E : ∃ f, ramfs !! 2%nat = Some f ∧ size f = 15) by (eexists; split; vm_compute; reflexivity).
  destruct E as (f & Hf & Hsz).
  destruct (vfs_read_out_of_bounds (request VFS_READ (bytes "/version") 100 10) ramfs 2 f) as [H _].
  - exact ramfs_ok.
  - apply request_ok; [vm_compute; lia|lia|lia].
  - vm_compute. reflexivity.
  - exact Hf.
  - apply H.
    + rewrite Hsz. cbn [m_arg0 request]. lia.
    + cbn [m_arg0 m_arg1 request]. lia.
Defined.

(** Removing a file does not clear its contents, and creating one does
    not either: when the file of a path is deleted and the next creation
    reuses its slot, growing the new file with a truncate request makes the
    old bytes readable under the new path. *)
Theorem vfs_recreate_exposes_old_data del cre tru tbl i f :
  table_ok tbl → names_distinct tbl →
  msg_ok del → msg_ok cre → msg_ok tru →
  slot_of tbl (path_of del) = Some i → tbl !! i = Some f →
  file_find_free (upd_file i (λ f, mk_entry (name f) (data f) 0 (flags f) 0) tbl) = Some i →
  slot_of tbl (path_of cre) = None → path_of tru = path_of cre →
  (length (path_of cre) <= 63)%nat → m_arg0 tru <= MAX_FILE_SIZE →
  ∃ t1 t2 t3 f3, handle_delete del tbl = Ok (simple_reply 0 0, t1) ∧
    handle_create cre t1 = Ok (simple_reply 0 0, t2) ∧
    handle_truncate tru t2 = Ok (simple_reply 0 0, t3) ∧
    slot_of t3 (path_of cre) = Some i ∧ t3 !! i = Some f3 ∧
    data f3 = data f ∧ size f3 = m_arg0 tru.
Proof.
  intros Ht Hd Mdel Mcre Mtru Hs Hf Hfree Hnone Hpt Hlen Hn.
  destruct (slot_of_Some _ _ _ Hs) as (f0 & Hf0 & Hu & Hnm). rewrite Hf in Hf0. injection Hf0 as <-.
  set (g1 := λ f, mk_entry (name f) (data f) 0 (flags f) 0) in *.
  destruct (removed_entry tbl Hd i f g1 Hf Hu eq_refl) as (D1 & S1 & O1).
  assert (T1 : table_ok (upd_file i g1 tbl)).
  { apply upd_file_ok; [done|]. intros h _ [? ? ? ?]. split; simpl; try done; unfold MAX_FILE_SIZE; lia. }
  assert (L1 : upd_file i g1 tbl !! i = Some (g1 f)).
  { rewrite upd_file_lookup, decide_True by done. by rewrite Hf. }
  assert (N1 : slot_of (upd_file i g1 tbl) (path_of cre) = None).
  { rewrite O1; [done|]. rewrite Hnm. congruence. }
  destruct (create_new _ cre i T1 Mcre N1 Hfree) as (n & E2 & Hln & Htm & Hc).
  rewrite take_ge in Hc by done. set (g2 := λ f, mk_entry n (data f) 0 (u32 (m_arg0 cre)) 1) in E2.
  destruct (fresh_entry _ D1 i (g1 f) n g2 (path_of cre) L1) as (D2 & S2 & O2); try done.
  set (t2 := upd_file i g2 (upd_file i g1 tbl)) in *.
  assert (L2 : t2 !! i = Some (g2 (g1 f))).
  { unfold t2. rewrite upd_file_lookup, decide_True by done. by rewrite L1. }
  assert (T2 : table_ok t2).
  { apply upd_file_ok; [done|]. intros h _ [? ? ? ?]. split; simpl; try done; unfold MAX_FILE_SIZE; lia. }
  destruct (mo_arg0 _ Mtru).
  destruct (truncate_found t2 tru i _ T2 Mtru ltac:(by rewrite Hpt) L2) as (d & E3 & _ & Hsame & _).
  rewrite Z.min_l in E3, Hsame by done. specialize (Hsame ltac:(simpl; lia)). simpl in Hsame.
  eexists _, t2, _, _. split; [unfold handle_delete; by rewrite find_eq, Hs by done|].
  split; [exact E2|]. split; [exact E3|]. split_and!.
  - rewrite <-S2. by apply slot_of_upd_other.
  - rewrite upd_file_lookup, decide_True by done. by rewrite L2.
  - exact Hsame.
  - done.
Qed.

Lemma vfs_recreate_exposes_old_data_witness :
  ∃ t3 f3, slot_of t3 (bytes "/x") = Some 0%nat ∧ t3 !! 0%nat = Some f3 ∧ size f3 = 33 ∧
    Some (take 33 (data f3)) = (λ f, take 33 (data f)) <$> ramfs !! 0%nat.
Proof.
  assert (E : ∃ f, ramfs !! 0%nat = Some f) by (eexists; vm_compute; reflexivity).
  destruct E as (f & Hf).
  destruct (vfs_recreate_exposes_old_data (request VFS_DELETE (bytes "/hello.txt") 0 0)
    (request VFS_CREATE (bytes "/x") 0 0) (request VFS_TRUNCATE (bytes "/x") 33 0) ramfs 0 f)
    as (t1 & t2 & t3 & f3 & _ & _ & _ & Hs & Hf3 & Hd & Hsz).
  - exact ramfs_ok.
  - exact ramfs_distinct.
  - apply request_ok; [vm_compute; lia|lia|lia].
  - apply request_ok; [vm_compute; lia|lia|lia].
  - apply request_ok; [vm_compute; lia|lia|lia].
  - vm_compute. reflexivity.
  - exact Hf.
  - vm_compute. reflexivity.
  - vm_compute. reflexivity.
  - vm_compute. reflexivity.
  - vm_compute. lia.
  - cbn [m_arg0 request]. unfold MAX_FILE_SIZE. lia.
  - exists t3, f3. split; [exact Hs|]. split; [exact Hf3|]. split; [exact Hsz|].
    rewrite Hf, Hd. reflexivity.
Defined.
