(* ===== verification/Proc.v ===== *)
(** * Process server ([servers/proc/proc.c])

    The process table and the request handlers.  Every [proc_write] sends one
    message to the console server; [out] collects the texts of these messages
    in order.  A read outside of an array, or of a byte that was never
    written, is a [Fault]. *)

From Stdlib Require Import String.
From S2P Require Import Prelude Cstring Console.

Definition PROC_SPAWN : Z := 1.
Definition PROC_KILL : Z := 2.
Definition PROC_LIST : Z := 3.
Definition PROC_GET_INFO : Z := 4.

Definition MAX_PROCESSES : nat := 64.
Definition PROC_MSG_DATA : nat := 256.

Record process_info : Type := mk_proc {
  pid : Z; pname : list Z; entry_point : Z; stack_ptr : Z; pstate : Z; parent_pid : Z;
  exit_code : Z
}.
Definition proc_empty : process_info := mk_proc 0 (replicate 32 0) 0 0 0 0 0.

Record procs : Type := mk_procs {
  process_table : list process_info;
  next_pid : Z;
  out : list (list Z)
}.
Definition procs0 : procs := mk_procs (replicate MAX_PROCESSES proc_empty) 1 [].

(** A literal with its final zero. *)
Definition lit (s : string) : list Z := bytes s ++ [0].
#[global] Arguments lit s%_string.
Definition nl : list Z := [10].

(** ** Output *)

(** [for (int i = 0; s[i] && i < 256; i++) msg.data[i] = s[i];] *)
Fixpoint msg_text (n : nat) (s : list Z) {struct s} : outcome (list Z) :=
  match s with
  | [] => Fault OutOfBounds
  | c :: s' =>
      if c =? 0 then Ok [] else
      match n with O => Ok [] | S n' => cons c <$> msg_text n' s' end
  end.

Definition proc_write (s : list Z) (st : procs) : outcome procs :=
  t ← msg_text PROC_MSG_DATA s;
  Ok (mk_procs st.(process_table) st.(next_pid) (st.(out) ++ [t])).

(** The string of a buffer some bytes of which may not have been written. *)
Fixpoint defined_bytes (buf : list (option Z)) : outcome (list Z) :=
  match buf with
  | [] => Ok []
  | None :: _ => Fault Uninitialised
  | Some c :: buf' => if c =? 0 then Ok [0] else cons c <$> defined_bytes buf'
  end.

Definition hex_char (nibble : Z) : Z := if nibble <? 10 then 48 + nibble else 97 + (nibble - 10).

(** The loop of [proc_write_hex], from [i] down to 0: [buf[18 - i]]. *)
Fixpoint hex_loop (i : nat) (val : Z) (buf : list (option Z)) : list (option Z) :=
  match i with
  | O => buf
  | S i' => hex_loop i' (Z.shiftr val 4) (<[(18 - i')%nat := Some (hex_char (val .& 15))]> buf)
  end.

Definition proc_hex_buf (val : Z) : list (option Z) :=
  let buf := <[1%nat := Some 120]> (<[0%nat := Some 48]> (replicate 19 None)) in
  <[18%nat := Some 0]> (hex_loop 16 val buf).

Definition proc_write_hex (val : Z) (st : procs) : outcome procs :=
  s ← defined_bytes (proc_hex_buf val); proc_write s st.

Definition proc_write_dec (val : Z) (st : procs) : outcome procs :=
  if val =? 0 then proc_write (lit "0") st else
  match dec_loop DEC_FUEL val with
  | Some digits => proc_write (rev digits ++ [0]) st
  | None => Fault OutOfBounds
  end.

(** ** Operations *)

Definition upd_proc (i : nat) (f : process_info → process_info) (st : procs) : procs :=
  mk_procs (alter f i st.(process_table)) st.(next_pid) st.(out).
Definition proc_at (st : procs) (i : nat) : process_info := default proc_empty (st.(process_table) !! i).

Definition list_state (s : Z) : list Z :=
  if s =? 1 then lit "READY  " else if s =? 2 then lit "RUNNING"
  else if s =? 3 then lit "BLOCKED" else if s =? 4 then lit "TERM   " else lit "UNKNOWN".
Definition info_state (s : Z) : list Z :=
  if s =? 1 then lit "READY" else if s =? 2 then lit "RUNNING"
  else if s =? 3 then lit "BLOCKED" else if s =? 4 then lit "TERMINATED" else lit "UNKNOWN".

(** One line of the listing. *)
Definition list_line (p : process_info) (st : procs) : outcome procs :=
  st1 ← proc_write_dec (pid p) st;
  st2 ← proc_write (lit "  ") st1;
  st3 ← proc_write_dec (parent_pid p) st2;
  st4 ← proc_write (lit "  ") st3;
  st5 ← proc_write (list_state (pstate p)) st4;
  st6 ← proc_write (lit "  ") st5;
  st7 ← proc_write (pname p) st6;
  proc_write (nl ++ [0]) st7.

Fixpoint list_loop (ps : list process_info) (count : nat) (st : procs) : outcome (nat * procs) :=
  match ps with
  | [] => Ok (count, st)
  | p :: ps' =>
      if negb (pid p =? 0) then st' ← list_line p st; list_loop ps' (S count) st'
      else list_loop ps' count st
  end.

Definition proc_list (st : procs) : outcome procs :=
  st1 ← proc_write (nl ++ bytes "=== Process List ===" ++ nl ++ [0]) st;
  st2 ← proc_write (bytes "PID  PPID  STATE      NAME" ++ nl ++ [0]) st1;
  st3 ← proc_write (bytes "---  ----  -----      ----" ++ nl ++ [0]) st2;
  '(count, st4) ← list_loop st3.(process_table) 0 st3;
  st5 ← (if decide (count = 0%nat) then proc_write (bytes "(no processes)" ++ nl ++ [0]) st4
         else Ok st4);
  proc_write (bytes "====================" ++ nl ++ [0]) st5.

(** [void proc_spawn(const char *path, const char *name)]; [path] is unused. *)
Definition proc_spawn (name : list Z) (st : procs) : outcome procs :=
  match first_from (λ p, pid p =? 0) st.(process_table) 0 with
  | None => proc_write (bytes "[proc] No free process slots" ++ nl ++ [0]) st
  | Some i =>
      n ← strncpy (pname (proc_at st i)) name 31;
      let new_pid := st.(next_pid) in
      let st1 := mk_procs
        (alter (λ p, mk_proc new_pid (<[31%nat := 0]> n) (entry_point p) (stack_ptr p) 1 0 0) i
           st.(process_table)) (st.(next_pid) ⊞ 1) st.(out) in
      st2 ← proc_write (lit "[proc] Spawned process ") st1;
      st3 ← proc_write name st2;
      st4 ← proc_write (lit " with PID ") st3;
      st5 ← proc_write_dec (pid (proc_at st4 i)) st4;
      proc_write (nl ++ [0]) st5
  end.

Definition not_found (p : Z) (st : procs) : outcome procs :=
  st1 ← proc_write (lit "[proc] Process PID ") st;
  st2 ← proc_write_dec p st1;
  proc_write (bytes " not found" ++ nl ++ [0]) st2.

Definition proc_kill (p : Z) (st : procs) : outcome procs :=
  match first_from (λ q, pid q =? p) st.(process_table) 0 with
  | None => not_found p st
  | Some i =>
      let st1 := upd_proc i (λ q, mk_proc (pid q) (pname q) (entry_point q) (stack_ptr q) 4
                                    (parent_pid q) (-1)) st in
      st2 ← proc_write (lit "[proc] Killed process PID ") st1;
      st3 ← proc_write_dec p st2;
      proc_write (nl ++ [0]) st3
  end.

Definition write_all (ss : list (list Z)) (st : procs) : outcome procs :=
  foldl (λ o s, st ← o; proc_write s st) (Ok st) ss.

Definition proc_get_info (p : Z) (st : procs) : outcome procs :=
  match first_from (λ q, pid q =? p) st.(process_table) 0 with
  | None => not_found p st
  | Some i =>
      let q := proc_at st i in
      st1 ← write_all [nl ++ bytes "=== Process Info ===" ++ nl ++ [0]; lit "PID: "] st;
      st2 ← proc_write_dec (pid q) st1;
      st3 ← write_all [nl ++ [0]; lit "PPID: "] st2;
      st4 ← proc_write_dec (parent_pid q) st3;
      st5 ← write_all [nl ++ [0]; lit "Name: "; pname q; nl ++ [0]; lit "State: ";
                       info_state (pstate q); nl ++ [0]; lit "Exit Code: "] st4;
      st6 ← proc_write_dec (u64 (exit_code q)) st5;
      write_all [nl ++ [0]; bytes "====================" ++ nl ++ [0]] st6
  end.

(** The requests of the server loop: type, first argument and data. *)
Record pmsg : Type := mk_pmsg { pm_type : Z; pm_arg0 : Z; pm_data : list Z }.

Definition proc_dispatch (msg : pmsg) (st : procs) : outcome procs :=
  if pm_type msg =? PROC_SPAWN then
    len ← strlen (pm_data msg);
    proc_spawn (drop (S len) (pm_data msg)) st
  else if pm_type msg =? PROC_KILL then proc_kill (pm_arg0 msg) st
  else if pm_type msg =? PROC_LIST then proc_list st
  else if pm_type msg =? PROC_GET_INFO then proc_get_info (pm_arg0 msg) st
  else Ok st.

(** The start of the server up to its loop: the first message, the entry of
    the init process, and the announcement of the endpoint. *)
Definition proc_start_table (st : procs) : outcome procs :=
  st1 ← proc_write (bytes "[proc] Process server starting..." ++ nl ++ [0]) st;
  n ← strncpy (pname (proc_at st1 0)) (lit "init") 31;
  Ok (mk_procs (alter (λ p, mk_proc 1 n (entry_point p) (stack_ptr p) 2 0 (exit_code p)) 0%nat
                  st1.(process_table)) 2 st1.(out)).

Definition proc_start (endpoint : Z) (st : procs) : outcome procs :=
  st1 ← proc_start_table st;
  st2 ← proc_write (lit "[proc] Process server ready on endpoint ") st1;
  st3 ← proc_write_hex endpoint st2;
  proc_write (nl ++ [0]) st3.

(** ** Output changes no table *)

#[local] Arguments lit : simpl never.
#[local] Arguments bytes : simpl never.
#[local] Arguments proc_write : simpl never.
#[local] Arguments proc_write_dec : simpl never.

Definition same_table (st st' : procs) : Prop :=
  st'.(process_table) = st.(process_table) ∧ st'.(next_pid) = st.(next_pid).

(** An operation that always succeeds and only writes. *)
Definition quiet (o : procs → outcome procs) : Prop :=
  ∀ st, ∃ st', o st = Ok st' ∧ same_table st st'.

Lemma quiet_bind o1 o2 : quiet o1 → quiet o2 → quiet (λ st, st1 ← o1 st; o2 st1).
Proof.
  intros H1 H2 st. destruct (H1 st) as (st1 & E1 & T1 & N1). destruct (H2 st1) as (st2 & E2 & T2 & N2).
  exists st2. rewrite E1. simpl. rewrite E2. split; [done|]. split; congruence.
Qed.

Lemma msg_text_ok n s : terminated s → ∃ t, msg_text n s = Ok t.
Proof.
  revert n. induction s as [|c s IH]; intros n H; [by apply elem_of_nil in H|]. cbn [msg_text].
  destruct (Z.eqb_spec c 0); [by exists []|]. destruct n as [|n]; [by exists []|].
  destruct (IH n) as [t ->]; [by destruct (terminated_cons _ _ H)|]. by exists (c :: t).
Qed.

Lemma quiet_write s : terminated s → quiet (proc_write s).
Proof.
  intros Ht st. destruct (msg_text_ok PROC_MSG_DATA s Ht) as [t E]. unfold proc_write.
  rewrite E. simpl. eexists. split; [done|by split].
Qed.

Lemma terminated_snoc s : terminated (s ++ [0]).
Proof. apply elem_of_app. right. by left. Qed.
Lemma terminated_lit s : terminated (lit s).
Proof. apply terminated_snoc. Qed.
Lemma terminated_nl : terminated (nl ++ [0]).
Proof. apply terminated_snoc. Qed.
Lemma terminated_line a : terminated (a ++ nl ++ [0]).
Proof. rewrite app_assoc. apply terminated_snoc. Qed.
Lemma terminated_line3 a b : terminated (a ++ b ++ nl ++ [0]).
Proof. rewrite !app_assoc. apply terminated_snoc. Qed.
Lemma terminated_list_state s : terminated (list_state s).
Proof. unfold list_state. repeat case_match; apply terminated_lit. Qed.
Lemma terminated_info_state s : terminated (info_state s).
Proof. unfold info_state. repeat case_match; apply terminated_lit. Qed.
#[local] Hint Resolve terminated_lit terminated_nl terminated_line terminated_line3
  terminated_list_state terminated_info_state quiet_write : aegis.

Lemma quiet_write_dec v : 0 <= v < 2 ^ 64 → quiet (proc_write_dec v).
Proof.
  intros Hv. unfold proc_write_dec. destruct (v =? 0); [auto with aegis|].
  destruct (dec_loop_total DEC_FUEL v) as (buf & -> & _).
  { split; [lia|]. apply Z.lt_trans with (2 ^ 64); [lia|]. reflexivity. }
  apply quiet_write, terminated_snoc.
Qed.

Lemma quiet_write_all ss : Forall terminated ss → quiet (write_all ss).
Proof.
  intros HF st. unfold write_all. assert (G : ∀ st0, same_table st st0 →
    ∃ st', foldl (λ o s, st ← o; proc_write s st) (Ok st0) ss = Ok st' ∧ same_table st st').
  { induction HF as [|s ss Hs _ IH]; intros st0 H0; simpl; [by eexists|].
    destruct (quiet_write s Hs st0) as (st1 & -> & T1 & N1). apply IH.
    destruct H0. split; congruence. }
  by apply G.
Qed.

(** ** The table *)

Record proc_ok (p : process_info) : Prop := {
  po_name : length (pname p) = 32%nat;
  po_term : terminated (pname p);
  po_pid : 0 <= pid p < 2 ^ 64;
  po_parent : 0 <= parent_pid p < 2 ^ 64
}.

(** [st] holds well-formed entries, and the identifiers in use are distinct
    and were given out before. *)
Record procs_ok (st : procs) : Prop := {
  pk_len : length st.(process_table) = MAX_PROCESSES;
  pk_entries : Forall proc_ok st.(process_table);
  pk_next : 0 < st.(next_pid) < 2 ^ 64;
  pk_below : ∀ i p, st.(process_table) !! i = Some p → pid p < st.(next_pid);
  pk_unique : ∀ i j p q, st.(process_table) !! i = Some p → st.(process_table) !! j = Some q →
    pid p ≠ 0 → pid p = pid q → i = j
}.

Lemma procs_ok_same st st' : same_table st st' → procs_ok st → procs_ok st'.
Proof. intros [Et En] [? ? ? ? ?]. split; rewrite ?Et, ?En; done. Qed.

Lemma quiet_list_line p : proc_ok p → quiet (list_line p).
Proof.
  intros [? ? ? ?]. unfold list_line.
  repeat first [apply quiet_write_dec; lia | apply quiet_write; auto with aegis; fail
               | apply quiet_bind].
Qed.

Lemma list_loop_ok ps n st :
  Forall proc_ok ps → ∃ m st', list_loop ps n st = Ok (m, st') ∧ same_table st st'.
Proof.
  intros HF. revert n st. induction HF as [|p ps Hp _ IH]; intros n st; simpl; [by eexists _, _|].
  destruct (negb (pid p =? 0)); [|apply IH].
  destruct (quiet_list_line p Hp st) as (st1 & -> & T1 & N1). simpl.
  destruct (IH (S n) st1) as (m & st2 & E & T2 & N2). eexists _, _. split; [exact E|]. split; congruence.
Qed.

Lemma pid_range st i p : procs_ok st → st.(process_table) !! i = Some p → proc_ok p.
Proof. intros Hok Hp. eapply Forall_lookup_1; [apply Hok|done]. Qed.

Lemma quiet_not_found p : 0 <= p < 2 ^ 64 → quiet (not_found p).
Proof.
  intros Hp. unfold not_found. apply quiet_bind; [auto with aegis|].
  apply quiet_bind; [by apply quiet_write_dec|auto with aegis].
Qed.

(** The entry of a new process. *)
Definition spawned (new_pid : Z) (n : list Z) (p : process_info) : process_info :=
  mk_proc new_pid n (entry_point p) (stack_ptr p) 1 0 0.

Lemma procs_ok_spawned st i p n :
  procs_ok st → next_pid st < 2 ^ 64 - 1 → st.(process_table) !! i = Some p → pid p = 0 →
  length n = 32%nat → terminated n →
  procs_ok (mk_procs (alter (spawned (next_pid st) n) i st.(process_table)) (next_pid st ⊞ 1) (out st)).
Proof.
  intros [Hl HF Hn Hb Hu] Hnext Hp Hp0 Hln Htm. rewrite u64_small by lia.
  assert (Hlk : ∀ j q, alter (spawned (next_pid st) n) i (process_table st) !! j = Some q →
    (i = j ∧ q = spawned (next_pid st) n p) ∨ (i ≠ j ∧ process_table st !! j = Some q)).
  { intros j q. rewrite list_lookup_alter. case_decide as E; [subst j|by right].
    rewrite Hp. simpl. intros [= <-]. by left. }
  split; simpl.
  - by rewrite length_alter.
  - apply Forall_alter; [done|]. intros q _ _. split; simpl; [done|done|lia|lia].
  - lia.
  - intros j q [(_ & ->)|(_ & Hq)]%Hlk; simpl; [lia|]. specialize (Hb j q Hq). lia.
  - intros j k q r Hq Hr Hq0 E.
    destruct (Hlk _ _ Hq) as [(Ej & ->)|(Hj & Hq')], (Hlk _ _ Hr) as [(Ek & ->)|(Hk & Hr')]; simpl in *.
    + congruence.
    + specialize (Hb k r Hr'). lia.
    + specialize (Hb j q Hq'). lia.
    + by eapply Hu.
Qed.

(** Marking an entry terminated. *)
Definition killed (q : process_info) : process_info :=
  mk_proc (pid q) (pname q) (entry_point q) (stack_ptr q) 4 (parent_pid q) (-1).

Lemma procs_ok_killed st i : procs_ok st → procs_ok (upd_proc i killed st).
Proof.
  intros [Hl HF Hn Hb Hu].
  assert (Hlk : ∀ j q, alter killed i (process_table st) !! j = Some q →
    ∃ q0, process_table st !! j = Some q0 ∧ pid q = pid q0).
  { intros j q. rewrite list_lookup_alter. case_decide; [subst j|by eauto].
    destruct (process_table st !! i) as [q0|]; simpl; [|done]. intros [= <-]. by exists q0. }
  split; simpl; [by rewrite length_alter| |done| |].
  - apply Forall_alter; [done|]. intros q _ [? ? ? ?]. by split.
  - intros j q Hq. destruct (Hlk _ _ Hq) as (q0 & Hq0 & ->). by apply (Hb j).
  - intros j k q r Hq Hr Hne E. destruct (Hlk _ _ Hq) as (q0 & Hq0 & E1), (Hlk _ _ Hr) as (r0 & Hr0 & E2).
    apply (Hu j k q0 r0); congruence.
Qed.

(** What a request does to the table. *)
Definition table_step (msg : pmsg) (st : procs) (tbl' : list process_info) (next' : Z) : Prop :=
  if pm_type msg =? PROC_SPAWN then
    match first_from (λ p, pid p =? 0) st.(process_table) 0 with
    | Some i => ∃ n, cstr n = take 31 (cstr (drop (S (length (cstr (pm_data msg)))) (pm_data msg))) ∧
        tbl' = alter (spawned st.(next_pid) n) i st.(process_table) ∧ next' = st.(next_pid) + 1
    | None => tbl' = st.(process_table) ∧ next' = st.(next_pid)
    end
  else if pm_type msg =? PROC_KILL then
    next' = st.(next_pid) ∧
    tbl' = match first_from (λ q, pid q =? pm_arg0 msg) st.(process_table) 0 with
           | Some i => alter killed i st.(process_table)
           | None => st.(process_table)
           end
  else tbl' = st.(process_table) ∧ next' = st.(next_pid).

Lemma spawn_ok st name :
  procs_ok st → next_pid st < 2 ^ 64 - 1 → terminated name →
  ∃ st', proc_spawn name st = Ok st' ∧ procs_ok st' ∧
    match first_from (λ p, pid p =? 0) st.(process_table) 0 with
    | Some i => ∃ n, cstr n = take 31 (cstr name) ∧
        st'.(process_table) = alter (spawned st.(next_pid) n) i st.(process_table) ∧
        st'.(next_pid) = st.(next_pid) + 1
    | None => st'.(process_table) = st.(process_table) ∧ st'.(next_pid) = st.(next_pid)
    end.
Proof.
  intros Hok Hnext Htm. unfold proc_spawn.
  destruct (first_from (λ p, pid p =? 0) (process_table st) 0) as [i|] eqn:Ei.
  - apply first_from_Some in Ei as (_ & (p & Hp & Hp0%Z.eqb_eq) & _). rewrite Nat.sub_0_r in Hp.
    assert (Hat : proc_at st i = p) by (unfold proc_at; by rewrite Hp).
    destruct (strncpy_name 31 (pname p) name) as (n & E & Hln & Hc & Ht);
      [apply (pid_range st i p Hok Hp)|done|].
    rewrite Hat, E. cbn [mbind outcome_bind].
    pose proof (procs_ok_spawned st i p (<[31%nat := 0]> n) Hok Hnext Hp Hp0
      ltac:(by rewrite length_insert) Ht) as Hok1.
    change (λ p0, mk_proc (next_pid st) (<[31%nat := 0]> n) (entry_point p0) (stack_ptr p0) 1 0 0)
      with (spawned (next_pid st) (<[31%nat := 0]> n)).
    set (st1 := mk_procs _ _ _) in *.
    assert (Hpid : ∀ s, same_table st1 s → pid (proc_at s i) = next_pid st).
    { intros s [Hs _]. unfold proc_at. rewrite Hs. simpl. rewrite list_lookup_alter_eq, Hp. done. }
    assert (Q : ∃ st', (st2 ← proc_write (lit "[proc] Spawned process ") st1;
      st3 ← proc_write name st2; st4 ← proc_write (lit " with PID ") st3;
      st5 ← proc_write_dec (pid (proc_at st4 i)) st4; proc_write (nl ++ [0]) st5) = Ok st' ∧
      same_table st1 st').
    { destruct (quiet_write _ (terminated_lit "[proc] Spawned process ") st1) as (s2 & -> & S2). cbn [mbind outcome_bind].
      destruct (quiet_write _ Htm s2) as (s3 & -> & S3). cbn [mbind outcome_bind].
      destruct (quiet_write _ (terminated_lit " with PID ") s3) as (s4 & -> & S4). cbn [mbind outcome_bind].
      assert (S14 : same_table st1 s4) by (destruct S2, S3, S4; split; congruence).
      rewrite (Hpid s4 S14).
      destruct (quiet_write_dec (next_pid st) ltac:(destruct Hok; lia) s4) as (s5 & -> & S5). cbn [mbind outcome_bind].
      destruct (quiet_write _ terminated_nl s5) as (s6 & -> & S6).
      exists s6. split; [done|]. destruct S14, S5, S6. split; congruence. }
    destruct Q as (st' & E' & T & N). exists st'. split; [exact E'|].
    split; [by apply (procs_ok_same st1)|]. eexists. split; [exact Hc|]. rewrite T, N.
    split; [done|]. simpl. apply u64_small. destruct Hok. lia.
  - destruct (quiet_write (bytes "[proc] No free process slots" ++ nl ++ [0]) ltac:(auto with aegis) st)
      as (st' & E' & S'). exists st'. split; [exact E'|]. split; [by apply (procs_ok_same st)|done].
Qed.

Lemma kill_ok st p :
  procs_ok st → 0 <= p < 2 ^ 64 →
  ∃ st', proc_kill p st = Ok st' ∧ procs_ok st' ∧ st'.(next_pid) = st.(next_pid) ∧
    st'.(process_table) =
      match first_from (λ q, pid q =? p) st.(process_table) 0 with
      | Some i => alter killed i st.(process_table)
      | None => st.(process_table)
      end.
Proof.
  intros Hok Hp. unfold proc_kill.
  destruct (first_from (λ q, pid q =? p) (process_table st) 0) as [i|].
  - pose proof (procs_ok_killed st i Hok) as Hok1.
    change (λ q, mk_proc (pid q) (pname q) (entry_point q) (stack_ptr q) 4 (parent_pid q) (-1))
      with killed.
    assert (Q : quiet (λ st1, st2 ← proc_write (lit "[proc] Killed process PID ") st1;
      st3 ← proc_write_dec p st2; proc_write (nl ++ [0]) st3)).
    { apply quiet_bind; [auto with aegis|]. apply quiet_bind; [by apply quiet_write_dec|auto with aegis]. }
    destruct (Q (upd_proc i killed st)) as (st' & E' & T & N). exists st'. split; [exact E'|].
    split; [by apply (procs_ok_same (upd_proc i killed st))|]. by rewrite T, N.
  - destruct (quiet_not_found p Hp st) as (st' & E' & T & N). exists st'. split; [exact E'|].
    split; [by apply (procs_ok_same st)|]. done.
Qed.

Lemma list_ok st : procs_ok st → ∃ st', proc_list st = Ok st' ∧ same_table st st'.
Proof.
  intros Hok. unfold proc_list.
  destruct (quiet_write (nl ++ bytes "=== Process List ===" ++ nl ++ [0]) ltac:(auto with aegis) st)
    as (s1 & -> & T1 & N1). cbn [mbind outcome_bind].
  destruct (quiet_write (bytes "PID  PPID  STATE      NAME" ++ nl ++ [0]) ltac:(auto with aegis) s1)
    as (s2 & -> & T2 & N2). cbn [mbind outcome_bind].
  destruct (quiet_write (bytes "---  ----  -----      ----" ++ nl ++ [0]) ltac:(auto with aegis) s2)
    as (s3 & -> & T3 & N3). cbn [mbind outcome_bind].
  destruct (list_loop_ok (process_table s3) 0 s3) as (m & s4 & -> & T4 & N4).
  { rewrite T3, T2, T1. apply Hok. }
  cbn [mbind outcome_bind]. assert (Q : ∃ s5, (if decide (m = 0%nat) then proc_write (bytes "(no processes)" ++ nl ++ [0]) s4
    else Ok s4) = Ok s5 ∧ same_table s4 s5).
  { case_decide; [|by eexists]. apply quiet_write. auto with aegis. }
  destruct Q as (s5 & -> & T5 & N5). cbn [mbind outcome_bind].
  destruct (quiet_write (bytes "====================" ++ nl ++ [0]) ltac:(auto with aegis) s5)
    as (s6 & -> & T6 & N6).
  exists s6. split; [done|]. split; congruence.
Qed.

Lemma get_info_ok st p :
  procs_ok st → 0 <= p < 2 ^ 64 → ∃ st', proc_get_info p st = Ok st' ∧ same_table st st'.
Proof.
  intros Hok Hp. unfold proc_get_info.
  destruct (first_from (λ q, pid q =? p) (process_table st) 0) as [i|] eqn:Ei;
    [|by apply quiet_not_found].
  apply first_from_Some in Ei as (_ & (q & Hq & _) & _). rewrite Nat.sub_0_r in Hq.
  assert (Hat : proc_at st i = q) by (unfold proc_at; by rewrite Hq). rewrite Hat.
  destruct (pid_range st i q Hok Hq) as [_ Hnm Hpid Hpar].
  pose proof (u64_range (exit_code q)) as Hx.
  assert (Q : quiet (λ st, st1 ← write_all [nl ++ bytes "=== Process Info ===" ++ nl ++ [0]; lit "PID: "] st;
      st2 ← proc_write_dec (pid q) st1;
      st3 ← write_all [nl ++ [0]; lit "PPID: "] st2;
      st4 ← proc_write_dec (parent_pid q) st3;
      st5 ← write_all [nl ++ [0]; lit "Name: "; pname q; nl ++ [0]; lit "State: ";
                       info_state (pstate q); nl ++ [0]; lit "Exit Code: "] st4;
      st6 ← proc_write_dec (u64 (exit_code q)) st5;
      write_all [nl ++ [0]; bytes "====================" ++ nl ++ [0]] st6)); [|apply Q].
  do 3 (apply quiet_bind; [apply quiet_write_all; repeat constructor; auto with aegis|];
        apply quiet_bind; [apply quiet_write_dec; lia|]).
  apply quiet_write_all. repeat constructor; auto with aegis.
Qed.

(** ** Properties *)

(** A request whose strings are terminated inside of the message. *)
Definition pmsg_ok (msg : pmsg) : Prop :=
  0 <= pm_arg0 msg < 2 ^ 64 ∧ terminated (pm_data msg) ∧
  terminated (drop (S (length (cstr (pm_data msg)))) (pm_data msg)).

Lemma table_step_keeps msg st tbl' next' i p :
  table_step msg st tbl' next' → st.(process_table) !! i = Some p → pid p ≠ 0 →
  ∃ p', tbl' !! i = Some p' ∧ pid p' = pid p.
Proof.
  unfold table_step. intros Hs Hp Hne. destruct (_ =? PROC_SPAWN).
  - destruct (first_from _ _ 0) as [j|] eqn:Ej; [|destruct Hs as [-> _]; by exists p].
    destruct Hs as (n & _ & -> & _). rewrite list_lookup_alter. case_decide; [subst j|by exists p].
    apply first_from_Some in Ej as (_ & (q & Hq & Hq0%Z.eqb_eq) & _). rewrite Nat.sub_0_r in Hq.
    congruence.
  - destruct (_ =? PROC_KILL); [|destruct Hs as [-> _]; by exists p]. destruct Hs as [_ ->].
    destruct (first_from _ _ 0) as [j|]; [|by exists p]. rewrite list_lookup_alter.
    case_decide; [subst j|by exists p]. rewrite Hp. by exists (killed p).
Qed.

(** C15: the process server answers every request whose strings are
    terminated without leaving an array.  Spawning takes the lowest slot
    without a process and gives it the next identifier; killing marks the
    slot of the identifier as terminated; the other requests change nothing.
    Identifiers in use stay distinct, and a slot once used keeps its
    identifier for ever: killed processes are never removed, so that at most
    63 processes can be spawned in the life of the server. *)
Theorem proc_dispatch_refines msg st :
  procs_ok st → next_pid st < 2 ^ 64 - 1 → pmsg_ok msg →
  ∃ st', proc_dispatch msg st = Ok st' ∧ procs_ok st' ∧
    table_step msg st st'.(process_table) st'.(next_pid) ∧
    ∀ i p, st.(process_table) !! i = Some p → pid p ≠ 0 →
      ∃ p', st'.(process_table) !! i = Some p' ∧ pid p' = pid p.
Proof.
  intros Hok Hnext (Ha & Hd & Hn).
  assert (H : ∃ st', proc_dispatch msg st = Ok st' ∧ procs_ok st' ∧
    table_step msg st st'.(process_table) st'.(next_pid)).
  { unfold proc_dispatch, table_step. destruct (pm_type msg =? PROC_SPAWN).
    { rewrite (proj1 (strlen_total _ Hd)). by apply spawn_ok. }
    destruct (pm_type msg =? PROC_KILL).
    { destruct (kill_ok st (pm_arg0 msg) Hok Ha) as (st' & E & Hok' & N & T). by exists st'. }
    destruct (pm_type msg =? PROC_LIST).
    { destruct (list_ok st Hok) as (st' & E & HS). exists st'.
      split; [done|]. split; [by apply (procs_ok_same st)|done]. }
    destruct (pm_type msg =? PROC_GET_INFO).
    { destruct (get_info_ok st (pm_arg0 msg) Hok Ha) as (st' & E & HS). exists st'.
      split; [done|]. split; [by apply (procs_ok_same st)|done]. }
    by exists st. }
  destruct H as (st' & E & Hok' & HT). exists st'. split_and!; try done.
  intros i p. by eapply (table_step_keeps msg st).
Qed.

(** The table after the server's start. *)
Definition started : procs :=
  match proc_start_table procs0 with Ok st => st | Fault _ => procs0 end.

Lemma started_ok : procs_ok started.
Proof.
  assert (HF : forallb (λ i, bool_decide (pid (proc_at started i) = if decide (i = 0%nat) then 1 else 0))
    (seq 0 64) = true) by (vm_compute; reflexivity).
  assert (Hpid : ∀ i p, process_table started !! i = Some p → pid p = if decide (i = 0%nat) then 1 else 0).
  { intros i p Hp. rewrite forallb_forall in HF. pose proof (lookup_lt_Some _ _ _ Hp) as Hi.
    change (length (process_table started)) with 64%nat in Hi.
    specialize (HF i ltac:(apply in_seq; lia)). apply bool_decide_eq_true_1 in HF.
    unfold proc_at in HF. by rewrite Hp in HF. }
  split.
  - reflexivity.
  - assert (Hb : forallb (λ p, bool_decide (length (pname p) = 32%nat ∧ terminated (pname p) ∧
      0 <= pid p ∧ pid p < 2 ^ 64 ∧ 0 <= parent_pid p ∧ parent_pid p < 2 ^ 64)) (process_table started)
      = true) by (vm_compute; reflexivity).
    apply Forall_forall. intros p Hp. rewrite forallb_forall in Hb.
    assert (Hin : In p (process_table started)) by (by apply list_elem_of_In).
    apply Hb, bool_decide_eq_true_1 in Hin as (H1 & H2 & H3 & H4 & H5 & H6).
    exact (Build_proc_ok p H1 H2 (conj H3 H4) (conj H5 H6)).
  - vm_compute. done.
  - intros i p Hp. rewrite (Hpid i p Hp). change (next_pid started) with 2. case_decide; lia.
  - intros i j p q Hp Hq. rewrite (Hpid i p Hp), (Hpid j q Hq). repeat case_decide; congruence || lia.
Qed.

Lemma proc_dispatch_refines_witness :
  ∃ st', proc_dispatch (mk_pmsg PROC_SPAWN 0 (bytes "/bin/sh" ++ [0] ++ bytes "sh" ++ replicate 246 0))
           started = Ok st' ∧ procs_ok st'.
Proof.
  destruct (proc_dispatch_refines
    (mk_pmsg PROC_SPAWN 0 (bytes "/bin/sh" ++ [0] ++ bytes "sh" ++ replicate 246 0)) started)
    as (st' & E & Hok & _).
  - exact started_ok.
  - vm_compute. reflexivity.
  - split; [cbn [pm_arg0]; lia|].
    split; apply (bool_decide_eq_true_1 (terminated _)); vm_compute; reflexivity.
  - exists st'. split; [exact E|exact Hok].
Defined.

(** [proc_write_hex] fills its buffer from index 3 on and never writes
    index 2, so that sending it reads an uninitialised byte; the server does
    this in its announcement, before it serves any request. *)
Theorem proc_write_hex_uninitialised val endpoint st :
  procs_ok st → proc_write_hex val st = Fault Uninitialised ∧
  proc_start endpoint st = Fault Uninitialised.
Proof.
  intros Hok. assert (Hhex : ∀ v s, proc_write_hex v s = Fault Uninitialised).
  { intros v s. unfold proc_write_hex. assert (E : defined_bytes (proc_hex_buf v) = Fault Uninitialised).
    { reflexivity. }
    by rewrite E. }
  split; [apply Hhex|]. unfold proc_start, proc_start_table.
  destruct (quiet_write (bytes "[proc] Process server starting..." ++ nl ++ [0]) ltac:(auto with aegis) st)
    as (s1 & -> & T1 & _). cbn [mbind outcome_bind].
  assert (Hn : length (pname (proc_at s1 0)) = 32%nat).
  { unfold proc_at. rewrite T1. destruct (process_table st !! 0%nat) as [p|] eqn:Ep; simpl; [|done].
    by apply (pid_range st 0 p). }
  destruct (strncpy_name 31 (pname (proc_at s1 0)) (lit "init") Hn (terminated_lit _))
    as (n & -> & _). cbn [mbind outcome_bind].
  destruct (quiet_write _ (terminated_lit "[proc] Process server ready on endpoint ")
    (mk_procs (alter (λ p, mk_proc 1 n (entry_point p) (stack_ptr p) 2 0 (exit_code p)) 0%nat
       (process_table s1)) 2 (out s1))) as (s2 & -> & _). cbn [mbind outcome_bind].
  by rewrite Hhex.
Qed.

Lemma proc_write_hex_uninitialised_witness :
  proc_start 3 started = Fault Uninitialised.
Proof.
  destruct (proc_write_hex_uninitialised 0 3 started) as [_ H].
  - exact started_ok.
  - exact H.
Defined.
