(* ===== verification/Shell.v ===== *)
(** * Shell ([servers/shell/shell.c])

    The command buffer, the tokeniser, the built-in commands, the handling
    of one key and the receive loop, which takes its keys from an endpoint of
    [Ipc].  Pointers into the command buffer are offsets; what the shell
    prints is the list of its calls to the console.  The specification is a
    line editor over the list of characters typed so far. *)

From Stdlib Require Import String.
From S2P Require Import Prelude Ipc Cstring.

Definition SHELL_MAX_CMD_LEN : nat := 256.
Definition SHELL_MAX_ARGS : nat := 16.
Definition SHELL_PROMPT : list Z := bytes "aegis> ".

Inductive shell_event : Type :=
  | Print (s : list Z)
  | PrintDec (n : Z)
  | Outw (port value : Z).

Definition cmd_buffer0 : list Z := replicate SHELL_MAX_CMD_LEN 0.

(** ** The tokeniser *)

Definition is_blank (c : Z) : bool := (c =? 32) || (c =? 9).
(** [*p && *p != ' ' && *p != '\t'] *)
Definition is_word (c : Z) : bool := negb (c =? 0) && negb (is_blank c).

(** [while (test( *p)) p++;] on the rest [l] of the buffer from [p] on. *)
Fixpoint skip_while (test : Z → bool) (l : list Z) (p : nat) : outcome nat :=
  match l with
  | [] => Fault OutOfBounds
  | c :: l' => if test c then skip_while test l' (S p) else Ok p
  end.

(** The loop of [shell_parse_cmd]: [left] arguments may still be stored.  The
    fuel counts iterations; each of them moves [p] past a word. *)
Fixpoint parse_loop (fuel left p : nat) (buf : list Z) : outcome (list nat * list Z) :=
  match fuel, buf !! p with
  | O, _ | _, None => Fault OutOfBounds
  | S fuel', Some c =>
      if (c =? 0) || bool_decide (left = 0%nat) then Ok ([], buf) else
      p1 ← skip_while is_blank (drop p buf) p;
      if default 0 (buf !! p1) =? 0 then Ok ([], buf) else
      p2 ← skip_while is_word (drop p1 buf) p1;
      '(offs, buf') ←
        (if default 0 (buf !! p2) =? 0 then parse_loop fuel' (left - 1) p2 buf
         else parse_loop fuel' (left - 1) (S p2) (<[p2 := 0]> buf));
      Ok (p1 :: offs, buf')
  end.

(** [int shell_parse_cmd(char *cmd, char **argv, int max_args)]: the offsets
    stored in [argv], whose number is the result, and the buffer. *)
Definition shell_parse_cmd (max_args : nat) (cmd : list Z) : outcome (list nat * list Z) :=
  parse_loop (S (length cmd)) (max_args - 1) 0 cmd.

(** ** Commands *)

(** The argument at offset [o]. *)
Definition arg (buf : list Z) (o : nat) : list Z := drop o buf.

Definition matches (a : list Z) (s : string) : outcome bool :=
  r ← strcmp a (bytes s ++ [0]); Ok (r =? 0).

(** The loop of [echo]. *)
Fixpoint echo_args (args : list (list Z)) : list shell_event :=
  match args with
  | [] => []
  | [a] => [Print (cstr a)]
  | a :: args' => Print (cstr a) :: Print [32] :: echo_args args'
  end.

Definition help_text : list (list Z) :=
  [bytes "Available commands:" ++ [10];
   bytes "  help       - Show this help" ++ [10];
   bytes "  echo       - Print arguments" ++ [10];
   bytes "  clear      - Clear screen (not implemented)" ++ [10];
   bytes "  reboot     - Reboot system" ++ [10]].

Definition shell_exec_builtin (args : list (list Z)) : outcome (list shell_event) :=
  match args with
  | [] => Ok []
  | a0 :: rest =>
      h ← matches a0 "help";
      if (h : bool) then Ok (Print <$> help_text) else
      e ← matches a0 "echo";
      if (e : bool) then Ok (echo_args rest ++ [Print [10]]) else
      c ← matches a0 "clear";
      if (c : bool) then Ok [Print (replicate 20 10)] else
      b ← matches a0 "reboot";
      if (b : bool) then Ok [Print (bytes "Rebooting..." ++ [10]); Outw 1540 35072] else
      Ok [Print (bytes "Unknown command: "); Print (cstr a0); Print [10]]
  end.

(** ** One key *)

(** The body of the receive loop for a key message: [c] is the [char] of the
    message. *)
Definition shell_key (c : Z) (buf : list Z) : outcome (list shell_event * list Z) :=
  if (c =? 10) || (c =? 13) then
    len ← strlen buf;
    let buf := <[len := 0]> buf in
    len ← strlen buf;
    evs ← (if decide (0 < len)%nat then
             '(offs, buf1) ← shell_parse_cmd SHELL_MAX_ARGS buf;
             shell_exec_builtin (arg buf1 <$> offs)
           else Ok []);
    Ok (Print [10] :: evs ++ [Print SHELL_PROMPT], replicate SHELL_MAX_CMD_LEN 0)
  else if (c =? 8) || (c =? 127) then
    len ← strlen buf;
    if decide (0 < len)%nat then Ok ([Print [8; 32; 8]], <[(len - 1)%nat := 0]> buf)
    else Ok ([], buf)
  else if (32 <=? c) && (c <? 127) then
    len ← strlen buf;
    if decide (len < SHELL_MAX_CMD_LEN - 1)%nat
    then Ok ([Print [c]], <[S len := 0]> (<[len := c]> buf))
    else Ok ([], buf)
  else Ok ([], buf).

(** ** The receive loop *)

(** [(char)msg.arg0]: [char] is signed on this target. *)
Definition to_char (z : Z) : Z := (z + 128) mod 256 - 128.

(** One iteration of [while (1)]: [None] stays for a call of [ipc_recv] that
    stored no message. *)
Definition shell_iteration (ep : Z) (st : list endpoint_t * list Z)
    : outcome (list shell_event * (list endpoint_t * list Z)) :=
  let '((result, out), eps) := ipc_recv ep true st.1 in
  match out with
  | Some msg =>
      if (result =? 0) && (msg.(type) =? 4) then
        '(evs, buf) ← shell_key (to_char msg.(arg0)) st.2;
        Ok (evs, (eps, buf))
      else Ok ([], (eps, st.2))
  | None => Ok ([], (eps, st.2))
  end.

(** [shell_main] up to the loop: the endpoint the loop receives on, or [None]
    when it returns without entering the loop. *)
Definition shell_start (eps : list endpoint_t)
    : list shell_event * option Z * list endpoint_t :=
  let '((result, out), eps') := ipc_endpoint_create true eps in
  if negb (result =? 0)
  then ([Print (bytes "[shell] Failed to create endpoint" ++ [10])], None, eps')
  else
    let ep := default 0 out in
    ([Print (bytes "[shell] Shell server started on endpoint "); PrintDec ep; Print [10];
      Print SHELL_PROMPT], Some ep, eps').

(** ** Words *)

(** The maximal runs of non-blank bytes; [cur] is the run being read. *)
Fixpoint words_from (cur l : list Z) : list (list Z) :=
  match l with
  | [] => match cur with [] => [] | _ => [cur] end
  | c :: l' =>
      if is_blank c then match cur with [] => words_from [] l' | _ => cur :: words_from [] l' end
      else words_from (cur ++ [c]) l'
  end.
Definition words (l : list Z) : list (list Z) := words_from [] l.

Lemma words_blanks b l : Forall (λ c, is_blank c = true) b → words (b ++ l) = words l.
Proof.
  induction 1 as [|c b Hc _ IH]; [done|]. unfold words in *. simpl. by rewrite Hc.
Qed.

Lemma words_from_run w cur l :
  Forall (λ c, is_blank c = false) w → words_from cur (w ++ l) = words_from (cur ++ w) l.
Proof.
  intros HF. revert cur. induction HF as [|c w Hc _ IH]; intros cur; [by rewrite app_nil_r|].
  simpl. rewrite Hc, IH. by rewrite <-app_assoc.
Qed.

Lemma words_word w : w ≠ [] → Forall (λ c, is_blank c = false) w → words w = [w].
Proof.
  intros Hne HF. unfold words. rewrite <-(app_nil_r w) at 1. rewrite words_from_run by done.
  simpl. by destruct w.
Qed.

Lemma words_cons w c l :
  w ≠ [] → Forall (λ c, is_blank c = false) w → is_blank c = true →
  words (w ++ c :: l) = w :: words l.
Proof.
  intros Hne HF Hc. unfold words. rewrite words_from_run by done. simpl. rewrite Hc.
  by destruct w.
Qed.

(** ** The tokeniser finds the words *)

(** [skip_while] splits the rest of the buffer. *)
Lemma skip_while_split test l p :
  test 0 = false → terminated l →
  ∃ a c r, l = a ++ c :: r ∧ skip_while test l p = Ok (p + length a)%nat ∧
    Forall (λ c, test c = true) a ∧ test c = false.
Proof.
  intros H0. revert p. induction l as [|x l IH]; intros p Ht; [by apply elem_of_nil in Ht|]. simpl.
  destruct (test x) eqn:E.
  - destruct (terminated_cons _ _ Ht) as [->|Ht']; [congruence|].
    destruct (IH (S p) Ht') as (a & c & r & -> & -> & HF & Hc).
    exists (x :: a), c, r. split_and!; [done|simpl; f_equal; lia|by constructor|done].
  - exists [], x, l. split_and!; [done|simpl; f_equal; lia|constructor|done].
Qed.

Lemma cstr_app a l : Forall (λ c, c ≠ 0) a → cstr (a ++ l) = a ++ cstr l.
Proof.
  induction 1 as [|c a Hc _ IH]; [done|]. simpl. rewrite (proj2 (Z.eqb_neq _ _)) by done. by rewrite IH.
Qed.

Lemma is_blank_nonzero c : is_blank c = true → c ≠ 0.
Proof. unfold is_blank. intros [H%Z.eqb_eq|H%Z.eqb_eq]%orb_true_iff; lia. Qed.

Lemma is_word_props c : is_word c = true → c ≠ 0 ∧ is_blank c = false.
Proof.
  unfold is_word. intros [H1%negb_true_iff%Z.eqb_neq H2%negb_true_iff]%andb_true_iff. done.
Qed.

Lemma not_word_blank c : is_word c = false → c ≠ 0 → is_blank c = true.
Proof.
  unfold is_word. intros [H%negb_false_iff%Z.eqb_eq|H%negb_false_iff]%andb_false_iff Hc; [done|done].
Qed.

(** The rest of the buffer: leading blanks, then its end or a word. *)
Lemma split_rest l p :
  terminated l →
  (∃ b r, l = b ++ 0 :: r ∧ skip_while is_blank l p = Ok (p + length b)%nat ∧ words (cstr l) = []) ∨
  (∃ b w c r, l = b ++ w ++ c :: r ∧ w ≠ [] ∧ skip_while is_blank l p = Ok (p + length b)%nat ∧
     (∀ q, skip_while is_word (w ++ c :: r) q = Ok (q + length w)%nat) ∧
     Forall (λ c, c ≠ 0) w ∧ hd 0 w ≠ 0 ∧
     words (cstr l) = w :: words (if c =? 0 then [] else cstr r) ∧
     (c ≠ 0 → terminated r)).
Proof.
  intros Ht. destruct (skip_while_split is_blank l p eq_refl Ht) as (b & c0 & r0 & -> & E & HF & Hc0).
  assert (Hb0 : Forall (λ c, c ≠ 0) b) by (eapply Forall_impl; [exact HF|apply is_blank_nonzero]).
  rewrite cstr_app, words_blanks by done.
  assert (Ht0 : terminated (c0 :: r0)).
  { unfold terminated in *. apply elem_of_app in Ht as [Hin|?]; [|done].
    rewrite Forall_forall in Hb0. by apply Hb0 in Hin. }
  destruct (decide (c0 = 0)) as [->|Hne]; [left; by exists b, r0|right].
  assert (Hwp : ∀ q, ∃ w c r, c0 :: r0 = w ++ c :: r ∧
    skip_while is_word (c0 :: r0) q = Ok (q + length w)%nat ∧
    Forall (λ c, is_word c = true) w ∧ is_word c = false).
  { intros q. by apply skip_while_split. }
  destruct (Hwp 0%nat) as (w & c & r & Ew & E0 & HFw & Hc).
  assert (Hw : w ≠ []).
  { intros ->. simpl in Ew. injection Ew as -> ->. unfold is_word in Hc. rewrite Hc0 in Hc.
    rewrite (proj2 (Z.eqb_neq _ _)) in Hc by done. done. }
  assert (HFw0 : Forall (λ c, c ≠ 0) w).
  { eapply Forall_impl; [exact HFw|]. intros x Hx. by apply is_word_props. }
  assert (HFwb : Forall (λ c, is_blank c = false) w).
  { eapply Forall_impl; [exact HFw|]. intros x Hx. by apply is_word_props. }
  exists b, w, c, r. rewrite Ew in *. split_and!; try done.
  - intros q. clear -HFw Hc. revert q. induction HFw as [|x w Hx _ IH]; intros q; simpl.
    + rewrite Hc. f_equal. lia.
    + rewrite Hx, IH. f_equal. lia.
  - destruct w as [|x w]; [done|]. simpl. by apply Forall_cons_iff in HFw0 as [? _].
  - rewrite cstr_app by done. simpl. destruct (Z.eqb_spec c 0) as [->|Hc0'].
    + rewrite app_nil_r. by rewrite words_word.
    + rewrite words_cons; [done|done|done|by apply not_word_blank].
  - intros Hc1. unfold terminated in *. apply elem_of_app in Ht0 as [Hin|Hin].
    + rewrite Forall_forall in HFw0. by apply HFw0 in Hin.
    + apply elem_of_cons in Hin as [?|?]; [congruence|done].
Qed.

(** The buffer from a word on, when the word is followed by a zero. *)
Lemma drop_word (buf w : list Z) p :
  (∀ k, (k < length w)%nat → buf !! (p + k)%nat = w !! k) → buf !! (p + length w)%nat = Some 0 →
  drop p buf = w ++ 0 :: drop (S (p + length w)) buf.
Proof.
  intros Hw H0. apply list_eq. intros k. rewrite lookup_drop.
  destruct (decide (k < length w)%nat) as [Hk|Hk].
  - rewrite lookup_app_l by done. by apply Hw.
  - rewrite lookup_app_r by lia. destruct (k - length w)%nat as [|m] eqn:E.
    + replace (p + k)%nat with (p + length w)%nat by lia. done.
    + simpl. rewrite lookup_drop. f_equal. lia.
Qed.

Lemma rest_lookup (buf l : list Z) p k : drop p buf = l → buf !! (p + k)%nat = l !! k.
Proof. intros <-. by rewrite lookup_drop. Qed.

Lemma terminated_lt (buf : list Z) p : terminated (drop p buf) → (p < length buf)%nat.
Proof.
  intros Ht. destruct (decide (p < length buf)%nat); [done|].
  rewrite drop_ge in Ht by lia. by apply elem_of_nil in Ht.
Qed.

(** What the loop has to deliver from offset [p] on, with [left] arguments
    to store. *)
Record parsed (left p : nat) (buf : list Z) (offs : list nat) (buf' : list Z) : Prop := {
  ps_length : length buf' = length buf;
  ps_before : ∀ j, (j < p)%nat → buf' !! j = buf !! j;
  ps_words : (λ o, cstr (drop o buf')) <$> offs = take left (words (cstr (drop p buf)));
  ps_terminated : Forall (λ o, terminated (drop o buf')) offs
}.

Lemma parsed_end left p buf :
  words (cstr (drop p buf)) = [] ∨ left = 0%nat → parsed left p buf [] buf.
Proof.
  intros Hor. split; [done|done| |constructor].
  destruct Hor as [-> | ->]; [by rewrite firstn_nil|done].
Qed.

Section word.
Context (buf b w r : list Z) (p : nat) (c : Z) (ws : list (list Z)).
Hypothesis (Hbuf : drop p buf = b ++ w ++ c :: r).
Hypothesis (Hw : Forall (λ c, c ≠ 0) w).
Hypothesis (Hwords : words (cstr (drop p buf)) = w :: ws).
Let p1 := (p + length b)%nat.
Let p2 := (p1 + length w)%nat.

Lemma drop_word_start : drop p1 buf = w ++ c :: r.
Proof. unfold p1. by rewrite <-drop_drop, Hbuf, drop_app_length. Qed.

Lemma lookup_word_end : buf !! p2 = Some c.
Proof.
  unfold p2. rewrite (rest_lookup _ _ _ _ drop_word_start), lookup_app_r, Nat.sub_diag by lia. done.
Qed.

Lemma word_in_place (buf' : list Z) :
  (∀ j, (j < p2)%nat → buf' !! j = buf !! j) → buf' !! p2 = Some 0 →
  cstr (drop p1 buf') = w ∧ terminated (drop p1 buf').
Proof.
  intros Hag H0. assert (E : drop p1 buf' = w ++ 0 :: drop (S p2) buf').
  { apply drop_word; [|exact H0]. intros k Hk. rewrite Hag by (unfold p2; lia).
    by rewrite (rest_lookup _ _ _ _ drop_word_start), lookup_app_l. }
  rewrite E. split; [by apply cstr_app_zero|]. apply elem_of_app. right. by left.
Qed.

(** The last word of the line, which its terminator ends. *)
Lemma parsed_last left : c = 0 → ws = [] → parsed (S left) p buf [p1] buf.
Proof.
  intros Hc Hnil. destruct (word_in_place buf) as [Ew Ht]; [done|rewrite lookup_word_end; congruence|].
  split; [done|done| |by constructor]. rewrite Hwords, fmap_cons, Ew, Hnil. simpl.
  by rewrite firstn_nil.
Qed.

Lemma drop_after_word : drop (S p2) (<[p2 := 0]> buf) = r.
Proof.
  rewrite drop_insert_lt by lia. apply list_eq. intros k. rewrite lookup_drop.
  replace (S p2 + k)%nat with (p1 + (length w + S k))%nat by (unfold p2; lia).
  rewrite (rest_lookup _ _ _ _ drop_word_start), lookup_app_r by lia.
  by replace (length w + S k - length w)%nat with (S k) by lia.
Qed.

(** A word that a blank ends, which is overwritten with the terminator. *)
Lemma parsed_next left offs buf' :
  ws = words (cstr r) → parsed left (S p2) (<[p2 := 0]> buf) offs buf' → parsed (S left) p buf (p1 :: offs) buf'.
Proof.
  intros Hr [Hl Hag Hws HF]. rewrite drop_after_word in Hws. rewrite length_insert in Hl.
  assert (Hag' : ∀ j, (j < p2)%nat → buf' !! j = buf !! j).
  { intros j Hj. rewrite Hag by lia. by rewrite list_lookup_insert_ne by lia. }
  assert (H0 : buf' !! p2 = Some 0).
  { rewrite Hag by lia. apply list_lookup_insert_eq. eapply lookup_lt_Some, lookup_word_end. }
  destruct (word_in_place buf' Hag' H0) as [Ew Ht]. split; [done| | |by constructor].
  - intros j Hj. apply Hag'. unfold p2, p1. lia.
  - by rewrite Hwords, fmap_cons, Ew, Hws, Hr.
Qed.
End word.

Lemma parse_loop_words fuel : ∀ left p buf,
  terminated (drop p buf) → (length buf < p + fuel)%nat →
  ∃ offs buf', parse_loop fuel left p buf = Ok (offs, buf') ∧ parsed left p buf offs buf'.
Proof.
  induction fuel as [|fuel IH]; intros left p buf Ht Hf;
    pose proof (terminated_lt _ _ Ht) as Hlt; [lia|].
  destruct (lookup_lt_is_Some_2 buf p Hlt) as [c0 Hc0].
  simpl. rewrite Hc0. destruct (Z.eqb_spec c0 0) as [->|Hne]; simpl.
  { exists [], buf. split; [done|]. apply parsed_end. left. by rewrite (drop_S _ _ _ Hc0). }
  destruct left as [|left]; [exists [], buf; split; [done|apply parsed_end; by right]|].
  rewrite bool_decide_false by done. rewrite Nat.sub_succ, Nat.sub_0_r.
  destruct (split_rest (drop p buf) p Ht) as
    [(b & r & El & Eb & Hw)|(b & w & c & r & El & Hwne & Eb & Ew & HFw & Hhd & Hwords & Hr)].
  { rewrite Eb. simpl. rewrite (rest_lookup _ _ _ _ El), lookup_app_r, Nat.sub_diag by lia. simpl.
    exists [], buf. split; [done|]. apply parsed_end. by left. }
  pose proof (drop_word_start _ _ _ _ _ _ El) as E1.
  pose proof (lookup_word_end _ _ _ _ _ _ El) as Hp2.
  assert (Hlen2 : (p + length b + length w < length buf)%nat) by by eapply lookup_lt_Some.
  assert (Hwl : (0 < length w)%nat) by (destruct w; [done|simpl; lia]).
  rewrite Eb. cbn [mbind outcome_bind].
  assert (Hp1 : default 0 (buf !! (p + length b)%nat) ≠ 0).
  { rewrite <-(Nat.add_0_r (p + length b)), (rest_lookup _ _ _ _ E1), lookup_app_l by done.
    destruct w; [done|]. done. }
  rewrite (proj2 (Z.eqb_neq _ _)) by done. rewrite E1, Ew. cbn [mbind outcome_bind].
  rewrite Hp2. change (default 0 (Some c)) with c. destruct (Z.eqb_spec c 0) as [Hc|Hc].
  - destruct fuel as [|fuel]; [lia|]. simpl. rewrite Hp2, Hc. simpl.
    exists [(p + length b)%nat], buf. split; [done|].
    subst c. by apply (parsed_last _ _ _ _ _ _ _ El HFw Hwords).
  - destruct (IH left (S (p + length b + length w)) (<[(p + length b + length w)%nat := 0]> buf))
      as (offs & buf' & E & Hps).
    { rewrite (drop_after_word _ _ _ _ _ _ El). by apply Hr. }
    { rewrite length_insert. lia. }
    rewrite E. exists ((p + length b)%nat :: offs), buf'. split; [done|].
    by apply (parsed_next _ _ _ _ _ _ _ El HFw Hwords).
Qed.

Lemma shell_parse_cmd_words max_args cmd :
  terminated cmd →
  ∃ offs buf, shell_parse_cmd max_args cmd = Ok (offs, buf) ∧ length buf = length cmd ∧
    (λ o, cstr (arg buf o)) <$> offs = take (max_args - 1) (words (cstr cmd)) ∧
    (length offs <= max_args - 1)%nat ∧ Forall (λ o, terminated (arg buf o)) offs.
Proof.
  intros Ht. unfold shell_parse_cmd, arg.
  destruct (parse_loop_words (S (length cmd)) (max_args - 1) 0 cmd) as (offs & buf & E & [Hl _ Hw HF]).
  - by rewrite drop_0.
  - lia.
  - exists offs, buf. rewrite drop_0 in Hw. split_and!; try done.
    apply (f_equal length) in Hw. rewrite length_fmap, length_take in Hw. lia.
Qed.

(** ** Specification: a line editor *)

(** The words with a blank between each two. *)
Definition separate (ws : list (list Z)) : list (list Z) :=
  match ws with [] => [] | w :: ws' => w :: mjoin ((λ v, [[32]; v]) <$> ws') end.

(** What a command line of the words [ws] prints. *)
Definition line_exec (ws : list (list Z)) : list shell_event :=
  match ws with
  | [] => []
  | w :: ws' =>
      if decide (w = bytes "help") then Print <$> help_text
      else if decide (w = bytes "echo") then
        (Print <$> separate ws') ++ [Print [10]]
      else if decide (w = bytes "clear") then [Print (replicate 20 10)]
      else if decide (w = bytes "reboot") then
        [Print (bytes "Rebooting..." ++ [10]); Outw 1540 35072]
      else [Print (bytes "Unknown command: "); Print w; Print [10]]
  end.

(** One key on the line [l]: what is printed and the line afterwards. *)
Definition line_key (c : Z) (l : list Z) : list shell_event * list Z :=
  if bool_decide (c = 10 ∨ c = 13) then
    (Print [10] :: line_exec (take 15 (words l)) ++ [Print SHELL_PROMPT], [])
  else if bool_decide (c = 8 ∨ c = 127) then
    match last l with
    | None => ([], l)
    | Some _ => ([Print [8; 32; 8]], take (length l - 1) l)
    end
  else if bool_decide (32 <= c < 127 ∧ (length l < 255)%nat) then ([Print [c]], l ++ [c])
  else ([], l).

(** The key of a message, if it carries one. *)
Definition line_message (m : option aegis_msg) (l : list Z) : list shell_event * list Z :=
  match m with
  | Some m => if decide (m.(type) = 4) then line_key (to_char m.(arg0)) l else ([], l)
  | None => ([], l)
  end.

(** The command buffer holds the line [l] and zeros. *)
Record line_repr (l buf : list Z) : Prop := {
  line_buf : buf = l ++ replicate (SHELL_MAX_CMD_LEN - length l) 0;
  line_len : (length l <= 255)%nat;
  line_chars : Forall (λ c, 32 <= c < 127) l
}.

(** ** The commands *)

Lemma matches_spec a s :
  terminated a → Forall (λ c, c ≠ 0) (bytes s) →
  matches a s = Ok (bool_decide (cstr a = bytes s)).
Proof.
  intros Ha Hs. unfold matches.
  destruct (strcmp_total a (bytes s ++ [0])) as (r & -> & Hr); [done| |].
  { apply elem_of_app. right. by left. }
  rewrite cstr_app_zero in Hr by done. cbn [mbind outcome_bind]. f_equal.
  destruct (Z.eqb_spec r 0) as [E|E].
  - by rewrite bool_decide_true by by apply Hr.
  - rewrite bool_decide_false; [done|]. intros E'. by apply E, Hr.
Qed.

Lemma echo_args_separate args : echo_args args = Print <$> separate (cstr <$> args).
Proof.
  destruct args as [|a args]; [done|]. revert a.
  induction args as [|b args IH]; intros a; [done|].
  change (echo_args (a :: b :: args)) with (Print (cstr a) :: Print [32] :: echo_args (b :: args)).
  by rewrite IH.
Qed.

(** Decides the comparison of [argv[0]] with the command [s]. *)
Ltac match_command Ha s :=
  let E := fresh "E" in
  rewrite (matches_spec _ s Ha)
    by (apply (bool_decide_eq_true_1 (Forall _ _)); vm_compute; reflexivity);
  cbn [mbind outcome_bind]; case_bool_decide as E;
  [rewrite (decide_True _ _ E)|rewrite (decide_False _ _ E)].

Lemma exec_spec args :
  Forall terminated args → shell_exec_builtin args = Ok (line_exec (cstr <$> args)).
Proof.
  intros HF. destruct args as [|a args]; [done|]. inversion_clear HF as [|?? Ha _].
  unfold shell_exec_builtin, line_exec. rewrite fmap_cons.
  match_command Ha "help"%string; [done|].
  match_command Ha "echo"%string; [by rewrite echo_args_separate|].
  match_command Ha "clear"%string; [done|].
  match_command Ha "reboot"%string; done.
Qed.

(** ** The buffer *)

Lemma line_nonzero l : Forall (λ c, 32 <= c < 127) l → Forall (λ c, c ≠ 0) l.
Proof. intros H. eapply Forall_impl; [exact H|]. simpl. lia. Qed.

Lemma line_repr_tail l buf : line_repr l buf →
  ∃ r, buf = l ++ 0 :: r ∧ r = replicate (SHELL_MAX_CMD_LEN - S (length l)) 0.
Proof.
  intros [-> Hl _]. eexists. split; [|done].
  by replace (SHELL_MAX_CMD_LEN - length l)%nat
    with (S (SHELL_MAX_CMD_LEN - S (length l))) by (unfold SHELL_MAX_CMD_LEN; lia).
Qed.

Lemma line_repr_cstr l buf : line_repr l buf →
  cstr buf = l ∧ terminated buf ∧ strlen buf = Ok (length l) ∧ buf !! length l = Some 0.
Proof.
  intros H. destruct (line_repr_tail _ _ H) as (r & -> & _). destruct H as [_ _ Hc].
  assert (Ht : terminated (l ++ 0 :: r)) by (apply elem_of_app; right; by left).
  pose proof (cstr_app_zero l r (line_nonzero _ Hc)) as E.
  destruct (strlen_total _ Ht) as [Hs _]. rewrite E in Hs.
  split_and!; try done. by apply list_lookup_middle.
Qed.

Lemma insert_middle (l r : list Z) x y : <[length l := y]> (l ++ x :: r) = l ++ y :: r.
Proof. rewrite insert_app_r_alt by lia. by rewrite Nat.sub_diag. Qed.

Lemma line_repr_snoc l buf c :
  line_repr l buf → (length l < 255)%nat → 32 <= c < 127 →
  line_repr (l ++ [c]) (<[S (length l) := 0]> (<[length l := c]> buf)).
Proof.
  intros H Hl Hc. destruct (line_repr_tail _ _ H) as (r & -> & ->). destruct H as [_ _ HF].
  replace (SHELL_MAX_CMD_LEN - S (length l))%nat
    with (S (SHELL_MAX_CMD_LEN - S (S (length l)))) by (unfold SHELL_MAX_CMD_LEN; lia).
  split.
  - rewrite insert_middle, cons_middle, app_assoc.
    replace (S (length l)) with (length (l ++ [c]) + 0)%nat at 1 by (rewrite length_app; simpl; lia).
    rewrite insert_app_r, length_app. simpl.
    by replace (SHELL_MAX_CMD_LEN - (length l + 1))%nat
      with (S (254 - length l)) by (unfold SHELL_MAX_CMD_LEN; lia).
  - rewrite length_app. simpl. lia.
  - apply Forall_app_2; [done|]. by constructor.
Qed.

Lemma line_repr_unsnoc l x buf :
  line_repr (l ++ [x]) buf → line_repr l (<[length l := 0]> buf).
Proof.
  intros [-> Hl HF]. rewrite length_app in Hl. simpl in Hl.
  apply Forall_app in HF as [HF _]. split; [|lia|done].
  rewrite <-app_assoc. simpl. rewrite insert_middle, length_app. simpl.
  by replace (SHELL_MAX_CMD_LEN - length l)%nat
    with (S (SHELL_MAX_CMD_LEN - (length l + 1))) by (unfold SHELL_MAX_CMD_LEN; lia).
Qed.

Lemma line_repr_nil : line_repr [] cmd_buffer0.
Proof. split; [done|simpl; lia|constructor]. Qed.

(** ** One key *)

Lemma shell_key_enter l buf :
  line_repr l buf → ∀ c, c = 10 ∨ c = 13 →
  shell_key c buf =
    Ok (Print [10] :: line_exec (take 15 (words l)) ++ [Print SHELL_PROMPT], cmd_buffer0).
Proof.
  intros H c Hc. destruct (line_repr_cstr _ _ H) as (Hcs & Ht & Hs & H0).
  unfold shell_key. replace ((c =? 10) || (c =? 13)) with true by lia.
  rewrite Hs. cbn [mbind outcome_bind]. rewrite list_insert_id by done.
  rewrite Hs. cbn [mbind outcome_bind].
  destruct (decide (0 < length l)%nat) as [Hpos|Hnil].
  - destruct (shell_parse_cmd_words SHELL_MAX_ARGS buf Ht) as (offs & b & -> & _ & Hw & _ & HF).
    cbn [mbind outcome_bind]. rewrite exec_spec by by apply Forall_fmap.
    rewrite <-list_fmap_compose. unfold compose. rewrite Hw, Hcs. done.
  - destruct l; [done|simpl in Hnil; lia].
Qed.

Lemma shell_key_erase l buf :
  line_repr l buf → ∀ c, c = 8 ∨ c = 127 →
  ∃ buf', shell_key c buf = Ok ((line_key c l).1, buf') ∧ line_repr (line_key c l).2 buf'.
Proof.
  intros H c Hc. destruct (line_repr_cstr _ _ H) as (_ & _ & Hs & _).
  unfold shell_key, line_key. rewrite (bool_decide_false (c = 10 ∨ _)) by lia.
  rewrite (bool_decide_true (c = 8 ∨ _)) by lia.
  replace ((c =? 10) || (c =? 13)) with false by lia.
  replace ((c =? 8) || (c =? 127)) with true by lia.
  rewrite Hs. cbn [mbind outcome_bind].
  destruct l as [|x l _] using rev_ind; [by exists buf|].
  rewrite last_snoc, length_app. simpl. rewrite decide_True by lia.
  replace (length l + 1 - 1)%nat with (length l) by lia. rewrite take_app_length.
  eexists. split; [done|]. by eapply line_repr_unsnoc.
Qed.

Lemma shell_key_other l buf c :
  line_repr l buf → ¬ (c = 10 ∨ c = 13) → ¬ (c = 8 ∨ c = 127) →
  ∃ buf', shell_key c buf = Ok ((line_key c l).1, buf') ∧ line_repr (line_key c l).2 buf'.
Proof.
  intros H Hn Hb. destruct (line_repr_cstr _ _ H) as (_ & _ & Hs & _).
  unfold shell_key, line_key. rewrite (bool_decide_false (c = 10 ∨ _)) by done.
  rewrite (bool_decide_false (c = 8 ∨ _)) by done.
  replace ((c =? 10) || (c =? 13)) with false by lia.
  replace ((c =? 8) || (c =? 127)) with false by lia.
  destruct ((32 <=? c) && (c <? 127)) eqn:E; [|rewrite bool_decide_false by lia; by exists buf].
  rewrite Hs. cbn [mbind outcome_bind]. unfold SHELL_MAX_CMD_LEN. simpl Nat.sub.
  destruct (decide (length l < 255)%nat).
  - rewrite bool_decide_true by lia. eexists. split; [done|]. apply line_repr_snoc; [done|lia|lia].
  - rewrite bool_decide_false by lia. by exists buf.
Qed.

Lemma shell_key_refines l buf c :
  line_repr l buf →
  ∃ buf', shell_key c buf = Ok ((line_key c l).1, buf') ∧ line_repr (line_key c l).2 buf'.
Proof.
  intros H. destruct (decide (c = 10 ∨ c = 13)) as [Hn|Hn].
  { rewrite (shell_key_enter _ _ H _ Hn). exists cmd_buffer0.
    unfold line_key. rewrite bool_decide_true by done. split; [done|apply line_repr_nil]. }
  destruct (decide (c = 8 ∨ c = 127)) as [Hb|Hb];
    [by apply shell_key_erase|by apply shell_key_other].
Qed.

(** [ipc_recv] stores a message only when it succeeds. *)
Lemma ipc_recv_stores on eps r m eps' : ipc_recv on true eps = ((r, Some m), eps') → r = 0.
Proof. unfold ipc_recv. repeat case_match; naive_solver. Qed.

(** ** Properties *)

(** C26: the shell is a line editor in front of its commands.  In every
    iteration of its loop, with a key, another message or nothing to receive,
    it stays inside of its buffer and does what the specification says: a
    printable character is echoed and appended up to 255 of them, an erase
    key takes the last one back, and Enter runs the command on the first
    fifteen words of the line, separated at blanks, and starts a new line. *)
Theorem shell_refines_line_editor ep eps l buf :
  line_repr l buf →
  let '((_, out), eps') := ipc_recv ep true eps in
  ∃ buf', shell_iteration ep (eps, buf) = Ok ((line_message out l).1, (eps', buf')) ∧
    line_repr (line_message out l).2 buf'.
Proof.
  intros H. destruct (ipc_recv ep true eps) as [[r out] eps'] eqn:E.
  unfold shell_iteration. cbn [fst snd]. rewrite E.
  destruct out as [m|]; [|by exists buf].
  apply ipc_recv_stores in E as ->. cbn [line_message]. simpl (0 =? 0). cbn [andb].
  destruct (decide (m.(type) = 4)) as [Ht|Ht].
  - rewrite Ht. destruct (shell_key_refines l buf (to_char m.(arg0)) H) as (buf' & Ek & Hr).
    exists buf'. cbn [Z.eqb Pos.eqb]. by rewrite Ek.
  - rewrite (proj2 (Z.eqb_neq m.(type) 4)) by done. by exists buf.
Qed.

(** The endpoint holds the key Enter, the buffer the line ["echo a"]. *)
Lemma shell_refines_line_editor_witness :
  let eps := [mk_endpoint true (mk_msg 0 4 10 0 0 []) true] in
  ∃ buf, shell_iteration 0 (eps, bytes "echo a" ++ replicate 250 0) =
    Ok ([Print [10]; Print (bytes "a"); Print [10]; Print SHELL_PROMPT],
        ([mk_endpoint true (mk_msg 0 4 10 0 0 []) false], buf)).
Proof.
  assert (H : line_repr (bytes "echo a") (bytes "echo a" ++ replicate 250 0)).
  { split; [reflexivity| |]; [apply Nat.leb_le; reflexivity|].
    apply (bool_decide_eq_true_1 (Forall _ _)). vm_compute. reflexivity. }
  pose proof (shell_refines_line_editor 0 [mk_endpoint true (mk_msg 0 4 10 0 0 []) true] _ _ H) as T.
  destruct T as (buf & E & _). exists buf. exact E.
Defined.
