(* ===== verification/Boot.v ===== *)
(** * Kernel start ([kernel/src/main.c])

    [kmain] as the composition of the modelled components: console, memory
    manager, endpoints, interrupts, scheduler, ramdisk and program loader.
    Everything that is printed on the way goes through [console_write], the
    messages of the called components included; so [kmain] is a computation
    over the serial port, which is polled before every byte.

    The static variables of the kernel are records next to the memory.  The
    loader copies segments to whatever address a program asks for: a segment
    that reaches the kernel's own code, data or stack, or the end of the
    address space, is a [Fault]. *)

From Stdlib Require Import String.
From S2P Require Import Prelude Memory Ipc Heap Paging Sched SchedQueue SchedOps SchedSafety.
From S2P Require Import Ports Keyboard Interrupts Console Ramdisk Elf Cstring.

Record kernel : Type := mk_kernel {
  k_mm : mm_state;
  k_endpoints : list endpoint_t;
  k_idt : list idt_entry_t;
  k_machine : machine;
  k_ramdisk : ramdisk
}.

(** What the linker decides: the addresses of the two task functions and of
    the ramdisk, the words of the stub tables, and the areas (start and
    length) that are not part of the modelled memory: the kernel's code, its
    stack, its static variables other than [heap_area], and what is not
    mapped. *)
Record link_info : Type := mk_link {
  l_task_a : Z;
  l_task_b : Z;
  l_ramdisk_start : Z;
  l_isr_words : list Z;
  l_irq_words : list Z;
  l_kernel_areas : list (Z * Z)
}.

(** ** Computations that print

    The state is the serial port and the trace of the other port writes;
    [None] is a poll of the serial port that used up its fuel. *)

Record term : Type := mk_term { t_uart : uart; t_ports : list io }.

Definition boot (A : Type) : Type := term → option (outcome (A * term)).

#[export] Instance boot_ret : MRet boot := λ A a t, Some (Ok (a, t)).
#[export] Instance boot_bind : MBind boot := λ A B f c t,
  match c t with
  | Some (Ok (a, t')) => f a t'
  | Some (Fault e) => Some (Fault e)
  | None => None
  end.

Definition out_of_fuel {A} : boot A := λ _, None.
Definition fault {A} (e : Prelude.fault) : boot A := λ _, Some (Fault e).
Definition ports (tr : list io) : boot () :=
  λ t, Some (Ok ((), mk_term t.(t_uart) (t.(t_ports) ++ tr))).

(** A store of [n] bytes at [a] that is not a store to the modelled memory. *)
Definition meets (areas : list (Z * Z)) (w : Z * Z) : bool :=
  let '(a, n) := w in
  (0 <? n) && ((2 ^ 64 <? a + n) || existsb (λ '(b, l), (a <? b + l) && (b <? a + n)) areas).

Definition stores (areas : list (Z * Z)) (ws : list (Z * Z)) : boot () :=
  if existsb (meets areas) ws then fault OutOfBounds else mret ().

(** The stores of [load_segment]: that of [memcpy] and that of [memset]. *)
Definition segment_stores (elf phdr : Z) (s : mm_state) : list (Z * Z) :=
  let dst := p_vaddr (mem s) phdr in
  let src := elf ⊞ p_offset (mem s) phdr in
  let s1 := (alloc (p_memsz (mem s) phdr) 4096 s).2 in
  let n := p_filesz (mem s1) phdr in
  let m1 := memcpy (Z.to_nat n) dst src (mem s1) in
  (dst, n) ::
  if p_filesz m1 phdr <? p_memsz m1 phdr
  then [(dst ⊞ p_filesz m1 phdr, p_memsz m1 phdr - p_filesz m1 phdr)] else [].

Section start.
Context (lsr : nat → Z) (fuel : nat).

Definition lift_console (f : uart → option uart) : boot () := λ t,
  u ← f t.(t_uart); Some (Ok ((), mk_term u t.(t_ports))).
Definition write (s : list Z) : boot () := lift_console (console_write lsr fuel s).
Definition write_hex (v : Z) : boot () := lift_console (console_write_hex lsr fuel v).
Definition write_dec (v : Z) : boot () := lift_console (console_write_dec lsr fuel v).
Definition text (s : string) : boot () := write (bytes s).
Definition line (s : string) : boot () := write (bytes s ++ [10]).
#[local] Arguments text s%_string.
#[local] Arguments line s%_string.

(** ** The called components, with what they print *)

Definition boot_mm_init (s : mm_state) : boot mm_state :=
  let s' := mm_init s in
  (if kernel_page_table s' =? 0 then line "[mm] Failed to create kernel page table"
   else line "[mm] Initialized with page tables");;
  mret s'.

Definition boot_idt_init (li : link_info) (idt : list idt_entry_t) : boot (list idt_entry_t) :=
  let '(idt', tr) := idt_init li.(l_isr_words) li.(l_irq_words) idt in
  ports tr;;
  text "[timer] initialized at ";; write_hex 1000;; line " Hz";;
  line "[keyboard] initialized";; line "[idt] initialized";;
  mret idt'.

Definition boot_sched_init (st : sched) : boot sched :=
  line "[sched] initialized with priority support";; mret (sched_init st).

Definition boot_task_create (entry : Z) (st : sched) : boot sched :=
  let '(id, st') := task_create entry st in
  if entry =? 0 then mret st' else
  match first_from (λ t, bool_decide (state t = TASK_STATE_EMPTY)) (drop 1 st.(tasks)) 1 with
  | None => line "[sched] no free task slots";; mret st'
  | Some _ =>
      text "[sched] created task ";; write_hex id;;
      text " with priority ";; write_dec (Z.of_nat TASK_PRIORITY_NORMAL);; line "";;
      mret st'
  end.

Definition boot_sched_start (st : sched) : boot (option Z * sched) :=
  let '(entry, st') := sched_start st in
  line (match entry with Some _ => "[sched] starting scheduler" | None => "[sched] no tasks to run" end);;
  mret (entry, st').

Definition boot_ramdisk_init (m : memory) (start : Z) (rd : ramdisk) : boot ramdisk :=
  (if hdr_magic m start =? RAMDISK_MAGIC then
     text "[ramdisk] Initialized: ";; write_hex (hdr_file_count m start);;
     text " files, ";; write_hex (hdr_total_size m start);; line " bytes"
   else line "[ramdisk] Invalid ramdisk magic");;
  mret (ramdisk_init m start rd).

(** The loop of [elf_load], as [Elf.elf_segments]. *)
Fixpoint boot_segments (areas : list (Z * Z)) (n : nat) (elf phdrs i : Z) (s : mm_state)
    : boot mm_state :=
  match n with
  | O => out_of_fuel
  | S n =>
      if i <? e_phnum (mem s) elf then
        let phdr := phdrs ⊞ i * PHDR_SIZE in
        if p_type (mem s) phdr =? ELF_PT_LOAD then
          text "[elf] Loading segment ";; write_hex i;;
          text " at 0x";; write_hex (p_vaddr (mem s) phdr);;
          text " size 0x";; write_hex (p_memsz (mem s) phdr);; line "";;
          stores areas (segment_stores elf phdr s);;
          boot_segments areas n elf phdrs (u16 (i + 1)) (load_segment elf phdr s)
        else boot_segments areas n elf phdrs (u16 (i + 1)) s
      else mret s
  end.

(** The message for the first check that fails. *)
Definition elf_refusal (m : memory) (e : Z) : string :=
  if negb ((e_ident m e 0 =? 127) && (e_ident m e 1 =? 69) &&
           (e_ident m e 2 =? 76) && (e_ident m e 3 =? 70)) then "[elf] Invalid ELF magic"
  else if negb (e_ident m e 4 =? ELF_CLASS_64) then "[elf] Not 64-bit ELF"
  else if negb (e_ident m e 5 =? ELF_DATA_LSB) then "[elf] Not little-endian"
  else if negb (e_machine m e =? ELF_MACHINE_X86_64) then "[elf] Not x86_64"
  else "[elf] Not executable type".

Definition boot_elf_load (areas : list (Z * Z)) (elf : Z) (s : mm_state)
    : boot (Z * option Z * mm_state) :=
  let m := mem s in
  if elf_header_ok m elf then
    line "[elf] Loading ELF binary...";;
    text "[elf] Entry point: 0x";; write_hex (e_entry m elf);; line "";;
    s' ← boot_segments areas ELF_FUEL elf (elf ⊞ e_phoff m elf) 0 s;
    line "[elf] Load complete";;
    mret (0, Some (e_entry m elf), s')
  else line (elf_refusal m elf);; mret (-1, None, s).

(** ** Functions of the file *)

Definition banner : boot () :=
  line "";;
  line "  ___                    _            ";;
  line " / _ \                  (_)           ";;
  line "| __/_   _ ___  ___  ___ _  __ _ _ __ ";;
  line "| _|| | | / __|/ _ \/ __| |/ _` | '__|";;
  line "| | | |_| \__ \  __/\__ \ | (_| | |   ";;
  line "|_|  \__, |___/\___||___/_|\__, |_|   ";;
  line "      __/ |                 __/ |      ";;
  line "     |___/                 |___/       ";;
  line "";;
  write (bytes "Aegis microkernel v0.1 — portfolio build" ++ [10; 10]).

(** [reply] of the self test, printed. *)
Definition delivered (reply : aegis_msg) : boot () :=
  text "[ipc] message delivered from endpoint ";; write_hex reply.(sender);;
  text " type=";; write_hex reply.(type);;
  text " arg0=";; write_hex reply.(arg0);; line "".

Definition ipc_self_test (eps : list endpoint_t) : boot (list endpoint_t) :=
  let '((r1, oa), eps1) := ipc_endpoint_create true eps in
  if negb (r1 =? 0) then line "[ipc] endpoint creation failed";; mret eps1 else
  let '((r2, ob), eps2) := ipc_endpoint_create true eps1 in
  if negb (r2 =? 0) then line "[ipc] endpoint creation failed";; mret eps2 else
  let a := default 0 oa in
  let b := default 0 ob in
  let msg := mk_msg a MSG_PING 681493 0 0 (replicate AEGIS_MSG_PAYLOAD_SIZE 0) in
  let '(r3, eps3) := ipc_send b (Some msg) eps2 in
  if negb (r3 =? 0) then line "[ipc] send failed";; mret eps3 else
  let '((r4, out), eps4) := ipc_recv b true eps3 in
  let reply := default zero_msg out in
  if negb (r4 =? 0) || negb (reply.(type) =? MSG_PING)
  then line "[ipc] recv failed";; mret eps4
  else delivered reply;; mret eps4.

(** One turn of the loops of the two kernel tasks. *)
Definition task_a (st : sched) : boot sched := line "[task_a] running";; mret (task_sleep 1000 st).
Definition task_b (st : sched) : boot sched := line "[task_b] running";; mret (task_sleep 2000 st).

(** [ramdisk_load_file] followed by [elf_load], with what is printed for a
    loaded program and for a missing file. *)
Definition load_server (areas : list (Z * Z)) (name : string) (missing : boot ())
    (rd : ramdisk) (mm : mm_state) : boot mm_state :=
  let '((r, data), _) := ramdisk_load_file (mem mm) (bytes name) rd in
  if r =? 0 then
    '((r', entry_point), mm') ← boot_elf_load areas (default 0 data) mm;
    if r' =? 0 then
      write (bytes "[boot] Loaded " ++ bytes name ++ bytes " at 0x");;
      write_hex (default 0 entry_point);; line "";; mret mm'
    else mret mm'
  else missing;; mret mm.

Definition load_servers_from_ramdisk (li : link_info) (rd : ramdisk) (mm : mm_state)
    : boot (ramdisk * mm_state) :=
  line "[boot] Initializing ramdisk...";;
  rd1 ← boot_ramdisk_init (mem mm) li.(l_ramdisk_start) rd;
  line "[boot] Loading servers from ramdisk...";;
  mm1 ← load_server li.(l_kernel_areas) "init.elf"
          (line "[boot] init.elf not found in ramdisk") rd1 mm;
  mm2 ← load_server li.(l_kernel_areas) "vfs.elf" (mret ()) rd1 mm1;
  mret (rd1, mm2).

(** [void kmain(const void *multiboot_info)]: the entry point that
    [sched_start] calls at its end (it is not called when no task is ready),
    and the state at that point. *)
Definition kmain (multiboot_info : Z) (li : link_info) (k : kernel) : boot (option Z * kernel) :=
  ports console_init;;
  banner;;
  text "[boot] multiboot info @ ";; write_hex multiboot_info;; line "";;
  mm1 ← boot_mm_init k.(k_mm);
  let eps1 := ipc_init k.(k_endpoints) in
  idt1 ← boot_idt_init li k.(k_idt);
  s1 ← boot_sched_init k.(k_machine).(m_sched);
  s2 ← boot_task_create li.(l_task_a) s1;
  s3 ← boot_task_create li.(l_task_b) s2;
  let '(block, mm2) := mm_alloc 64 16 mm1 in
  text "[mm] allocated test block @ ";; write_hex block;; line "";;
  eps2 ← ipc_self_test eps1;
  '(rd1, mm3) ← load_servers_from_ramdisk li k.(k_ramdisk) mm2;
  write ([10] ++ bytes "[ready] starting scheduler..." ++ [10]);;
  '(entry, s4) ← boot_sched_start s3;
  mret (entry, mk_kernel mm3 eps2 idt1
                 (mk_machine s4 k.(k_machine).(m_kbd) k.(k_machine).(tick_count)) rd1).
End start.

(** ** The stores of the loader *)

(** The stores that the loop of [elf_load] makes, in order. *)
Fixpoint segments_stores (n : nat) (elf phdrs i : Z) (s : mm_state) : list (Z * Z) :=
  match n with
  | O => []
  | S n =>
      if i <? e_phnum (mem s) elf then
        let phdr := phdrs ⊞ i * PHDR_SIZE in
        if p_type (mem s) phdr =? ELF_PT_LOAD then
          segment_stores elf phdr s ++
          segments_stores n elf phdrs (u16 (i + 1)) (load_segment elf phdr s)
        else segments_stores n elf phdrs (u16 (i + 1)) s
      else []
  end.

Definition elf_stores (elf : Z) (s : mm_state) : list (Z * Z) :=
  if elf_header_ok (mem s) elf
  then segments_stores ELF_FUEL elf (elf ⊞ e_phoff (mem s) elf) 0 s else [].

(** The file that [load_server] finds, if any. *)
Definition server_image (name : string) (rd : ramdisk) (mm : mm_state) : option Z :=
  let '((r, data), _) := ramdisk_load_file (mem mm) (bytes name) rd in
  if r =? 0 then Some (default 0 data) else None.

(** The stores of loading the file [name], and the memory behind it. *)
Definition server_stores (name : string) (rd : ramdisk) (mm : mm_state) : list (Z * Z) :=
  match server_image name rd mm with Some elf => elf_stores elf mm | None => [] end.
Definition server_loaded (name : string) (rd : ramdisk) (mm : mm_state) : mm_state :=
  match server_image name rd mm with
  | Some elf => match elf_load elf mm with Some r => r.2 | None => mm end
  | None => mm
  end.

(** The stores of [kmain], which loads two files. *)
Definition boot_stores (li : link_info) (k : kernel) : list (Z * Z) :=
  let mm := (mm_alloc 64 16 (mm_init k.(k_mm))).2 in
  let rd := ramdisk_init (mem mm) li.(l_ramdisk_start) k.(k_ramdisk) in
  server_stores "init.elf" rd mm ++ server_stores "vfs.elf" rd (server_loaded "init.elf" rd mm).

(** ** Lemmas *)

Lemma elf_segments_total {S} `{Allocator S} fuel : ∀ elf phdrs i (s : S),
  0 <= i <= 65535 → 65535 - i < Z.of_nat fuel → ∃ s', elf_segments fuel elf phdrs i s = Some s'.
Proof.
  induction fuel as [|fuel IH]; intros elf phdrs i s Hi Hf; [lia|]. simpl.
  destruct (Z.ltb_spec i (e_phnum (mem_of s) elf)) as [Hlt|]; [|by eexists].
  assert (e_phnum (mem_of s) elf < 65536) by apply (load_le_range 2).
  rewrite u16_small by lia. apply IH; lia.
Qed.

(** Loading ends, whatever the memory holds. *)
Lemma elf_load_total {S} `{Allocator S} elf (s : S) : ∃ r, elf_load elf s = Some r.
Proof.
  unfold elf_load. destruct (elf_header_ok _ _); [|by eexists].
  destruct (elf_segments_total ELF_FUEL elf (elf ⊞ e_phoff (mem_of s) elf) 0 s) as [s' E].
  - lia.
  - unfold ELF_FUEL. rewrite Z2Nat.id; lia.
  - rewrite E. by eexists.
Qed.

(** Where the transmitter becomes ready within [B] polls, a computation ends
    with a result and has sent a text that does not depend on the port; or it
    ends in a fault. *)
Definition prints {A} (c : boot A) (a : A) (out : list Z) : Prop :=
  ∀ t, ∃ t', c t = Some (Ok (a, t')) ∧ sent (t_uart t') = sent (t_uart t) ++ out.
Definition runs {A} (c : boot A) (a : A) : Prop := ∃ out, prints c a out.
Definition faults {A} (c : boot A) : Prop := ∀ t, c t = Some (Fault OutOfBounds).

Lemma prints_ret {A} (a : A) : prints (mret a) a [].
Proof. intros t. exists t. by rewrite app_nil_r. Qed.

Lemma prints_bind {A B} (c : boot A) (f : A → boot B) a b o1 o2 :
  prints c a o1 → prints (f a) b o2 → prints (c ≫= f) b (o1 ++ o2).
Proof.
  intros Hc Hf t. destruct (Hc t) as (t1 & E1 & S1). destruct (Hf t1) as (t2 & E2 & S2).
  exists t2. unfold mbind, boot_bind. rewrite E1. split; [exact E2|]. by rewrite S2, S1, <-app_assoc.
Qed.

Lemma prints_ports tr : prints (ports tr) () [].
Proof. intros t. eexists. split; [reflexivity|]. simpl. by rewrite app_nil_r. Qed.

Lemma runs_ret {A} (a : A) : runs (mret a) a.
Proof. eexists. apply prints_ret. Qed.

Lemma runs_ports tr : runs (ports tr) ().
Proof. eexists. apply prints_ports. Qed.

Lemma runs_bind {A B} (c : boot A) (f : A → boot B) a b :
  runs c a → runs (f a) b → runs (c ≫= f) b.
Proof. intros [o1 H1] [o2 H2]. eexists. by eapply prints_bind. Qed.

Lemma faults_now {A B} (c : boot A) (f : A → boot B) : faults c → faults (c ≫= f).
Proof. intros H t. unfold mbind, boot_bind. by rewrite H. Qed.

Lemma faults_later {A B} (c : boot A) (f : A → boot B) a :
  runs c a → faults (f a) → faults (c ≫= f).
Proof.
  intros [o H] Hf t. destruct (H t) as (t' & E & _). unfold mbind, boot_bind. rewrite E. apply Hf.
Qed.

(** [out] is part of what is sent. *)
Definition shows {A} (c : boot A) (a : A) (out : list Z) : Prop :=
  ∃ pre post, prints c a (pre ++ out ++ post).

Lemma shows_now {A B} (c : boot A) (f : A → boot B) a b out :
  prints c a out → runs (f a) b → shows (c ≫= f) b out.
Proof. intros H1 [o2 H2]. exists [], o2. exact (prints_bind c f a b out o2 H1 H2). Qed.

Lemma shows_later {A B} (c : boot A) (f : A → boot B) a b out :
  runs c a → shows (f a) b out → shows (c ≫= f) b out.
Proof.
  intros [o1 H1] (pre & post & H2). exists (o1 ++ pre), post.
  rewrite <-app_assoc. exact (prints_bind c f a b o1 _ H1 H2).
Qed.

Lemma existsb_meets areas ws :
  existsb (meets areas) ws = false ↔ Forall (λ w, meets areas w = false) ws.
Proof.
  induction ws as [|w ws IH]; simpl; [done|].
  by rewrite orb_false_iff, IH, Forall_cons_iff.
Qed.

Lemma stores_clear areas ws :
  Forall (λ w, meets areas w = false) ws → runs (stores areas ws) ().
Proof. intros H. unfold stores. rewrite (proj2 (existsb_meets _ _) H). apply runs_ret. Qed.

Lemma stores_hit areas ws :
  ¬ Forall (λ w, meets areas w = false) ws → faults (stores areas ws).
Proof.
  intros H t. unfold stores. destruct (existsb (meets areas) ws) eqn:E; [done|].
  by apply existsb_meets in E.
Qed.

(** Bytes of a literal. *)
Ltac literal := apply (bool_decide_unpack _); vm_compute; exact I.

Section running.
Context (lsr : nat → Z) (B : nat) (Hready : ready_within B lsr).

Lemma prints_write s : Forall (λ c, 0 <= c < 256) s → prints (write lsr B s) () (crlf s).
Proof using Hready.
  intros HF t. destruct (console_write_sends lsr B Hready s (t_uart t) HF) as [n E].
  eexists. unfold write, lift_console. rewrite E. by split.
Qed.

Lemma prints_write_hex v : prints (write_hex lsr B v) () (hex_buf v).
Proof using Hready.
  intros t. destruct (hex_buf_shape v) as (_ & _ & HF).
  rewrite <-(crlf_plain (hex_buf v)) by (eapply Forall_impl; [exact HF|]; by intros c [_ ?]).
  apply prints_write. eapply Forall_impl; [exact HF|]. by intros c [? _].
Qed.

Lemma runs_write s : Forall (λ c, 0 <= c < 256) s → runs (write lsr B s) ().
Proof using Hready. intros H. eexists. by apply prints_write. Qed.

Lemma runs_write_hex v : runs (write_hex lsr B v) ().
Proof using Hready. eexists. apply prints_write_hex. Qed.

Lemma runs_write_dec v : 0 <= v < 2 ^ 64 → runs (write_dec lsr B v) ().
Proof using Hready.
  intros Hv. unfold write_dec, lift_console, console_write_dec.
  destruct (v =? 0).
  { apply (runs_write [48]). repeat constructor; lia. }
  destruct (dec_loop_total DEC_FUEL v) as (buf & E & _ & _ & HF & _).
  { split; [lia|]. apply Z.lt_trans with (2 ^ 64); [lia|]. reflexivity. }
  exists (rev buf). intros t. rewrite E. cbn [mbind option_bind].
  destruct (serial_write_chars_sends lsr B Hready (rev buf) (t_uart t)) as [n En].
  { apply Forall_forall. intros c Hc. rewrite Forall_forall in HF.
    assert (c ∈ buf) as Hin by (apply list_elem_of_In, in_rev, list_elem_of_In, Hc).
    apply HF in Hin. lia. }
  rewrite En. eexists. split; [reflexivity|]. done.
Qed.
End running.

(** Runs a computation that prints literals and numbers. *)
Ltac run_step Hready :=
  lazymatch goal with
  | |- runs (mret _) _ => apply runs_ret
  | |- runs (ports _) _ => apply runs_ports
  | |- runs (_ ≫= _) _ => eapply runs_bind
  | |- runs (write_hex _ _ _) _ => apply (runs_write_hex _ _ Hready)
  | |- runs (write_dec _ _ _) _ => apply (runs_write_dec _ _ Hready); vm_compute; by split
  | |- runs (text _ _ _) _ => apply (runs_write _ _ Hready); literal
  | |- runs (line _ _ _) _ => apply (runs_write _ _ Hready); literal
  | |- runs (write _ _ _) _ => apply (runs_write _ _ Hready); literal
  end.
Ltac run Hready := repeat (run_step Hready; cbv beta).

Section components.
Context (lsr : nat → Z) (B : nat) (Hready : ready_within B lsr).

Lemma banner_runs : runs (banner lsr B) ().
Proof using Hready. unfold banner. run Hready. Qed.

Lemma mm_init_runs s : runs (boot_mm_init lsr B s) (mm_init s).
Proof using Hready. unfold boot_mm_init. destruct (_ =? 0); run Hready. Qed.

Lemma idt_init_runs li idt :
  runs (boot_idt_init lsr B li idt) (idt_init (l_isr_words li) (l_irq_words li) idt).1.
Proof using Hready. unfold boot_idt_init. destruct (idt_init _ _ _) as [idt' tr]. run Hready. Qed.

Lemma sched_init_runs st : runs (boot_sched_init lsr B st) (sched_init st).
Proof using Hready. unfold boot_sched_init. run Hready. Qed.

Lemma task_create_runs e st : runs (boot_task_create lsr B e st) (task_create e st).2.
Proof using Hready.
  unfold boot_task_create. destruct (task_create e st) as [i st'].
  destruct (e =? 0); [run Hready|]. destruct (first_from _ _ _); run Hready.
Qed.

Lemma sched_start_runs st : runs (boot_sched_start lsr B st) (sched_start st).
Proof using Hready.
  unfold boot_sched_start. destruct (sched_start st) as [[e|] st']; run Hready.
Qed.

Lemma ramdisk_init_runs m start rd :
  runs (boot_ramdisk_init lsr B m start rd) (ramdisk_init m start rd).
Proof using Hready. unfold boot_ramdisk_init. destruct (_ =? RAMDISK_MAGIC); run Hready. Qed.

#[local] Abbreviation clear areas := (Forall (λ w, meets areas w = false)).

(** The loop does what [elf_segments] does, as long as its stores stay clear
    of the kernel. *)
Lemma segments_run areas n : ∀ elf phdrs i s s',
  elf_segments n elf phdrs i s = Some s' →
  (clear areas (segments_stores n elf phdrs i s) →
     runs (boot_segments lsr B areas n elf phdrs i s) s') ∧
  (¬ clear areas (segments_stores n elf phdrs i s) →
     faults (boot_segments lsr B areas n elf phdrs i s)).
Proof using Hready.
  induction n as [|n IH]; intros elf phdrs i s s' E; [done|].
  cbn [elf_segments segments_stores boot_segments] in *. change (mem_of s) with (mem s) in E.
  destruct (i <? e_phnum (mem s) elf).
  2:{ simplify_eq. split; [intros _; run Hready|]. intros []. constructor. }
  cbv zeta in *. destruct (p_type _ _ =? ELF_PT_LOAD); [|by apply IH].
  destruct (IH _ _ _ _ _ E) as [IHr IHf]. rewrite Forall_app. split.
  - intros [H1 H2]. do 7 (eapply runs_bind; [run Hready|]).
    eapply runs_bind; [by apply stores_clear|]. by apply IHr.
  - intros H. do 7 (eapply faults_later; [run Hready|]).
    destruct (decide (clear areas (segment_stores elf (phdrs ⊞ i * PHDR_SIZE) s))) as [H1|H1].
    + eapply faults_later; [by apply stores_clear|]. apply IHf. by intros H2; destruct H.
    + apply faults_now. by apply stores_hit.
Qed.

Lemma elf_refusal_runs m e : runs (line lsr B (elf_refusal m e)) ().
Proof using Hready. unfold elf_refusal. repeat case_match; run Hready. Qed.

Lemma elf_load_runs areas elf s r :
  elf_load elf s = Some r →
  (clear areas (elf_stores elf s) → runs (boot_elf_load lsr B areas elf s) r) ∧
  (¬ clear areas (elf_stores elf s) → faults (boot_elf_load lsr B areas elf s)).
Proof using Hready.
  unfold elf_load, elf_stores, boot_elf_load. change (mem_of s) with (mem s). cbv zeta.
  destruct (elf_header_ok (mem s) elf).
  - destruct (elf_segments _ _ _ _ _) as [s'|] eqn:E; [|done]. cbn [mbind option_bind].
    intros [= <-]. destruct (segments_run areas _ _ _ _ _ _ E) as [Hr Hf].
    split; intros H.
    + do 4 (eapply runs_bind; [run Hready|]). eapply runs_bind; [by apply Hr|]. run Hready.
    + do 4 (eapply faults_later; [run Hready|]). apply faults_now. by apply Hf.
  - intros [= <-]. split; [intros _|by intros []].
    eapply runs_bind; [apply elf_refusal_runs|]. run Hready.
Qed.

Lemma load_server_runs areas name missing rd mm :
  Forall (λ c, 0 <= c < 256) (bytes name) → runs missing () →
  (clear areas (server_stores name rd mm) →
     runs (load_server lsr B areas name missing rd mm) (server_loaded name rd mm)) ∧
  (¬ clear areas (server_stores name rd mm) → faults (load_server lsr B areas name missing rd mm)).
Proof using Hready.
  intros HF Hm. unfold server_stores, server_loaded, server_image, load_server.
  destruct (ramdisk_load_file _ _ _) as [[r data] size]. destruct (r =? 0).
  - destruct (elf_load_total (default 0 data) mm) as [[[r' e] mm'] E]. rewrite E.
    destruct (elf_load_runs areas _ _ _ E) as [Hr Hf]. split; intros H.
    + eapply runs_bind; [by apply Hr|]. cbv beta iota. cbn [snd]. destruct (r' =? 0); [|run Hready].
      eapply runs_bind.
      { apply (runs_write _ _ Hready). apply Forall_app. split; [literal|].
        apply Forall_app. split; [done|literal]. }
      run Hready.
    + apply faults_now. by apply Hf.
  - split; [intros _|by intros []]. eapply runs_bind; [exact Hm|]. run Hready.
Qed.

Lemma load_servers_run li k :
  let mm := (mm_alloc 64 16 (mm_init (k_mm k))).2 in
  (clear (l_kernel_areas li) (boot_stores li k) →
     ∃ r, runs (load_servers_from_ramdisk lsr B li (k_ramdisk k) mm) r) ∧
  (¬ clear (l_kernel_areas li) (boot_stores li k) →
     faults (load_servers_from_ramdisk lsr B li (k_ramdisk k) mm)).
Proof using Hready.
  intros mm. unfold boot_stores. fold mm. cbv zeta.
  set (rd := ramdisk_init _ _ _). unfold load_servers_from_ramdisk.
  destruct (load_server_runs (l_kernel_areas li) "init.elf"
    (line lsr B "[boot] init.elf not found in ramdisk") rd mm ltac:(literal) ltac:(run Hready)) as [R1 F1].
  destruct (load_server_runs (l_kernel_areas li) "vfs.elf" (mret ()) rd
    (server_loaded "init.elf" rd mm) ltac:(literal) ltac:(run Hready)) as [R2 F2].
  rewrite Forall_app. split.
  - intros [H1 H2]. eexists. eapply runs_bind; [run Hready|].
    eapply runs_bind; [apply ramdisk_init_runs|]. eapply runs_bind; [run Hready|].
    eapply runs_bind; [by apply R1|]. eapply runs_bind; [by apply R2|]. run Hready.
  - intros H. eapply faults_later; [run Hready|].
    eapply faults_later; [apply ramdisk_init_runs|]. eapply faults_later; [run Hready|].
    destruct (decide (clear (l_kernel_areas li) (server_stores "init.elf" rd mm))) as [H1|H1].
    + eapply faults_later; [by apply R1|]. apply faults_now. apply F2. by intros H2; destruct H.
    + apply faults_now. by apply F1.
Qed.
End components.

(** ** The self test *)

(** The message of the self test. *)
Definition ping : aegis_msg :=
  mk_msg 0 MSG_PING 681493 0 0 (replicate AEGIS_MSG_PAYLOAD_SIZE 0).

Definition two_endpoints : gmap Z (option aegis_msg) := {[0 := None; 1 := None]}.

(** What the self test prints when it succeeds. *)
Definition delivery_line : list Z :=
  bytes "[ipc] message delivered from endpoint 0x0000000000000000 type=0x0000000000000001 arg0=0x00000000000a6615"
  ++ [CR; LF].

Lemma delivered_prints lsr B :
  ready_within B lsr → prints (delivered lsr B ping) () delivery_line.
Proof.
  intros Hr. enough (∃ out, prints (delivered lsr B ping) () out ∧ out = delivery_line)
    as (out & H & <-); [exact H|].
  eexists. split.
  - unfold delivered, text, line.
    do 6 (eapply prints_bind; [lazymatch goal with
      | |- prints (write_hex _ _ _) _ _ => apply (prints_write_hex _ _ Hr)
      | |- _ => apply (prints_write _ _ Hr); literal end|cbv beta]).
    apply (prints_write _ _ Hr). literal.
  - vm_compute. reflexivity.
Qed.

Lemma self_test_delivers lsr B eps :
  ready_within B lsr → ipc_repr eps ∅ →
  ∃ eps', prints (ipc_self_test lsr B eps) eps' delivery_line ∧ ipc_repr eps' two_endpoints.
Proof.
  intros Hr R0. unfold ipc_self_test.
  destruct (ipc_create_sim _ _ R0) as [E1 R1].
  destruct (ipc_endpoint_create true eps) as [[r1 oa] eps1]. cbn [fst snd] in E1, R1.
  assert (S1 : spec_create ∅ = ((0, Some 0), {[0 := None]})) by (vm_compute; reflexivity).
  rewrite S1 in E1, R1. injection E1 as -> ->. cbn [fst snd] in R1.
  destruct (ipc_create_sim _ _ R1) as [E2 R2].
  destruct (ipc_endpoint_create true eps1) as [[r2 ob] eps2]. cbn [fst snd] in E2, R2.
  assert (S2 : spec_create {[0 := None]} = ((0, Some 1), <[1 := None]> {[0 := None]}))
    by (vm_compute; reflexivity).
  rewrite S2 in E2, R2. injection E2 as -> ->. cbn [fst snd] in R2.
  cbn [Z.eqb negb]. change (default 0 (Some 0)) with 0. change (default 0 (Some 1)) with 1.
  fold ping.
  destruct (ipc_send_sim _ _ 1 ping ltac:(lia) R2) as [E3 R3].
  destruct (ipc_send 1 (Some ping) eps2) as [r3 eps3]. cbn [fst snd] in E3, R3.
  unfold spec_send in E3, R3. rewrite lookup_insert_eq in E3, R3. simpl in E3. subst r3. cbn [fst snd] in R3.
  destruct (ipc_recv_sim _ _ 1 ltac:(lia) R3) as [E4 R4].
  destruct (ipc_recv 1 true eps3) as [[r4 out] eps4]. cbn [fst snd] in E4, R4.
  unfold spec_recv in E4, R4. rewrite lookup_insert_eq in E4, R4. simpl in E4. injection E4 as -> ->.
  exists eps4. split.
  { change (default zero_msg (Some ping)) with ping. cbn [Z.eqb negb orb type ping].
    change (negb (MSG_PING =? MSG_PING)) with false. cbv iota. rewrite <-(app_nil_r delivery_line).
    eapply prints_bind; [by apply delivered_prints|]. apply prints_ret. } cbn [snd] in R4. rewrite !insert_insert_eq in R4.
  assert (M : <[1 := None]> {[0 := None]} = two_endpoints) by (vm_compute; reflexivity).
  by rewrite M in R4.
Qed.

(** ** The two tasks *)

Lemma create_step st qs i e :
  sched_repr st qs → lowest_empty st i → e ≠ 0 →
  sched_repr (task_create e st).2 (push TASK_PRIORITY_NORMAL i qs) ∧
  ∀ j, unlinked (task_at (task_create e st).2 j) =
    if decide (i = j) then fresh_task st i e TASK_PRIORITY_NORMAL else unlinked (task_at st j).
Proof.
  intros R Hl He. unfold task_create. rewrite (create_eq st e _ i) by (done || apply R).
  exact (create_repr st qs i e TASK_PRIORITY_NORMAL R Hl (clamp_le TASK_PRIORITY_NORMAL)).
Qed.

(** The state right after [sched_init] and the two creations. *)
Lemma two_tasks addr sp a b s :
  a ≠ 0 → b ≠ 0 →
  s = (task_create b (task_create a (sched_init (sched_boot addr sp))).2).2 →
  sched_repr s [[]; [1; 2]; []]%nat ∧
  entry (task_at s 1) = a ∧ entry (task_at s 2) = b ∧
  stack_top (task_at s 1) = initial_stack_top (sched_boot addr sp) 1.
Proof.
  intros Ha Hb ->. set (s1 := sched_init (sched_boot addr sp)).
  pose proof (si_repr _ _ (inv_init addr sp)) as R1. fold s1 in R1.
  assert (He : ∀ j, state (task_at s1 j) = TASK_STATE_EMPTY).
  { intros j. apply (Forall_total (λ t, state t = TASK_STATE_EMPTY)); [|done].
    simpl. by repeat constructor. }
  destruct (create_step s1 _ 1 a R1) as [R2 T2]; [|done|].
  { split; [unfold TASK_MAX; lia|]. split; [apply He|lia]. }
  set (s2 := (task_create a s1).2) in *.
  assert (L2 : lowest_empty s2 2).
  { split; [unfold TASK_MAX; lia|]. split.
    - pose proof (T2 2%nat) as E. rewrite decide_False in E by lia. apply unlinked_fields in E as (_ & -> & _). apply He.
    - intros j Hj. assert (j = 1%nat) as -> by lia.
      pose proof (T2 1%nat) as E. rewrite decide_True in E by done.
      apply (f_equal state) in E. cbn in E. by rewrite E. }
  destruct (create_step s2 _ 2 b R2 L2 Hb) as [R3 T3].
  set (s3 := (task_create b s2).2) in *. split; [exact R3|].
  pose proof (T3 1%nat) as E31. pose proof (T3 2%nat) as E32. pose proof (T2 1%nat) as E21.
  rewrite decide_False in E31 by lia. rewrite decide_True in E32 by done.
  rewrite decide_True in E21 by done.
  split_and!.
  - rewrite E21 in E31. by apply (f_equal entry) in E31.
  - by apply (f_equal entry) in E32.
  - rewrite E21 in E31. by apply (f_equal stack_top) in E31.
Qed.

(** ** The start *)

(** The tasks that [kmain] hands to [sched_start]. *)
Definition created (li : link_info) (st : sched) : sched :=
  (task_create (l_task_b li) (task_create (l_task_a li) (sched_init st)).2).2.

Section starting.
Context (lsr : nat → Z) (B : nat) (Hready : ready_within B lsr).
Context (multiboot_info : Z) (li : link_info) (k : kernel).
Hypothesis (Hlen : length (k_endpoints k) = AEGIS_MAX_ENDPOINTS).

#[local] Abbreviation clear areas := (Forall (λ w, meets areas w = false)).

(** A segment that reaches the kernel. *)
Lemma kmain_faults :
  ¬ clear (l_kernel_areas li) (boot_stores li k) → faults (kmain lsr B multiboot_info li k).
Proof using Hready Hlen.
  intros H. unfold kmain.
  destruct (self_test_delivers lsr B _ Hready (ipc_init_repr _ Hlen)) as (eps2 & Hself & _).
  destruct (load_servers_run lsr B Hready li k) as [_ Hbad]. apply Hbad in H.
  eapply faults_later; [run Hready|]. eapply faults_later; [apply (banner_runs _ _ Hready)|].
  do 3 (eapply faults_later; [run Hready|]).
  eapply faults_later; [apply (mm_init_runs _ _ Hready)|]. cbv zeta.
  eapply faults_later; [apply (idt_init_runs _ _ Hready)|].
  eapply faults_later; [apply (sched_init_runs _ _ Hready)|].
  do 2 (eapply faults_later; [apply (task_create_runs _ _ Hready)|]).
  destruct (mm_alloc 64 16 (mm_init (k_mm k))) as [block mm2].
  do 3 (eapply faults_later; [run Hready|]).
  eapply faults_later; [eexists; exact Hself|]. by apply faults_now.
Qed.

(** No segment does. *)
Lemma kmain_runs :
  clear (l_kernel_areas li) (boot_stores li k) →
  let r := sched_start (created li (m_sched (k_machine k))) in
  ∃ k', shows (kmain lsr B multiboot_info li k) (r.1, k') delivery_line ∧
    ipc_repr (k_endpoints k') two_endpoints ∧ m_sched (k_machine k') = r.2.
Proof using Hready Hlen.
  intros H r. unfold kmain.
  destruct (self_test_delivers lsr B _ Hready (ipc_init_repr _ Hlen)) as (eps2 & Hself & Reps).
  destruct (load_servers_run lsr B Hready li k) as [Hload _]. destruct (Hload H) as [[rd1 mm3] Hrd].
  pose proof (sched_start_runs lsr B Hready (created li (m_sched (k_machine k)))) as Hst.
  fold r in Hst. destruct r as [e s4]. eexists. split.
  - eapply shows_later; [run Hready|]. eapply shows_later; [apply (banner_runs _ _ Hready)|].
    do 3 (eapply shows_later; [run Hready|]).
    eapply shows_later; [apply (mm_init_runs _ _ Hready)|]. cbv zeta.
    eapply shows_later; [apply (idt_init_runs _ _ Hready)|].
    eapply shows_later; [apply (sched_init_runs _ _ Hready)|].
    do 2 (eapply shows_later; [apply (task_create_runs _ _ Hready)|]).
    destruct (mm_alloc 64 16 (mm_init (k_mm k))) as [block mm2].
    do 3 (eapply shows_later; [run Hready|]).
    eapply shows_now; [exact Hself|].
    eapply runs_bind; [exact Hrd|]. cbv beta iota.
    eapply runs_bind; [run Hready|]. eapply runs_bind; [exact Hst|]. cbv beta iota. run Hready.
  - split; [exact Reps|reflexivity].
Qed.
End starting.

(** ** Properties *)


(** A ramdisk at 2 MiB with "init.elf", whose segment lies at 4 KiB. *)
Definition demo_ramdisk : list Z :=
  [82; 77; 75; 68] ++ [1; 0; 0; 0] ++ replicate 8 0 ++
  bytes "init.elf" ++ replicate 56 0 ++ [100; 0; 0; 0; 0; 0; 0; 0] ++
  [122; 0; 0; 0; 0; 0; 0; 0] ++ replicate 4 0 ++ demo_elf_bytes.

Definition demo_kernel : kernel :=
  let m : gmap Z Z := list_to_map (imap (λ i c, (2097152 + Z.of_nat i, c)) demo_ramdisk) in
  mk_kernel (mm_boot 4194304 (λ a, default 0 (m !! a))) endpoints0 idt0
    (mk_machine (sched_boot 8388608 0) kbd0 0) ramdisk0.

Definition demo_link (areas : list (Z * Z)) : link_info :=
  mk_link 1048576 1052672 2097152 (replicate 256 0) (replicate 16 0) areas.

