(* ===== verification/Virtio.v ===== *)
(** * Virtio over memory-mapped registers ([kernel/include/virtio.h])

    What the two virtio drivers share: the device behind the registers, the
    accesses to them, and the layout of a queue in memory.  The device is a
    parameter: a class of its register and memory accesses.  What the drivers
    do to it is a trace.  The drivers are proved against any allocator of the
    class of [Heap] and any device. *)

From S2P Require Import Prelude Memory Heap.

(** ** Constants *)

Definition VIRTIO_MAGIC : Z := 1953655158.

Definition VIRTIO_STATUS_ACKNOWLEDGE : Z := 1.
Definition VIRTIO_STATUS_DRIVER : Z := 2.
Definition VIRTIO_STATUS_DRIVER_OK : Z := 4.
Definition VIRTIO_STATUS_FEATURES_OK : Z := 8.

Definition VIRTIO_F_VERSION_1 : Z := 32.
Definition VIRTIO_F_RING_INDIRECT_DESC : Z := 28.
Definition VIRTIO_F_RING_EVENT_IDX : Z := 29.

Definition VIRTIO_MMIO_MAGIC_VALUE : Z := 0.
Definition VIRTIO_MMIO_VERSION : Z := 4.
Definition VIRTIO_MMIO_DEVICE_ID : Z := 8.
Definition VIRTIO_MMIO_VENDOR_ID : Z := 12.
Definition VIRTIO_MMIO_DEVICE_FEATURES : Z := 16.
Definition VIRTIO_MMIO_DRIVER_FEATURES : Z := 20.
Definition VIRTIO_MMIO_QUEUE_SEL : Z := 48.
Definition VIRTIO_MMIO_QUEUE_NUM : Z := 56.
Definition VIRTIO_MMIO_QUEUE_READY : Z := 68.
Definition VIRTIO_MMIO_QUEUE_NOTIFY : Z := 80.
Definition VIRTIO_MMIO_INTERRUPT_STATUS : Z := 96.
Definition VIRTIO_MMIO_INTERRUPT_ACK : Z := 100.
Definition VIRTIO_MMIO_STATUS : Z := 112.

Definition VIRTIO_QUEUE_SIZE : nat := 128.
Definition VIRTIO_DESC_F_NEXT : Z := 1.
Definition VIRTIO_DESC_F_WRITE : Z := 2.

(** [1u << n] on 32 bits.  The language does not define it for [n >= 32]
    ([VIRTIO_F_VERSION_1] is 32); [oor] is what the compiler makes of it. *)
Definition bit32 (oor n : Z) : Z := if n <? 32 then u32 (Z.shiftl 1 n) else oor.

(** ** The device *)

(** A device answers reads of its 32-bit registers, takes writes, and acts on
    memory on its own; registers are named by their byte offset. *)
Class Device (D : Type) : Type := {
  dev_read : Z → D → Z * D;
  dev_write : Z → Z → D → D;
  dev_run : D → memory → D * memory
}.

Inductive mmio : Type :=
  | Read (off : Z)
  | Write (off val : Z).

#[export] Instance mmio_eq_dec : EqDecision mmio.
Proof. solve_decision. Defined.

(** The machine as a driver sees it: the allocator with its memory, the
    device, and the accesses made so far. *)
Record hw (S D : Type) : Type := mk_hw { h_mm : S; h_dev : D; h_trace : list mmio }.
Arguments mk_hw {S D}.
Arguments h_mm {S D}.
Arguments h_dev {S D}.
Arguments h_trace {S D}.

(** Computations on the machine. *)
Definition hwM (S D A : Type) : Type := hw S D → A * hw S D.

Section hw.
Context {S : Type} `{Allocator S} {D : Type} `{Device D}.

#[export] Instance hw_ret : MRet (hwM S D) := λ A a h, (a, h).
#[export] Instance hw_bind : MBind (hwM S D) := λ A B f c h, let '(a, h1) := c h in f a h1.

(** [virtio_mmio[offset / 4]]: the word that holds the byte offset. *)
Definition reg (offset : Z) : Z := offset / 4 * 4.

Definition mmio_read (offset : Z) : hwM S D Z := λ h,
  let '(v, d) := dev_read (reg offset) h.(h_dev) in
  (u32 v, mk_hw h.(h_mm) d (h.(h_trace) ++ [Read (reg offset)])).

Definition mmio_write (offset value : Z) : hwM S D unit := λ h,
  (tt, mk_hw h.(h_mm) (dev_write (reg offset) (u32 value) h.(h_dev))
             (h.(h_trace) ++ [Write (reg offset) (u32 value)])).

Definition mmio_write64 (offset value : Z) : hwM S D unit :=
  mmio_write offset value;; mmio_write (offset + 4) (Z.shiftr value 32).

Definition mmio_read64 (offset : Z) : hwM S D Z :=
  hi ← mmio_read (offset + 4); lo ← mmio_read offset; mret (Z.shiftl hi 32 .| lo).

Definition h_mem (h : hw S D) : memory := mem_of h.(h_mm).
Definition set_h_mem (m : memory) (h : hw S D) : hw S D :=
  mk_hw (set_mem m h.(h_mm)) h.(h_dev) h.(h_trace).

(** An update of memory, and an allocation, as computations. *)
Definition modify_mem (f : memory → memory) : hwM S D unit := λ h, (tt, set_h_mem (f (h_mem h)) h).
Definition hw_alloc (size align : Z) : hwM S D Z := λ h,
  let '(p, s) := alloc size align h.(h_mm) in (p, mk_hw s h.(h_dev) h.(h_trace)).

(** The device acts on memory. *)
Definition device_step (h : hw S D) : hw S D :=
  let '(d, m) := dev_run h.(h_dev) (h_mem h) in
  set_h_mem m (mk_hw h.(h_mm) d h.(h_trace)).
End hw.

#[global] Arguments reg : simpl never.
#[global] Arguments mmio_read : simpl never.
#[global] Arguments mmio_write : simpl never.

(** ** The layout of a queue *)

Definition desc_at (q : Z) (i : nat) : Z := q + 16 * Z.of_nat i.
Definition avail_flags (q : Z) : Z := q + 2048.
Definition avail_idx (q : Z) : Z := q + 2050.
Definition avail_ring (q i : Z) : Z := q + 2052 + 2 * i.
Definition used_flags (q : Z) : Z := q + 2314.
Definition used_idx (q : Z) : Z := q + 2316.
Definition used_id (q i : Z) : Z := q + 2318 + 8 * i.
Definition used_len (q i : Z) : Z := q + 2322 + 8 * i.
Definition SIZEOF_QUEUE : Z := 3342.

(** A descriptor and the stores that set its fields. *)
Record desc : Type := mk_desc { d_addr : Z; d_len : Z; d_flags : Z; d_next : Z }.

Definition store_desc (a : Z) (d : desc) (m : memory) : memory :=
  store16 (a + 14) d.(d_next) (store16 (a + 12) d.(d_flags)
    (store32 (a + 8) d.(d_len) (store64 a d.(d_addr) m))).

Definition load_desc (m : memory) (a : Z) : desc :=
  mk_desc (load64 m a) (load32 m (a + 8)) (load16 m (a + 12)) (load16 m (a + 14)).

(** The three loops and the four assignments that clear a new queue. *)
Definition clear_queue (q : Z) (m : memory) : memory :=
  let m1 := foldl (λ m i, store_desc (desc_at q i) (mk_desc 0 0 0 0) m) m
                  (seq 0 VIRTIO_QUEUE_SIZE) in
  let m2 := store16 (avail_idx q) 0 (store16 (avail_flags q) 0 m1) in
  let m3 := foldl (λ m i, store16 (avail_ring q (Z.of_nat i)) 0 m) m2
                  (seq 0 VIRTIO_QUEUE_SIZE) in
  let m4 := store16 (used_idx q) 0 (store16 (used_flags q) 0 m3) in
  foldl (λ m i, store32 (used_len q (Z.of_nat i)) 0 (store32 (used_id q (Z.of_nat i)) 0 m)) m4
        (seq 0 VIRTIO_QUEUE_SIZE).

(** [avail->ring[avail->idx % VIRTIO_QUEUE_SIZE] = 0; avail->idx++]: the chain
    that starts at descriptor 0 is offered to the device. *)
Definition offer_chain (q : Z) (m : memory) : memory :=
  let m1 := store16 (avail_ring q (load16 m (avail_idx q) mod Z.of_nat VIRTIO_QUEUE_SIZE)) 0 m in
  store16 (avail_idx q) (load16 m1 (avail_idx q) + 1) m1.

(** The queue at index [idx]: a page from the heap, cleared and announced.
    The value is what is assigned to the queue pointer. *)
Definition queue_setup {S} `{Allocator S} {D} `{Device D} (idx : Z) : hwM S D Z :=
  q ← hw_alloc AEGIS_PAGE_SIZE AEGIS_PAGE_SIZE;
  if q =? 0 then mret q else
  modify_mem (clear_queue q);;
  mmio_write VIRTIO_MMIO_QUEUE_SEL idx;;
  mmio_write VIRTIO_MMIO_QUEUE_NUM (Z.of_nat VIRTIO_QUEUE_SIZE);;
  mmio_write VIRTIO_MMIO_QUEUE_READY 1;;
  mmio_write64 VIRTIO_MMIO_QUEUE_READY q;;
  mret q.

(** ** What the device sees *)

(** The descriptors of the chain that starts at [i], as far as [n] of them. *)
Fixpoint chain (n : nat) (m : memory) (q : Z) (i : Z) : list desc :=
  match n with
  | O => []
  | Datatypes.S n' =>
      let d := load_desc m (q + 16 * i) in
      d :: if Z.testbit d.(d_flags) 0 then chain n' m q d.(d_next) else []
  end.

(** The part of a chain the device may only read, and the part it may write. *)
Definition device_readable (ds : list desc) : list desc :=
  filter (λ d, Z.testbit d.(d_flags) 1 = false) ds.
Definition device_writable (ds : list desc) : list desc :=
  filter (λ d, Z.testbit d.(d_flags) 1 = true) ds.

(** The bytes behind some descriptors. *)
Definition gather (m : memory) (ds : list desc) : list Z :=
  mjoin ((λ d, bytes_at m d.(d_addr) (Z.to_nat d.(d_len))) <$> ds).

(** ** Lemmas: memory *)

Lemma load_store_desc a d m :
  load_desc (store_desc a d m) a =
  mk_desc (u64 d.(d_addr)) (u32 d.(d_len)) (u16 d.(d_flags)) (u16 d.(d_next)).
Proof. unfold load_desc, store_desc. load_store. done. Qed.

Lemma load_store_desc_ne a b d m :
  a + 16 <= b ∨ b + 16 <= a → load_desc (store_desc a d m) b = load_desc m b.
Proof. intros H. unfold load_desc, store_desc. load_store. done. Qed.

Lemma load_le_store_desc n a b d m :
  a + 16 <= b ∨ b + Z.of_nat n <= a → load_le n (store_desc a d m) b = load_le n m b.
Proof. intros H. unfold store_desc. load_store. done. Qed.

Lemma load8_store_desc a d m b :
  ¬ (a <= b < a + 16) → load8 (store_desc a d m) b = load8 m b.
Proof. intros H. unfold store_desc. load8_store. done. Qed.

Lemma load8_clear_desc a m b :
  load8 (store_desc a (mk_desc 0 0 0 0) m) b = if decide (a <= b < a + 16) then 0 else load8 m b.
Proof.
  case_decide; [|by apply load8_store_desc].
  unfold store_desc, store16, store32, store64; simpl. rewrite !load8_store_le.
  repeat (case_decide; [by rewrite Z.div_0_l by (apply Z.pow_nonzero; lia)|]). lia.
Qed.

(** A loop that clears an array of items of [w] bytes. *)
Lemma clear_loop (f : memory → nat → memory) a w n m b :
  0 < w →
  (∀ m i c, load8 (f m i) c =
     if decide (a + w * Z.of_nat i <= c < a + w * Z.of_nat i + w) then 0 else load8 m c) →
  load8 (foldl f m (seq 0 n)) b = if decide (a <= b < a + w * Z.of_nat n) then 0 else load8 m b.
Proof.
  intros Hw Hf. induction n as [|n IH]; [by rewrite decide_False by lia|].
  rewrite seq_S, foldl_app. simpl. rewrite Hf, IH. repeat case_decide; done || lia.
Qed.

Lemma load8_store_zero n a m b :
  load8 (store_le n a 0 m) b = if decide (a <= b < a + Z.of_nat n) then 0 else load8 m b.
Proof.
  rewrite load8_store_le. case_decide; [|done].
  by rewrite Z.div_0_l by (apply Z.pow_nonzero; lia).
Qed.

(** A cleared queue: zero but for the padding, and nothing else touched. *)
Lemma load8_clear_queue q m b :
  load8 (clear_queue q m) b =
  if decide (q <= b < q + 2308 ∨ q + 2314 <= b < q + SIZEOF_QUEUE) then 0 else load8 m b.
Proof.
  unfold clear_queue, used_id, used_len, avail_ring, desc_at, SIZEOF_QUEUE.
  rewrite (clear_loop _ (q + 2318) 8), (load8_store_zero 2), (load8_store_zero 2),
    (clear_loop _ (q + 2052) 2), (load8_store_zero 2), (load8_store_zero 2), (clear_loop _ q 16).
  - unfold used_flags, used_idx, avail_flags, avail_idx, VIRTIO_QUEUE_SIZE.
    repeat case_decide; done || lia.
  - lia.
  - intros m' i c. apply load8_clear_desc.
  - lia.
  - intros m' i c. unfold store16. rewrite load8_store_zero. by repeat case_decide; done || lia.
  - lia.
  - intros m' i c. unfold store32. rewrite !load8_store_zero. by repeat case_decide; done || lia.
Qed.

Lemma load_clear_queue q m n a :
  (q <= a ∧ a + Z.of_nat n <= q + 2308) ∨ (q + 2314 <= a ∧ a + Z.of_nat n <= q + SIZEOF_QUEUE) →
  load_le n (clear_queue q m) a = 0.
Proof.
  intros H. apply load_le_zero. intros b Hb. rewrite load8_clear_queue. rewrite decide_True; lia.
Qed.
#[global] Arguments clear_queue : simpl never.

(** ** Lemmas: rings *)

Lemma ring_slot q m :
  0 <= load16 m (avail_idx q) mod Z.of_nat VIRTIO_QUEUE_SIZE < 128.
Proof. unfold VIRTIO_QUEUE_SIZE. apply Z.mod_pos_bound. lia. Qed.

Lemma offer_chain_avail q m :
  load16 (offer_chain q m) (avail_idx q) = u16 (load16 m (avail_idx q) + 1) ∧
  load16 (offer_chain q m)
    (avail_ring q (load16 m (avail_idx q) mod Z.of_nat VIRTIO_QUEUE_SIZE)) = 0.
Proof.
  pose proof (ring_slot q m) as Hs. unfold offer_chain. set (j := _ mod _) in *.
  unfold avail_ring, avail_idx in *. split; load_store; done.
Qed.

Lemma offer_chain_frame q m n a :
  a + Z.of_nat n <= q + 2050 ∨ q + 2308 <= a →
  load_le n (offer_chain q m) a = load_le n m a.
Proof.
  intros Ha. pose proof (ring_slot q m) as Hs. unfold offer_chain. set (j := _ mod _) in *.
  unfold avail_ring, avail_idx in *. by load_store.
Qed.

Lemma load8_offer_chain q m b :
  b < q + 2050 ∨ q + 2308 <= b → load8 (offer_chain q m) b = load8 m b.
Proof.
  intros Ha. pose proof (ring_slot q m) as Hs. unfold offer_chain. set (j := _ mod _) in *.
  unfold avail_ring, avail_idx in *. by load8_store.
Qed.

Lemma offer_chain_ring q m i :
  0 <= i < 128 → load16 m (avail_ring q i) = 0 → load16 (offer_chain q m) (avail_ring q i) = 0.
Proof.
  intros Hi Hz. pose proof (ring_slot q m) as Hs. unfold offer_chain. set (j := _ mod _) in *.
  unfold avail_ring, avail_idx in *. unfold load16, store16 in *.
  rewrite load_store_le_ne by lia. destruct (decide (i = j)) as [->|Hne].
  - by rewrite load_store_le_eq.
  - by rewrite load_store_le_ne by lia.
Qed.

Lemma load_desc_offer_chain q m i :
  0 <= i < 128 → load_desc (offer_chain q m) (q + 16 * i) = load_desc m (q + 16 * i).
Proof.
  intros Hi. unfold load_desc, load64, load32, load16. by rewrite !offer_chain_frame by lia.
Qed.
#[global] Arguments offer_chain : simpl never.

(** ** Lemmas: the machine *)

(** The register writes of a trace. *)
Definition writes (tr : list mmio) : list (Z * Z) :=
  omap (λ e, match e with Write off v => Some (off, v) | Read _ => None end) tr.

Lemma writes_app tr1 tr2 : writes (tr1 ++ tr2) = writes tr1 ++ writes tr2.
Proof. apply omap_app. Qed.

Section hw_lemmas.
Context {S : Type} `{AllocatorLaws S} {D : Type} `{Device D}.
Implicit Types h : hw S D.

Lemma h_mem_set m h : h_mem (set_h_mem m h) = m.
Proof. apply mem_set_mem. Qed.

Lemma mmio_read_val off h : (mmio_read off h).1 = u32 (dev_read (reg off) (h_dev h)).1.
Proof. unfold mmio_read. by destruct (dev_read _ _). Qed.

Lemma mmio_read_trace off h : h_trace (mmio_read off h).2 = h_trace h ++ [Read (reg off)].
Proof. unfold mmio_read. by destruct (dev_read _ _). Qed.

(** [c] only accesses the registers, and writes [ws] to them in order. *)
Definition does {A} (ws : list (Z * Z)) (c : hwM S D A) : Prop := ∀ h,
  h_mm (c h).2 = h_mm h ∧ writes (h_trace (c h).2) = writes (h_trace h) ++ ws.

Lemma does_ret {A} (a : A) : does [] (mret a : hwM S D A).
Proof. intros h. split; [done|]. by rewrite app_nil_r. Qed.

Lemma does_read off : does [] (mmio_read off).
Proof.
  intros h. split; [unfold mmio_read; by destruct (dev_read _ _)|].
  by rewrite mmio_read_trace, writes_app.
Qed.

Lemma does_write off v : does [(reg off, u32 v)] (mmio_write off v).
Proof. intros h. split; [done|]. unfold mmio_write; simpl. by rewrite writes_app. Qed.

Lemma does_bind {A B} ws1 ws2 (c : hwM S D A) (f : A → hwM S D B) :
  does ws1 c → (∀ a, does ws2 (f a)) → does (ws1 ++ ws2) (c ≫= f).
Proof.
  intros Hc Hf h. specialize (Hc h). unfold mbind, hw_bind.
  destruct (c h) as [a h1]. destruct (Hf a h1) as [Hm Hw], Hc as [Hm1 Hw1]. simpl in *.
  split; [congruence|]. by rewrite Hw, Hw1, app_assoc.
Qed.

Lemma does_write64 off v :
  does [(reg off, u32 v); (reg (off + 4), u32 (Z.shiftr v 32))] (mmio_write64 off v).
Proof.
  apply (does_bind [_] [_]); [apply does_write|]. intros _. apply does_write.
Qed.

Lemma does_read64 off : does [] (mmio_read64 off).
Proof. repeat (apply (does_bind [] []); [apply does_read|intros ?]). apply does_ret. Qed.

Lemma hw_bind_eq {A B} (c : hwM S D A) (f : A → hwM S D B) h : (c ≫= f) h = f (c h).1 (c h).2.
Proof. unfold mbind, hw_bind. by destruct (c h). Qed.

(** Where a register-only computation leaves the machine. *)
Lemma does_result {A} ws (c : hwM S D A) h :
  does ws c → ∃ a h', c h = (a, h') ∧ h_mm h' = h_mm h ∧ writes (h_trace h') = writes (h_trace h) ++ ws.
Proof. intros Hc. destruct (Hc h) as [Hm Hw]. destruct (c h) as [a h']. by exists a, h'. Qed.

(** The answer of a read that every state of the device gives. *)
Lemma read_bind {A} off v (f : Z → hwM S D A) h :
  (∀ d, (dev_read (reg off) d).1 = v) → 0 <= v < 2 ^ 32 →
  ∃ h1, (mmio_read off ≫= f) h = f v h1 ∧ h_mm h1 = h_mm h ∧
    h_trace h1 = h_trace h ++ [Read (reg off)].
Proof.
  intros Hv Hr. pose proof (mmio_read_val off h) as E. pose proof (mmio_read_trace off h) as Et.
  destruct (does_read off h) as [Em _]. unfold mbind, hw_bind.
  destruct (mmio_read off h) as [a h1]. simpl in *. exists h1.
  rewrite E, Hv, u32_small by done. done.
Qed.

(** The writes that announce the queue at [q] to the device. *)
Definition queue_writes (idx q : Z) : list (Z * Z) :=
  [(48, idx); (56, 128); (68, 1); (68, u32 q); (72, u32 (Z.shiftr q 32))].

(** What allocating and clearing a queue leaves behind. *)
Record queue_made (h : hw S D) (q : Z) (h' : hw S D) : Prop := {
  qm_inv : alloc_inv (h_mm h');
  qm_place : 0 < q ∧ brk (h_mm h) <= q ∧ q + AEGIS_PAGE_SIZE = brk (h_mm h') ∧
             brk (h_mm h') <= heap_limit (h_mm h');
  qm_limit : heap_limit (h_mm h') = heap_limit (h_mm h);
  qm_near : q < brk (h_mm h) + AEGIS_PAGE_SIZE;
  qm_mem : h_mem h' = clear_queue q (h_mem h)
}.

Lemma alloc_queue h :
  alloc_inv (h_mm h) → brk (h_mm h) + 2 * AEGIS_PAGE_SIZE <= heap_limit (h_mm h) →
  ∃ q h', (hw_alloc AEGIS_PAGE_SIZE AEGIS_PAGE_SIZE h).1 = q ∧ q ≠ 0 ∧
    (modify_mem (clear_queue q) (hw_alloc AEGIS_PAGE_SIZE AEGIS_PAGE_SIZE h).2).2 = h' ∧
    queue_made h q h' ∧ h_trace h' = h_trace h.
Proof.
  intros Hi Hroom. pose proof (alloc_spec AEGIS_PAGE_SIZE AEGIS_PAGE_SIZE (h_mm h) Hi) as R.
  destruct (brk_bounds _ Hi) as [Hb1 Hb2]. unfold hw_alloc.
  destruct (alloc AEGIS_PAGE_SIZE AEGIS_PAGE_SIZE (h_mm h)) as [q s1].
  cbn [fst snd] in *. unfold AEGIS_PAGE_SIZE in *.
  destruct R as [Ri Rm _ Rl Rb Rr]; [lia|by exists 12|].
  assert (Hq : q ≠ 0) by (apply Rr; lia). destruct Rb as [[? _]|(Hr0 & Hr1 & Hr2 & _ & Hr3)]; [done|].
  exists q. eexists. split; [done|]. split; [done|]. split; [reflexivity|]. split; [|done].
  pose proof (proj2 (inv_set_mem (clear_queue q (mem_of s1)) s1) Ri) as Ri'.
  destruct (brk_bounds _ Ri') as [_ Hb3]. rewrite brk_set_mem, limit_set_mem in Hb3.
  split; unfold modify_mem, set_h_mem, h_mem; cbn [fst snd h_mm];
    rewrite ?brk_set_mem, ?limit_set_mem, ?mem_set_mem; unfold AEGIS_PAGE_SIZE; try done; try lia.
  by rewrite Rm.
Qed.

Lemma queue_setup_spec idx h :
  0 <= idx < 2 ^ 32 →
  alloc_inv (h_mm h) → brk (h_mm h) + 2 * AEGIS_PAGE_SIZE <= heap_limit (h_mm h) →
  ∃ q h', queue_setup idx h = (q, h') ∧ queue_made h q h' ∧
    writes (h_trace h') = writes (h_trace h) ++ queue_writes idx q.
Proof.
  intros Hidx Hi Hroom. destruct (alloc_queue h Hi Hroom) as (q & h1 & E1 & Hq & E2 & Hm & Ht).
  unfold queue_setup. rewrite hw_bind_eq, E1, (proj2 (Z.eqb_neq _ _) Hq).
  rewrite hw_bind_eq, E2.
  match goal with |- ∃ _ _, ?c h1 = _ ∧ _ =>
    destruct (does_result (queue_writes idx q) c h1) as (a & h' & E & Em & Ew) end.
  - unfold queue_writes. rewrite <-(u32_small idx Hidx) at 1.
    apply (does_bind [_]); [apply does_write|intros _].
    apply (does_bind [_]); [apply does_write|intros _].
    apply (does_bind [_]); [apply does_write|intros _].
    rewrite <-(app_nil_r [(68, _); (72, _)]).
    apply (does_bind [_; _]); [apply does_write64|intros _]. apply does_ret.
  - rewrite E. assert (a = q) as ->.
    { apply (f_equal fst) in E. rewrite !hw_bind_eq in E. by simpl in E. }
    exists q, h'. split; [done|].
    rewrite Ew, Ht. split; [|done]. destruct Hm as [M1 M2 M3 M4 M5].
    split; rewrite ?Em; try done. unfold h_mem in *. by rewrite Em.
Qed.
End hw_lemmas.

(** A device that answers every read with the same word and leaves memory
    alone. *)
Definition mute_device (v : Z) : Device unit := {|
  dev_read _ d := (v, d); dev_write _ _ d := d; dev_run d m := (d, m) |}.
