(* ===== verification/VirtioBlk.v ===== *)
(** * Block driver ([kernel/src/virtio_blk.c])

    Initialisation over the registers of the device, one request at a time
    over the queue, and the polling for its completion.  The functions are
    computations on the machine of [Virtio] next to the driver's static
    variables.  The address of the register window is not interpreted: the
    device of the machine is the one behind it. *)

From S2P Require Import Prelude Memory Heap Virtio.

Definition VIRTIO_BLK_T_IN : Z := 0.
Definition VIRTIO_BLK_T_OUT : Z := 1.
Definition VIRTIO_BLK_T_FLUSH : Z := 4.

Definition SIZEOF_BLK_REQ : Z := 529.

Record blk_config_t : Type := mk_blk_config {
  capacity : Z; size_max : Z; seg_max : Z;
  cylinders : Z; heads : Z; sectors : Z;
  blk_size : Z; topologies : Z; writeback : Z
}.

Record blk : Type := mk_blk {
  virtio_base : Z;
  virtio_queue : Z;
  virtio_mmio : Z;
  blk_config : blk_config_t
}.

Definition virtio_blk_config0 : blk_config_t := mk_blk_config 0 0 0 0 0 0 0 0 0.
Definition blk0 : blk := mk_blk 0 0 0 virtio_blk_config0.

(** ** The request *)

(** [virtio_submit_request] up to the notification: the header of the request
    and its three descriptors. *)
Definition store_request (q req type sector : Z) (m : memory) : memory :=
  let m1 := store64 (req + 8) sector (store32 (req + 4) 0 (store32 req type m)) in
  let m2 := store_desc (desc_at q 0) (mk_desc req SIZEOF_BLK_REQ VIRTIO_DESC_F_NEXT 1) m1 in
  let data_flags :=
    (if type =? VIRTIO_BLK_T_OUT then VIRTIO_DESC_F_WRITE else 0) .| VIRTIO_DESC_F_NEXT in
  let m3 := store_desc (desc_at q 1) (mk_desc (q + 512) 512 data_flags 2) m2 in
  let m4 := store_desc (desc_at q 2) (mk_desc (used_id q 0) 1 VIRTIO_DESC_F_WRITE 0) m3 in
  offer_chain q m4.

Section blk.
Context {S : Type} `{Allocator S} {D : Type} `{Device D}.
#[local] Abbreviation hwM := (hwM S D).
#[local] Abbreviation hw := (hw S D).

(** ** Initialisation *)

Definition virtio_set_status (status : Z) : hwM unit := mmio_write VIRTIO_MMIO_STATUS status.
Definition virtio_ack_irq (mask : Z) : hwM unit := mmio_write VIRTIO_MMIO_INTERRUPT_ACK mask.

Definition virtio_queue_setup : hwM Z := queue_setup 0.

Definition driver_features (oor : Z) : Z :=
  bit32 oor VIRTIO_F_VERSION_1 .| bit32 oor VIRTIO_F_RING_INDIRECT_DESC
    .| bit32 oor VIRTIO_F_RING_EVENT_IDX.

(** [device_features] is only printed. *)
Definition virtio_negotiate_features (oor : Z) : hwM unit :=
  _ ← mmio_read VIRTIO_MMIO_DEVICE_FEATURES;
  mmio_write VIRTIO_MMIO_DRIVER_FEATURES (driver_features oor).

(** The two reads of [mmio_read64] are unordered in C; the upper one comes
    first here.  [blk_size] is assigned twice. *)
Definition virtio_read_config : hwM blk_config_t :=
  capacity ← mmio_read64 (VIRTIO_MMIO_DEVICE_FEATURES + 256);
  _ ← mmio_read (VIRTIO_MMIO_DEVICE_FEATURES + 264);
  size_max ← mmio_read (VIRTIO_MMIO_DEVICE_FEATURES + 268);
  seg_max ← mmio_read (VIRTIO_MMIO_DEVICE_FEATURES + 272);
  c ← mmio_read (VIRTIO_MMIO_DEVICE_FEATURES + 276);
  h ← mmio_read (VIRTIO_MMIO_DEVICE_FEATURES + 276);
  s ← mmio_read (VIRTIO_MMIO_DEVICE_FEATURES + 280);
  blk_size ← mmio_read (VIRTIO_MMIO_DEVICE_FEATURES + 284);
  topologies ← mmio_read (VIRTIO_MMIO_DEVICE_FEATURES + 288);
  w ← mmio_read (VIRTIO_MMIO_DEVICE_FEATURES + 292);
  mret (mk_blk_config capacity size_max seg_max (c .& 65535) (Z.shiftr h 16 .& 65535)
          (s .& 65535) blk_size topologies (w .& 255)).

(** The part of [virtio_init] behind the checks. *)
Definition virtio_bring_up (oor : Z) (st : blk) : hwM blk :=
  virtio_set_status VIRTIO_STATUS_ACKNOWLEDGE;;
  virtio_set_status VIRTIO_STATUS_DRIVER;;
  virtio_negotiate_features oor;;
  virtio_set_status VIRTIO_STATUS_FEATURES_OK;;
  q ← virtio_queue_setup;
  cfg ← virtio_read_config;
  virtio_set_status VIRTIO_STATUS_DRIVER_OK;;
  mret (mk_blk st.(virtio_base) q st.(virtio_mmio) cfg).

(** [int virtio_init(uintptr_t base)] *)
Definition virtio_init (oor base : Z) (st : blk) : hwM (Z * blk) :=
  let st := mk_blk base st.(virtio_queue) base st.(blk_config) in
  magic ← mmio_read VIRTIO_MMIO_MAGIC_VALUE;
  if negb (magic =? VIRTIO_MMIO_MAGIC_VALUE) then mret (-1, st) else
  version ← mmio_read VIRTIO_MMIO_VERSION;
  if negb (version =? 1) && negb (version =? 2) then mret (-1, st) else
  device_id ← mmio_read VIRTIO_MMIO_DEVICE_ID;
  if negb (device_id =? 2) then mret (-1, st) else
  vendor_id ← mmio_read VIRTIO_MMIO_VENDOR_ID;
  if negb (vendor_id =? 6900) then mret (-1, st) else
  st ← virtio_bring_up oor st;
  mret (0, st).

(** ** Requests *)

Definition virtio_submit_request (q req type sector : Z) : hwM unit :=
  modify_mem (store_request q req type sector);;
  mmio_write VIRTIO_MMIO_QUEUE_NOTIFY 0.

(** [used.idx == avail.idx - 1], where the right side is an [int] *)
Definition pending (q : Z) (m : memory) : bool :=
  load16 m (used_idx q) =? load16 m (avail_idx q) - 1.

(** The polling loop.  The device may act before each test, the first one
    included; [None] when the fuel does not suffice. *)
Fixpoint wait_used (fuel : nat) (q : Z) (h : hw) : option hw :=
  match fuel with
  | O => None
  | Datatypes.S fuel' =>
      let h1 := device_step h in
      if pending q (h_mem h1) then wait_used fuel' q h1 else Some h1
  end.

(** The common end of the three requests: submission through a queue pointer
    that is not checked, polling, and the result. *)
Definition request (fuel : nat) (q req type sector : Z) (h : hw) : outcome (option (Z * hw)) :=
  if q =? 0 then Fault NullPointer else
  let h1 := (virtio_submit_request q req type sector h).2 in
  Ok (h2 ← wait_used fuel q h1;
      Some (if load32 (h_mem h2) (used_id q 0) =? 0 then 0 else -1, h2)).

(** [int virtio_blk_read(uint64_t sector, void *buf, uint32_t count)]: [buf]
    is not used. *)
Definition virtio_blk_read (fuel : nat) (sector buf count : Z) (st : blk) (h : hw)
    : outcome (option (Z * hw)) :=
  if st.(virtio_mmio) =? 0 then Ok (Some (-1, h)) else
  if count =? 0 then Ok (Some (0, h)) else
  let '(req, h1) := hw_alloc SIZEOF_BLK_REQ 16 h in
  if req =? 0 then Ok (Some (-1, h1)) else
  request fuel st.(virtio_queue) req VIRTIO_BLK_T_IN sector h1.

(** [int virtio_blk_write(...)]: [req] is the address of its static
    request; [buf] is not used. *)
Definition virtio_blk_write (fuel : nat) (req sector buf count : Z) (st : blk) (h : hw)
    : outcome (option (Z * hw)) :=
  if st.(virtio_mmio) =? 0 then Ok (Some (-1, h)) else
  if count =? 0 then Ok (Some (0, h)) else
  request fuel st.(virtio_queue) req VIRTIO_BLK_T_OUT sector h.

Definition virtio_blk_flush (fuel : nat) (req : Z) (st : blk) (h : hw)
    : outcome (option (Z * hw)) :=
  if st.(virtio_mmio) =? 0 then Ok (Some (-1, h)) else
  request fuel st.(virtio_queue) req VIRTIO_BLK_T_FLUSH 0 h.

(** [void virtio_handle_irq(void)]: neither pointer is checked; the comparison
    at its end guards an empty block, but reads through the queue pointer. *)
Definition virtio_handle_irq (st : blk) (h : hw) : outcome hw :=
  if st.(virtio_mmio) =? 0 then Fault NullPointer else
  let '(status, h1) := mmio_read VIRTIO_MMIO_INTERRUPT_STATUS h in
  if status =? 0 then Ok h1 else
  let h2 := (virtio_ack_irq status h1).2 in
  if st.(virtio_queue) =? 0 then Fault NullPointer else Ok h2.
End blk.

(** ** What a request is *)

(** The three descriptors of a request: its header, the block of 512 bytes
    inside of the queue, and the status byte inside of the used ring. *)
Definition request_chain (q req type : Z) : list desc :=
  [mk_desc req SIZEOF_BLK_REQ 1 1;
   mk_desc (q + 512) 512 (if type =? VIRTIO_BLK_T_OUT then 3 else 1) 2;
   mk_desc (used_id q 0) 1 2 0].

(** Where the driver's queue and request lie. *)
Record placed (q req : Z) : Prop := {
  pl_q : 0 < q ∧ q + SIZEOF_QUEUE <= 2 ^ 64;
  pl_req : 0 <= req < 2 ^ 64;
  pl_disjoint : req + SIZEOF_BLK_REQ <= q ∨ q + SIZEOF_QUEUE <= req
}.

(** The descriptors are those of a request, and every slot of the available
    ring names descriptor 0. *)
Record armed (q req type : Z) (m : memory) : Prop := {
  ar_desc i d : request_chain q req type !! i = Some d → load_desc m (desc_at q i) = d;
  ar_ring i : 0 <= i < 128 → load16 m (avail_ring q i) = 0
}.

Lemma armed_chain q req type m :
  armed q req type m → chain VIRTIO_QUEUE_SIZE m q 0 = request_chain q req type.
Proof.
  intros [Hd _]. pose proof (Hd 0%nat _ eq_refl) as D0. pose proof (Hd 1%nat _ eq_refl) as D1.
  pose proof (Hd 2%nat _ eq_refl) as D2. unfold desc_at in D0, D1, D2. unfold VIRTIO_QUEUE_SIZE.
  change (16 * Z.of_nat 0) with (16 * 0) in D0. change (16 * Z.of_nat 1) with (16 * 1) in D1.
  change (16 * Z.of_nat 2) with (16 * 2) in D2.
  cbn [chain]. rewrite D0. cbn [d_flags d_next Z.testbit Pos.testbit]. rewrite D1.
  destruct (type =? VIRTIO_BLK_T_OUT) eqn:E; cbn [d_flags d_next Z.testbit Pos.testbit];
    rewrite D2; cbn [d_flags d_next Z.testbit Pos.testbit]; unfold request_chain; by rewrite E.
Qed.

Lemma armed_ext q req type m m' :
  armed q req type m →
  (∀ b, q <= b < q + 48 ∨ q + 2052 <= b < q + 2308 → load8 m' b = load8 m b) →
  armed q req type m'.
Proof.
  intros [Hd Hr] He. split.
  - intros i d Hi. rewrite <-(Hd i d Hi). apply lookup_lt_Some in Hi. simpl in Hi.
    unfold load_desc, load64, load32, load16, desc_at.
    f_equal; apply load_le_ext; intros b Hb; apply He; lia.
  - intros i Hi. rewrite <-(Hr i Hi). unfold load16, avail_ring.
    apply load_le_ext. intros b Hb. apply He. lia.
Qed.

Lemma store_request_desc q req type sector m :
  placed q req → ∀ i d, request_chain q req type !! i = Some d →
  load_desc (store_request q req type sector m) (desc_at q i) = d.
Proof.
  intros [[Hq1 Hq2] Hreq _] i d Hi. pose proof (lookup_lt_Some _ _ _ Hi) as Hlt. simpl in Hlt.
  unfold store_request. unfold desc_at at 4.
  rewrite load_desc_offer_chain by lia. unfold desc_at, used_id, SIZEOF_QUEUE in *.
  destruct i as [|[|[|i]]]; [..|lia]; injection Hi as <-.
  - rewrite !load_store_desc_ne, load_store_desc by lia. simpl. by rewrite u64_small by lia.
  - rewrite load_store_desc_ne, load_store_desc by lia. simpl. rewrite u64_small by lia.
    by destruct (type =? VIRTIO_BLK_T_OUT).
  - rewrite load_store_desc. simpl. by rewrite u64_small by lia.
Qed.

(** Where a submission leaves memory alone. *)
Lemma store_request_frame q req type sector m b :
  b < req ∨ req + 16 <= b → b < q ∨ q + 48 <= b < q + 2050 ∨ q + 2308 <= b →
  load8 (store_request q req type sector m) b = load8 m b.
Proof.
  intros Hr Hq. unfold store_request. rewrite load8_offer_chain by lia.
  unfold desc_at. rewrite !load8_store_desc by lia. by load8_store.
Qed.

(** The words of the rings are not changed before the chain is offered. *)
Lemma store_request_rings q req type sector m :
  placed q req → ∃ m0, store_request q req type sector m = offer_chain q m0 ∧
    ∀ n a, q + 2048 <= a → a + Z.of_nat n <= q + SIZEOF_QUEUE → load_le n m0 a = load_le n m a.
Proof.
  intros [_ _ Hd]. unfold store_request. eexists. split; [reflexivity|]. intros n a H1 H2.
  unfold SIZEOF_BLK_REQ, SIZEOF_QUEUE, desc_at in *. rewrite !load_le_store_desc by lia. by load_store.
Qed.

Lemma store_request_armed q req type sector m :
  placed q req → (∀ i, 0 <= i < 128 → load16 m (avail_ring q i) = 0) →
  armed q req type (store_request q req type sector m).
Proof.
  intros Hp Hr. split; [by apply store_request_desc|]. intros i Hi.
  destruct (store_request_rings q req type sector m Hp) as (m0 & -> & H0).
  apply offer_chain_ring; [done|]. unfold load16, avail_ring in *.
  rewrite H0; [by apply Hr|lia|unfold SIZEOF_QUEUE; lia].
Qed.

Lemma store_request_avail q req type sector m :
  placed q req →
  load16 (store_request q req type sector m) (avail_idx q) = u16 (load16 m (avail_idx q) + 1) ∧
  load16 (store_request q req type sector m) (used_idx q) = load16 m (used_idx q).
Proof.
  intros Hp. destruct (store_request_rings q req type sector m Hp) as (m0 & -> & H0).
  destruct (offer_chain_avail q m0) as [-> _]. unfold load16, avail_idx, used_idx, SIZEOF_QUEUE in *.
  rewrite offer_chain_frame by lia. by rewrite !H0 by lia.
Qed.

Lemma store_request_header q req type sector m :
  placed q req → 0 <= type < 2 ^ 32 → 0 <= sector < 2 ^ 64 →
  load32 (store_request q req type sector m) req = type ∧
  load64 (store_request q req type sector m) (req + 8) = sector.
Proof.
  intros [Hq Hr Hd] Ht Hs. unfold store_request, load32, load64, SIZEOF_BLK_REQ, SIZEOF_QUEUE, desc_at in *.
  rewrite !offer_chain_frame, !load_le_store_desc by lia. unfold store32, store64.
  rewrite load_store_le_eq, !load_store_le_ne, load_store_le_eq by lia.
  split; by rewrite Z.mod_small by lia.
Qed.

(** ** A device that keeps to the chains it is offered *)

(** From [m] to [m'] the device changes only the used ring and the buffers of
    the offered chains that it may write. *)
Definition obeys (q : Z) (m m' : memory) : Prop := ∀ b,
  load8 m' b ≠ load8 m b →
  q + 2314 <= b < q + SIZEOF_QUEUE ∨
  ∃ i d, 0 <= i < 128 ∧
    d ∈ device_writable (chain VIRTIO_QUEUE_SIZE m q (load16 m (avail_ring q i))) ∧
    d.(d_addr) <= b < d.(d_addr) + d.(d_len).

(** It never takes back the count of used chains or runs ahead of what is
    offered. *)
Definition serves (q : Z) (m m' : memory) : Prop :=
  obeys q m m' ∧
  (load16 m' (used_idx q) = load16 m (used_idx q) ∨
   load16 m' (used_idx q) = load16 m (avail_idx q)).

Lemma armed_obeys q req type m m' b :
  armed q req type m → obeys q m m' →
  ¬ (q + 512 <= b < q + 1024 ∨ q + 2314 <= b < q + SIZEOF_QUEUE) → load8 m' b = load8 m b.
Proof.
  intros Ha Ho Hb. destruct (decide (load8 m' b = load8 m b)) as [|Hne]; [done|exfalso].
  destruct (Ho b Hne) as [Hu|(i & d & Hi & Hd & Hr)]; [tauto|].
  rewrite (ar_ring _ _ _ _ Ha i Hi), (armed_chain _ _ _ _ Ha) in Hd.
  apply list_elem_of_filter in Hd as [Hw Hd]. unfold request_chain, used_id, SIZEOF_QUEUE in *.
  apply elem_of_cons in Hd as [->|Hd]; [done|].
  apply elem_of_cons in Hd as [->|Hd]; [simpl in Hr; lia|].
  apply list_elem_of_singleton in Hd as ->. simpl in Hr. lia.
Qed.

Lemma obeys_armed q req type m m' : armed q req type m → obeys q m m' → armed q req type m'.
Proof.
  intros Ha Ho. apply (armed_ext q req type m); [done|]. intros b Hb.
  apply (armed_obeys _ _ _ _ _ _ Ha Ho). unfold SIZEOF_QUEUE. lia.
Qed.

Lemma obeys_avail q req type m m' :
  armed q req type m → obeys q m m' → load16 m' (avail_idx q) = load16 m (avail_idx q).
Proof.
  intros Ha Ho. unfold load16, avail_idx. apply load_le_ext. intros b Hb.
  apply (armed_obeys _ _ _ _ _ _ Ha Ho). unfold SIZEOF_QUEUE. lia.
Qed.

Section requests.
Context {S : Type} `{AllocatorLaws S} {D : Type} `{Device D}.
Implicit Types h : hw S D.

Lemma device_step_mem h : h_mem (device_step h) = (dev_run (h_dev h) (h_mem h)).2.
Proof. unfold device_step. destruct (dev_run _ _). apply h_mem_set. Qed.

Lemma device_step_dev h : h_dev (device_step h) = (dev_run (h_dev h) (h_mem h)).1.
Proof. unfold device_step. by destruct (dev_run _ _). Qed.

Lemma submit_mem q req type sector h :
  h_mem (virtio_submit_request q req type sector h).2 = store_request q req type sector (h_mem h).
Proof. apply h_mem_set. Qed.

Lemma submit_dev q req type sector h :
  h_dev (virtio_submit_request q req type sector h).2 =
    dev_write (reg VIRTIO_MMIO_QUEUE_NOTIFY) 0 (h_dev h).
Proof. reflexivity. Qed.

(** What holds before the first test of the loop and survives the device
    holds at its end. *)
Lemma wait_used_inv (P : D → memory → Prop) q fuel : ∀ h h',
  (∀ d m, P d m → P (dev_run d m).1 (dev_run d m).2) → P (h_dev h) (h_mem h) →
  wait_used fuel q h = Some h' → P (h_dev h') (h_mem h') ∧ pending q (h_mem h') = false.
Proof.
  induction fuel as [|fuel IH]; intros h h' Hdev Hp; simpl; [done|].
  assert (Hp' : P (h_dev (device_step h)) (h_mem (device_step h)))
    by (rewrite device_step_dev, device_step_mem; by apply Hdev).
  destruct (pending q (h_mem (device_step h))) eqn:E; [by apply IH|].
  intros [= <-]. done.
Qed.

(** The loop ends when the device gets out of the pending state. *)
Lemma wait_used_ends q B : ∀ h k,
  (k < B)%nat → pending q (h_mem (Nat.iter (Datatypes.S k) device_step h)) = false →
  ∃ h', wait_used B q h = Some h'.
Proof.
  induction B as [|B IH]; intros h k Hk Hp; [lia|]. simpl.
  destruct (pending q (h_mem (device_step h))) eqn:E; [|by eexists].
  destruct k as [|k]; [simpl in Hp; congruence|].
  apply (IH _ k); [lia|]. by rewrite <-Nat.iter_succ_r.
Qed.

Section served.
Context (q req : Z).
Hypothesis (Hplaced : placed q req).

(** The states in which the device serves requests: it stays in them while it
    runs and when it is notified. *)
Context (live : D → Prop).
Hypothesis (Hrun : ∀ d m, live d → live (dev_run d m).1).
Hypothesis (Hnotify : ∀ d, live d → live (dev_write (reg VIRTIO_MMIO_QUEUE_NOTIFY) 0 d)).
Hypothesis (Hserves : ∀ type d m, live d → armed q req type m → serves q m (dev_run d m).2).

(** The queue between two requests: nothing outstanding. *)
Record idle (m : memory) : Prop := {
  id_ring i : 0 <= i < 128 → load16 m (avail_ring q i) = 0;
  id_used : load16 m (used_idx q) = load16 m (avail_idx q)
}.

(** While the request is out: one chain, offered at position [a]. *)
Definition waiting (type a : Z) (m0 m : memory) : Prop :=
  armed q req type m ∧ load16 m (avail_idx q) = u16 (a + 1) ∧
  (load16 m (used_idx q) = a ∨ load16 m (used_idx q) = u16 (a + 1)) ∧
  ∀ b, b < q ∨ q + SIZEOF_QUEUE <= b → load8 m b = load8 m0 b.

Lemma waiting_run type a m0 d m :
  live d → waiting type a m0 m → waiting type a m0 (dev_run d m).2.
Proof using Hserves.
  intros Hl (Ha & Hav & Hu & Hb). destruct (Hserves type d m Hl Ha) as [Ho Hus].
  pose proof (obeys_avail _ _ _ _ _ Ha Ho) as Eav. split_and!.
  - by apply (obeys_armed _ _ _ m).
  - congruence.
  - destruct Hus as [E|E]; rewrite E; [exact Hu|right; exact Hav].
  - intros b Hr. rewrite <-Hb by done. apply (armed_obeys _ _ _ _ _ _ Ha Ho).
    unfold SIZEOF_QUEUE in *. lia.
Qed.

Lemma request_waiting type sector m :
  idle m → waiting type (load16 m (avail_idx q)) (store_request q req type sector m)
             (store_request q req type sector m).
Proof.
  intros [Hr Hu]. destruct (store_request_avail q req type sector m Hplaced) as [E1 E2]. split_and!.
  - by apply store_request_armed.
  - done.
  - left. congruence.
  - done.
Qed.

(** What a request that returned has done. *)
Lemma request_returns fuel type sector h r h' :
  live (h_dev h) → idle (h_mem h) → request fuel q req type sector h = Ok (Some (r, h')) →
  let a := load16 (h_mem h) (avail_idx q) in
  load16 (h_mem h') (avail_idx q) = u16 (a + 1) ∧
  (a ≠ 65535 → idle (h_mem h')) ∧
  (∀ b, b < q ∨ q + SIZEOF_QUEUE <= b → b < req ∨ req + 16 <= b →
     load8 (h_mem h') b = load8 (h_mem h) b) ∧
  (r = 0 ∨ r = -1) ∧ (r = 0 ↔ load32 (h_mem h') (used_id q 0) = 0).
Proof.
  intros Hl Hi Hr a. unfold request in Hr. destruct Hplaced as [[Hq _] _ _].
  rewrite (proj2 (Z.eqb_neq q 0)) in Hr by lia.
  destruct (wait_used _ _ _) as [h2|] eqn:E; [|done]. injection Hr as <- <-.
  destruct (wait_used_inv
    (λ d m, live d ∧ waiting type a (store_request q req type sector (h_mem h)) m)
    q fuel (virtio_submit_request q req type sector h).2 h2) as [[_ Hw] Hp].
  { intros d m [Hd Hm]. split; [by apply Hrun|by apply waiting_run]. }
  { rewrite submit_mem, submit_dev. split; [by apply Hnotify|by apply request_waiting]. }
  { exact E. }
  destruct Hw as (Ha & Hav & Hu & Hb). split; [exact Hav|]. split; [|split].
  - intros Hne. split; [by apply Ha|]. rewrite Hav. destruct Hu as [Hu|Hu]; [|done]. exfalso.
    assert (0 <= a < 65536) by apply (load_le_range 2).
    unfold pending in Hp. rewrite Hav, Hu, u16_small in Hp by lia. apply Z.eqb_neq in Hp. lia.
  - intros b Hb1 Hb2. rewrite Hb by done. apply store_request_frame; [done|].
    unfold SIZEOF_QUEUE in *. lia.
  - destruct (Z.eqb_spec (load32 (h_mem h2) (used_id q 0)) 0); split; auto; split; auto; done.
Qed.
End served.
End requests.

(** ** Initialisation *)

(** A cleared queue is idle. *)
Lemma clear_queue_idle q m : idle q (clear_queue q m).
Proof.
  split; [intros i Hi|]; unfold load16, avail_ring, avail_idx, used_idx, SIZEOF_QUEUE;
    rewrite !load_clear_queue by (unfold SIZEOF_QUEUE; lia); done.
Qed.

Section init.
Context {S : Type} `{AllocatorLaws S} {D : Type} `{Device D}.
Implicit Types h : hw S D.

Lemma does_read_config : does (S := S) (D := D) [] virtio_read_config.
Proof.
  apply (does_bind [] []); [apply does_read64|intros ?].
  repeat (apply (does_bind [] []); [apply does_read|intros ?]). apply does_ret.
Qed.

Lemma bring_up_spec oor st h :
  alloc_inv (h_mm h) → brk (h_mm h) + 2 * AEGIS_PAGE_SIZE <= heap_limit (h_mm h) →
  ∃ st' h', virtio_bring_up oor st h = (st', h') ∧ queue_made h (virtio_queue st') h' ∧
    virtio_mmio st' = virtio_mmio st ∧
    writes (h_trace h') = writes (h_trace h) ++
      [(112, 1); (112, 2); (20, u32 (driver_features oor)); (112, 8)] ++
      queue_writes 0 (virtio_queue st') ++ [(112, 4)].
Proof.
  intros Hi Hroom. unfold virtio_bring_up.
  rewrite !hw_bind_eq. set (h1 := (virtio_set_status VIRTIO_STATUS_FEATURES_OK _).2).
  assert (E1 : h_mm h1 = h_mm h ∧ writes (h_trace h1) = writes (h_trace h) ++
    [(112, 1); (112, 2); (20, u32 (driver_features oor)); (112, 8)]).
  { destruct (does_result [(112, 1); (112, 2); (20, u32 (driver_features oor)); (112, 8)]
      (virtio_set_status 1;; virtio_set_status 2;; virtio_negotiate_features oor;;
       virtio_set_status 8) h) as (a & h' & E & Em & Ew).
    - apply (does_bind [_]); [apply does_write|intros _].
      apply (does_bind [_]); [apply does_write|intros _].
      apply (does_bind [_]); [apply (does_bind [] [_]); [apply does_read|intros _; apply does_write]|].
      intros _. apply does_write.
    - rewrite !hw_bind_eq in E. apply (f_equal snd) in E. cbn [snd] in E.
      assert (h1 = h') as -> by exact E. done. }
  destruct E1 as [Em1 Ew1].
  destruct (queue_setup_spec 0 h1) as (q & h2 & Eq & Hq & Ew2); [lia|by rewrite Em1|by rewrite Em1|].
  unfold virtio_queue_setup. rewrite Eq. cbn [fst snd].
  destruct (does_result [(112, 4)] (cfg ← virtio_read_config;
    virtio_set_status VIRTIO_STATUS_DRIVER_OK;;
    mret (mk_blk (virtio_base st) q (virtio_mmio st) cfg)) h2) as (st' & h' & E & Em & Ew).
  { apply (does_bind [] [_]); [apply does_read_config|intros c].
    apply (does_bind [_] []); [apply does_write|intros _; apply does_ret]. }
  rewrite !hw_bind_eq in E. rewrite E. exists st', h'. split; [done|].
  apply (f_equal fst) in E. cbn [fst mret hw_ret] in E. subst st'. cbn [virtio_queue virtio_mmio].
  destruct Hq as [Q1 Q2 Q3 Q4 Q5]. unfold h_mem in *. rewrite Em1 in *. split; [|split; [done|]].
  - by split; rewrite ?Em; try done; unfold h_mem; rewrite ?Em.
  - rewrite Ew, Ew2, Ew1. by rewrite <-!app_assoc.
Qed.
End init.

(** ** Properties *)

(** C24: what a request offers to the device.  The available ring names the
    head of a chain of exactly three descriptors: the header, whose type and
    sector are those of the request; 512 bytes inside of the queue itself, at
    an address that has nothing to do with the caller's buffer; and a status
    byte inside of the used ring.  For a read or a flush that status byte is
    all the device may write; it may write the data block for a write. *)
Theorem blk_request_described q req type sector m :
  placed q req → (∀ i, 0 <= i < 128 → load16 m (avail_ring q i) = 0) →
  0 <= type < 2 ^ 32 → 0 <= sector < 2 ^ 64 →
  let a := load16 m (avail_idx q) in
  let m' := store_request q req type sector m in
  let offered := chain VIRTIO_QUEUE_SIZE m' q
                   (load16 m' (avail_ring q (a mod Z.of_nat VIRTIO_QUEUE_SIZE))) in
  load16 m' (avail_idx q) = u16 (a + 1) ∧
  offered = request_chain q req type ∧
  load32 m' req = type ∧ load64 m' (req + 8) = sector ∧
  device_writable offered =
    if type =? VIRTIO_BLK_T_OUT
    then [mk_desc (q + 512) 512 3 2; mk_desc (used_id q 0) 1 2 0]
    else [mk_desc (used_id q 0) 1 2 0].
Proof.
  intros Hp Hr Ht Hs a m' offered. pose proof (store_request_armed q req type sector m Hp Hr) as Ha.
  assert (E : offered = request_chain q req type).
  { unfold offered. rewrite (ar_ring _ _ _ _ Ha) by apply ring_slot. by apply armed_chain. }
  destruct (store_request_avail q req type sector m Hp) as [Eav _].
  destruct (store_request_header q req type sector m Hp Ht Hs) as [E1 E2].
  split_and!; [done..|]. rewrite E. unfold request_chain.
  by destruct (type =? VIRTIO_BLK_T_OUT).
Qed.

Lemma blk_request_described_witness :
  let m := mk_memory ∅ (λ _, 0) in
  load64 (store_request 4096 65536 VIRTIO_BLK_T_IN 7 m) 65544 = 7 ∧
  chain VIRTIO_QUEUE_SIZE (store_request 4096 65536 VIRTIO_BLK_T_IN 7 m) 4096 0 =
    request_chain 4096 65536 VIRTIO_BLK_T_IN.
Proof.
  intros m.
  destruct (blk_request_described 4096 65536 VIRTIO_BLK_T_IN 7 m) as (_ & E & _ & Es & _).
  - unfold SIZEOF_QUEUE, SIZEOF_BLK_REQ. split; unfold SIZEOF_QUEUE, SIZEOF_BLK_REQ; lia.
  - intros i Hi. apply (load_le_zero 2). intros b Hb. reflexivity.
  - unfold VIRTIO_BLK_T_IN. lia.
  - lia.
  - split; [exact Es|exact E].
Defined.

(** The driver is set up: its queue lies below the heap's break and is idle. *)
Record ready {S} `{Allocator S} {D} (st : blk) (h : hw S D) : Prop := {
  rd_mmio : st.(virtio_mmio) ≠ 0;
  rd_inv : alloc_inv (h_mm h);
  rd_queue : 0 < st.(virtio_queue) ∧ st.(virtio_queue) + SIZEOF_QUEUE <= brk (h_mm h);
  rd_idle : idle st.(virtio_queue) (h_mem h)
}.

(** C16: a block read ends.  The driver is set up and its queue idle, there is
    room for the request header, the count of blocks is not 0, and the counter
    of offered chains is not 65535, so that it does not wrap now.  The device
    is in a state from which it keeps to the chains it is offered and answers
    within [B] polls; it stays in such states ([live]: say, after the driver
    has told it that it is ready) while it runs and when it is notified.
    Then the read returns, and when it does the device has taken the request
    and the queue is idle again; the result is 0 exactly when the first
    identifier of the used ring is.  Nothing outside of the queue and the
    request header has changed: whatever the device answers, no data reach
    the caller's buffer. *)
Theorem blk_read_completes {S} `{AllocatorLaws S} {D} `{Device D}
    (live : D → Prop) B sector buf count st (h : hw S D) :
  ready st h → count ≠ 0 → brk (h_mm h) + 16 + SIZEOF_BLK_REQ <= heap_limit (h_mm h) →
  load16 (h_mem h) (avail_idx st.(virtio_queue)) ≠ 65535 →
  live (h_dev h) →
  (∀ d m, live d → live (dev_run d m).1) →
  (∀ d, live d → live (dev_write (reg VIRTIO_MMIO_QUEUE_NOTIFY) 0 d)) →
  (∀ req type d m, live d → armed st.(virtio_queue) req type m →
     serves st.(virtio_queue) m (dev_run d m).2) →
  (∀ req (h1 : hw S D), live (h_dev h1) →
     armed st.(virtio_queue) req VIRTIO_BLK_T_IN (h_mem h1) →
     ∃ k, (k < B)%nat ∧
       pending st.(virtio_queue) (h_mem (Nat.iter (Datatypes.S k) device_step h1)) = false) →
  ∃ req r h', virtio_blk_read B sector buf count st h = Ok (Some (r, h')) ∧
    brk (h_mm h) <= req ∧
    idle st.(virtio_queue) (h_mem h') ∧
    load16 (h_mem h') (avail_idx st.(virtio_queue)) =
      load16 (h_mem h) (avail_idx st.(virtio_queue)) + 1 ∧
    (r = 0 ∨ r = -1) ∧ (r = 0 ↔ load32 (h_mem h') (used_id st.(virtio_queue) 0) = 0) ∧
    ∀ b, b < st.(virtio_queue) ∨ st.(virtio_queue) + SIZEOF_QUEUE <= b → b < req ∨ req + 16 <= b →
      load8 (h_mem h') b = load8 (h_mem h) b.
Proof.
  intros [Hmm Hinv [Hq1 Hq2] Hidle] Hc Hroom Ha Hl Hrun Hnot Hdev Hans. set (q := virtio_queue st) in *.
  unfold virtio_blk_read. rewrite (proj2 (Z.eqb_neq _ _) Hmm), (proj2 (Z.eqb_neq _ _) Hc).
  pose proof (alloc_spec SIZEOF_BLK_REQ 16 (h_mm h) Hinv) as R.
  destruct (brk_bounds _ Hinv) as [Hb1 Hb2]. unfold hw_alloc.
  destruct (alloc SIZEOF_BLK_REQ 16 (h_mm h)) as [req s1]. cbn [fst snd] in R.
  destruct R as [_ Rmem _ _ Rblk Rroom]; [unfold SIZEOF_BLK_REQ; lia|by exists 4|].
  assert (Hreq : req ≠ 0) by (apply Rroom; unfold SIZEOF_BLK_REQ in *; lia).
  rewrite (proj2 (Z.eqb_neq _ _) Hreq). destruct Rblk as [[? _]|(Hr0 & Hr1 & _ & _ & Hr2)]; [done|].
  set (h1 := mk_hw s1 (h_dev h) (h_trace h)).
  assert (Em : h_mem h1 = h_mem h) by exact Rmem.
  assert (Hp : placed q req).
  { split; unfold SIZEOF_QUEUE, SIZEOF_BLK_REQ in *; lia. }
  assert (Hw : ∃ h2, wait_used B q (virtio_submit_request q req VIRTIO_BLK_T_IN sector h1).2 = Some h2).
  { destruct (Hans req (virtio_submit_request q req VIRTIO_BLK_T_IN sector h1).2)
      as (k & Hk & Hpk); [rewrite submit_dev; by apply Hnot| |by eapply wait_used_ends].
    rewrite submit_mem, Em. apply store_request_armed; [done|apply Hidle]. }
  destruct Hw as [h2 Hw].
  assert (Er : request B q req VIRTIO_BLK_T_IN sector h1 =
    Ok (Some (if load32 (h_mem h2) (used_id q 0) =? 0 then 0 else -1, h2))).
  { unfold request. rewrite (proj2 (Z.eqb_neq q 0)) by lia. by rewrite Hw. }
  fold q h1. rewrite Er. do 3 eexists. split; [reflexivity|]. split; [exact Hr1|].
  rewrite <-Em in *. assert (0 <= load16 (h_mem h1) (avail_idx q) < 65536) by apply (load_le_range 2).
  destruct (request_returns q req Hp live Hrun Hnot (Hdev req) B VIRTIO_BLK_T_IN sector h1 _ _ Hl
                Hidle Er)
    as (E1 & E2 & E3 & E4 & E5).
  split_and!; [by apply E2|by rewrite E1, u16_small by lia|exact E4|exact E5|exact E3].
Qed.

(** A device that completes every offered chain at once, with status 0. *)
Definition prompt_device (q : Z) : Device unit := {|
  dev_read _ d := (0, d);
  dev_write _ _ d := d;
  dev_run d m := (d, store16 (used_idx q) (load16 m (avail_idx q)) m)
|}.

Lemma prompt_serves q m :
  serves q m (store16 (used_idx q) (load16 m (avail_idx q)) m).
Proof.
  split.
  - intros b Hb. left. unfold store16, used_idx, SIZEOF_QUEUE in *.
    destruct (decide (q + 2316 <= b < q + 2318)); [lia|].
    rewrite load8_store_le, decide_False in Hb by lia. done.
  - right. unfold load16, store16. rewrite load_store_le_eq.
    pose proof (load_le_range 2 m (avail_idx q)). by rewrite Z.mod_small by lia.
Qed.

Lemma prompt_not_pending q m :
  let m' := store16 (used_idx q) (load16 m (avail_idx q)) m in
  load16 m' (used_idx q) ≠ load16 m' (avail_idx q) - 1.
Proof.
  unfold load16, store16. cbv zeta. rewrite load_store_le_eq.
  pose proof (load_le_range 2 m (avail_idx q)). rewrite Z.mod_small by lia.
  rewrite load_store_le_ne by (unfold avail_idx, used_idx; lia). lia.
Qed.

(** A device that does so once the driver is ready: its state is the status
    word. *)
Definition started_device (q : Z) : Device Z := {|
  dev_read off d := (if off =? VIRTIO_MMIO_STATUS then d else 0, d);
  dev_write off v d := if off =? VIRTIO_MMIO_STATUS then v else d;
  dev_run d m :=
    if d =? VIRTIO_STATUS_DRIVER_OK then (d, store16 (used_idx q) (load16 m (avail_idx q)) m)
    else (d, m)
|}.

Lemma blk_read_completes_witness :
  let h := mk_hw (set_heap_offset 4096 (mm_boot 4194304 (λ _, 0))) VIRTIO_STATUS_DRIVER_OK [] in
  let st := mk_blk 65536 4194304 65536 (virtio_blk_config0) in
  ∃ r h', @virtio_blk_read mm_state _ Z (started_device 4194304) 1 7 0 1 st h = Ok (Some (r, h')) ∧
    load16 (h_mem h') (avail_idx 4194304) = 1.
Proof.
  intros h st.
  destruct (@blk_read_completes mm_state _ _ Z (started_device 4194304)
              (λ d, d = VIRTIO_STATUS_DRIVER_OK) 1 7 0 1 st h)
    as (req & r & h' & E & _ & _ & Ha & _).
  - split.
    + discriminate.
    + apply (bool_decide_unpack _). vm_compute. exact I.
    + simpl. unfold SIZEOF_QUEUE. lia.
    + split; [intros i Hi; apply (load_le_zero 2); intros b Hb; reflexivity|reflexivity].
  - discriminate.
  - vm_compute. discriminate.
  - vm_compute. discriminate.
  - reflexivity.
  - intros d m ->. reflexivity.
  - intros d ->. reflexivity.
  - intros req type d m -> _. apply prompt_serves.
  - intros req h1 Hl _. exists 0%nat. split; [lia|]. cbn [Nat.iter nat_rect].
    unfold pending. rewrite device_step_mem, Hl. apply Z.eqb_neq. apply prompt_not_pending.
  - exists r, h'. split; [exact E|exact Ha].
Defined.

(** The counter of offered chains has sixteen bits, and the loop
    compares with an [int]: once it has wrapped to 0 the condition of the loop
    never holds.  The 65536th request returns after the first look at the
    queue, whether or not the device has taken the request. *)
Theorem blk_wrap_not_waited {S} `{AllocatorLaws S} {D} `{Device D}
    fuel q req type sector (h : hw S D) :
  placed q req → idle q (h_mem h) → load16 (h_mem h) (avail_idx q) = 65535 → (0 < fuel)%nat →
  (∀ m, armed q req type m →
     serves q m (dev_run (dev_write (reg VIRTIO_MMIO_QUEUE_NOTIFY) 0 (h_dev h)) m).2) →
  ∃ r, request fuel q req type sector h =
    Ok (Some (r, device_step (virtio_submit_request q req type sector h).2)).
Proof.
  intros Hp Hi Ha Hf Hdev. unfold request. pose proof Hp as [[Hq _] _ _].
  rewrite (proj2 (Z.eqb_neq q 0)) by lia. destruct fuel as [|fuel]; [lia|].
  cbn [wait_used]. cbv zeta. set (h1 := (virtio_submit_request q req type sector h).2).
  assert (Hw : armed q req type (h_mem h1)).
  { unfold h1. rewrite submit_mem. apply store_request_armed; [done|apply Hi]. }
  assert (E : pending q (h_mem (device_step h1)) = false).
  { unfold pending. rewrite device_step_mem. unfold h1 at 1 3. rewrite submit_dev.
    destruct (Hdev _ Hw) as [Ho _].
    rewrite (obeys_avail _ _ _ _ _ Hw Ho). unfold h1. rewrite submit_mem.
    destruct (store_request_avail q req type sector (h_mem h) Hp) as [-> _]. rewrite Ha.
    apply Z.eqb_neq. match goal with |- load16 ?m ?b ≠ _ => pose proof (load_le_range 2 m b) end.
    change (u16 (65535 + 1)) with 0. unfold load16. lia. }
  rewrite E. eexists. reflexivity.
Qed.

Lemma blk_wrap_not_waited_witness :
  let m := store16 (avail_idx 4194304) 65535 (store16 (used_idx 4194304) 65535
             (mk_memory ∅ (λ _, 0))) in
  let h := mk_hw (set_mm_mem m (mm_boot 4194304 (λ _, 0))) tt [] in
  ∃ r h', @request mm_state _ unit (prompt_device 4194304) 1 4194304 65536 VIRTIO_BLK_T_OUT 7 h =
    Ok (Some (r, h')).
Proof.
  intros m h.
  destruct (@blk_wrap_not_waited mm_state _ _ unit (prompt_device 4194304) 1 4194304 65536
              VIRTIO_BLK_T_OUT 7 h) as [r E].
  - split; unfold SIZEOF_QUEUE, SIZEOF_BLK_REQ; lia.
  - split.
    + intros i Hi. unfold h, m, h_mem; simpl. unfold avail_ring, avail_idx, used_idx. load_store.
      apply (load_le_zero 2). intros b Hb. reflexivity.
    + vm_compute. reflexivity.
  - vm_compute. reflexivity.
  - lia.
  - intros m' _. apply prompt_serves.
  - eexists r, _. exact E.
Defined.

(** C38: the driver refuses every virtio device.  A device answers the
    first register with its magic number, which [virtio_init] compares with
    the register's offset, 0: it gives up after that one read, has not
    touched the device, the heap or the queue pointer; and as it has stored
    the register pointer before, a write request goes on to the queue through
    a null pointer. *)
Theorem virtio_init_rejects_devices {S} `{Allocator S} {D} `{Device D}
    oor base st (h : hw S D) :
  (∀ d, (dev_read VIRTIO_MMIO_MAGIC_VALUE d).1 = VIRTIO_MAGIC) →
  ∃ h', virtio_init oor base st h =
      ((-1, mk_blk base (virtio_queue st) base (blk_config st)), h') ∧
    h_mm h' = h_mm h ∧ h_trace h' = h_trace h ++ [Read VIRTIO_MMIO_MAGIC_VALUE] ∧
    (base ≠ 0 → virtio_queue st = 0 → ∀ fuel req sector buf count (h1 : hw S D), count ≠ 0 →
       virtio_blk_write fuel req sector buf count
         (mk_blk base (virtio_queue st) base (blk_config st)) h1 = Fault NullPointer).
Proof.
  intros Hm. unfold virtio_init.
  match goal with |- ∃ _, (mmio_read _ ≫= ?f) h = _ ∧ _ =>
    destruct (read_bind VIRTIO_MMIO_MAGIC_VALUE VIRTIO_MAGIC f h) as (h1 & E & Em & Et) end;
    [exact Hm|unfold VIRTIO_MAGIC; lia|].
  rewrite E. exists h1. split; [reflexivity|]. split; [exact Em|]. split; [exact Et|].
  intros Hb Hq fuel req sector buf count h2 Hc. unfold virtio_blk_write, request. cbn.
  rewrite (proj2 (Z.eqb_neq _ _) Hb), (proj2 (Z.eqb_neq _ _) Hc), Hq. done.
Qed.

Lemma virtio_init_rejects_devices_witness :
  ∃ h', @virtio_init mm_state _ unit (mute_device VIRTIO_MAGIC) 0 65536 blk0
      (mk_hw (mm_boot 4194304 (λ _, 0)) tt []) =
    ((-1, mk_blk 65536 0 65536 virtio_blk_config0), h').
Proof.
  destruct (@virtio_init_rejects_devices mm_state _ unit (mute_device VIRTIO_MAGIC) 0 65536 blk0
    (mk_hw (mm_boot 4194304 (λ _, 0)) tt [])) as (h' & E & _).
  - intros d. reflexivity.
  - exists h'. exact E.
Defined.

(** C21: the bring-up that [virtio_init] runs behind its checks, with any
    device.  With room for the queue it ends and has written exactly these
    registers in this order (each status replaces the one before, the feature
    word does not depend on what the device offers, and the address of the
    queue goes to the ready register).  The queue lies in fresh heap memory:
    its descriptors, its available ring and its used ring are all zero; the
    six bytes between the rings and every byte outside of the queue are as
    before.  The driver is then ready for requests. *)
Theorem virtio_bring_up_prepares {S} `{AllocatorLaws S} {D} `{Device D} oor st (h : hw S D) :
  alloc_inv (h_mm h) → brk (h_mm h) + 2 * AEGIS_PAGE_SIZE <= heap_limit (h_mm h) →
  virtio_mmio st ≠ 0 →
  ∃ st' h', virtio_bring_up oor st h = (st', h') ∧ ready st' h' ∧
    virtio_mmio st' = virtio_mmio st ∧
    brk (h_mm h) <= virtio_queue st' ∧
    writes (h_trace h') = writes (h_trace h) ++
      [(112, 1); (112, 2); (20, u32 (driver_features oor)); (112, 8);
       (48, 0); (56, 128); (68, 1); (68, u32 (virtio_queue st'));
       (72, u32 (Z.shiftr (virtio_queue st') 32)); (112, 4)] ∧
    (∀ b, virtio_queue st' <= b < virtio_queue st' + 2308 ∨
          virtio_queue st' + 2314 <= b < virtio_queue st' + SIZEOF_QUEUE →
       load8 (h_mem h') b = 0) ∧
    ∀ b, b < virtio_queue st' ∨ virtio_queue st' + 2308 <= b < virtio_queue st' + 2314 ∨
         virtio_queue st' + SIZEOF_QUEUE <= b →
      load8 (h_mem h') b = load8 (h_mem h) b.
Proof.
  intros Hi Hroom Hb.
  destruct (bring_up_spec oor st h Hi Hroom) as (st' & h' & Eb & [Q1 (Q2 & Q3 & Q4 & Q5) _ _ Q6] & Emm & Ew).
  exists st', h'. unfold AEGIS_PAGE_SIZE in *. split_and!; [exact Eb| |exact Emm|exact Q3|exact Ew| |].
  - split; [by rewrite Emm|done|unfold SIZEOF_QUEUE; lia|]. rewrite Q6. apply clear_queue_idle.
  - intros b Hq. by rewrite Q6, load8_clear_queue, decide_True.
  - intros b Hq. rewrite Q6, load8_clear_queue, decide_False; [done|]. unfold SIZEOF_QUEUE in *. lia.
Qed.

Lemma virtio_bring_up_prepares_witness :
  let st := mk_blk 65536 0 65536 virtio_blk_config0 in
  ∃ st' h', @virtio_bring_up mm_state _ Z (started_device 4194304) 0 st
      (mk_hw (mm_boot 4194304 (λ _, 7)) 0 []) = (st', h') ∧ ready st' h' ∧
    load64 (h_mem h') (virtio_queue st') = 0.
Proof.
  intros st.
  destruct (@virtio_bring_up_prepares mm_state _ _ Z (started_device 4194304) 0 st
    (mk_hw (mm_boot 4194304 (λ _, 7)) 0 [])) as (st' & h' & E & Hr & _ & _ & _ & Hz & _).
  - apply (bool_decide_unpack _). vm_compute. exact I.
  - vm_compute. discriminate.
  - discriminate.
  - exists st', h'. split; [exact E|]. split; [exact Hr|].
    apply (load_le_zero 8). intros b Hq. apply Hz. lia.
Defined.
