(* ===== verification/VirtioNet.v ===== *)
(** * Network driver ([kernel/src/virtio_net.c])

    Initialisation, sending, receiving and the interrupt handler, as
    computations on the machine of [Virtio] next to the driver's static
    variables.  The two buffers lie in memory at addresses the linker
    chooses.  The driver's busy waiting takes a schedule: one entry per
    [pause], which tells whether an interrupt is handled there. *)

From S2P Require Import Prelude Memory Heap Virtio.

Definition VIRTIO_NET_F_MAC : Z := 5.
Definition VIRTIO_NET_F_STATUS : Z := 16.
Definition VIRTIO_NET_F_MRG_RXBUF : Z := 15.
Definition SIZEOF_NET_HDR : Z := 12.
Definition BUFFER_SIZE : Z := 2048.

Record net_config_t : Type := mk_net_config {
  mac : list Z; nc_status : Z; max_virtqueue_pairs : Z; mtu : Z
}.

(** The static variables; [tx_buffer] and [rx_buffer] are addresses. *)
Record net : Type := mk_net {
  net_base : Z;
  tx_queue : Z;
  rx_queue : Z;
  net_mmio : Z;
  net_config : net_config_t;
  tx_buffer : Z;
  rx_buffer : Z;
  tx_ready : bool;
  rx_ready : bool;
  rx_len : Z
}.

Definition net0 (tx rx : Z) : net :=
  mk_net 0 0 0 0 (mk_net_config (replicate 6 0) 0 0 0) tx rx true false 0.

Definition set_net_mmio (base : Z) (st : net) : net :=
  mk_net base st.(tx_queue) st.(rx_queue) base st.(net_config) st.(tx_buffer) st.(rx_buffer)
    st.(tx_ready) st.(rx_ready) st.(rx_len).
Definition set_net_up (txq rxq : Z) (cfg : net_config_t) (st : net) : net :=
  mk_net st.(net_base) txq rxq st.(net_mmio) cfg st.(tx_buffer) st.(rx_buffer)
    st.(tx_ready) st.(rx_ready) st.(rx_len).
Definition set_tx_ready (b : bool) (st : net) : net :=
  mk_net st.(net_base) st.(tx_queue) st.(rx_queue) st.(net_mmio) st.(net_config) st.(tx_buffer)
    st.(rx_buffer) b st.(rx_ready) st.(rx_len).
Definition set_rx (b : bool) (len : Z) (st : net) : net :=
  mk_net st.(net_base) st.(tx_queue) st.(rx_queue) st.(net_mmio) st.(net_config) st.(tx_buffer)
    st.(rx_buffer) st.(tx_ready) b len.

(** ** Memory contents *)

(** The header [virtio_net_send] puts in front of a frame. *)
Definition store_net_hdr (a : Z) (m : memory) : memory :=
  store16 (a + 10) 1 (store16 (a + 8) 0 (store16 (a + 6) 0 (store16 (a + 4) 0
    (store16 (a + 2) 0 (store8 (a + 1) 0 (store8 a 0 m)))))).

(** The frame of [len] bytes at [data] and the descriptors for it. *)
Definition store_frame (q tx data len : Z) (m : memory) : memory :=
  let m1 := memcpy (Z.to_nat len) (tx + SIZEOF_NET_HDR) data (store_net_hdr tx m) in
  let m2 := store_desc (desc_at q 0) (mk_desc tx SIZEOF_NET_HDR VIRTIO_DESC_F_NEXT 1) m1 in
  let m3 := store_desc (desc_at q 1) (mk_desc (tx + SIZEOF_NET_HDR) len 0 0) m2 in
  offer_chain q m3.

(** The descriptors of the receive buffer. *)
Definition store_rx (q rx : Z) (m : memory) : memory :=
  let m1 := store_desc (desc_at q 0) (mk_desc rx SIZEOF_NET_HDR VIRTIO_DESC_F_NEXT 1) m in
  let m2 := store_desc (desc_at q 1)
    (mk_desc (rx + SIZEOF_NET_HDR) (BUFFER_SIZE - SIZEOF_NET_HDR)
             (VIRTIO_DESC_F_WRITE .| VIRTIO_DESC_F_NEXT) 0) m1 in
  offer_chain q m2.

Section net.
Context {S : Type} `{Allocator S} {D : Type} `{Device D}.
#[local] Abbreviation hwM := (hwM S D).
#[local] Abbreviation hw := (hw S D).

Definition virtio_net_set_status (status : Z) : hwM unit := mmio_write VIRTIO_MMIO_STATUS status.
Definition virtio_net_ack_irq (mask : Z) : hwM unit := mmio_write VIRTIO_MMIO_INTERRUPT_ACK mask.

(** ** Initialisation *)

Definition virtio_net_queue_setup (queue_idx : Z) : hwM Z := queue_setup queue_idx.

Definition net_driver_features (oor : Z) : Z :=
  bit32 oor VIRTIO_F_VERSION_1 .| bit32 oor VIRTIO_F_RING_INDIRECT_DESC
    .| bit32 oor VIRTIO_F_RING_EVENT_IDX .| bit32 oor VIRTIO_NET_F_MAC
    .| bit32 oor VIRTIO_NET_F_STATUS .| bit32 oor VIRTIO_NET_F_MRG_RXBUF.

Definition virtio_net_negotiate_features (oor : Z) : hwM unit :=
  _ ← mmio_read VIRTIO_MMIO_DEVICE_FEATURES;
  mmio_write VIRTIO_MMIO_DRIVER_FEATURES (net_driver_features oor).

(** The loop over the six bytes of the address. *)
Fixpoint read_mac (n : nat) (i : Z) : hwM (list Z) :=
  match n with
  | O => mret []
  | Datatypes.S n' =>
      b ← mmio_read (VIRTIO_MMIO_DEVICE_FEATURES + 256 + i);
      bs ← read_mac n' (i + 1);
      mret (u8 b :: bs)
  end.

Definition virtio_net_read_config : hwM net_config_t :=
  mac ← read_mac 6 0;
  status ← mmio_read (VIRTIO_MMIO_DEVICE_FEATURES + 262);
  pairs ← mmio_read (VIRTIO_MMIO_DEVICE_FEATURES + 264);
  mtu ← mmio_read (VIRTIO_MMIO_DEVICE_FEATURES + 266);
  mret (mk_net_config mac (u16 status) (u16 pairs) mtu).

Definition virtio_net_setup_rx (st : net) : hwM unit :=
  if st.(rx_queue) =? 0 then mret tt else
  modify_mem (store_rx st.(rx_queue) st.(rx_buffer));;
  mmio_write VIRTIO_MMIO_QUEUE_SEL 1;;
  mmio_write VIRTIO_MMIO_QUEUE_NOTIFY 1.

(** The part of [virtio_net_init] behind the checks. *)
Definition virtio_net_bring_up (oor : Z) (st : net) : hwM net :=
  virtio_net_set_status VIRTIO_STATUS_ACKNOWLEDGE;;
  virtio_net_set_status VIRTIO_STATUS_DRIVER;;
  virtio_net_negotiate_features oor;;
  virtio_net_set_status VIRTIO_STATUS_FEATURES_OK;;
  txq ← virtio_net_queue_setup 0;
  rxq ← virtio_net_queue_setup 1;
  cfg ← virtio_net_read_config;
  virtio_net_set_status VIRTIO_STATUS_DRIVER_OK;;
  virtio_net_setup_rx (set_net_up txq rxq cfg st);;
  mret (set_net_up txq rxq cfg st).

(** [int virtio_net_init(uintptr_t base)] *)
Definition virtio_net_init (oor base : Z) (st : net) : hwM (Z * net) :=
  let st := set_net_mmio base st in
  magic ← mmio_read VIRTIO_MMIO_MAGIC_VALUE;
  if negb (magic =? VIRTIO_MMIO_MAGIC_VALUE) then mret (-1, st) else
  version ← mmio_read VIRTIO_MMIO_VERSION;
  if negb (version =? 1) && negb (version =? 2) then mret (-1, st) else
  device_id ← mmio_read VIRTIO_MMIO_DEVICE_ID;
  if negb (device_id =? 1) then mret (-1, st) else
  vendor_id ← mmio_read VIRTIO_MMIO_VENDOR_ID;
  if negb (vendor_id =? 6900) then mret (-1, st) else
  st ← virtio_net_bring_up oor st;
  mret (0, st).

(** ** Interrupts *)

(** [void virtio_net_handle_irq(void)].  [rx_len] is a [uint32_t]; the
    identifier of the used entry is read and not used. *)
Definition virtio_net_handle_irq (st : net) (h : hw) : net * hw :=
  if st.(net_mmio) =? 0 then (st, h) else
  let '(status, h1) := mmio_read VIRTIO_MMIO_INTERRUPT_STATUS h in
  if status =? 0 then (st, h1) else
  let h2 := (virtio_net_ack_irq status h1).2 in
  let h3 := (mmio_write VIRTIO_MMIO_QUEUE_SEL 0 h2).2 in
  let st1 :=
    if negb (st.(tx_queue) =? 0) && (0 <? load16 (h_mem h3) (used_idx st.(tx_queue)))
    then set_tx_ready true st else st in
  let h4 := (mmio_write VIRTIO_MMIO_QUEUE_SEL 1 h3).2 in
  if negb (st.(rx_queue) =? 0) && (0 <? load16 (h_mem h4) (used_idx st.(rx_queue))) then
    let idx := (load16 (h_mem h4) (used_idx st.(rx_queue)) - 1) mod Z.of_nat VIRTIO_QUEUE_SIZE in
    let len := load32 (h_mem h4) (used_len st.(rx_queue) idx) in
    (set_rx true (if SIZEOF_NET_HDR <? len then len - SIZEOF_NET_HDR else 0) st1, h4)
  else (st1, h4).

(** ** Sending *)

(** [while (!tx_ready) pause;] under a schedule; [None] when the schedule
    ends before the transmitter is ready. *)
Fixpoint wait_tx (schedule : list bool) (st : net) (h : hw) : option (net * hw) :=
  if st.(tx_ready) then Some (st, h) else
  match schedule with
  | [] => None
  | irq :: schedule' =>
      let h1 := device_step h in
      let '(st2, h2) := if irq : bool then virtio_net_handle_irq st h1 else (st, h1) in
      wait_tx schedule' st2 h2
  end.

(** [int virtio_net_send(const void *data, uint32_t len)] *)
Definition virtio_net_send (schedule : list bool) (data len : Z) (st : net) (h : hw)
    : option (Z * net * hw) :=
  if (st.(net_mmio) =? 0) || (st.(tx_queue) =? 0) then Some (-1, st, h) else
  if BUFFER_SIZE - SIZEOF_NET_HDR <? len then Some (-1, st, h) else
  '(st1, h1) ← wait_tx schedule st h;
  let h2 := (modify_mem (store_frame st1.(tx_queue) st1.(tx_buffer) data len) h1).2 in
  let h3 := (mmio_write VIRTIO_MMIO_QUEUE_SEL 0 h2).2 in
  let h4 := (mmio_write VIRTIO_MMIO_QUEUE_NOTIFY 0 h3).2 in
  Some (0, set_tx_ready false st1, h4).

(** ** Receiving *)

(** [int virtio_net_recv(void *buf, uint32_t max_len)].  A length beyond the
    end of [rx_buffer] makes the copy leave it. *)
Definition virtio_net_recv (buf max_len : Z) (st : net) (h : hw) : outcome (Z * net * hw) :=
  if (st.(net_mmio) =? 0) || (st.(rx_queue) =? 0) then Ok (-1, st, h) else
  if negb st.(rx_ready) then Ok (0, st, h) else
  let data_len := if max_len <? st.(rx_len) then max_len else st.(rx_len) in
  if BUFFER_SIZE - SIZEOF_NET_HDR <? data_len then Fault OutOfBounds else
  let h1 := (modify_mem (memcpy (Z.to_nat data_len) buf (st.(rx_buffer) + SIZEOF_NET_HDR)) h).2 in
  let st1 := set_rx false st.(rx_len) st in
  let h2 := (virtio_net_setup_rx st1 h1).2 in
  Ok (data_len, st1, h2).

Definition virtio_net_get_mac (st : net) : list Z := st.(net_config).(mac).
End net.

(** ** The offered frame *)

(** Where the queue and the frame buffer lie. *)
Record net_placed (q buf : Z) : Prop := {
  np_q : 0 < q ∧ q + SIZEOF_QUEUE <= 2 ^ 64;
  np_buf : 0 <= buf ∧ buf + BUFFER_SIZE <= 2 ^ 64;
  np_disjoint : buf + BUFFER_SIZE <= q ∨ q + SIZEOF_QUEUE <= buf
}.

(** Two areas that do not meet. *)
Definition apart (a n b k : Z) : Prop := a + n <= b ∨ b + k <= a.

Definition net_hdr : list Z := [0; 0; 0; 0; 0; 0; 0; 0; 0; 0; 1; 0].

Lemma load8_net_hdr a m i :
  0 <= i < 12 → load8 (store_net_hdr a m) (a + i) = if i =? 10 then 1 else 0.
Proof.
  intros Hi. unfold store_net_hdr, store16.
  rewrite load8_store_le, !load8_store_zero, !load8_store8.
  destruct (Z.eqb_spec i 10) as [->|Hne].
  - rewrite decide_True by lia. by replace (a + 10 - (a + 10)) with 0 by lia.
  - case_decide.
    + by replace (a + i - (a + 10)) with 1 by lia.
    + repeat case_decide; done || lia.
Qed.

Lemma store_net_hdr_bytes a m : bytes_at (store_net_hdr a m) a 12 = net_hdr.
Proof.
  apply list_eq. intros i. rewrite bytes_at_lookup. case_decide as Hi.
  - rewrite load8_net_hdr by lia. do 12 (destruct i as [|i]; [done|]). lia.
  - symmetry. apply lookup_ge_None. simpl. lia.
Qed.

Lemma store_net_hdr_frame a m b :
  b < a ∨ a + 12 <= b → load8 (store_net_hdr a m) b = load8 m b.
Proof.
  intros Hb. unfold store_net_hdr, store16. rewrite !load8_store_le, !load8_store8.
  by rewrite !decide_False by lia.
Qed.

Definition frame_chain (tx len : Z) : list desc :=
  [mk_desc tx 12 1 1; mk_desc (tx + 12) len 0 0].

(** The offered chain, its contents, and the rest of memory. *)
Record offers (q tx len : Z) (data : list Z) (m m' : memory) : Prop := {
  of_avail : load16 m' (avail_idx q) = u16 (load16 m (avail_idx q) + 1);
  of_head : load16 m' (avail_ring q (load16 m (avail_idx q) mod Z.of_nat VIRTIO_QUEUE_SIZE)) = 0;
  of_ring i : 0 <= i < 128 → load16 m (avail_ring q i) = 0 → load16 m' (avail_ring q i) = 0;
  of_chain : chain VIRTIO_QUEUE_SIZE m' q 0 = frame_chain tx len;
  of_bytes : gather m' (frame_chain tx len) = net_hdr ++ data;
  of_frame b : ¬ (tx <= b < tx + 12 + len) → ¬ (q <= b < q + 32) → ¬ (q + 2050 <= b < q + 2308) →
    load8 m' b = load8 m b
}.

(** Only the copied bytes and the descriptors come before the offer. *)
Lemma store_frame_low q tx data len m b :
  net_placed q tx → 0 <= len <= BUFFER_SIZE - SIZEOF_NET_HDR → apart data len tx BUFFER_SIZE →
  b < q ∨ q + 32 <= b < q + 2050 ∨ q + 2308 <= b →
  load8 (store_frame q tx data len m) b =
  if decide (tx + 12 <= b < tx + 12 + len) then load8 m (data + (b - (tx + 12)))
  else load8 (store_net_hdr tx m) b.
Proof.
  intros [_ _ Hd] Hl Ha Hb. unfold store_frame, apart, BUFFER_SIZE, SIZEOF_NET_HDR, SIZEOF_QUEUE in *.
  rewrite load8_offer_chain by lia. unfold desc_at. rewrite !load8_store_desc by lia.
  rewrite load8_memcpy by lia. rewrite Z2Nat.id by lia.
  case_decide; [|done]. apply store_net_hdr_frame. lia.
Qed.

Lemma store_frame_offers q tx data len m :
  net_placed q tx → 0 <= len <= BUFFER_SIZE - SIZEOF_NET_HDR → apart data len tx BUFFER_SIZE →
  offers q tx len (bytes_at m data (Z.to_nat len)) m (store_frame q tx data len m).
Proof.
  intros Hp Hl Ha. pose proof (store_frame_low q tx data len m) as Hlow.
  pose proof Hp as [[Hq1 Hq2] [Hb1 Hb2] Hd].
  unfold apart, BUFFER_SIZE, SIZEOF_NET_HDR, SIZEOF_QUEUE in *.
  assert (Hring : ∃ m0, store_frame q tx data len m = offer_chain q m0 ∧
    (∀ k, 2048 <= k <= 2306 → load16 m0 (q + k) = load16 m (q + k)) ∧
    load_desc m0 (q + 16 * 0) = mk_desc tx 12 1 1 ∧
    load_desc m0 (q + 16 * 1) = mk_desc (tx + 12) len 0 0).
  { unfold store_frame. eexists. split; [reflexivity|]. unfold desc_at, SIZEOF_NET_HDR. split_and!.
    - intros k Hk. unfold load16. rewrite !load_le_store_desc by lia. apply load_le_ext. intros b Hb.
      rewrite load8_memcpy, decide_False by lia. apply store_net_hdr_frame. lia.
    - rewrite load_store_desc_ne, load_store_desc by lia. simpl. by rewrite u64_small by lia.
    - rewrite load_store_desc. simpl. by rewrite u64_small, u32_small by lia. }
  destruct Hring as (m0 & E & Er & D0 & D1). pose proof (Er 2050 ltac:(lia)) as Eav.
  fold (avail_idx q) in Eav. destruct (offer_chain_avail q m0) as [Av Hd0].
  split.
  - by rewrite E, Av, Eav.
  - rewrite E, <-Eav. exact Hd0.
  - intros i Hi Hz. rewrite E. apply offer_chain_ring; [done|]. unfold avail_ring in *.
    replace (q + 2052 + 2 * i) with (q + (2052 + 2 * i)) in * by lia. by rewrite Er by lia.
  - unfold VIRTIO_QUEUE_SIZE. cbn [chain]. rewrite E, load_desc_offer_chain, D0 by lia.
    cbn [d_flags d_next Z.testbit Pos.testbit chain].
    by rewrite load_desc_offer_chain, D1 by lia.
  - unfold gather, frame_chain. cbn [fmap list_fmap mjoin list_join d_addr d_len]. rewrite app_nil_r. f_equal.
    + rewrite <-(store_net_hdr_bytes tx m). apply bytes_at_ext. intros i Hi.
      rewrite Hlow by (done || lia). by rewrite decide_False by lia.
    + apply bytes_at_ext. intros i Hi. rewrite Hlow by (done || lia).
      rewrite decide_True by lia. f_equal. lia.
  - intros b H1 H2 H3. rewrite Hlow by (done || lia). rewrite decide_False by lia.
    apply store_net_hdr_frame. lia.
Qed.

(** ** Properties *)

Lemma modify_mem_mem {S} `{AllocatorLaws S} {D} f (h : hw S D) : h_mem (modify_mem f h).2 = f (h_mem h).
Proof. apply h_mem_set. Qed.

(** The driver is set up for sending. *)
Record can_send (st : net) : Prop := {
  cs_mmio : st.(net_mmio) ≠ 0;
  cs_rx : st.(rx_queue) ≠ 0;
  cs_placed : net_placed st.(tx_queue) st.(tx_buffer)
}.

(** ** The interrupt handler *)

(** What the handler does for an interrupt of a driver that is set up, when
    the status register it reads is not 0. *)
Lemma irq_acknowledged {S} `{AllocatorLaws S} {D} `{Device D} st (h : hw S D) :
  let v := u32 (dev_read VIRTIO_MMIO_INTERRUPT_STATUS (h_dev h)).1 in
  v ≠ 0 → st.(net_mmio) ≠ 0 → st.(tx_queue) ≠ 0 → st.(rx_queue) ≠ 0 →
  ∃ h', h_mm h' = h_mm h ∧ writes (h_trace h') = writes (h_trace h) ++ [(100, v); (48, 0); (48, 1)] ∧
    let u := load16 (h_mem h) (used_idx st.(rx_queue)) in
    let len := load32 (h_mem h) (used_len st.(rx_queue) ((u - 1) mod Z.of_nat VIRTIO_QUEUE_SIZE)) in
    let st1 := if 0 <? load16 (h_mem h) (used_idx st.(tx_queue)) then set_tx_ready true st else st in
    virtio_net_handle_irq st h =
      (if 0 <? u then set_rx true (if SIZEOF_NET_HDR <? len then len - SIZEOF_NET_HDR else 0) st1
       else st1, h').
Proof.
  intros v Hv Hm Htx Hrx. unfold virtio_net_handle_irq.
  rewrite (proj2 (Z.eqb_neq _ _) Hm).
  pose proof (mmio_read_val VIRTIO_MMIO_INTERRUPT_STATUS h) as Ev.
  change (reg VIRTIO_MMIO_INTERRUPT_STATUS) with VIRTIO_MMIO_INTERRUPT_STATUS in Ev. fold v in Ev.
  destruct (does_read VIRTIO_MMIO_INTERRUPT_STATUS h) as [Em Ew]. rewrite app_nil_r in Ew.
  destruct (mmio_read _ h) as [status h1]. cbn [fst snd] in *. subst status.
  rewrite (proj2 (Z.eqb_neq v 0)) by done.
  rewrite (proj2 (Z.eqb_neq _ _) Htx), (proj2 (Z.eqb_neq _ _) Hrx). cbn [negb andb].
  eexists. split; [|split; [|cbv zeta]].
  3:{ unfold virtio_net_ack_irq, mmio_write, h_mem; cbn [snd h_mm]. rewrite Em.
      destruct (0 <? load16 _ (used_idx (rx_queue st))); reflexivity. }
  - reflexivity.
  - cbn [h_trace]. rewrite !writes_app, Ew, <-!app_assoc. cbn. do 3 f_equal.
    unfold v, u32. by rewrite Z.mod_mod.
Qed.

(** Such an interrupt ends the waiting of a send if a transmit chain was ever
    used. *)
Lemma irq_ready {S} `{AllocatorLaws S} {D} `{Device D} st (h : hw S D) :
  let v := u32 (dev_read VIRTIO_MMIO_INTERRUPT_STATUS (h_dev h)).1 in
  v ≠ 0 → st.(net_mmio) ≠ 0 → st.(tx_queue) ≠ 0 → st.(rx_queue) ≠ 0 →
  0 < load16 (h_mem h) (used_idx st.(tx_queue)) →
  ∃ st' h', virtio_net_handle_irq st h = (st', h') ∧ tx_ready st' = true ∧
    net_mmio st' = net_mmio st ∧ tx_queue st' = tx_queue st ∧ tx_buffer st' = tx_buffer st ∧
    h_mm h' = h_mm h ∧ writes (h_trace h') = writes (h_trace h) ++ [(100, v); (48, 0); (48, 1)].
Proof.
  intros v Hv Hm Htx Hrx Hu. destruct (irq_acknowledged st h Hv Hm Htx Hrx) as (h' & M & W & E).
  cbv zeta in E. rewrite (proj2 (Z.ltb_lt _ _) Hu) in E. do 2 eexists. split; [exact E|].
  by case_match.
Qed.

(** The handler leaves what a send uses alone. *)
Lemma irq_keeps {S} `{Allocator S} {D} `{Device D} st (h : hw S D) :
  let st' := (virtio_net_handle_irq st h).1 in
  net_mmio st' = net_mmio st ∧ tx_queue st' = tx_queue st ∧ rx_queue st' = rx_queue st ∧
  tx_buffer st' = tx_buffer st.
Proof.
  unfold virtio_net_handle_irq. destruct (net_mmio st =? 0); [done|].
  destruct (mmio_read _ h) as [status h1]. destruct (status =? 0); [done|].
  cbv zeta. repeat case_match; done.
Qed.

(** ** Waiting for the transmitter *)

Lemma wait_tx_ready {S} `{Allocator S} {D} `{Device D} schedule : ∀ st (h : hw S D) st1 h1,
  wait_tx schedule st h = Some (st1, h1) →
  tx_ready st1 = true ∧ net_mmio st1 = net_mmio st ∧ tx_queue st1 = tx_queue st ∧
  rx_queue st1 = rx_queue st ∧ tx_buffer st1 = tx_buffer st.
Proof.
  induction schedule as [|irq schedule IH]; intros st h st1 h1; simpl.
  - destruct (tx_ready st) eqn:E; [|done]. by intros [= <- <-].
  - destruct (tx_ready st) eqn:E; [by intros [= <- <-]|]. destruct irq; [|by apply IH].
    destruct (irq_keeps st (device_step h)) as (K1 & K2 & K3 & K4).
    destruct (virtio_net_handle_irq st (device_step h)) as [st2 h2]. simpl in *.
    intros Hw. apply IH in Hw as (? & ? & ? & ? & ?). split_and!; congruence.
Qed.

(** Pauses without an interrupt: the device runs, the driver keeps waiting. *)
Lemma wait_tx_pauses {S} `{Allocator S} {D} `{Device D} k : ∀ schedule st (h : hw S D),
  tx_ready st = false →
  wait_tx (replicate k false ++ schedule) st h = wait_tx schedule st (Nat.iter k device_step h).
Proof.
  induction k as [|k IH]; intros schedule st h Hr; [done|].
  cbn [replicate app wait_tx]. rewrite Hr. cbv zeta. rewrite IH by done. by rewrite <-Nat.iter_succ_r.
Qed.

(** Where the waiting ends, the frame is offered. *)
Lemma send_after {S} `{AllocatorLaws S} {D} `{Device D} schedule data len st (h : hw S D) :
  can_send st → 0 <= len <= BUFFER_SIZE - SIZEOF_NET_HDR →
  apart data len st.(tx_buffer) BUFFER_SIZE →
  match wait_tx schedule st h with
  | None => virtio_net_send schedule data len st h = None
  | Some (st1, h1) => ∃ h',
      virtio_net_send schedule data len st h = Some (0, set_tx_ready false st1, h') ∧
      offers st.(tx_queue) st.(tx_buffer) len (bytes_at (h_mem h1) data (Z.to_nat len))
        (h_mem h1) (h_mem h') ∧
      writes (h_trace h') = writes (h_trace h1) ++ [(48, 0); (80, 0)]
  end.
Proof.
  intros [Hm Hrx Hp] Hl Ha. pose proof Hp as [[Hq _] _ _]. unfold virtio_net_send.
  rewrite (proj2 (Z.eqb_neq _ _) Hm), (proj2 (Z.eqb_neq (tx_queue st) 0)) by lia. cbn [orb].
  rewrite (proj2 (Z.ltb_ge _ _) (proj2 Hl)).
  destruct (wait_tx schedule st h) as [[st1 h1]|] eqn:E; [|done].
  apply wait_tx_ready in E as (_ & _ & E1 & _ & E2). cbn [mbind option_bind].
  eexists. split; [reflexivity|]. split.
  - match goal with |- offers _ _ _ _ _ (h_mem ?h') =>
      change (h_mem h') with (h_mem (modify_mem (store_frame (tx_queue st1) (tx_buffer st1) data len) h1).2) end.
    rewrite modify_mem_mem, E1, E2. by apply store_frame_offers.
  - unfold mmio_write; cbn [snd h_trace]. rewrite !writes_app. by rewrite <-app_assoc.
Qed.

Lemma send_ready {S} `{AllocatorLaws S} {D} `{Device D} schedule data len st (h : hw S D) :
  can_send st → tx_ready st = true → 0 <= len <= BUFFER_SIZE - SIZEOF_NET_HDR →
  apart data len st.(tx_buffer) BUFFER_SIZE →
  ∃ h', virtio_net_send schedule data len st h = Some (0, set_tx_ready false st, h') ∧
    offers st.(tx_queue) st.(tx_buffer) len (bytes_at (h_mem h) data (Z.to_nat len))
      (h_mem h) (h_mem h') ∧
    writes (h_trace h') = writes (h_trace h) ++ [(48, 0); (80, 0)].
Proof.
  intros Hc Hr Hl Ha. pose proof (send_after schedule data len st h Hc Hl Ha) as Hs.
  assert (E : wait_tx schedule st h = Some (st, h)) by (destruct schedule; simpl; by rewrite Hr).
  by rewrite E in Hs.
Qed.

(** C17: sending offers exactly the frame, after the transmitter was free.
    Let the driver be set up and the frame have at most 2036 bytes.  If the
    transmitter is ready, the frame is offered at once: the chain consists of
    two readable descriptors whose bytes are the twelve-byte header followed
    by the caller's bytes, the device is notified once, no other memory
    changes, and the transmitter is no longer ready.  If it is not ready, the
    send keeps waiting as long as no interrupt comes; when one comes, behind
    [k] pauses, that finds a status other than 0 and at least one chain used,
    it is acknowledged, and the frame is offered then.  With any other
    sequence of interrupts the send returns only once the transmitter is
    ready, and offers the frame then.  A longer frame, or a driver that is
    not set up, gives -1 and changes nothing. *)
Theorem net_send_describes_frame {S} `{AllocatorLaws S} {D} `{Device D}
    data len st (h : hw S D) :
  0 <= len → apart data len st.(tx_buffer) BUFFER_SIZE →
  let offered (h1 h' : hw S D) :=
    offers st.(tx_queue) st.(tx_buffer) len (bytes_at (h_mem h1) data (Z.to_nat len))
      (h_mem h1) (h_mem h') in
  (can_send st → len <= BUFFER_SIZE - SIZEOF_NET_HDR →
   device_writable (frame_chain st.(tx_buffer) len) = [] ∧
   (tx_ready st = true → ∀ schedule,
      ∃ h', virtio_net_send schedule data len st h = Some (0, set_tx_ready false st, h') ∧
        offered h h' ∧ writes (h_trace h') = writes (h_trace h) ++ [(48, 0); (80, 0)]) ∧
   (tx_ready st = false → ∀ k,
      virtio_net_send (replicate k false) data len st h = None ∧
      ∀ schedule, let h1 := Nat.iter (Datatypes.S k) device_step h in
        let v := u32 (dev_read VIRTIO_MMIO_INTERRUPT_STATUS (h_dev h1)).1 in
        v ≠ 0 → 0 < load16 (h_mem h1) (used_idx st.(tx_queue)) →
        ∃ st' h',
          virtio_net_send (replicate k false ++ true :: schedule) data len st h = Some (0, st', h') ∧
          tx_ready st' = false ∧ offered h1 h' ∧
          writes (h_trace h') = writes (h_trace h) ++
            [(100, v); (48, 0); (48, 1); (48, 0); (80, 0)]) ∧
   (∀ schedule r st' h', virtio_net_send schedule data len st h = Some (r, st', h') →
      ∃ st1 h1, wait_tx schedule st h = Some (st1, h1) ∧ tx_ready st1 = true ∧
        r = 0 ∧ st' = set_tx_ready false st1 ∧ offered h1 h' ∧
        writes (h_trace h') = writes (h_trace h1) ++ [(48, 0); (80, 0)])) ∧
  (net_mmio st = 0 ∨ tx_queue st = 0 ∨ BUFFER_SIZE - SIZEOF_NET_HDR < len →
   ∀ schedule, virtio_net_send schedule data len st h = Some (-1, st, h)).
Proof.
  intros Hl Ha offered. split.
  - intros Hc Hlen. split_and!.
    + done.
    + intros Hr schedule. by apply send_ready.
    + intros Hr k. split.
      { pose proof (send_after (replicate k false) data len st h Hc (conj Hl Hlen) Ha) as Hs.
        pose proof (wait_tx_pauses k [] st h Hr) as Hw. rewrite app_nil_r in Hw. rewrite Hw in Hs.
        cbn [wait_tx] in Hs. by rewrite Hr in Hs. }
      intros schedule h1 v Hv Hu.
      pose proof (send_after (replicate k false ++ true :: schedule) data len st h Hc (conj Hl Hlen) Ha) as Hs.
      rewrite wait_tx_pauses in Hs by done. cbn [wait_tx] in Hs. rewrite Hr in Hs. cbv zeta in Hs.
      change (device_step (Nat.iter k device_step h)) with h1 in Hs.
      destruct Hc as [Hm Hrx [[Hq _] _ _]].
      destruct (irq_ready st h1 Hv Hm) as (st2 & h2 & E & T1 & _ & T2 & T3 & M & W); [lia|done|done|].
      rewrite E in Hs.
      assert (Ew : wait_tx schedule st2 h2 = Some (st2, h2)) by (destruct schedule; simpl; by rewrite T1).
      rewrite Ew in Hs. destruct Hs as (h' & Es & Ho & Wr).
      assert (Em : h_mem h2 = h_mem h1) by (unfold h_mem; by rewrite M). rewrite Em in Ho.
      do 2 eexists. split; [exact Es|]. split; [done|]. split; [exact Ho|].
      assert (Wk : ∀ n, writes (h_trace (Nat.iter n device_step h)) = writes (h_trace h)).
      { intros n. induction n as [|n IH]; [done|]. rewrite <-IH. simpl. unfold device_step.
        by destruct (dev_run _ _). }
      rewrite Wr, W. unfold h1. rewrite Wk. by rewrite <-app_assoc.
    + intros schedule r st' h' Hs.
      pose proof (send_after schedule data len st h Hc (conj Hl Hlen) Ha) as Hw.
      destruct (wait_tx schedule st h) as [[st1 h1]|] eqn:Ew; [|congruence].
      destruct Hw as (h'' & Es & Ho & Wr). rewrite Hs in Es. injection Es as -> -> ->.
      exists st1, h1. split; [done|]. apply wait_tx_ready in Ew as [? _]. done.
  - intros Hbad schedule. unfold virtio_net_send.
    destruct (Z.eqb_spec (net_mmio st) 0), (Z.eqb_spec (tx_queue st) 0); simpl; try done.
    rewrite (proj2 (Z.ltb_lt _ _)); [done|]. unfold BUFFER_SIZE, SIZEOF_NET_HDR in *. lia.
Qed.

(** A driver with its queues in the first two pages of the heap. *)
Definition demo_net : net :=
  mk_net 65536 4194304 4198400 65536 (mk_net_config (replicate 6 0) 0 0 0) 131072 139264 true false 0.
Definition demo_hw : hw mm_state unit :=
  mk_hw (set_heap_offset 8192 (mm_boot 4194304 (λ a, a))) tt [].

(** A device whose interrupt status is a set of bits: acknowledging clears
    them; it raises the first one when it has used a transmit chain, which it
    does as soon as it runs. *)
Definition net_device (q : Z) : Device Z := {|
  dev_read off d := (if off =? VIRTIO_MMIO_INTERRUPT_STATUS then d else 0, d);
  dev_write off v d := if off =? VIRTIO_MMIO_INTERRUPT_ACK then Z.ldiff d v else d;
  dev_run d m := (Z.lor d 1, store16 (used_idx q) (load16 m (avail_idx q)) m)
|}.

Lemma demo_can_send : can_send demo_net.
Proof.
  split; [discriminate|discriminate|]. split; simpl; unfold SIZEOF_QUEUE, BUFFER_SIZE; lia.
Qed.

(** A second frame is sent while the first one is offered: the driver waits
    for two pauses, then an interrupt lets it go on. *)
Definition demo_busy : hw mm_state Z :=
  let m := store16 (avail_idx 4194304) 1 (mk_memory ∅ (λ a, a)) in
  mk_hw (set_mm_mem m (set_heap_offset 8192 (mm_boot 4194304 (λ a, a)))) 0 [].

Lemma net_send_describes_frame_witness :
  (∃ h', @virtio_net_send mm_state _ unit (mute_device 1) [] 262144 60 demo_net demo_hw =
      Some (0, set_tx_ready false demo_net, h') ∧
    gather (h_mem h') (frame_chain 131072 60) = net_hdr ++ bytes_at (h_mem demo_hw) 262144 60) ∧
  (∃ st' h', @virtio_net_send mm_state _ Z (net_device 4194304) [false; false; true] 262144 60
      (set_tx_ready false demo_net) demo_busy = Some (0, st', h') ∧
    writes (h_trace h') = [(100, 1); (48, 0); (48, 1); (48, 0); (80, 0)]).
Proof.
  split.
  - destruct (@net_send_describes_frame mm_state _ _ unit (mute_device 1) 262144 60 demo_net demo_hw)
      as [Hs _].
    + lia.
    + right. simpl. unfold BUFFER_SIZE. lia.
    + destruct Hs as (_ & Hs & _).
      * apply demo_can_send.
      * unfold BUFFER_SIZE, SIZEOF_NET_HDR. lia.
      * destruct (Hs eq_refl []) as (h' & E & Ho & _).
        exists h'. split; [exact E|]. destruct Ho as [_ _ _ _ Hg _]. exact Hg.
  - destruct (@net_send_describes_frame mm_state _ _ Z (net_device 4194304) 262144 60
      (set_tx_ready false demo_net) demo_busy) as [Hs _].
    + lia.
    + right. simpl. unfold BUFFER_SIZE. lia.
    + destruct Hs as (_ & _ & Hs & _).
      * destruct demo_can_send as [H1 H2 H3]. split; [exact H1|exact H2|exact H3].
      * unfold BUFFER_SIZE, SIZEOF_NET_HDR. lia.
      * destruct (Hs eq_refl 2%nat) as [_ Hw].
        destruct (Hw []) as (st' & h' & E & _ & _ & W); [vm_compute; discriminate|vm_compute; reflexivity|].
        exists st', h'. split; [exact E|exact W].
Defined.

(** C39: the transmit buffer is not protected.  Let a frame be sent when the
    transmitter is ready and the device has used a transmit chain before.  If
    an interrupt comes next whose status is not 0, whatever it has to do with,
    the handler marks the transmitter as ready.  A second frame that is sent
    then, while the first one is still offered, replaces it: both slots of the
    available ring lead to the second frame, and the first one is never
    sent. *)
Theorem net_pending_frame_overwritten {S} `{AllocatorLaws S} {D} `{Device D}
    schedule data1 len1 data2 len2 st (h : hw S D) :
  can_send st → tx_ready st = true →
  0 <= len1 <= BUFFER_SIZE - SIZEOF_NET_HDR → apart data1 len1 st.(tx_buffer) BUFFER_SIZE →
  0 <= len2 <= BUFFER_SIZE - SIZEOF_NET_HDR → apart data2 len2 st.(tx_buffer) BUFFER_SIZE →
  0 < load16 (h_mem h) (used_idx st.(tx_queue)) →
  ∃ h1, virtio_net_send schedule data1 len1 st h = Some (0, set_tx_ready false st, h1) ∧
    (u32 (dev_read VIRTIO_MMIO_INTERRUPT_STATUS (h_dev h1)).1 ≠ 0 →
     ∃ st2 h2 st3 h3,
       virtio_net_handle_irq (set_tx_ready false st) h1 = (st2, h2) ∧ tx_ready st2 = true ∧
       virtio_net_send schedule data2 len2 st2 h2 = Some (0, st3, h3) ∧
       load16 (h_mem h3) (avail_idx st.(tx_queue)) =
         u16 (load16 (h_mem h) (avail_idx st.(tx_queue)) + 2) ∧
       ∀ n, n = 0 ∨ n = 1 →
         let slot := u16 (load16 (h_mem h) (avail_idx st.(tx_queue)) + n) mod Z.of_nat VIRTIO_QUEUE_SIZE in
         gather (h_mem h3) (chain VIRTIO_QUEUE_SIZE (h_mem h3) st.(tx_queue)
                              (load16 (h_mem h3) (avail_ring st.(tx_queue) slot))) =
         net_hdr ++ bytes_at (h_mem h1) data2 (Z.to_nat len2)).
Proof.
  intros Hc Htr Hl1 Ha1 Hl2 Ha2 Hu. pose proof Hc as [Hm Hrx Hp]. pose proof Hp as [[Hq _] _ Hd].
  destruct (send_ready schedule data1 len1 st h Hc Htr Hl1 Ha1) as (h1 & E1 & O1 & _).
  exists h1. split; [exact E1|]. intros Hv.
  set (a := load16 (h_mem h) (avail_idx (tx_queue st))) in *.
  assert (Hu1 : load16 (h_mem h1) (used_idx (tx_queue st)) = load16 (h_mem h) (used_idx (tx_queue st))).
  { apply load_le_ext. intros b Hb. apply (of_frame _ _ _ _ _ _ O1);
      unfold used_idx, BUFFER_SIZE, SIZEOF_NET_HDR, SIZEOF_QUEUE in *; lia. }
  destruct (irq_ready (set_tx_ready false st) h1 Hv Hm) as (st2 & h2 & E2 & T1 & T4 & T2 & T3 & M2 & _);
    [simpl; lia|done|simpl; by rewrite Hu1|].
  cbn [set_tx_ready tx_queue tx_buffer net_mmio] in T2, T3, T4.
  assert (Hrx2 : rx_queue st2 = rx_queue st).
  { destruct (irq_keeps (set_tx_ready false st) h1) as (_ & _ & K & _). by rewrite E2 in K. }
  assert (Hc2 : can_send st2) by (split; rewrite ?T2, ?T3, ?T4, ?Hrx2; done).
  destruct (send_ready schedule data2 len2 st2 h2 Hc2 T1 Hl2) as (h3 & E3 & O2 & _); [by rewrite T3|].
  assert (Em : h_mem h2 = h_mem h1) by (unfold h_mem; by rewrite M2). rewrite T2, T3, Em in O2.
  assert (0 <= a < 65536) by apply (load_le_range 2).
  assert (Eav : load16 (h_mem h3) (avail_idx (tx_queue st)) = u16 (a + 2)).
  { rewrite (of_avail _ _ _ _ _ _ O2), (of_avail _ _ _ _ _ _ O1). fold a. unfold u16.
    rewrite Zplus_mod_idemp_l. f_equal. lia. }
  exists st2, h2. do 2 eexists. split_and!; [exact E2|exact T1|exact E3|exact Eav|].
  intros n Hn. cbv zeta.
  assert (Eslot : load16 (h_mem h3) (avail_ring (tx_queue st)
    (u16 (a + n) mod Z.of_nat VIRTIO_QUEUE_SIZE)) = 0).
  { destruct Hn as [-> | ->].
    - apply (of_ring _ _ _ _ _ _ O2); [unfold VIRTIO_QUEUE_SIZE; apply Z.mod_pos_bound; lia|].
      rewrite Z.add_0_r, u16_small by done. apply (of_head _ _ _ _ _ _ O1).
    - pose proof (of_head _ _ _ _ _ _ O2) as Hh. by rewrite (of_avail _ _ _ _ _ _ O1) in Hh. }
  rewrite Eslot, (of_chain _ _ _ _ _ _ O2). apply (of_bytes _ _ _ _ _ _ O2).
Qed.

(** The interrupt tells of something else: status bit 2. *)
Lemma net_pending_frame_overwritten_witness :
  let m := store16 (used_idx 4194304) 1 (mk_memory ∅ (λ a, a)) in
  let h := mk_hw (set_mm_mem m (set_heap_offset 8192 (mm_boot 4194304 (λ a, a)))) 2 [] in
  ∃ h1 st2 h2,
    @virtio_net_send mm_state _ Z (net_device 4194304) [] 262144 60 demo_net h =
      Some (0, set_tx_ready false demo_net, h1) ∧
    @virtio_net_handle_irq mm_state _ Z (net_device 4194304) (set_tx_ready false demo_net) h1 = (st2, h2) ∧
    tx_ready st2 = true.
Proof.
  intros m h.
  destruct (@net_pending_frame_overwritten mm_state _ _ Z (net_device 4194304)
    [] 262144 60 262144 40 demo_net h) as (h1 & E1 & Hirq).
  - apply demo_can_send.
  - reflexivity.
  - unfold BUFFER_SIZE, SIZEOF_NET_HDR. lia.
  - right. simpl. unfold BUFFER_SIZE. lia.
  - unfold BUFFER_SIZE, SIZEOF_NET_HDR. lia.
  - right. simpl. unfold BUFFER_SIZE. lia.
  - vm_compute. reflexivity.
  - assert (Ed : h_dev h1 = 2).
    { assert (E : (λ x, h_dev x.2) <$> @virtio_net_send mm_state _ Z (net_device 4194304) [] 262144 60
        demo_net h = Some 2) by (vm_compute; reflexivity).
      rewrite E1 in E. by injection E. }
    destruct Hirq as (st2 & h2 & st3 & h3 & E2 & T & _).
    { rewrite Ed. vm_compute. discriminate. }
    exists h1, st2, h2. split; [exact E1|]. split; [exact E2|exact T].
Defined.

(** ** Receiving *)

Lemma store_rx_frame q rx m b :
  ¬ (q <= b < q + 32) → ¬ (q + 2050 <= b < q + 2308) → load8 (store_rx q rx m) b = load8 m b.
Proof.
  intros H1 H2. unfold store_rx. rewrite load8_offer_chain by lia. unfold desc_at.
  by rewrite !load8_store_desc by lia.
Qed.

Lemma store_rx_desc q rx m :
  net_placed q rx →
  load_desc (store_rx q rx m) (q + 16 * 0) = mk_desc rx 12 1 1 ∧
  load_desc (store_rx q rx m) (q + 16 * 1) = mk_desc (rx + 12) 2036 3 0.
Proof.
  intros [Hq [Hb1 Hb2] _]. unfold store_rx. rewrite !load_desc_offer_chain by lia.
  unfold desc_at, BUFFER_SIZE, SIZEOF_NET_HDR in *.
  rewrite (load_store_desc_ne _ (q + 16 * 0)), !load_store_desc by lia. simpl.
  by rewrite !u64_small by lia.
Qed.

(** The offer itself. *)
Lemma store_rx_avail q rx m :
  load16 (store_rx q rx m) (avail_idx q) = u16 (load16 m (avail_idx q) + 1) ∧
  load16 (store_rx q rx m)
    (avail_ring q (load16 m (avail_idx q) mod Z.of_nat VIRTIO_QUEUE_SIZE)) = 0.
Proof.
  unfold store_rx. match goal with |- context [offer_chain q ?m0] =>
    destruct (offer_chain_avail q m0) as [Ea Er];
    assert (E : load16 m0 (avail_idx q) = load16 m (avail_idx q)) end.
  { unfold load16, avail_idx, desc_at. by rewrite !load_le_store_desc by lia. }
  by rewrite E in Ea, Er.
Qed.

(** The descriptors of the receive buffer form a circle: the second one
    leads back to the first, so that a device which follows the chain never
    reaches its end; and the buffer for the header is not one the device may
    write. *)
Theorem net_rx_chain_cycles q rx m n :
  net_placed q rx →
  length (chain n (store_rx q rx m) q 0) = n ∧
  chain (Datatypes.S (Datatypes.S n)) (store_rx q rx m) q 0 =
    [mk_desc rx 12 1 1; mk_desc (rx + 12) 2036 3 0] ++ chain n (store_rx q rx m) q 0 ∧
  Forall (λ d, d = mk_desc (rx + 12) 2036 3 0)
    (device_writable (chain n (store_rx q rx m) q 0)).
Proof.
  intros Hp. destruct (store_rx_desc q rx m Hp) as [D0 D1]. set (m' := store_rx q rx m) in *.
  assert (E0 : ∀ k, chain (Datatypes.S k) m' q 0 = mk_desc rx 12 1 1 :: chain k m' q 1).
  { intros k. cbn [chain]. by rewrite D0. }
  assert (E1 : ∀ k, chain (Datatypes.S k) m' q 1 = mk_desc (rx + 12) 2036 3 0 :: chain k m' q 0).
  { intros k. cbn [chain]. by rewrite D1. }
  assert (L : ∀ k, length (chain k m' q 0) = k ∧ length (chain k m' q 1) = k).
  { induction k as [|k [IH0 IH1]]; [done|]. rewrite E0, E1. simpl. by rewrite IH0, IH1. }
  assert (W : ∀ k, Forall (λ d, d = mk_desc (rx + 12) 2036 3 0) (device_writable (chain k m' q 0)) ∧
                   Forall (λ d, d = mk_desc (rx + 12) 2036 3 0) (device_writable (chain k m' q 1))).
  { induction k as [|k [IH0 IH1]]; [by repeat constructor|]. rewrite E0, E1.
    unfold device_writable in *. rewrite filter_cons_False by done. rewrite filter_cons_True by done.
    split; [exact IH1|]. by constructor. }
  split; [apply L|]. split; [by rewrite E0, E1|apply W].
Qed.

Lemma net_rx_chain_cycles_witness :
  length (chain 1000 (store_rx 4198400 139264 (mk_memory ∅ (λ _, 0))) 4198400 0) = 1000%nat.
Proof.
  apply (net_rx_chain_cycles 4198400 139264 (mk_memory ∅ (λ _, 0)) 1000).
  split; unfold SIZEOF_QUEUE, BUFFER_SIZE; lia.
Defined.

(** The driver is set up for receiving into [buf]. *)
Record can_recv (buf max_len : Z) (st : net) : Prop := {
  cr_mmio : st.(net_mmio) ≠ 0;
  cr_placed : net_placed st.(rx_queue) st.(rx_buffer);
  cr_len : 0 <= max_len ∧ 0 <= st.(rx_len);
  cr_queue : apart buf max_len st.(rx_queue) SIZEOF_QUEUE;
  cr_buf : apart buf max_len st.(rx_buffer) BUFFER_SIZE
}.

(** What a successful receive does to memory. *)
Lemma recv_ready {S} `{AllocatorLaws S} {D} `{Device D} buf max_len st (h : hw S D) :
  can_recv buf max_len st → rx_ready st = true →
  Z.min max_len (rx_len st) <= BUFFER_SIZE - SIZEOF_NET_HDR →
  let n := Z.min max_len (rx_len st) in
  ∃ h', virtio_net_recv buf max_len st h = Ok (n, set_rx false (rx_len st) st, h') ∧
    h_mem h' = store_rx (rx_queue st) (rx_buffer st)
      (memcpy (Z.to_nat n) buf (rx_buffer st + SIZEOF_NET_HDR) (h_mem h)) ∧
    writes (h_trace h') = writes (h_trace h) ++ [(48, 1); (80, 1)].
Proof.
  intros [Hm [[Hq _] _ _] _ _ _] Hr Hn n. unfold virtio_net_recv.
  rewrite (proj2 (Z.eqb_neq _ _) Hm), Hr, (proj2 (Z.eqb_neq (rx_queue st) 0)) by lia. cbn [orb negb].
  replace (if max_len <? rx_len st then max_len else rx_len st) with n
    by (unfold n; destruct (Z.ltb_spec max_len (rx_len st)); lia).
  rewrite (proj2 (Z.ltb_ge _ n)) by exact Hn.
  unfold virtio_net_setup_rx. cbn [set_rx rx_queue rx_buffer].
  rewrite (proj2 (Z.eqb_neq (rx_queue st) 0)) by lia.
  eexists. split; [reflexivity|]. split.
  - etransitivity; [exact (modify_mem_mem _ _)|]. f_equal. exact (modify_mem_mem _ h).
  - unfold mmio_write; cbn [hw_bind snd h_trace]. rewrite !hw_bind_eq. cbn [snd h_trace].
    rewrite !writes_app. by rewrite <-app_assoc.
Qed.

(** The copy and the descriptors, byte by byte. *)
Lemma recv_mem buf max_len st m n :
  can_recv buf max_len st → 0 <= n <= max_len → n <= BUFFER_SIZE - SIZEOF_NET_HDR →
  let m' := store_rx st.(rx_queue) st.(rx_buffer)
    (memcpy (Z.to_nat n) buf (st.(rx_buffer) + SIZEOF_NET_HDR) m) in
  bytes_at m' buf (Z.to_nat n) = bytes_at m (st.(rx_buffer) + SIZEOF_NET_HDR) (Z.to_nat n) ∧
  ∀ b, ¬ (buf <= b < buf + n) → ¬ (st.(rx_queue) <= b < st.(rx_queue) + 32) →
    ¬ (st.(rx_queue) + 2050 <= b < st.(rx_queue) + 2308) → load8 m' b = load8 m b.
Proof.
  intros [_ [[Hq1 Hq2] [Hb1 Hb2] Hd] _ Hq Hb] Hn Hl m'.
  unfold apart, BUFFER_SIZE, SIZEOF_NET_HDR, SIZEOF_QUEUE in *. unfold m'. split.
  - apply bytes_at_ext. intros i Hi. rewrite store_rx_frame by lia. rewrite load8_memcpy by lia.
    rewrite decide_True by lia. f_equal. lia.
  - intros b B1 B2 B3. rewrite store_rx_frame, load8_memcpy by lia. by rewrite decide_False by lia.
Qed.

Lemma recv_offers buf max_len st m n :
  can_recv buf max_len st → 0 <= n <= max_len → n <= BUFFER_SIZE - SIZEOF_NET_HDR →
  let m' := store_rx st.(rx_queue) st.(rx_buffer)
    (memcpy (Z.to_nat n) buf (st.(rx_buffer) + SIZEOF_NET_HDR) m) in
  let a := load16 m (avail_idx st.(rx_queue)) in
  load16 m' (avail_idx st.(rx_queue)) = u16 (a + 1) ∧
  load16 m' (avail_ring st.(rx_queue) (a mod 128)) = 0 ∧
  load_desc m' st.(rx_queue) = mk_desc st.(rx_buffer) 12 1 1 ∧
  load_desc m' (st.(rx_queue) + 16) = mk_desc (st.(rx_buffer) + 12) 2036 3 0.
Proof.
  intros [_ Hp _ Hq Hb] Hn Hl m' a. destruct (store_rx_desc (rx_queue st) (rx_buffer st)
    (memcpy (Z.to_nat n) buf (rx_buffer st + SIZEOF_NET_HDR) m) Hp) as [D0 D1].
  destruct (store_rx_avail (rx_queue st) (rx_buffer st)
    (memcpy (Z.to_nat n) buf (rx_buffer st + SIZEOF_NET_HDR) m)) as [A1 A2].
  assert (E : load16 (memcpy (Z.to_nat n) buf (rx_buffer st + SIZEOF_NET_HDR) m)
                (avail_idx (rx_queue st)) = a).
  { apply load_le_ext. intros b Hr. unfold apart, avail_idx, BUFFER_SIZE, SIZEOF_QUEUE, SIZEOF_NET_HDR in *.
    destruct Hp as [_ [? ?] ?]. rewrite load8_memcpy, decide_False by lia. done. }
  rewrite E in A1, A2. rewrite Z.mul_0_r, Z.add_0_r in D0. by split_and!.
Qed.

(** C22: receiving.  A driver that is not set up gives -1 and one without a
    frame gives 0, and neither changes anything.  A pending frame of length
    [rx_len] gives min([max_len], [rx_len]) bytes of it, which stand at [buf]
    afterwards.  The receive buffer is offered again, with one notification:
    descriptor 0 is the header, descriptor 1 the 2036 bytes behind it, the
    next slot of the available ring names descriptor 0, and the counter of
    offered chains is one higher.  Besides these the queue and the rest of
    memory are as before.  The length is whatever the device reported: when
    it leaves the receive buffer, the copy does too. *)
Theorem net_recv_delivers {S} `{AllocatorLaws S} {D} `{Device D} buf max_len st (h : hw S D) :
  (net_mmio st = 0 ∨ rx_queue st = 0 → virtio_net_recv buf max_len st h = Ok (-1, st, h)) ∧
  (can_recv buf max_len st →
   let n := Z.min max_len st.(rx_len) in
   (rx_ready st = false → virtio_net_recv buf max_len st h = Ok (0, st, h)) ∧
   (rx_ready st = true → BUFFER_SIZE - SIZEOF_NET_HDR < n →
    virtio_net_recv buf max_len st h = Fault OutOfBounds) ∧
   (rx_ready st = true → n <= BUFFER_SIZE - SIZEOF_NET_HDR →
    ∃ h', virtio_net_recv buf max_len st h = Ok (n, set_rx false st.(rx_len) st, h') ∧
      bytes_at (h_mem h') buf (Z.to_nat n) =
        bytes_at (h_mem h) (st.(rx_buffer) + SIZEOF_NET_HDR) (Z.to_nat n) ∧
      (let a := load16 (h_mem h) (avail_idx st.(rx_queue)) in
       load16 (h_mem h') (avail_idx st.(rx_queue)) = u16 (a + 1) ∧
       load16 (h_mem h') (avail_ring st.(rx_queue) (a mod 128)) = 0 ∧
       load_desc (h_mem h') st.(rx_queue) = mk_desc st.(rx_buffer) 12 1 1 ∧
       load_desc (h_mem h') (st.(rx_queue) + 16) = mk_desc (st.(rx_buffer) + 12) 2036 3 0) ∧
      (∀ b, ¬ (buf <= b < buf + n) → ¬ (st.(rx_queue) <= b < st.(rx_queue) + 32) →
         ¬ (st.(rx_queue) + 2050 <= b < st.(rx_queue) + 2308) →
         load8 (h_mem h') b = load8 (h_mem h) b) ∧
      writes (h_trace h') = writes (h_trace h) ++ [(48, 1); (80, 1)])).
Proof.
  split.
  { intros Hbad. unfold virtio_net_recv.
    by destruct (Z.eqb_spec (net_mmio st) 0), (Z.eqb_spec (rx_queue st) 0); destruct Hbad. }
  intros Hc n. pose proof Hc as [Hm [[Hq _] _ _] Hl _ _]. split_and!.
  - intros Hr. unfold virtio_net_recv. rewrite Hr.
    by rewrite (proj2 (Z.eqb_neq _ _) Hm), (proj2 (Z.eqb_neq (rx_queue st) 0)) by lia.
  - intros Hr Hn. unfold virtio_net_recv. rewrite Hr.
    rewrite (proj2 (Z.eqb_neq _ _) Hm), (proj2 (Z.eqb_neq (rx_queue st) 0)) by lia. cbn [orb negb].
    rewrite (proj2 (Z.ltb_lt _ _)); [done|]. destruct (Z.ltb_spec max_len (rx_len st)); lia.
  - intros Hr Hn. destruct (recv_ready buf max_len st h Hc Hr Hn) as (h' & E & Em & Ew).
    exists h'. split; [exact E|]. rewrite Em.
    destruct (recv_mem buf max_len st (h_mem h) n Hc) as [M1 M2]; [lia|exact Hn|].
    split; [exact M1|]. split; [|by split].
    pose proof Hc as [_ Hp _ Hcq _]. destruct (recv_offers buf max_len st (h_mem h) n Hc) as (A1 & A2 & A3 & A4);
      [lia|exact Hn|]. by split_and!.
Qed.

(** The driver of [demo_net] with a frame of [len] bytes. *)
Definition demo_net_rx (len : Z) : net := set_rx true len demo_net.

Lemma net_recv_delivers_witness :
  (∃ h', @virtio_net_recv mm_state _ unit (mute_device 1) 262144 100 (demo_net_rx 60) demo_hw =
     Ok (60, set_rx false 60 demo_net, h') ∧
     bytes_at (h_mem h') 262144 60 = bytes_at (h_mem demo_hw) 139276 60) ∧
  @virtio_net_recv mm_state _ unit (mute_device 1) 262144 4096 (demo_net_rx 3000) demo_hw =
    Fault OutOfBounds.
Proof.
  split.
  - destruct (@net_recv_delivers mm_state _ _ unit (mute_device 1) 262144 100 (demo_net_rx 60) demo_hw)
      as [_ Hc].
    destruct Hc as (_ & _ & Hd).
    + split; try (vm_compute; discriminate); unfold apart; cbn;
        unfold SIZEOF_QUEUE, BUFFER_SIZE; try lia.
      split; unfold SIZEOF_QUEUE, BUFFER_SIZE; lia.
    + destruct Hd as (h' & E & Hb & _); [reflexivity|vm_compute; discriminate|].
      exists h'. split; [exact E|exact Hb].
  - destruct (@net_recv_delivers mm_state _ _ unit (mute_device 1) 262144 4096 (demo_net_rx 3000) demo_hw)
      as [_ Hc].
    destruct Hc as (_ & Hf & _).
    + split; try (vm_compute; discriminate); unfold apart; cbn;
        unfold SIZEOF_QUEUE, BUFFER_SIZE; try lia.
      split; unfold SIZEOF_QUEUE, BUFFER_SIZE; lia.
    + apply Hf; [reflexivity|vm_compute; reflexivity].
Defined.

(** The receive queue keeps no position.  The handler looks at the last
    used entry and not at what was already delivered: after a frame was
    received, an interrupt for which the device has not used a chain marks
    the same frame as received again, and the next call delivers its bytes a
    second time. *)
Theorem net_frame_delivered_twice {S} `{AllocatorLaws S} {D} `{Device D} buf max_len st (h : hw S D) :
  can_recv buf max_len st → rx_ready st = true → tx_queue st ≠ 0 →
  let u := load16 (h_mem h) (used_idx st.(rx_queue)) in
  let len := load32 (h_mem h) (used_len st.(rx_queue) ((u - 1) mod Z.of_nat VIRTIO_QUEUE_SIZE)) in
  0 < u → SIZEOF_NET_HDR < len → st.(rx_len) = len - SIZEOF_NET_HDR →
  Z.min max_len st.(rx_len) <= BUFFER_SIZE - SIZEOF_NET_HDR →
  let n := Z.min max_len st.(rx_len) in
  let frame := bytes_at (h_mem h) (st.(rx_buffer) + SIZEOF_NET_HDR) (Z.to_nat n) in
  ∃ st1 h1,
    virtio_net_recv buf max_len st h = Ok (n, st1, h1) ∧ bytes_at (h_mem h1) buf (Z.to_nat n) = frame ∧
    (u32 (dev_read VIRTIO_MMIO_INTERRUPT_STATUS (h_dev h1)).1 ≠ 0 →
     ∃ st2 h2 st3 h3,
       virtio_net_handle_irq st1 h1 = (st2, h2) ∧
       virtio_net_recv buf max_len st2 h2 = Ok (n, st3, h3) ∧
       bytes_at (h_mem h3) buf (Z.to_nat n) = frame).
Proof.
  intros Hc Hrdy Htx u len Hu Hlen Erx Hn n frame.
  pose proof Hc as [Hm [[Hq1 Hq2] [Hb1 Hb2] Hd] Hl Hcq Hcb].
  destruct (recv_ready buf max_len st h Hc Hrdy Hn) as (h1 & E1 & M1 & _).
  destruct (recv_mem buf max_len st (h_mem h) n Hc) as [B1 F1]; [lia|exact Hn|].
  fold n in E1, M1. rewrite <-M1 in B1, F1. set (st1 := set_rx false (rx_len st) st) in *.
  exists st1, h1. split; [exact E1|]. split; [exact B1|]. intros Hv.
  assert (Hrx : rx_queue st1 ≠ 0) by (simpl; lia).
  destruct (irq_acknowledged st1 h1 Hv Hm Htx Hrx) as (h2 & M2 & _ & E2).
  cbv zeta in E2. change (rx_queue st1) with (rx_queue st) in E2.
  unfold apart, BUFFER_SIZE, SIZEOF_NET_HDR, SIZEOF_QUEUE, VIRTIO_QUEUE_SIZE in *.
  assert (Eu : load16 (h_mem h1) (used_idx (rx_queue st)) = u).
  { apply load_le_ext. intros b Hb. apply F1; unfold used_idx in *; lia. }
  pose proof (Z.mod_pos_bound (u - 1) (Z.of_nat 128) ltac:(lia)) as Hi.
  assert (El : load32 (h_mem h1) (used_len (rx_queue st) ((u - 1) mod Z.of_nat 128)) = len).
  { apply load_le_ext. intros b Hb. apply F1; unfold used_len in *; lia. }
  rewrite Eu, El, (proj2 (Z.ltb_lt _ _) Hu), (proj2 (Z.ltb_lt _ _) Hlen) in E2.
  match type of E2 with _ = (?s, _) => set (st2 := s) in * end.
  assert (Est : net_mmio st2 = net_mmio st ∧ rx_queue st2 = rx_queue st ∧
    rx_buffer st2 = rx_buffer st ∧ rx_len st2 = rx_len st ∧ rx_ready st2 = true)
    by (unfold st2; rewrite Erx; by case_match).
  destruct Est as (T1 & T2 & T3 & T4 & T5).
  assert (Hc2 : can_recv buf max_len st2) by (by split; rewrite ?T1, ?T2, ?T3, ?T4).
  destruct (recv_ready buf max_len st2 h2 Hc2 T5) as (h3 & E3 & M3 & _); [by rewrite T4|].
  rewrite T4 in E3, M3. fold n in E3, M3. unfold h_mem in M3 at 2. rewrite M2 in M3. fold (h_mem h1) in M3.
  destruct (recv_mem buf max_len st2 (h_mem h1) n Hc2) as [B2 _]; [lia|exact Hn|].
  rewrite <-M3, T3 in B2.
  exists st2, h2. do 2 eexists. split_and!; [exact E2|exact E3|].
  rewrite B2. apply bytes_at_ext. intros i Hi'. apply F1; lia.
Qed.

Lemma net_frame_delivered_twice_witness :
  let m := store32 (used_len 4198400 0) 72 (store16 (used_idx 4198400) 1 (mk_memory ∅ (λ a, a))) in
  let h := mk_hw (set_mm_mem m (set_heap_offset 8192 (mm_boot 4194304 (λ a, a)))) 2 [] in
  ∃ st1 h1 st2 h2 st3 h3,
    @virtio_net_recv mm_state _ Z (net_device 4194304) 262144 100 (demo_net_rx 60) h = Ok (60, st1, h1) ∧
    @virtio_net_handle_irq mm_state _ Z (net_device 4194304) st1 h1 = (st2, h2) ∧
    @virtio_net_recv mm_state _ Z (net_device 4194304) 262144 100 st2 h2 = Ok (60, st3, h3) ∧
    bytes_at (h_mem h3) 262144 60 = bytes_at (h_mem h) 139276 60.
Proof.
  intros m h.
  destruct (@net_frame_delivered_twice mm_state _ _ Z (net_device 4194304)
    262144 100 (demo_net_rx 60) h) as (st1 & h1 & E1 & _ & Hirq).
  - split; try (vm_compute; discriminate); unfold apart; cbn; unfold SIZEOF_QUEUE, BUFFER_SIZE; try lia.
    split; unfold SIZEOF_QUEUE, BUFFER_SIZE; lia.
  - reflexivity.
  - vm_compute. discriminate.
  - vm_compute. reflexivity.
  - vm_compute. reflexivity.
  - vm_compute. reflexivity.
  - vm_compute. discriminate.
  - assert (Ed : h_dev h1 = 2).
    { assert (E : (λ x, h_dev x.2) <$> @virtio_net_recv mm_state _ Z (net_device 4194304) 262144 100
        (demo_net_rx 60) h = Ok 2) by (vm_compute; reflexivity).
      change (Z.min 100 (rx_len (demo_net_rx 60))) with 60 in E1. rewrite E1 in E. by injection E. }
    destruct Hirq as (st2 & h2 & st3 & h3 & E2 & E3 & B3).
    { rewrite Ed. vm_compute. discriminate. }
    exists st1, h1, st2, h2, st3, h3. split; [exact E1|]. split; [exact E2|]. split; [exact E3|exact B3].
Defined.

(** ** The configuration *)

(** A device whose registers hold fixed words. *)
Definition register_device (r : Z → Z) : Device unit := {|
  dev_read off d := (r off, d); dev_write _ _ d := d; dev_run d m := (d, m) |}.

Section config.
Context {S : Type} `{AllocatorLaws S} {D : Type} `{Device D}.
Context (r : Z → Z) (Hr : ∀ off (d : D), dev_read off d = (r off, d)).

Lemma read_register off (h : hw S D) :
  ∃ h', mmio_read off h = (u32 (r (reg off)), h') ∧
    h_mm h' = h_mm h ∧ writes (h_trace h') = writes (h_trace h).
Proof.
  destruct (does_read off h) as [Em Ew]. rewrite app_nil_r in Ew.
  pose proof (mmio_read_val off h) as Ev. rewrite Hr in Ev.
  destruct (mmio_read off h) as [a h1]. simpl in *. exists h1. by rewrite Ev.
Qed.

Lemma read_registers n i (h : hw S D) :
  ∃ h', read_mac n i h = ((λ k, u8 (u32 (r (reg (272 + (i + Z.of_nat k)))))) <$> seq 0 n, h') ∧
    h_mm h' = h_mm h ∧ writes (h_trace h') = writes (h_trace h).
Proof.
  revert i h. induction n as [|n IH]; intros i h; [by exists h|].
  cbn [read_mac]. rewrite hw_bind_eq.
  destruct (read_register (VIRTIO_MMIO_DEVICE_FEATURES + 256 + i) h) as (h1 & -> & M1 & W1).
  cbn [fst snd]. rewrite hw_bind_eq.
  destruct (IH (i + 1) h1) as (h2 & -> & M2 & W2). cbn [fst snd].
  exists h2. split; [|by rewrite M2, W2]. unfold mret, hw_ret. f_equal.
  cbn [seq fmap list_fmap]. f_equal.
  - do 4 f_equal. unfold VIRTIO_MMIO_DEVICE_FEATURES. lia.
  - rewrite <-fmap_S_seq, <-list_fmap_compose. apply list_fmap_ext. intros k j _. cbn [compose].
    do 5 f_equal. lia.
Qed.
End config.

Lemma u8_u32 z : u8 (u32 z) = u8 z.
Proof. unfold u8, u32. apply Z.mod_mod_divide. by exists (2 ^ 24). Qed.
Lemma u16_u32 z : u16 (u32 z) = u16 z.
Proof. unfold u16, u32. apply Z.mod_mod_divide. by exists (2 ^ 16). Qed.

(** The driver addresses the configuration of the device by the byte,
    but the accessor rounds down to words: the first four bytes of the MAC
    address are the low byte of one register, the last two that of the next
    one, from which the status comes as well; the number of queue pairs and
    the MTU are read from one register too. *)
Theorem net_config_repeats_registers {S} `{AllocatorLaws S} {D} `{Device D} r (h : hw S D) :
  (∀ off d, dev_read off d = (r off, d)) →
  ∃ h', virtio_net_read_config h =
    (mk_net_config [u8 (r 272); u8 (r 272); u8 (r 272); u8 (r 272); u8 (r 276); u8 (r 276)]
                   (u16 (r 276)) (u16 (r 280)) (u32 (r 280)), h') ∧
    h_mm h' = h_mm h ∧ writes (h_trace h') = writes (h_trace h).
Proof.
  intros Hr. unfold virtio_net_read_config. rewrite hw_bind_eq.
  destruct (read_registers r Hr 6%nat 0 h) as (h1 & -> & M1 & W1). cbn [fst snd]. rewrite hw_bind_eq.
  match goal with |- context [mmio_read ?o h1] =>
    destruct (read_register r Hr o h1) as (h2 & -> & M2 & W2) end.
  cbn [fst snd]. rewrite hw_bind_eq.
  match goal with |- context [mmio_read ?o h2] =>
    destruct (read_register r Hr o h2) as (h3 & -> & M3 & W3) end.
  cbn [fst snd]. rewrite hw_bind_eq.
  match goal with |- context [mmio_read ?o h3] =>
    destruct (read_register r Hr o h3) as (h4 & -> & M4 & W4) end.
  exists h4. split; [|by rewrite M4, M3, M2, M1, W4, W3, W2, W1].
  cbn [fst snd]. unfold mret, hw_ret. rewrite !u16_u32.
  cbn [seq fmap list_fmap]. by rewrite !u8_u32.
Qed.

Lemma net_config_repeats_registers_witness :
  ∃ h', @virtio_net_read_config mm_state unit (register_device (λ off, off)) demo_hw =
    (mk_net_config [16; 16; 16; 16; 20; 20] 276 280 280, h').
Proof.
  destruct (@net_config_repeats_registers mm_state _ _ unit (register_device (λ off, off)) (λ off, off) demo_hw)
    as (h' & E & _); [intros off d; reflexivity|].
  exists h'. exact E.
Defined.
