(* ===== verification/Mkramdisk.v ===== *)
(** * Ramdisk builder ([scripts/mkramdisk.c])

    The tool that writes the image [Ramdisk] reads.  The host it runs on (its
    commands, its file system, its heap) is an interface; the tool itself is
    a function from its arguments to its exit code and the bytes of the file
    it wrote.  Strings of the host are lists of bytes without the final zero;
    writing to the output file is taken to succeed. *)

From Stdlib Require Import String.
From S2P Require Import Prelude Memory Cstring Ramdisk.

(** What the tool asks the host for. *)
Class Host : Type := {
  (** [popen(cmd, "r")]: everything the command prints *)
  popen : list Z → option (list Z);
  (** whether [malloc] of that size succeeds *)
  malloc_ok : Z → bool;
  (** [stat(path)]: [st_size] when it succeeds *)
  stat_size : list Z → option Z;
  (** [fopen(path, "rb")] and everything read from it *)
  read_file : list Z → option (list Z);
  (** whether [fopen(path, "wb")] succeeds *)
  can_create : list Z → bool
}.

(** ** Strings *)

(** The bytes in front of the first one that [stop] accepts. *)
Fixpoint until (stop : Z → bool) (s : list Z) : list Z :=
  match s with [] => [] | c :: s' => if stop c then [] else c :: until stop s' end.

(** [fgets] with room for [n] bytes: the line and what is left. *)
Fixpoint fgets (n : nat) (s : list Z) : list Z * list Z :=
  match n, s with
  | O, _ => ([], s)
  | _, [] => ([], [])
  | S n', c :: s' => if c =? 10 then ([c], s') else let '(l, r) := fgets n' s' in (c :: l, r)
  end.

(** [strrchr]: the string from the last [c] on. *)
Fixpoint strrchr (c : Z) (s : list Z) : option (list Z) :=
  match s with
  | [] => None
  | x :: s' => match strrchr c s' with
               | Some t => Some t
               | None => if x =? c then Some s else None
               end
  end.
(** [base ? base + 1 : line] *)
Definition base_name (s : list Z) : list Z :=
  match strrchr 47 s with Some t => tail t | None => s end.

(** [strncpy(name, s, 63)] on a field of 64 bytes whose last one is zero. *)
Definition name_field (s : list Z) : list Z :=
  let t := take 63 (until (Z.eqb 0) s) in t ++ replicate (63 - length t) 0 ++ [0].

(** [fscanf(fp, "%d", &n)]; [None] when there is no number. *)
Definition is_space (c : Z) : bool := ((9 <=? c) && (c <=? 13)) || (c =? 32).
Definition is_digit (c : Z) : bool := (48 <=? c) && (c <=? 57).
Fixpoint skip_spaces (s : list Z) : list Z :=
  match s with [] => [] | c :: s' => if is_space c then skip_spaces s' else s end.
Fixpoint scan_digits (s : list Z) (acc : Z) : Z :=
  match s with
  | [] => acc
  | c :: s' => if is_digit c then scan_digits s' (10 * acc + (c - 48)) else acc
  end.
Definition scan_unsigned (s : list Z) : option Z :=
  match s with c :: _ => if is_digit c then Some (scan_digits s 0) else None | [] => None end.
Definition scan_int (s : list Z) : option Z :=
  match skip_spaces s with
  | [] => None
  | c :: s' => if c =? 45 then Z.opp <$> scan_unsigned s'
               else if c =? 43 then scan_unsigned s' else scan_unsigned (c :: s')
  end.

(** ** The image *)

(** [fwrite] of a little-endian integer of [n] bytes. *)
Fixpoint le_bytes (n : nat) (v : Z) : list Z :=
  match n with O => [] | S n' => u8 v :: le_bytes n' (v / 2 ^ 8) end.

(** One element of [files]. *)
Record info : Type := mk_info { i_name : list Z; i_path : list Z; i_size : Z }.

Definition SIZEOF_INFO : Z := 584.
Definition align8 (z : Z) : Z := (z ⊞ 7) .& not64 7.

(** [sizeof(uint32_t) * 3 + count * (64 + 8 + 8 + 4)], rounded up. *)
Definition table_end (count : Z) : Z := align8 (12 ⊞ u64 (count * 84)).

(** The loop that adds the sizes to [total_size]. *)
Fixpoint add_sizes (fs : list info) (total_size : Z) : Z :=
  match fs with [] => total_size | f :: fs' => add_sizes fs' (total_size ⊞ i_size f) end.

Definition header_bytes (fs : list info) : list Z :=
  le_bytes 4 1145785682 ++ le_bytes 4 (Z.of_nat (length fs)) ++
  le_bytes 8 (add_sizes fs (table_end (Z.of_nat (length fs)))).

Definition entry_bytes (f : info) (current_offset : Z) : list Z :=
  name_field (i_name f) ++ le_bytes 8 current_offset ++ le_bytes 8 (i_size f) ++ le_bytes 4 0.

(** The loop over the entries: what it writes, and [current_offset] after it. *)
Fixpoint write_entries (fs : list info) (current_offset : Z) (out : list Z) : list Z * Z :=
  match fs with
  | [] => (out, current_offset)
  | f :: fs' => write_entries fs' (current_offset ⊞ i_size f) (out ++ entry_bytes f current_offset)
  end.

Section tool.
Context `{Host}.

(** The loop that fills [files]: [n] elements are left. *)
Fixpoint collect (have_files : bool) (n : nat) (s : list Z) : outcome (list info) :=
  match n with
  | O => Ok []
  | S n' =>
      if decide (s = []) then Ok [] else
      let '(line, s') := fgets 511 s in
      let path := until (λ c, (c =? 10) || (c =? 0)) line in
      if negb have_files then Fault NullPointer else
      match stat_size path with
      | None => Fault Uninitialised
      | Some size =>
          fs ← collect have_files n' s';
          Ok (mk_info (name_field (base_name path)) path (u64 size) :: fs)
      end
  end.

(** [fwrite(padding, 1, n, out)]: [padding] is an array of eight zeros. *)
Definition write_padding (n : Z) : outcome (list Z) :=
  if n <=? 8 then Ok (replicate (Z.to_nat n) 0) else Fault OutOfBounds.

(** The loop that appends the files: the exit code and the output. *)
Fixpoint write_files (fs : list info) (out : list Z) : Z * list Z :=
  match fs with
  | [] => (0, out)
  | f :: fs' => match read_file (i_path f) with
                | None => (1, out)
                | Some bs => write_files fs' (out ++ bs)
                end
  end.

(** From "Write header" on. *)
Definition write_image (fs : list info) : outcome (Z * list Z) :=
  let '(out, current_offset) := write_entries fs (table_end (Z.of_nat (length fs))) (header_bytes fs) in
  let current_pos := Z.of_nat (length out) in
  let data_start := align8 current_offset in
  out ← (if current_pos <? data_start then app out <$> write_padding (data_start - current_pos)
         else Ok out);
  Ok (write_files fs out).

Definition count_command (dir : list Z) : list Z :=
  take 511 (bytes "find " ++ dir ++ bytes " -type f | wc -l").
Definition find_command (dir : list Z) : list Z :=
  take 511 (bytes "find " ++ dir ++ bytes " -type f").

(** [int main(int argc, char *argv[])]: the exit code and, when the output
    file was created, its contents. *)
Definition main (argv : list (list Z)) : outcome (Z * option (list Z)) :=
  match argv with
  | _ :: input_dir :: output_file :: _ =>
      match popen (count_command input_dir) with
      | None => Ok (1, None)
      | Some printed =>
          let file_cnt := default 0 (scan_int printed) in
          if file_cnt =? 0 then Ok (1, None) else
          let have_files := malloc_ok (u64 (file_cnt * SIZEOF_INFO)) in
          match popen (find_command input_dir) with
          | None => Ok (1, None)
          | Some listing =>
              fs ← collect have_files (Z.to_nat file_cnt) listing;
              if negb (can_create output_file) then Ok (1, None) else
              '(code, out) ← write_image fs;
              Ok (code, Some out)
          end
      end
  | _ => Ok (1, None)
  end.
End tool.

(** ** Lemmas: strings *)

Lemma until_stop stop s c r :
  Forall (λ x, stop x = false) s → stop c = true → until stop (s ++ c :: r) = s.
Proof.
  intros Hs Hc. induction Hs as [|x s Hx Hs IH]; simpl; [by rewrite Hc|]. by rewrite Hx, IH.
Qed.

Lemma until_all stop s : Forall (λ x, stop x = false) s → until stop s = s.
Proof. intros Hs. induction Hs as [|x s Hx Hs IH]; simpl; [done|]. by rewrite Hx, IH. Qed.

Lemma fgets_line n s r :
  (length s < n)%nat → Forall (λ c, c ≠ 10) s → fgets n (s ++ 10 :: r) = (s ++ [10], r).
Proof.
  revert n. induction s as [|c s IH]; intros [|n] Hn Hs; simpl in *; try lia; [done|].
  apply Forall_cons_iff in Hs as [Hc Hs]. rewrite (proj2 (Z.eqb_neq c 10) Hc).
  by rewrite IH by (done || lia).
Qed.

Lemma strrchr_suffix c s t : strrchr c s = Some t → ∃ p, s = p ++ t.
Proof.
  revert t. induction s as [|x s IH]; intros t; simpl; [done|].
  destruct (strrchr c s) as [t'|] eqn:E.
  - intros [= ->]. destruct (IH t eq_refl) as [p ->]. by exists (x :: p).
  - case_match; [|done]. intros [= <-]. by exists [].
Qed.

Lemma base_name_plain s : plain_name s → plain_name (base_name s).
Proof.
  intros Hs. unfold base_name. destruct (strrchr 47 s) as [t|] eqn:E; [|done].
  apply strrchr_suffix in E as [p ->]. apply Forall_app in Hs as [_ Hs].
  destruct t; [done|]. by apply Forall_cons_iff in Hs as [_ Hs].
Qed.

Lemma plain_until s : plain_name s → until (Z.eqb 0) s = s.
Proof.
  intros Hs. apply until_all. eapply Forall_impl; [exact Hs|].
  intros c Hc. apply (proj2 (Z.eqb_neq 0 c)). simpl in Hc. lia.
Qed.

(** The name part of a field, and the field of a field. *)
Lemma name_field_plain s :
  plain_name s → name_field s = take 63 s ++ replicate (63 - length (take 63 s)) 0 ++ [0].
Proof. intros Hs. unfold name_field. by rewrite plain_until. Qed.

Lemma name_field_twice s : plain_name s → name_field (name_field s) = name_field s.
Proof.
  intros Hs. rewrite (name_field_plain s Hs) at 1. unfold name_field at 1.
  assert (E : until (Z.eqb 0) (take 63 s ++ replicate (63 - length (take 63 s)) 0 ++ [0]) = take 63 s).
  { assert (∃ r, replicate (63 - length (take 63 s)) 0 ++ [0] = 0 :: r) as [r ->].
    { destruct (63 - length (take 63 s))%nat as [|k]; [by exists []|]. by eexists. }
    apply until_stop; [|done]. eapply Forall_impl; [by apply Forall_take|].
    intros c Hc. apply (proj2 (Z.eqb_neq 0 c)). simpl in Hc. lia. }
  rewrite E, take_take, Nat.min_id. by rewrite name_field_plain.
Qed.

Lemma name_field_length s : length (name_field s) = 64%nat.
Proof.
  unfold name_field. rewrite !length_app, length_replicate, length_take. cbn [length]. lia.
Qed.

(** ** Lemmas: bytes in memory *)

Lemma le_bytes_length n v : length (le_bytes n v) = n.
Proof. revert v. induction n as [|n IH]; intros v; simpl; [done|]. by rewrite IH. Qed.

Lemma loaded_le m a n v : loaded m a (le_bytes n v) → load_le n m a = v mod 2 ^ (8 * Z.of_nat n).
Proof.
  revert a v. induction n as [|n IH]; intros a v; [by rewrite Z.mod_1_r|].
  cbn [le_bytes]. rewrite loaded_cons, load_le_S. intros [-> Hl]. rewrite (IH _ _ Hl).
  replace (8 * Z.of_nat (S n)) with (8 + 8 * Z.of_nat n) by lia.
  rewrite Z.pow_add_r by lia. unfold u8. by rewrite Z.rem_mul_r by lia.
Qed.

Lemma loaded_name m a s :
  plain_name s → loaded m a (name_field s) → name_at m a (take 63 s).
Proof.
  intros Hs Hl. rewrite name_field_plain in Hl by done. split_and!; [by apply Forall_take| |].
  - intros i c Hi. eapply loaded_lookup; [exact Hl|]. by apply lookup_app_l_Some.
  - eapply loaded_lookup; [exact Hl|]. rewrite lookup_app_r, Nat.sub_diag by lia.
    by destruct (63 - length (take 63 s))%nat.
Qed.

(** ** Lemmas: the image *)

(** The files as the host has them: path and contents. *)
Definition source : Type := (list Z * list Z)%type.
Definition info_of (f : source) : info :=
  mk_info (name_field (base_name f.1)) f.1 (Z.of_nat (length f.2)).
Definition total (fs : list source) : Z := Z.of_nat (length (concat (snd <$> fs))).

(** The entries for [fs], the first offset being [o]. *)
Fixpoint recorded (fs : list source) (o : Z) : list file :=
  match fs with
  | [] => []
  | f :: fs' => mk_file (take 63 (base_name f.1)) o (Z.of_nat (length f.2)) ::
                recorded fs' (o + Z.of_nat (length f.2))
  end.

Fixpoint table (fs : list info) (o : Z) : list Z :=
  match fs with [] => [] | f :: fs' => entry_bytes f o ++ table fs' (o ⊞ i_size f) end.

Lemma total_cons f fs : total (f :: fs) = Z.of_nat (length f.2) + total fs.
Proof. unfold total. cbn [fmap list_fmap concat]. rewrite length_app. lia. Qed.

Lemma total_nonneg fs : 0 <= total fs.
Proof. unfold total. lia. Qed.

Lemma recorded_length fs o : length (recorded fs o) = length fs.
Proof. revert o. induction fs as [|f fs IH]; intros o; simpl; [done|]. by rewrite IH. Qed.

Lemma write_entries_eq fs o out :
  0 <= o → o + total fs < 2 ^ 64 →
  write_entries (info_of <$> fs) o out = (out ++ table (info_of <$> fs) o, o + total fs).
Proof.
  revert o out. induction fs as [|f fs IH]; intros o out Ho Ht.
  { cbn. rewrite app_nil_r. f_equal. unfold total; cbn. lia. }
  rewrite total_cons in Ht |- *. pose proof (total_nonneg fs). cbn [fmap list_fmap write_entries table i_size info_of].
  rewrite u64_small by lia. rewrite IH by lia. rewrite app_assoc. f_equal. lia.
Qed.

Lemma entry_length f o : length (entry_bytes f o) = 84%nat.
Proof. unfold entry_bytes. by rewrite !length_app, name_field_length, !le_bytes_length. Qed.

Lemma table_length fs o : length (table fs o) = (84 * length fs)%nat.
Proof.
  revert o. induction fs as [|f fs IH]; intros o; cbn [table length]; [done|].
  rewrite length_app, entry_length, IH. lia.
Qed.

Lemma loaded_table m a fs o i f :
  Forall (λ f : source, plain_name f.1) fs → 0 <= o → o + total fs < 2 ^ 64 →
  loaded m a (table (info_of <$> fs) o) → recorded fs o !! i = Some f →
  let e := a + Z.of_nat i * ENTRY_SIZE in
  name_at m (ent_name e) (f_name f) ∧ ent_offset m e = f_offset f ∧ ent_size m e = f_size f.
Proof.
  intros Hp. revert a o i. induction Hp as [|g fs Hg Hp IH]; intros a o i Ho Ht Hl Hf; [done|].
  rewrite total_cons in Ht. pose proof (total_nonneg fs).
  cbn [fmap list_fmap table i_size info_of] in Hl. apply loaded_app in Hl as [He Hl].
  rewrite entry_length, u64_small in Hl by lia. destruct i as [|i].
  - injection Hf as <-. intros e. replace e with a by (unfold e; lia). unfold entry_bytes in He.
    apply loaded_app in He as [Hn He]. apply loaded_app in He as [Ho' He].
    apply loaded_app in He as [Hs _].
    rewrite !le_bytes_length, !name_field_length in *. cbn [i_name i_size info_of] in *.
    rewrite name_field_twice in Hn by by apply base_name_plain.
    apply loaded_le in Ho', Hs. split; [apply loaded_name; [by apply base_name_plain|exact Hn]|].
    unfold ent_offset, ent_size, load64. cbn [f_offset f_size].
    replace (a + 72) with (a + Z.of_nat 64 + Z.of_nat 8) by lia. rewrite Hs.
    change (a + 64) with (a + Z.of_nat 64). rewrite Ho'. split; apply Z.mod_small; lia.
  - cbn [recorded lookup list_lookup] in Hf. 
    specialize (IH (a + Z.of_nat 84) (o + Z.of_nat (length g.2)) i ltac:(lia) ltac:(lia) Hl Hf).
    replace (a + Z.of_nat (S i) * ENTRY_SIZE) with (a + Z.of_nat 84 + Z.of_nat i * ENTRY_SIZE)
      by (unfold ENTRY_SIZE; lia). exact IH.
Qed.

(** The contents of the [i]-th file in the data behind address [d]. *)
Lemma loaded_contents m d fs o i f g :
  loaded m d (concat (snd <$> fs)) → fs !! i = Some f → recorded fs o !! i = Some g →
  bytes_at m (d + (f_offset g - o)) (length f.2) = f.2.
Proof.
  revert d o i. induction fs as [|f0 fs IH]; intros d o i Hl Hf Hg; [done|].
  cbn [fmap list_fmap concat] in Hl. apply loaded_app in Hl as [H0 Hl]. destruct i as [|i].
  - injection Hf as ->. injection Hg as <-. cbn [f_offset].
    replace (d + (o - o)) with d by lia. exact H0.
  - cbn [recorded lookup list_lookup] in Hf, Hg. rewrite <-(IH _ _ i Hl Hf Hg) at 2. f_equal. lia.
Qed.

Lemma recorded_bounds fs o i g :
  recorded fs o !! i = Some g → o <= f_offset g ∧ f_offset g + f_size g <= o + total fs.
Proof.
  revert o i. induction fs as [|f fs IH]; intros o i Hg; [done|].
  rewrite total_cons. pose proof (total_nonneg fs). destruct i as [|i].
  - injection Hg as <-. cbn. lia.
  - apply IH in Hg. lia.
Qed.

(** ** Lemmas: the arithmetic of the offsets *)

Definition up8 (z : Z) : Z := 8 * ((z + 7) / 8).

Lemma up8_bounds z : z <= up8 z < z + 8.
Proof. unfold up8. pose proof (Z.div_mod (z + 7) 8). pose proof (Z.mod_pos_bound (z + 7) 8). lia. Qed.

Lemma align8_up8 z : 0 <= z < 2 ^ 63 → align8 z = up8 z.
Proof.
  intros Hz. unfold align8. change 7 with (Z.ones 3) at 2. rewrite land_not64_ones by (lia || apply u64_range).
  rewrite u64_small by lia. unfold up8. pose proof (Z.div_mod (z + 7) 8). change (2 ^ 3) with 8. lia.
Qed.

Lemma up8_add z t : up8 (up8 z + t) = up8 z + up8 t.
Proof.
  unfold up8. replace (8 * ((z + 7) / 8) + t + 7) with (((z + 7) / 8) * 8 + (t + 7)) by lia.
  rewrite Z.div_add_l by lia. lia.
Qed.

Definition table_end' (n : nat) : Z := up8 (12 + 84 * Z.of_nat n).

Lemma table_end_eq n : Z.of_nat n < 2 ^ 20 → table_end (Z.of_nat n) = table_end' n.
Proof.
  intros Hn. unfold table_end, table_end'. rewrite !u64_small by (rewrite ?u64_small; lia).
  rewrite align8_up8 by lia. f_equal. lia.
Qed.

(** ** Runs on a host *)

Section runs.
Context `{Host}.

(** A file the host lists, with the size it reports and its contents. *)
Record hosted (f : source) : Prop := {
  ho_path : plain_name f.1;
  ho_line : Forall (λ c, c ≠ 10) f.1;
  ho_length : (length f.1 <= 510)%nat;
  ho_stat : stat_size f.1 = Some (Z.of_nat (length f.2));
  ho_read : read_file f.1 = Some f.2
}.

Definition listing (fs : list source) : list Z := concat ((λ f : source, f.1 ++ [10]) <$> fs).

(** The host has the files [fs] in the directory [dir], and can write [out]. *)
Record builds (dir out : list Z) (fs : list source) : Prop := {
  bu_some : fs ≠ [];
  bu_count : ∃ printed, popen (count_command dir) = Some printed ∧
                        scan_int printed = Some (Z.of_nat (length fs));
  bu_find : popen (find_command dir) = Some (listing fs);
  bu_malloc : malloc_ok (u64 (Z.of_nat (length fs) * SIZEOF_INFO)) = true;
  bu_create : can_create out = true;
  bu_hosted : Forall hosted fs;
  bu_number : Z.of_nat (length fs) < 2 ^ 20;
  bu_total : total fs < 2 ^ 60
}.

Lemma path_until s r :
  plain_name s → Forall (λ c, c ≠ 10) s → until (λ c, (c =? 10) || (c =? 0)) (s ++ 10 :: r) = s.
Proof.
  intros Hp Hl. apply until_stop; [|done]. apply Forall_forall. intros c Hc.
  rewrite Forall_forall in Hl. unfold plain_name in Hp. rewrite Forall_forall in Hp.
  specialize (Hl c Hc). specialize (Hp c Hc).
  by rewrite (proj2 (Z.eqb_neq c 10)), (proj2 (Z.eqb_neq c 0)) by lia.
Qed.

Lemma collect_spec fs :
  Forall hosted fs → total fs < 2 ^ 60 →
  collect true (length fs) (listing fs) = Ok (info_of <$> fs).
Proof.
  intros Hf Ht. induction Hf as [|f fs [Hp Hl Hn Hs _] Hf IH]; [done|].
  rewrite total_cons in Ht. pose proof (total_nonneg fs).
  assert (E : listing (f :: fs) = f.1 ++ 10 :: listing fs).
  { unfold listing. cbn [fmap list_fmap concat]. by rewrite <-app_assoc. }
  cbn [length collect]. rewrite decide_False by (rewrite E; by destruct f.1).
  rewrite E, (fgets_line 511 f.1) by (done || lia). cbn [negb].
  rewrite path_until, Hs, IH by (done || lia). cbn [mbind outcome_bind].
  by rewrite u64_small by lia.
Qed.

Lemma write_files_eq fs out :
  Forall hosted fs → write_files (info_of <$> fs) out = (0, out ++ concat (snd <$> fs)).
Proof.
  intros Hf. revert out. induction Hf as [|f fs Hh Hf IH]; intros out; [by rewrite app_nil_r|].
  cbn [fmap list_fmap write_files i_path info_of concat]. by rewrite (ho_read _ Hh), IH, app_assoc.
Qed.

(** How many bytes of padding the tool asks for. *)
Definition padding (fs : list source) : Z :=
  if 0 <? total fs then table_end' (length fs) + up8 (total fs) - (16 + 84 * Z.of_nat (length fs)) else 0.
Definition front (fs : list source) : list Z :=
  header_bytes (info_of <$> fs) ++ table (info_of <$> fs) (table_end' (length fs)).

Lemma front_length fs : Z.of_nat (length (front fs)) = 16 + 84 * Z.of_nat (length fs).
Proof.
  unfold front, header_bytes. rewrite !length_app, !le_bytes_length, table_length, length_fmap. lia.
Qed.

Lemma padding_range fs : 0 <= padding fs.
Proof.
  unfold padding. destruct (Z.ltb_spec 0 (total fs)); [|done]. unfold table_end'.
  pose proof (up8_bounds (12 + 84 * Z.of_nat (length fs))). unfold up8 at 2.
  assert (1 <= (total fs + 7) / 8) by (apply Z.div_le_lower_bound; lia). lia.
Qed.

Lemma write_image_eq fs :
  Forall hosted fs → Z.of_nat (length fs) < 2 ^ 20 → total fs < 2 ^ 60 →
  write_image (info_of <$> fs) =
    pad ← write_padding (padding fs); Ok (0, (front fs ++ pad) ++ concat (snd <$> fs)).
Proof.
  intros Hf Hn Ht. pose proof (total_nonneg fs). pose proof (up8_bounds (12 + 84 * Z.of_nat (length fs))).
  pose proof (padding_range fs) as Hpad.
  unfold write_image. rewrite length_fmap, table_end_eq by done.
  rewrite write_entries_eq by (unfold table_end'; lia). fold (front fs). rewrite front_length.
  rewrite align8_up8 by (unfold table_end'; lia). unfold table_end'. rewrite up8_add. fold (table_end' (length fs)).
  unfold padding in *. destruct (Z.ltb_spec 0 (total fs)) as [Hp|Hz].
  - assert (1 <= (total fs + 7) / 8) by (apply Z.div_le_lower_bound; lia).
    rewrite (proj2 (Z.ltb_lt _ _)) by (unfold table_end', up8 in *; lia).
    destruct (write_padding _); [|done]. cbn. by rewrite write_files_eq.
  - assert (total fs = 0) as -> by lia. change (up8 0) with 0.
    change (write_padding 0) with (Ok (A := list Z) []). cbn [mbind outcome_bind].
    destruct (_ <? _) eqn:E; cbn; [|by rewrite write_files_eq, app_nil_r].
    apply Z.ltb_lt in E. unfold table_end', up8 in *. exfalso.
    pose proof (Z.div_mod (12 + 84 * Z.of_nat (length fs) + 7) 8).
    pose proof (Z.mod_pos_bound (12 + 84 * Z.of_nat (length fs) + 7) 8). lia.
Qed.

Lemma main_eq tool dir out fs :
  builds dir out fs →
  main [tool; dir; out] =
    pad ← write_padding (padding fs); Ok (0, Some ((front fs ++ pad) ++ concat (snd <$> fs))).
Proof.
  intros [Hs (printed & Hc & Hi) Hfind Hm Hcr Hf Hn Ht]. unfold main. rewrite Hc, Hi. cbn [default].
  rewrite (proj2 (Z.eqb_neq _ 0)) by (destruct fs; [done|simpl; lia]).
  cbn [from_option id]. rewrite Hm, Hfind, Nat2Z.id, collect_spec by done. cbn [mbind outcome_bind].
  rewrite Hcr, write_image_eq by done. cbn [negb]. by destruct (write_padding _).
Qed.

(** It fits the array only if the files are no longer than the array. *)
Lemma padding_fits fs : padding fs <= 8 ↔ total fs <= 8.
Proof.
  unfold padding. pose proof (total_nonneg fs). destruct (Z.ltb_spec 0 (total fs)); [|lia].
  unfold table_end', up8.
  pose proof (Z.div_mod (total fs + 7) 8). pose proof (Z.mod_pos_bound (total fs + 7) 8).
  pose proof (Z.div_mod (12 + 84 * Z.of_nat (length fs) + 7) 8).
  pose proof (Z.mod_pos_bound (12 + 84 * Z.of_nat (length fs) + 7) 8). lia.
Qed.

Lemma write_padding_ok n :
  0 <= n <= 8 → ∃ pad, write_padding n = Ok pad ∧ Z.of_nat (length pad) = n.
Proof.
  intros Hn. unfold write_padding. rewrite (proj2 (Z.leb_le _ _)) by lia.
  eexists. split; [done|]. rewrite length_replicate. lia.
Qed.
End runs.

(** The entry of a file, and the first entry with its name. *)
Lemma recorded_lookup fs o i f :
  fs !! i = Some f → ∃ off, recorded fs o !! i = Some (mk_file (take 63 (base_name f.1)) off (Z.of_nat (length f.2))).
Proof.
  revert o i. induction fs as [|x fs IH]; intros o [|i] Hi; try done.
  - injection Hi as ->. by eexists.
  - apply (IH _ i Hi).
Qed.

Lemma recorded_lookup_inv fs o i g :
  recorded fs o !! i = Some g → ∃ f, fs !! i = Some f ∧ f_name g = take 63 (base_name f.1).
Proof.
  intros Hg. destruct (lookup_lt_is_Some_2 fs i) as [f Hf].
  { rewrite <-(recorded_length fs o). by eapply lookup_lt_Some. }
  destruct (recorded_lookup fs o i f Hf) as [off Hg']. exists f. by simplify_eq.
Qed.

Lemma recorded_first fs o i f :
  fs !! i = Some f →
  (∀ j g, (j < i)%nat → fs !! j = Some g → take 63 (base_name g.1) ≠ take 63 (base_name f.1)) →
  first_from (λ g, bool_decide (f_name g = take 63 (base_name f.1))) (recorded fs o) 0 = Some i.
Proof.
  intros Hi Hfirst. apply first_from_Some. rewrite Nat.sub_0_r. split_and!; [lia| |].
  - destruct (recorded_lookup fs o i f Hi) as [off Hg]. eexists. split; [exact Hg|].
    by apply bool_decide_eq_true.
  - intros j g Hj Hg. apply bool_decide_eq_false.
    destruct (recorded_lookup_inv fs o j g Hg) as (f' & Hf' & ->). by apply (Hfirst j).
Qed.

(** ** Properties *)

(** The image is one that [Ramdisk] accepts. *)
Lemma front_image m base fs rest :
  Forall (λ f : source, plain_name f.1) fs → Z.of_nat (length fs) < 2 ^ 20 → total fs < 2 ^ 60 →
  0 < base → loaded m base (front fs ++ rest) →
  image_at m base (recorded fs (table_end' (length fs))) ∧
  loaded m (base + (16 + 84 * Z.of_nat (length fs))) rest.
Proof.
  intros Hp Hn Ht Hb Hl. apply loaded_app in Hl as [Hl Hr]. rewrite front_length in Hr.
  split; [|exact Hr]. pose proof (up8_bounds (12 + 84 * Z.of_nat (length fs))).
  unfold front, header_bytes in Hl. rewrite <-!app_assoc in Hl.
  apply loaded_app in Hl as [Hm Hl]. apply loaded_app in Hl as [Hc Hl]. apply loaded_app in Hl as [_ Hl].
  rewrite !le_bytes_length in *. apply loaded_le in Hm, Hc. rewrite length_fmap in Hc.
  split.
  - exact Hb.
  - exact Hm.
  - unfold hdr_file_count, load32. change (base + 4) with (base + Z.of_nat 4). rewrite Hc, recorded_length.
    apply Z.mod_small. lia.
  - intros i f Hf. replace (base + HEADER_SIZE) with (base + Z.of_nat 4 + Z.of_nat 4 + Z.of_nat 8)
      by (unfold HEADER_SIZE; lia).
    apply (loaded_table m _ fs (table_end' (length fs))); unfold table_end' in *; done || lia.
Qed.

(** C18: what the builder makes of a directory, and what the kernel finds in
    it.  When the files have more than eight bytes in all, the tool reads
    more than the eight bytes of its padding array, and its behaviour is
    undefined.  Otherwise it exits with 0, and in the image, loaded at [base],
    the kernel finds under every base name (cut to 63 bytes) the first file
    with that name, and its size.  But the padding is computed from the
    offset behind the last file and not from the offset of the first one:
    the contents do not lie where the entry says, they lie further back, by
    the total size of the files rounded up to a multiple of eight. *)
Theorem mkramdisk_shifts_contents `{Host} tool dir out fs :
  builds dir out fs →
  (8 < total fs → main [tool; dir; out] = Fault OutOfBounds) ∧
  (total fs <= 8 →
   ∃ img, main [tool; dir; out] = Ok (0, Some img) ∧
     ∀ m base rd i f, 0 < base < 2 ^ 62 → loaded m base img → fs !! i = Some f →
       (∀ j g, (j < i)%nat → fs !! j = Some g → take 63 (base_name g.1) ≠ take 63 (base_name f.1)) →
       ∃ p, ramdisk_load_file m (take 63 (base_name f.1)) (ramdisk_init m base rd) =
              (0, Some p, Some (Z.of_nat (length f.2))) ∧
            bytes_at m (p + up8 (total fs)) (length f.2) = f.2).
Proof.
  intros Hb. pose proof Hb as [_ _ _ _ _ Hf Hn Ht]. rewrite (main_eq tool dir out fs Hb). split.
  { intros Hover. unfold write_padding. rewrite (proj2 (Z.leb_gt _ _)); [done|].
    pose proof (proj1 (padding_fits fs)). lia. }
  intros Hfit%padding_fits. pose proof (padding_range fs) as Hpad0.
  destruct (write_padding_ok (padding fs)) as (pad & -> & Hpad); [lia|].
  eexists. split; [done|]. intros m base rd i f Hbase Hl Hi Hfirst. rewrite <-app_assoc in Hl.
  assert (Hplain : Forall (λ f : source, plain_name f.1) fs).
  { eapply Forall_impl; [exact Hf|]. intros x. apply ho_path. }
  destruct (front_image m base fs _ Hplain Hn Ht (proj1 Hbase) Hl) as [Himg Hrest].
  apply loaded_app in Hrest as [_ Hdata]. rewrite Hpad in Hdata.
  destruct (recorded_lookup fs (table_end' (length fs)) i f Hi) as [off Hg].
  pose proof (recorded_bounds fs _ i _ Hg) as Hgb. cbn [f_offset f_size] in Hgb.
  pose proof (up8_bounds (12 + 84 * Z.of_nat (length fs))) as Ho. fold (table_end' (length fs)) in Ho.
  exists (base + off). split.
  - assert (Hname : plain_name (take 63 (base_name f.1))).
    { apply Forall_take, base_name_plain. rewrite Forall_lookup in Hplain. by apply (Hplain i). }
    assert (Hends : Forall (λ g, base + f_offset g < 2 ^ 64) (recorded fs (table_end' (length fs)))).
    { apply Forall_lookup. intros j x Hx. pose proof (recorded_bounds fs _ j _ Hx) as Hxb.
      destruct (recorded_lookup_inv fs _ j x Hx) as (f' & Hf' & _).
      destruct (recorded_lookup fs (table_end' (length fs)) j f' Hf') as [off' Hx'].
      rewrite Hx in Hx'. injection Hx' as ->. cbn [f_offset f_size] in *. lia. }
    rewrite (load_image m base _ _ rd Hname Himg Hends).
    by rewrite (recorded_first fs _ i f Hi Hfirst), Hg.
  - destruct (decide (length f.2 = 0%nat)) as [Hz|Hz].
    { rewrite Hz. by destruct f.2. }
    rewrite <-(loaded_contents m _ fs _ i f _ Hdata Hi Hg) at 2. f_equal. cbn [f_offset].
    unfold padding. rewrite (proj2 (Z.ltb_lt _ _)) by lia. lia.
Qed.

(** A host with the directory [d], which holds the file [a] with these
    bytes. *)
Definition demo_dir : list Z := bytes "d".
Definition demo_host (contents : list Z) : Host := {|
  popen cmd := if decide (cmd = count_command demo_dir) then Some (bytes "1" ++ [10])
               else if decide (cmd = find_command demo_dir) then Some (bytes "d/a" ++ [10]) else None;
  malloc_ok _ := true;
  stat_size path := if decide (path = bytes "d/a") then Some (Z.of_nat (length contents)) else None;
  read_file path := if decide (path = bytes "d/a") then Some contents else None;
  can_create _ := true
|}.

Lemma demo_builds contents :
  Z.of_nat (length contents) < 2 ^ 32 →
  @builds (demo_host contents) demo_dir (bytes "out") [(bytes "d/a", contents)].
Proof.
  intros Hc. split.
  - discriminate.
  - exists (bytes "1" ++ [10]). split; [cbn [popen demo_host]; by rewrite decide_True|].
    vm_compute. reflexivity.
  - cbn [popen demo_host]. rewrite decide_False; [by rewrite decide_True|].
    apply (bool_decide_unpack _). vm_compute. exact I.
  - reflexivity.
  - reflexivity.
  - constructor; [|constructor]. split.
    + apply (bool_decide_unpack _). vm_compute. exact I.
    + apply (bool_decide_unpack _). vm_compute. exact I.
    + simpl. lia.
    + cbn [stat_size demo_host fst snd]. by rewrite decide_True.
    + cbn [read_file demo_host fst snd]. by rewrite decide_True.
  - simpl. lia.
  - rewrite total_cons. change (total []) with 0. cbn [snd]. lia.
Qed.

(** A file of three bytes, and one of nine. *)
Lemma mkramdisk_shifts_contents_witness :
  (∃ img, @main (demo_host [7; 8; 9]) [[]; demo_dir; bytes "out"] = Ok (0, Some img) ∧
    ∀ m, loaded m 4096 img → ∃ p,
      ramdisk_load_file m (bytes "a") (ramdisk_init m 4096 ramdisk0) = (0, Some p, Some 3) ∧
      bytes_at m (p + 8) 3 = [7; 8; 9]) ∧
  @main (demo_host (replicate 9 1)) [[]; demo_dir; bytes "out"] = Fault OutOfBounds.
Proof.
  split.
  - destruct (@mkramdisk_shifts_contents (demo_host [7; 8; 9]) [] demo_dir (bytes "out")
      [(bytes "d/a", [7; 8; 9])]) as [_ Hok]; [apply demo_builds; simpl; lia|].
    destruct Hok as (img & E & Hm); [vm_compute; discriminate|].
    exists img. split; [exact E|]. intros m Hl.
    destruct (Hm m 4096 ramdisk0 0%nat (bytes "d/a", [7; 8; 9])) as (p & E1 & E2).
    + lia.
    + exact Hl.
    + reflexivity.
    + intros j g Hj. lia.
    + exists p. split; [exact E1|exact E2].
  - apply (@mkramdisk_shifts_contents (demo_host (replicate 9 1)) [] demo_dir (bytes "out")
      [(bytes "d/a", replicate 9 1)]); [apply demo_builds; simpl; lia|vm_compute; reflexivity].
Defined.
