(* ===== verification/Syscall.v ===== *)
(** * System call entry ([kernel/src/syscall.c], [kernel/include/syscall.h])

    The numbers of the calls and the dispatcher.  No assembly of the
    repository leads from the [syscall] instruction to it. *)

From S2P Require Import Prelude.

Definition SYS_IPC_SEND : Z := 1.
Definition SYS_IPC_RECV : Z := 2.
Definition SYS_TASK_YIELD : Z := 3.

(** [long syscall_dispatch(uint64_t nr, uint64_t a0, uint64_t a1, uint64_t a2)] *)
Definition syscall_dispatch (nr a0 a1 a2 : Z) : Z :=
  if (nr =? SYS_IPC_SEND) || (nr =? SYS_IPC_RECV) || (nr =? SYS_TASK_YIELD) then -1 else -1.
