(* ===== verification/Init.v ===== *)
(** * Init server ([servers/init/init.c])

    The program as a function on its state: the calls it made so far, its
    endpoint variables and the kernel behind the [syscall] instruction, which
    is an interface.  Strings are arrays of bytes that hold their final zero;
    an access outside of an array, or a read of a byte that was never
    written, is a [Fault].  The last loop of [_start] only halts, so that the
    state in front of it is what the program leaves behind. *)

From Stdlib Require Import String.
From S2P Require Import Prelude Syscall Cstring Console Proc.

Definition IPC_SEND : Z := 0.
Definition IPC_RECV : Z := 1.
Definition IPC_REPLY : Z := 2.
Definition INIT_MSG_DATA : nat := 256.

(** [aegis_msg_t] *)
Record init_msg : Type := mk_imsg {
  im_type : Z; im_sender : Z; im_arg0 : Z; im_arg1 : Z; im_arg2 : Z; im_arg3 : Z; im_data : list Z
}.
Definition init_msg0 : init_msg := mk_imsg 0 0 0 0 0 0 (replicate INIT_MSG_DATA 0).

(** The argument of a call: a number, the address of one of the three
    endpoint variables, or the address of a message. *)
Inductive sys_arg : Type :=
  | Num (z : Z)
  | Endpoint_var (slot : nat)
  | Message (m : init_msg).

(** The kernel behind the instruction: from the number in [rax] and the
    arguments, the new [rax] and what is stored through an endpoint pointer. *)
Class SyscallEntry (K : Type) : Type :=
  enter : Z → sys_arg → sys_arg → sys_arg → sys_arg → K → Z * option Z * K.

Record call : Type := mk_call { c_num : Z; c_args : list sys_arg; c_result : Z }.

Record init (K : Type) : Type := mk_init {
  i_kernel : K;
  i_calls : list call;
  i_endpoints : list Z
}.
Arguments mk_init {K} _ _ _.
Arguments i_kernel {K} _.
Arguments i_calls {K} _.
Arguments i_endpoints {K} _.

(** [(int)ret] *)
Definition to_int (z : Z) : Z := if u32 z <? 2 ^ 31 then u32 z else u32 z - 2 ^ 32.

Section init.
Context {K : Type} `{SyscallEntry K}.
#[local] Abbreviation init := (init K).

Definition syscall (num : Z) (arg0 arg1 arg2 arg3 : sys_arg) (st : init) : Z * init :=
  let '((ret, stored), k) := enter num arg0 arg1 arg2 arg3 st.(i_kernel) in
  let eps := match arg0, stored with
             | Endpoint_var slot, Some v => <[slot := u64 v]> st.(i_endpoints)
             | _, _ => st.(i_endpoints)
             end in
  (to_int ret,
   mk_init k (st.(i_calls) ++ [mk_call num [arg0; arg1; arg2; arg3] (to_int ret)]) eps).

Definition ipc_endpoint_create (slot : nat) (st : init) : Z * init :=
  syscall 0 (Endpoint_var slot) (Num 0) (Num 0) (Num 0) st.
Definition ipc_send (endpoint : Z) (msg : init_msg) (st : init) : Z * init :=
  syscall 1 (Num endpoint) (Message msg) (Num 0) (Num 0) st.

(** [for (int i = 0; s[i] && i < 256; i++) msg.data[i] = s[i];] *)
Fixpoint copy_text (s : list Z) (i : nat) (data : list Z) : outcome (list Z) :=
  match s with
  | [] => Fault OutOfBounds
  | c :: s' =>
      if c =? 0 then Ok data else
      if decide (i < 256)%nat then copy_text s' (S i) (<[i := c]> data) else Ok data
  end.

Definition console_write (s : list Z) (st : init) : outcome init :=
  data ← copy_text s 0 init_msg0.(im_data);
  Ok (ipc_send 1 (mk_imsg 1 0 0 0 0 0 data) st).2.

(** The loop of [console_write_hex] over [char buf[18]]. *)
Fixpoint hex_loop (i : nat) (val : Z) (buf : list (option Z)) : outcome (list (option Z)) :=
  match i with
  | O => Ok buf
  | S i' =>
      if decide (18 - i' < 18)%nat
      then hex_loop i' (Z.shiftr val 4) (<[(18 - i')%nat := Some (hex_char (val .& 15))]> buf)
      else Fault OutOfBounds
  end.

Definition console_write_hex (val : Z) (st : init) : outcome init :=
  let buf := <[1%nat := Some 120]> (<[0%nat := Some 48]> (replicate 18 None)) in
  buf ← hex_loop 16 val buf;
  s ← defined_bytes buf;
  console_write s st.

(** A sequence of writes. *)
Fixpoint console_writes (ss : list (list Z)) (st : init) : outcome init :=
  match ss with
  | [] => Ok st
  | s :: ss' => st' ← console_write s st; console_writes ss' st'
  end.

Definition banner_lines : list (list Z) :=
  ((λ s, bytes s ++ [10; 0]) <$>
    [""; "  ___                    _            ";
     " / _ \                  (_)           ";
     "| __/_   _ ___  ___  ___ _  __ _ _ __ ";
     "| _|| | | / __|/ _ \/ __| |/ _` | '__|";
     "| | | |_| \__ \  __/\__ \ | (_| | |   ";
     "|_|  \__, |___/\___||___/_|\__, |_|   ";
     "      __/ |                 __/ |      ";
     "     |___/                 |___/       ";
     ""]%string) ++
  [bytes "Aegis init server v0.1" ++ [10; 10; 0]].

Definition banner (st : init) : outcome init := console_writes banner_lines st.

(** [void spawn_server(const char *name, uint64_t endpoint)] *)
Definition spawn_server (name : list Z) (endpoint : Z) (st : init) : outcome init :=
  st1 ← console_write (lit "[init] spawning server: ") st;
  st2 ← console_write name st1;
  console_write (nl ++ [0]) st2.

(** The variable [slot] of [console_ep], [proc_ep] and [vfs_ep]. *)
Definition ep_var (slot : nat) (st : init) : Z := st.(i_endpoints) !!! slot.

Definition start (st : init) : outcome init :=
  st1 ← banner st;
  let st2 := mk_init st1.(i_kernel) st1.(i_calls) [0; 0; 0] in
  let st3 := (ipc_endpoint_create 0 st2).2 in
  let st4 := (ipc_endpoint_create 1 st3).2 in
  let st5 := (ipc_endpoint_create 2 st4).2 in
  st6 ← console_write (bytes "[init] endpoints created" ++ [10; 0]) st5;
  st7 ← spawn_server (lit "console") (ep_var 0 st6) st6;
  st8 ← spawn_server (lit "proc") (ep_var 1 st7) st7;
  st9 ← spawn_server (lit "vfs") (ep_var 2 st8) st8;
  console_write (bytes "[init] init server running" ++ [10; 0]) st9.
End init.

(** A kernel that hands every call to [syscall_dispatch]; the arguments of
    the calls of this program are pointers and zeros, of which the dispatcher
    uses none. *)
#[export] Instance dispatch_entry : SyscallEntry unit := λ nr _ _ _ _ k,
  ((u64 (syscall_dispatch nr 0 0 0), None), k).

(** ** Lemmas *)

(** The message that [console_write] sends for the string [s]. *)
Definition text_msg (s : list Z) : init_msg :=
  let t := take 256 (cstr s) in mk_imsg 1 0 0 0 0 0 (t ++ replicate (256 - length t) 0).

Lemma copy_text_spec s i data :
  0 ∈ s → (i <= 256)%nat → length data = 256%nat →
  let t := take (256 - i) (cstr s) in
  copy_text s i data = Ok (take i data ++ t ++ drop (i + length t) data).
Proof.
  revert i data. induction s as [|c s IH]; intros i data Hs Hi Hd t; [by apply elem_of_nil in Hs|].
  unfold t. cbn [copy_text cstr]. destruct (Z.eqb_spec c 0) as [->|Hc].
  { rewrite take_nil. cbn [length app]. by rewrite Nat.add_0_r, take_drop. }
  destruct (decide (i < 256)%nat) as [Hlt|Hge].
  - apply elem_of_cons in Hs as [?|Hs]; [done|].
    rewrite IH by (done || lia || by rewrite length_insert). f_equal.
    replace (256 - i)%nat with (S (256 - S i)) by lia. cbn [firstn length app].
    rewrite (take_S_r _ i c) by (apply list_lookup_insert_eq; lia).
    rewrite take_insert_ge by lia. rewrite drop_insert_lt by lia.
    rewrite <-app_assoc. cbn [app]. do 4 f_equal. lia.
  - replace (256 - i)%nat with 0%nat by lia. cbn [firstn app length].
    by rewrite Nat.add_0_r, take_drop.
Qed.

Section runs.
Context {K : Type} `{SyscallEntry K}.
Implicit Types st : init K.

(** The call without its result. *)
Definition asked (c : call) : Z * list sys_arg := (c_num c, c_args c).

(** No call succeeds and none stores anything. *)
Definition rejects : Prop := ∀ n a b c d (k : K), ∃ k', enter n a b c d k = ((2 ^ 64 - 1, None), k').

(** From [st] to [st'] the calls [ws] were made; a kernel that rejects every
    call left the endpoint variables alone. *)
Definition emits (ws : list (Z * list sys_arg)) (st st' : init K) : Prop :=
  ∃ cs, i_calls st' = i_calls st ++ cs ∧ asked <$> cs = ws ∧
    (rejects → Forall (λ c, c_result c = -1) cs ∧ i_endpoints st' = i_endpoints st).

Lemma emits_trans ws1 ws2 st1 st2 st3 : emits ws1 st1 st2 → emits ws2 st2 st3 → emits (ws1 ++ ws2) st1 st3.
Proof.
  intros (cs1 & E1 & <- & R1) (cs2 & E2 & <- & R2). exists (cs1 ++ cs2). split_and!.
  - by rewrite E2, E1, app_assoc.
  - apply fmap_app.
  - intros R. destruct (R1 R) as [F1 G1], (R2 R) as [F2 G2].
    split; [by apply Forall_app|by rewrite G2].
Qed.

Lemma syscall_emits n a b c d st : emits [(n, [a; b; c; d])] st (syscall n a b c d st).2.
Proof.
  unfold syscall. destruct (enter n a b c d (i_kernel st)) as [[ret stored] k] eqn:E.
  eexists [_]. split_and!; [done|done|]. intros R.
  destruct (R n a b c d (i_kernel st)) as [k' E']. rewrite E in E'. injection E' as -> -> ->.
  split; [by repeat constructor|]. by destruct a.
Qed.

Definition write_call (s : list Z) : Z * list sys_arg := (1, [Num 1; Message (text_msg s); Num 0; Num 0]).

Lemma write_emits s st : 0 ∈ s → ∃ st', console_write s st = Ok st' ∧ emits [write_call s] st st'.
Proof.
  intros Hs. unfold console_write. rewrite copy_text_spec by (done || lia). cbn [mbind outcome_bind].
  eexists. split; [done|]. unfold ipc_send. cbn [im_data init_msg0].
  rewrite Nat.sub_0_r, Nat.add_0_l, drop_replicate. apply syscall_emits.
Qed.

Lemma writes_emit ss st :
  Forall (λ s, 0 ∈ s) ss → ∃ st', console_writes ss st = Ok st' ∧ emits (write_call <$> ss) st st'.
Proof.
  intros Hs. revert st. induction Hs as [|s ss Hs _ IH]; intros st.
  { exists st. split; [done|]. exists []. split_and!; [by rewrite app_nil_r|done|by split]. }
  destruct (write_emits s st Hs) as (st1 & E1 & M1). destruct (IH st1) as (st2 & E2 & M2).
  exists st2. cbn [console_writes]. rewrite E1. split; [exact E2|].
  by apply (emits_trans [write_call s] _ _ st1).
Qed.

Lemma spawn_emits name ep st :
  0 ∈ name → ∃ st', spawn_server name ep st = Ok st' ∧
    emits (write_call <$> [lit "[init] spawning server: "; name; nl ++ [0]]) st st'.
Proof.
  intros Hn. destruct (writes_emit [lit "[init] spawning server: "; name; nl ++ [0]] st) as (st' & E & M).
  { by repeat (apply Forall_cons; split; [first [apply terminated_lit|apply terminated_nl|exact Hn]|]). }
  exists st'. split; [|exact M]. rewrite <-E. unfold spawn_server. cbn [console_writes].
  destruct (console_write _ st) as [st1|]; [|done]. cbn [mbind outcome_bind].
  destruct (console_write _ st1) as [st2|]; [|done]. cbn [mbind outcome_bind].
  by destruct (console_write _ st2).
Qed.

(** What the program prints, and the calls it makes. *)
Definition spawn_texts : list (list Z) :=
  mjoin ((λ name, [lit "[init] spawning server: "; name; nl ++ [0]]) <$>
         [lit "console"; lit "proc"; lit "vfs"]).
Definition create_call (slot : nat) : Z * list sys_arg := (0, [Endpoint_var slot; Num 0; Num 0; Num 0]).
Definition later_calls : list (Z * list sys_arg) :=
  [create_call 0; create_call 1; create_call 2] ++
  (write_call <$> [bytes "[init] endpoints created" ++ [10; 0]]) ++ (write_call <$> spawn_texts) ++
  (write_call <$> [bytes "[init] init server running" ++ [10; 0]]).
Definition start_calls : list (Z * list sys_arg) := (write_call <$> banner_lines) ++ later_calls.

(** The program up to the banner, and from there on. *)
Lemma start_emits st :
  ∃ st1 st', start st = Ok st' ∧ emits (write_call <$> banner_lines) st st1 ∧
    emits later_calls (mk_init (i_kernel st1) (i_calls st1) [0; 0; 0]) st'.
Proof.
  assert (Hlit : ∀ (x : list Z), 0 ∈ x ++ [10; 0]).
  { intros x. apply elem_of_app. right. right. by left. }
  destruct (writes_emit banner_lines st) as (st1 & E1 & M1).
  { unfold banner_lines. apply Forall_app. split; [apply Forall_fmap, Forall_forall; intros x _; apply Hlit|].
    constructor; [|done]. apply elem_of_app. right. right. right. by left. }
  set (st2 := mk_init (i_kernel st1) (i_calls st1) [0; 0; 0]).
  pose proof (syscall_emits 0 (Endpoint_var 0) (Num 0) (Num 0) (Num 0) st2) as M3.
  set (st3 := (syscall _ _ _ _ _ st2).2) in *.
  pose proof (syscall_emits 0 (Endpoint_var 1) (Num 0) (Num 0) (Num 0) st3) as M4.
  set (st4 := (syscall _ _ _ _ _ st3).2) in *.
  pose proof (syscall_emits 0 (Endpoint_var 2) (Num 0) (Num 0) (Num 0) st4) as M5.
  set (st5 := (syscall _ _ _ _ _ st4).2) in *.
  destruct (write_emits (bytes "[init] endpoints created" ++ [10; 0]) st5 (Hlit _)) as (st6 & E6 & M6).
  destruct (spawn_emits (lit "console") (ep_var 0 st6) st6 (terminated_lit _)) as (st7 & E7 & M7).
  destruct (spawn_emits (lit "proc") (ep_var 1 st7) st7 (terminated_lit _)) as (st8 & E8 & M8).
  destruct (spawn_emits (lit "vfs") (ep_var 2 st8) st8 (terminated_lit _)) as (st9 & E9 & M9).
  destruct (write_emits (bytes "[init] init server running" ++ [10; 0]) st9 (Hlit _)) as (st' & E' & M').
  exists st1, st'. split_and!; [|exact M1|].
  - unfold start, banner. rewrite E1. cbn [mbind outcome_bind]. fold st2.
    unfold ipc_endpoint_create. fold st3. fold st4. fold st5.
    rewrite E6. cbn [mbind outcome_bind]. rewrite E7. cbn [mbind outcome_bind].
    rewrite E8. cbn [mbind outcome_bind]. rewrite E9. exact E'.
  - pose proof (emits_trans _ _ _ _ _ M7 (emits_trans _ _ _ _ _ M8 M9)) as M79.
    pose proof (emits_trans _ _ _ _ _ M3 (emits_trans _ _ _ _ _ M4 M5)) as M35.
    exact (emits_trans _ _ _ _ _ M35 (emits_trans _ _ _ _ _ M6 (emits_trans _ _ _ _ _ M79 M'))).
Qed.
End runs.

(** ** Properties *)

(** Lines of text. *)
Definition text_lines (l : list string) : list Z := mjoin ((λ s, bytes s ++ [10]) <$> l).

(** A message of type 1 to endpoint 1, with zero arguments. *)
Definition message (data : list Z) : Z * list sys_arg :=
  (1, [Num 1; Message (mk_imsg 1 0 0 0 0 0 data); Num 0; Num 0]).

(** C23: all that the init server does.  Whatever the kernel answers, the
    program ends in its halting loop and has made exactly 25 calls: eleven
    messages with the banner, three requests to create an endpoint, and
    eleven messages that say, among other things, that the three servers are
    being spawned.  Every message goes to endpoint 1, has type 1, zero
    arguments and 256 bytes; the texts in front of the first zero bytes are
    the lines given here.  So no identifier of an endpoint that was created,
    and no path of a program, is ever sent to anyone. *)
Theorem init_start_transcript {K} `{SyscallEntry K} (st : init K) :
  ∃ st' cs ds1 ds2, start st = Ok st' ∧ i_calls st' = i_calls st ++ cs ∧
    asked <$> cs = (message <$> ds1) ++
      [(0, [Endpoint_var 0; Num 0; Num 0; Num 0]); (0, [Endpoint_var 1; Num 0; Num 0; Num 0]);
       (0, [Endpoint_var 2; Num 0; Num 0; Num 0])] ++ (message <$> ds2) ∧
    length ds1 = 11%nat ∧ length ds2 = 11%nat ∧
    Forall (λ d, length d = 256%nat) (ds1 ++ ds2) ∧
    mjoin (cstr <$> ds1) = text_lines
      [""; "  ___                    _            ";
       " / _ \                  (_)           ";
       "| __/_   _ ___  ___  ___ _  __ _ _ __ ";
       "| _|| | | / __|/ _ \/ __| |/ _` | '__|";
       "| | | |_| \__ \  __/\__ \ | (_| | |   ";
       "|_|  \__, |___/\___||___/_|\__, |_|   ";
       "      __/ |                 __/ |      ";
       "     |___/                 |___/       ";
       ""; "Aegis init server v0.1"; ""]%string ∧
    mjoin (cstr <$> ds2) = text_lines
      ["[init] endpoints created"; "[init] spawning server: console";
       "[init] spawning server: proc"; "[init] spawning server: vfs";
       "[init] init server running"]%string.
Proof.
  destruct (start_emits st) as (st1 & st' & E & (cs1 & C1 & A1 & _) & (cs2 & C2 & A2 & _)).
  set (later := [bytes "[init] endpoints created" ++ [10; 0]] ++ spawn_texts ++
                [bytes "[init] init server running" ++ [10; 0]]).
  exists st', (cs1 ++ cs2), (im_data ∘ text_msg <$> banner_lines), (im_data ∘ text_msg <$> later).
  split_and!.
  - exact E.
  - rewrite C2. cbn [i_calls]. by rewrite C1, app_assoc.
  - rewrite fmap_app, A1, A2. unfold later_calls, later, create_call.
    rewrite !fmap_app, <-!list_fmap_compose. reflexivity.
  - reflexivity.
  - reflexivity.
  - rewrite <-fmap_app. apply Forall_fmap, Forall_forall. intros s _. simpl.
    rewrite length_app, length_replicate, length_take. lia.
  - vm_compute. reflexivity.
  - vm_compute. reflexivity.
Qed.

(** The system call entry of the kernel rejects every call, so that the
    program runs to its end without an endpoint and without a reader. *)
Lemma init_start_rejected {K} `{SyscallEntry K} (st : init K) :
  rejects (K := K) →
  ∃ st' cs, start st = Ok st' ∧ i_calls st' = i_calls st ++ cs ∧ asked <$> cs = start_calls ∧
    Forall (λ c, c_result c = -1) cs ∧ i_endpoints st' = [0; 0; 0].
Proof.
  intros R. destruct (start_emits st) as (st1 & st' & E & (cs1 & C1 & A1 & R1) & (cs2 & C2 & A2 & R2)).
  destruct (R1 R) as [F1 _], (R2 R) as [F2 G2]. exists st', (cs1 ++ cs2). split_and!.
  - exact E.
  - rewrite C2. cbn [i_calls]. by rewrite C1, app_assoc.
  - by rewrite fmap_app, A1, A2.
  - by apply Forall_app.
  - exact G2.
Qed.

Lemma dispatch_rejects : rejects (K := unit).
Proof.
  intros n a b c d k. exists k. unfold enter, dispatch_entry, syscall_dispatch.
  destruct (_ || _ || _); reflexivity.
Qed.

(** [console_write_hex] always leaves its buffer: the sixteen digits go
    to the indices 3 to 18 of an array of 18 bytes. *)
Theorem init_write_hex_overruns {K} `{SyscallEntry K} val (st : init K) :
  console_write_hex val st = Fault OutOfBounds.
Proof. reflexivity. Qed.
